(* ===== verification/_CoqProject ===== *)
-Q . S2P
Prelude.v
CString.v
RefCount.v
Protocol.v
Buffer.v
Tls.v
Http.v
Address.v
Resolv.v
Backend.v
Table.v
Listener.v
Logger.v
ListenerReload.v
Binder.v
BadRequest.v
Connection.v
Connections.v
Relay.v
Forward.v
Drain.v
CfgTokenizer.v
CfgParser.v
Config.v
ConfigOk.v
ConnectionsOk.v
Sniproxy.v
SniproxyOk.v
