(* ===== verification/Prelude.v ===== *)
(** * Verification of sniproxy

    sniproxy is a proxy that reads the host name out of the first bytes a client sends (the
    server name of a TLS client hello, or the Host header of an HTTP request), chooses a
    server for that name from a table of patterns, and then relays bytes in both
    directions.  This library models the C sources under src/src/ and proves what they do,
    from the ring buffer up to the whole program with its event loop.

    ** The program and the files that model it

    Shared vocabulary:
    - Prelude.v: a C computation is an [outcome], a value or a [fault] (access out of bounds,
      failed assertion, NULL dereference, use after free, ...); [size_t] arithmetic wraps at
      64 bits; memory blocks are lists of bytes read by [load] and [load_range] and written
      by [store_range]; strings, tactics, hint databases.
    - CString.v: what the sources use of <string.h>, <stdlib.h> and <stdio.h>.
    - RefCount.v: stores of reference-counted objects ([counted]: the count of an object is the
      number of references to it) and the state monad [ST] of the operations on them.

    The path of a request:
    - Buffer.v: buffer.c, the ring buffer of a connection.
    - Protocol.v: struct Protocol of protocol.h, through which connection.c reaches the two
      parsers; the class [ParserOk] is what it relies on, with an instance per parser.
    - Tls.v: tls.c, the parser of the client hello.
    - Http.v: http.c, the parser of the Host header.
    - Address.v: address.c, host names, socket addresses, wildcards and patterns.
    - Resolv.v: resolv.c, starting the resolver, queries and the choice among their answers.
    - Backend.v: backend.c, the entries of a table; libpcre is a parameter.
    - Table.v: table.c, named tables in a store of reference-counted objects.
    - Listener.v: listener.c, the options of a listener, the list of listeners, and
      [listener_lookup_server_address], the choice of a server for a name.
    - BadRequest.v: [log_bad_request] of connection.c and its computed block.
    - Connection.v: connection.c, the handlers of one connection over a state and error monad,
      with the trace of what it receives, sends, binds, connects, closes and logs.
    - Connections.v: connection.c, the queue of all connections, the reference each holds on its
      listener, the messages and the access log line, freeing, and the listing
      ([print_connections]).

    Around it:
    - Logger.v: logger.c, loggers and the sinks they share, both counted.
    - ListenerReload.v: listener.c, sockets and watchers of listeners, what is said about them,
      their reference counts and [listeners_reload], over the stores of listeners, tables and
      loggers ([world]).
    - Binder.v: binder.c, the privileged process that binds sockets, both of its sides.
    - CfgTokenizer.v and CfgParser.v: cfg_tokenizer.c and cfg_parser.c, which read the
      configuration file; the callbacks of the grammar are arbitrary functions.
    - Config.v: config.c, the grammar with its callbacks, [init_config], [reload_config],
      [free_config] and the printing of a configuration.
    - Sniproxy.v: sniproxy.c, the options, the start, the signals, the events and the end.

    The proofs about files that hold only definitions:
    - Relay.v, Forward.v and Drain.v: the invariant of a connection and the theorems about its
      runs, the way of a request from its last byte to the server, and the progress of a
      connection when one side is closed.
    - ConfigOk.v: what reading, reloading and freeing a configuration keeps true.
    - ConnectionsOk.v: the invariant of all connections together and of every operation on them.
    - SniproxyOk.v: the invariant of the program and the theorems about its runs.

    A pointer that may be NULL is an [option], a pointer to a counted object is a [loc] into its
    store; a struct is a record, with the field names of the source where they do not clash; a
    system call or a library function outside the sources is a parameter or a field of an
    environment record (allocation, receive and send, sockets, libpcre, inet_pton and
    inet_ntop, libudns, the identity of the process).  What is assumed of such a parameter is
    a named hypothesis ([InetText], [env_ok], [callback_env], [event_ok], [sys_env_ok] ...), and
    each is shown to hold of a concrete instance by the witnesses at the end of the files.
    Times are in milliseconds.

    ** What the theorems show

    - Buffer: in every reachable state the buffer is a FIFO queue, no operation faults, and
      what [buffer_coalesce] does when the contents wrap around.
    - Tls and Http: each parser terminates inside its data and returns exactly the verdict
      of a declarative reading of the message (a grammar for TLS, a reading by lines for
      HTTP); a TLS hello that is built and parsed gives its name back, a prefix of one is
      incomplete.
    - Address: [new_address] is total on strings of bounded length, addresses print and
      parse back, [address_compare] is a total order.
    - Resolv: a query is answered exactly once, with the address its mode prefers.
    - Backend, Table, Listener: the first matching entry wins; a rewritten pattern never
      leaves its buffer; a reload installs the new tables under their names; which address a
      lookup returns, and that a socket address always comes from the configuration.
    - Relay and Drain: for every interleaving of callbacks and resolver answers no assertion of
      connection.c fails and no access is out of bounds; every byte received is sent on
      once and in order, behind the PROXY line if that is wanted; a half-closed connection is
      drained and then freed.
    - Forward: the request that is complete with the bytes read now is answered in the same
      callback by a connection to the first matching entry of the table and to nothing else,
      with the request, unchanged, ready to be sent.  The theorem puts the buffer, the parsers,
      the lookup in the table and the handlers together.
    - BadRequest: the message always fits in the block that was allocated for it.
    - Logger: in every reachable state the counts of loggers and sinks are exact and each sink
      is shared; what a message writes.
    - ListenerReload: a reload turns the running listeners into those of the new file, keeping
      the sockets of the addresses that stay; a failed start of a listener leaks no socket.
    - Binder: the address arrives as it was sent, and the socket comes back.
    - CfgTokenizer and CfgParser: the tokenizer returns the token the input starts with and
      stays in its buffer; the parser ends on every file, and parsing the text of a tree of
      directives is the same as running the callbacks along the tree.
    - ConfigOk: whatever the file contains, every callback gets an object of the type it is
      cast to, and the result is a well-formed configuration or nothing but a log; a reload
      keeps a running configuration sound; freeing gives back exactly its references.
    - SniproxyOk: the start ends with a status, by [exit], or in the event loop with everything
      in place and the privileges dropped, in the right order; from there every sequence of
      events, reloads under running connections included, keeps all stores consistent; the end
      releases every connection and listener.
    - Where the code can fail, the failure is a theorem too: an uncompiled pattern, the
      names "*" and "$..." under a wildcard, a query that cannot be started, a protocol that
      is given before the address of a listener, the descriptors that the binder loses, the
      address that a reload frees under a pending query.

    ** Bounds and fuel

    The loops of tls.c and http.c and the recursion of [new_address] run on fuel that the model
    computes from its input (the length of the block or of the string, plus one), and so
    do the loop of [parse_config] (the length of the file, plus one) and that of
    [listeners_reload] (the lengths of the two lists); the termination part of their
    theorems shows that the fuel is never used up.  The loop of the binder runs over the list
    of its turns, and the event loop is the relation [step].  All other loops are structural.
    Buffers are at most 2 ^ 62 bytes, the sizes malloc can return; the buffers of a
    connection have the 4096 bytes the source gives them.

    ** What is not modelled

    The warnings about lookups and directives of listener.c, the messages of table.c, tls.c,
    resolv.c and backend.c, and the usage text of the program; the messages of connection.c,
    config.c and sniproxy.c and those of listener.c about sockets and reloads are modelled.
    Freeing of plain memory (buffers, strings, backends) is not tracked; freeing of counted
    objects is, and so is that of the addresses a pending query points to.  The stubs of
    resolv.c for a build without libudns.

    The two processes of the binder are composed with each other in Binder.v; for the sockets of
    the listeners the result of that is a parameter ([lbinder]).

    The sources rely on libev to call only watchers that were started ([event_ok]).  A query that
    cannot be started is excluded there ([ce_query]); [failed_query_crashes] shows what it
    would do. *)

From stdpp Require Export base list numbers option sets strings tactics.

#[global] Open Scope Z_scope.

(** * Outcomes

    A C expression either yields a value or does something the language gives no
    meaning to (or that aborts the process).  [outcome] keeps both as values, so
    that "this code is memory safe" and "this assertion cannot fire" are ordinary
    equations. *)

Inductive fault : Type :=
  | OutOfBounds       (* access outside the object a pointer points into *)
  | AssertionFailed   (* an assert() of the source that does not hold *)
  | NullDereference   (* access through a NULL pointer *)
  | UseAfterFree      (* access through a pointer whose object was freed *)
  | BadCast           (* a pointer to an object of another type than its user expects *)
  | Exit              (* fatal(): the program ends *)
  | OutOfFuel.        (* the loop bound of the model was reached *)

Inductive outcome (A : Type) : Type :=
  | Ok (a : A)
  | Fault (f : fault).
Arguments Ok {A} a.
Arguments Fault {A} f.

#[global] Instance fault_eq_dec : EqDecision fault.
Proof. solve_decision. Defined.
#[global] Instance outcome_eq_dec `{EqDecision A} : EqDecision (outcome A).
Proof. solve_decision. Defined.

#[global] Instance outcome_ret : MRet outcome := @Ok.
#[global] Instance outcome_bind : MBind outcome := λ A B f m,
  match m with Ok a => f a | Fault e => Fault e end.
#[global] Instance outcome_fmap : FMap outcome := λ A B f m,
  match m with Ok a => Ok (f a) | Fault e => Fault e end.

(** [assert(b)] of the source. *)
Definition c_assert (b : bool) : outcome unit :=
  if b then Ok () else Fault AssertionFailed.

(** [p != NULL] for a pointer that is [None] when NULL. *)
Definition non_null {A} (p : option A) : bool := match p with Some _ => true | None => false end.

Lemma c_assert_true b : b = true → c_assert b = Ok ().
Proof. by intros ->. Qed.

(** The outcome is a value satisfying [P]: in particular it is not a fault. *)
Definition yields {A} (m : outcome A) (P : A → Prop) : Prop :=
  ∃ a, m = Ok a ∧ P a.

Lemma outcome_bind_Ok {A B} (m : outcome A) (f : A → outcome B) b :
  m ≫= f = Ok b ↔ ∃ a, m = Ok a ∧ f a = Ok b.
Proof. destruct m as [x|e]; split; [by exists x|by intros (? & [= ->] & ?)|done|by intros (? & [=] & ?)]. Qed.

Lemma yields_ret {A} (a : A) (P : A → Prop) : P a → yields (Ok a) P.
Proof. intros. by exists a. Qed.

Lemma yields_bind {A B} (m : outcome A) (f : A → outcome B) P Q :
  yields m P → (∀ a, P a → yields (f a) Q) → yields (m ≫= f) Q.
Proof. intros (a & -> & HP) Hf. exact (Hf a HP). Qed.

Lemma yields_mono {A} (m : outcome A) (P Q : A → Prop) :
  yields m P → (∀ a, P a → Q a) → yields m Q.
Proof. intros (a & -> & HP) H. exists a. auto. Qed.

(** * Machine integers

    [size_t] is 64 bits wide; [int] is 32 bits wide.  Values are kept in [Z] and
    wrapped where the source computes in those types. *)

Definition SIZE_MAX : Z := 2 ^ 64 - 1.
Definition size_t (z : Z) : Z := z mod 2 ^ 64.
Definition c_int (z : Z) : Z := (z + 2 ^ 31) mod 2 ^ 32 - 2 ^ 31.
Definition MIN (a b : Z) : Z := if a <? b then a else b.

Lemma size_t_small z : 0 ≤ z < 2 ^ 64 → size_t z = z.
Proof. apply Z.mod_small. Qed.

Lemma size_t_range z : 0 ≤ size_t z < 2 ^ 64.
Proof. apply Z.mod_pos_bound. lia. Qed.

Lemma size_t_idemp_add_l a b : size_t (size_t a + b) = size_t (a + b).
Proof. unfold size_t. by rewrite Z.add_mod_idemp_l. Qed.

Lemma size_t_idemp_add_r a b : size_t (a + size_t b) = size_t (a + b).
Proof. unfold size_t. by rewrite Z.add_mod_idemp_r. Qed.

Lemma size_t_idemp_sub_l a b : size_t (size_t a - b) = size_t (a - b).
Proof. unfold size_t. by rewrite Zminus_mod_idemp_l. Qed.

Lemma MIN_min a b : MIN a b = Z.min a b.
Proof. unfold MIN. destruct (Z.ltb_spec a b); lia. Qed.

Lemma c_int_small z : - 2 ^ 31 ≤ z < 2 ^ 31 → c_int z = z.
Proof. intros. unfold c_int. rewrite Z.mod_small; lia. Qed.

(** * Bytes and memory blocks

    A memory block is the list of its bytes, each a [Z] in [0, 256); a pointer
    into a block is an offset. *)

Definition is_byte (b : Z) : Prop := 0 ≤ b < 256.
Definition is_byteb (b : Z) : bool := (0 <=? b) && (b <? 256).

Lemma bytes_checked l : forallb is_byteb l = true → Forall is_byte l.
Proof.
  rewrite forallb_forall, List.Forall_forall. intros H b Hb. specialize (H b Hb).
  unfold is_byteb, is_byte in *. lia.
Qed.

Definition Zlen {A} (l : list A) : Z := Z.of_nat (length l).

Lemma Zlen_nonneg {A} (l : list A) : 0 ≤ Zlen l.
Proof. unfold Zlen. lia. Qed.
Lemma Zlen_nil {A} : Zlen (@nil A) = 0.
Proof. done. Qed.
Lemma Zlen_cons {A} (x : A) l : Zlen (x :: l) = 1 + Zlen l.
Proof. unfold Zlen. simpl. lia. Qed.
Lemma Zlen_app {A} (l k : list A) : Zlen (l ++ k) = Zlen l + Zlen k.
Proof. unfold Zlen. rewrite length_app. lia. Qed.

Lemma nonempty_Zlen {A} (l : list A) : l ≠ [] ↔ 0 < Zlen l.
Proof. destruct l; unfold Zlen; simpl; split; (done || lia). Qed.

Lemma app_inj_len {A} (h r h' r' : list A) :
  h ++ r = h' ++ r' → Zlen h = Zlen h' → h = h' ∧ r = r'.
Proof. unfold Zlen. intros Heq Hlen. apply app_inj_1; [lia|done]. Qed.

(** [p[i]]. *)
Definition load (m : list Z) (i : Z) : outcome Z :=
  if 0 <=? i then
    match m !! Z.to_nat i with Some b => Ok b | None => Fault OutOfBounds end
  else Fault OutOfBounds.

(** The [n] bytes of [m] from offset [off]. *)
Definition slice (m : list Z) (off n : Z) : list Z :=
  take (Z.to_nat n) (drop (Z.to_nat off) m).

Definition in_range (m : list Z) (off n : Z) : bool :=
  (0 <=? off) && (0 <=? n) && (off + n <=? Zlen m).

(** The source operand of a [memcpy] of [n] bytes. *)
Definition load_range (m : list Z) (off n : Z) : outcome (list Z) :=
  if in_range m off n then Ok (slice m off n) else Fault OutOfBounds.

(** The destination operand of a [memcpy] of the bytes [bs]. *)
Definition splice (m : list Z) (off : Z) (bs : list Z) : list Z :=
  take (Z.to_nat off) m ++ bs ++ drop (Z.to_nat off + length bs) m.

Definition store_range (m : list Z) (off : Z) (bs : list Z) : outcome (list Z) :=
  if in_range m off (Zlen bs) then Ok (splice m off bs) else Fault OutOfBounds.

Lemma load_Ok m i : 0 ≤ i < Zlen m → ∃ b, load m i = Ok b ∧ m !! Z.to_nat i = Some b.
Proof.
  intros Hi. unfold load, Zlen in *. rewrite (proj2 (Z.leb_le 0 i)) by lia.
  destruct (lookup_lt_is_Some_2 m (Z.to_nat i)) as [b Hb]; [lia|].
  exists b. by rewrite Hb.
Qed.

Lemma load_lookup m i b : load m i = Ok b ↔ 0 ≤ i ∧ m !! Z.to_nat i = Some b.
Proof.
  unfold load. destruct (Z.leb_spec 0 i); destruct (m !! Z.to_nat i) as [x|]; split;
    try (intros [? [= ->]]); try (intros [= ->]); try done; lia.
Qed.

Lemma load_app_l m k i : 0 ≤ i < Zlen m → load (m ++ k) i = load m i.
Proof.
  intros. unfold load, Zlen in *. destruct (0 <=? i); [|done].
  by rewrite lookup_app_l by lia.
Qed.

Lemma load_app_r m k i : Zlen m ≤ i → load (m ++ k) i = load k (i - Zlen m).
Proof.
  intros. unfold load, Zlen in *. rewrite !(proj2 (Z.leb_le _ _)) by lia.
  rewrite lookup_app_r by lia. by replace (Z.to_nat i - length m)%nat
    with (Z.to_nat (i - Z.of_nat (length m))) by lia.
Qed.

Lemma load_byte m i b : Forall is_byte m → load m i = Ok b → is_byte b.
Proof.
  intros Hm [_ Hb]%load_lookup. by eapply Forall_lookup_1.
Qed.

Lemma in_range_spec m off n :
  in_range m off n = true ↔ 0 ≤ off ∧ 0 ≤ n ∧ off + n ≤ Zlen m.
Proof. unfold in_range. rewrite !andb_true_iff, !Z.leb_le. tauto. Qed.

Lemma load_range_Ok m off n :
  0 ≤ off → 0 ≤ n → off + n ≤ Zlen m → load_range m off n = Ok (slice m off n).
Proof. intros. unfold load_range. by rewrite (proj2 (in_range_spec _ _ _)). Qed.

Lemma load_range_short m off n :
  Zlen m < off + n → load_range m off n = Fault OutOfBounds.
Proof.
  intros. unfold load_range, in_range. rewrite (proj2 (Z.leb_gt (off + n) _)) by lia.
  by rewrite andb_false_r.
Qed.

Lemma store_range_Ok m off bs :
  0 ≤ off → off + Zlen bs ≤ Zlen m → store_range m off bs = Ok (splice m off bs).
Proof.
  intros. unfold store_range. rewrite (proj2 (in_range_spec _ _ _)); [done|].
  pose proof (Zlen_nonneg bs). lia.
Qed.

Lemma Zlen_slice m off n :
  0 ≤ off → 0 ≤ n → off + n ≤ Zlen m → Zlen (slice m off n) = n.
Proof. intros. unfold slice, Zlen in *. rewrite length_take, length_drop. lia. Qed.

Lemma Zlen_splice m off bs :
  0 ≤ off → off + Zlen bs ≤ Zlen m → Zlen (splice m off bs) = Zlen m.
Proof.
  intros. unfold splice, Zlen in *. rewrite !length_app, length_take, length_drop. lia.
Qed.

Lemma lookup_slice m off n i :
  0 ≤ off → 0 ≤ n →
  slice m off n !! i = if decide (Z.of_nat i < n) then m !! Z.to_nat (off + Z.of_nat i) else None.
Proof.
  intros. unfold slice. case_decide.
  - rewrite lookup_take_lt, lookup_drop by lia. f_equal. lia.
  - apply lookup_take_ge. lia.
Qed.

Lemma lookup_splice m off bs i :
  0 ≤ off → off + Zlen bs ≤ Zlen m →
  splice m off bs !! i =
    if decide (off ≤ Z.of_nat i < off + Zlen bs)
    then bs !! Z.to_nat (Z.of_nat i - off) else m !! i.
Proof.
  intros Hoff Hlen. unfold splice, Zlen in *. case_decide.
  - rewrite lookup_app_r; rewrite length_take; [|lia].
    rewrite lookup_app_l by lia. f_equal. lia.
  - destruct (decide (Z.of_nat i < off)).
    + rewrite lookup_app_l by (rewrite length_take; lia). by rewrite lookup_take_lt by lia.
    + rewrite lookup_app_r; rewrite length_take; [|lia].
      rewrite lookup_app_r by lia. rewrite lookup_drop. f_equal. lia.
Qed.

Lemma slice_all m : slice m 0 (Zlen m) = m.
Proof. unfold slice, Zlen. rewrite drop_0. apply take_ge. lia. Qed.

Lemma slice_0 m off : slice m off 0 = [].
Proof. done. Qed.

Lemma splice_nil m off : splice m off [] = m.
Proof. unfold splice. simpl. by rewrite Nat.add_0_r, take_drop. Qed.

Lemma slice_app_l m k off n :
  0 ≤ off → 0 ≤ n → off + n ≤ Zlen m → slice (m ++ k) off n = slice m off n.
Proof.
  intros. unfold slice, Zlen in *. rewrite drop_app_le by lia.
  rewrite take_app_le; [done|]. rewrite length_drop. lia.
Qed.

Lemma slice_app_r m k off n :
  Zlen m ≤ off → slice (m ++ k) off n = slice k (off - Zlen m) n.
Proof.
  intros. unfold slice, Zlen in *. rewrite drop_app_ge by lia. do 2 f_equal. lia.
Qed.

Lemma slice_split m off a b :
  0 ≤ off → 0 ≤ a → 0 ≤ b → slice m off (a + b) = slice m off a ++ slice m (off + a) b.
Proof.
  intros. unfold slice. rewrite !Z2Nat.inj_add by lia.
  rewrite <- drop_drop. by rewrite take_take_drop.
Qed.

(** A slice that starts where a known prefix ends. *)
Lemma slice_mid (pre mid post : list Z) off n :
  off = Zlen pre → n = Zlen mid → slice (pre ++ mid ++ post) off n = mid.
Proof.
  intros -> ->. rewrite slice_app_r, Z.sub_diag by lia.
  rewrite slice_app_l by (pose proof (Zlen_nonneg mid); lia). apply slice_all.
Qed.

(** * C strings *)

(** The bytes of a string literal, without its terminator. *)
Definition bytes (s : string) : list Z :=
  (λ a, Z.of_N (Ascii.N_of_ascii a)) <$> String.list_ascii_of_string s.

Definition CR : Z := 13.
Definition LF : Z := 10.

Definition isdigit (c : Z) : bool := (48 <=? c) && (c <=? 57).
Definition isblank (c : Z) : bool := (c =? 32) || (c =? 9).
Definition tolower (c : Z) : Z := if (65 <=? c) && (c <=? 90) then c + 32 else c.

(** [strncpy] of [n] bytes from offset [off]: the bytes read stop at the first
    NUL, the rest of the [n] bytes written is NUL padding. *)
Fixpoint strncpy (m : list Z) (off : Z) (n : nat) : outcome (list Z) :=
  match n with
  | O => Ok []
  | S n' =>
      c ← load m off;
      if c =? 0 then Ok (replicate (S n') 0)
      else rest ← strncpy m (off + 1) n'; Ok (c :: rest)
  end.

(** The part of a byte string before its first NUL. *)
Fixpoint until_nul (s : list Z) : list Z :=
  match s with
  | [] => []
  | c :: s' => if c =? 0 then [] else c :: until_nul s'
  end.

(** What [strncpy] leaves in the destination: the string, padded with NULs. *)
Definition nul_padded (s : list Z) : list Z :=
  until_nul s ++ replicate (length s - length (until_nul s)) 0.

Lemma until_nul_length s : (length (until_nul s) ≤ length s)%nat.
Proof. induction s as [|c s IH]; simpl; [done|]. destruct (c =? 0); simpl; lia. Qed.

Lemma nul_padded_cons_nz c s : c ≠ 0 → nul_padded (c :: s) = c :: nul_padded s.
Proof.
  intros Hc. unfold nul_padded. simpl. by rewrite (proj2 (Z.eqb_neq c 0) Hc).
Qed.

Lemma nul_padded_cons_z s : nul_padded (0 :: s) = replicate (S (length s)) 0.
Proof. done. Qed.

Lemma length_nul_padded s : length (nul_padded s) = length s.
Proof.
  unfold nul_padded. rewrite length_app, length_replicate.
  pose proof (until_nul_length s). lia.
Qed.

Lemma until_nul_no_nul s : 0 ∉ s → until_nul s = s.
Proof.
  induction s as [|c s IH]; [done|]. intros Hnot. simpl.
  destruct (Z.eqb_spec c 0) as [->|]; [set_solver|]. rewrite IH; set_solver.
Qed.

Lemma nul_padded_no_nul s : 0 ∉ s → nul_padded s = s.
Proof.
  intros. unfold nul_padded. rewrite until_nul_no_nul by done.
  by rewrite Nat.sub_diag, app_nil_r.
Qed.

Lemma slice_cons m off n b :
  load m off = Ok b → slice m off (1 + Z.of_nat n) = b :: slice m (off + 1) (Z.of_nat n).
Proof.
  intros [Hoff Hb]%load_lookup. unfold slice.
  rewrite (drop_S _ _ _ Hb). rewrite !Z2Nat.inj_add by lia.
  replace (Z.to_nat off + Z.to_nat 1)%nat with (S (Z.to_nat off)) by lia. done.
Qed.

Lemma slice_cons_Z m off n b :
  load m off = Ok b → 0 < n → slice m off n = b :: slice m (off + 1) (n - 1).
Proof.
  intros Hb Hn. replace n with (1 + Z.of_nat (Z.to_nat (n - 1))) at 1 by lia.
  rewrite (slice_cons _ _ _ _ Hb). do 2 f_equal. lia.
Qed.

(** A nonempty slice inside the block starts with a byte of the block. *)
Lemma slice_uncons m off n :
  0 ≤ off → 0 < n → off + n ≤ Zlen m →
  ∃ b, load m off = Ok b ∧ slice m off n = b :: slice m (off + 1) (n - 1).
Proof.
  intros. destruct (load_Ok m off) as (b & Hb & _); [lia|].
  exists b. split; [done|]. by apply slice_cons_Z.
Qed.

Lemma slice_nil m off n : n ≤ 0 → slice m off n = [].
Proof. intros. unfold slice. by replace (Z.to_nat n) with 0%nat by lia. Qed.

Lemma slice_split_at m off n k :
  0 ≤ off → 0 ≤ k ≤ n → slice m off n = slice m off k ++ slice m (off + k) (n - k).
Proof. intros. replace n with (k + (n - k)) at 1 by lia. apply slice_split; lia. Qed.

Lemma drop_slice m off n k :
  0 ≤ off → 0 ≤ k → drop (Z.to_nat k) (slice m off n) = slice m (off + k) (n - k).
Proof.
  intros. unfold slice. rewrite skipn_firstn_comm, drop_drop. f_equal; [lia|]. f_equal. lia.
Qed.

Lemma take_slice m off n k :
  0 ≤ k ≤ n → take (Z.to_nat k) (slice m off n) = slice m off k.
Proof. intros. unfold slice. rewrite take_take. f_equal. lia. Qed.

Lemma slice_eq m i j n k : i = j → n = k → slice m i n = slice m j k.
Proof. by intros -> ->. Qed.

Lemma load_eq m i j : i = j → load m i = load m j.
Proof. by intros ->. Qed.

(** The first bytes of a slice, when they are known. *)
Lemma slice_take2 m off n a b :
  load m off = Ok a → load m (off + 1) = Ok b → 2 ≤ n →
  slice m off n = a :: b :: slice m (off + 2) (n - 2).
Proof.
  intros Ha Hb Hn. rewrite (slice_cons_Z _ _ _ _ Ha), (slice_cons_Z _ _ _ _ Hb) by lia.
  do 2 f_equal. apply slice_eq; lia.
Qed.

Lemma slice_take3 m off n a b c :
  load m off = Ok a → load m (off + 1) = Ok b → load m (off + 2) = Ok c → 3 ≤ n →
  slice m off n = a :: b :: c :: slice m (off + 3) (n - 3).
Proof.
  intros Ha Hb Hc Hn. rewrite (slice_take2 _ _ _ _ _ Ha Hb), (slice_cons_Z _ _ _ _ Hc) by lia.
  do 3 f_equal. apply slice_eq; lia.
Qed.

Lemma slice_nonempty m off n :
  0 ≤ off → 0 < n → off + n ≤ Zlen m → slice m off n ≠ [].
Proof. intros ??? Hnil%(f_equal Zlen). rewrite Zlen_slice, Zlen_nil in Hnil; lia. Qed.

Lemma slice_slice m off n o k :
  0 ≤ off → 0 ≤ o → 0 ≤ k → o + k ≤ n → slice (slice m off n) o k = slice m (off + o) k.
Proof.
  intros. unfold slice. rewrite skipn_firstn_comm, take_take, drop_drop.
  f_equal; [lia|]. f_equal. lia.
Qed.

(** [strncpy] is safe whenever the [n] source bytes exist, and then it leaves the
    NUL-padded string in the destination. *)
Lemma strncpy_spec m off n :
  0 ≤ off → off + Z.of_nat n ≤ Zlen m →
  strncpy m off n = Ok (nul_padded (slice m off (Z.of_nat n))).
Proof.
  revert off. induction n as [|n IH]; intros off Hoff Hlen; [done|].
  cbn [strncpy]. destruct (load_Ok m off) as (c & Hc & _); [lia|].
  rewrite Hc. cbn [mbind outcome_bind].
  replace (Z.of_nat (S n)) with (1 + Z.of_nat n) by lia.
  rewrite (slice_cons _ _ _ _ Hc). destruct (Z.eqb_spec c 0) as [->|Hne].
  - rewrite nul_padded_cons_z. f_equal. f_equal. f_equal.
    unfold slice, Zlen in *. rewrite length_take, length_drop. lia.
  - rewrite IH by lia. cbn [mbind outcome_bind]. by rewrite nul_padded_cons_nz.
Qed.

(** [strncasecmp(s, m + off, n) == 0] for a string literal [s]: the comparison stops at
    the first difference or at a common terminator. *)
Fixpoint strncasecmp_eq (s : list Z) (m : list Z) (off : Z) (n : nat) : outcome bool :=
  match n with
  | O => Ok true
  | S n' =>
      c ← load m off;
      match s with
      | [] => Ok (c =? 0)
      | x :: s' => if tolower x =? tolower c then strncasecmp_eq s' m (off + 1) n' else Ok false
      end
  end.

(** Equality of byte strings up to the case of letters. *)
Definition caseless_eq (a b : list Z) : bool := bool_decide (tolower <$> a = tolower <$> b).

Lemma strncasecmp_eq_spec s m off :
  0 ≤ off → off + Zlen s ≤ Zlen m →
  strncasecmp_eq s m off (length s) = Ok (caseless_eq s (slice m off (Zlen s))).
Proof.
  revert off. induction s as [|x s IH]; intros off Hoff Hlen; [done|].
  cbn [strncasecmp_eq length]. rewrite Zlen_cons in *.
  pose proof (Zlen_nonneg s). destruct (slice_uncons m off (1 + Zlen s)) as (c & Hc & Hs); [lia..|].
  rewrite Hc. cbn [mbind outcome_bind]. rewrite Hs. unfold caseless_eq.
  rewrite !fmap_cons. destruct (Z.eqb_spec (tolower x) (tolower c)) as [Heq|Hne].
  - rewrite IH by lia. f_equal. unfold caseless_eq. replace (1 + Zlen s - 1) with (Zlen s) by lia.
    apply bool_decide_ext. rewrite Heq. split; [by intros ->|by intros [= ?]].
  - by rewrite bool_decide_false by congruence.
Qed.

(** * Automation *)

Create HintDb csem discriminated.
#[export] Hint Resolve yields_ret Zlen_nonneg size_t_range : csem.

(** Rewriting of lengths and of size_t computations that cannot wrap. *)
Create Rewrite HintDb zlen.
#[export] Hint Rewrite @Zlen_nil @Zlen_cons @Zlen_app MIN_min : zlen.

(** Case analysis on the boolean comparisons of the source. *)
Ltac zcase :=
  repeat match goal with
  | |- context [?a <? ?b] => destruct (Z.ltb_spec a b); try lia
  | |- context [?a <=? ?b] => destruct (Z.leb_spec a b); try lia
  | |- context [?a =? ?b] => destruct (Z.eqb_spec a b); try lia
  end.

(** Rewrites every [size_t e] whose argument provably does not wrap. *)
Ltac nowrap :=
  repeat match goal with
  | |- context [size_t ?e] => rewrite (size_t_small e) by lia
  end.

(** One such case, outermost first. *)
Ltac zcase1 :=
  match goal with
  | |- context [if ?a <? ?b then _ else _] => destruct (Z.ltb_spec a b); try lia
  | |- context [if ?a <=? ?b then _ else _] => destruct (Z.leb_spec a b); try lia
  | |- context [if ?a =? ?b then _ else _] => destruct (Z.eqb_spec a b); try lia
  end.

(** Reduces the binds whose left-hand side is already a value. *)
Ltac outcome_simpl := cbn [mbind outcome_bind mret outcome_ret fmap outcome_fmap c_assert].

(** Names the Fault of an impossible branch away. *)
Ltac yields_step :=
  match goal with
  | |- yields (Ok _) _ => apply yields_ret
  | |- yields (_ ≫= _) _ => eapply yields_bind
  end.

(** An assertion that arithmetic discharges. *)
Ltac cassert :=
  match goal with
  | |- context [c_assert ?b] => rewrite (c_assert_true b) by lia
  end.

(** Runs straight-line code whose branches are decided by arithmetic. *)
Ltac crun := repeat first [progress nowrap | cassert | zcase1 | progress outcome_simpl].
