(* ===== verification/CString.v ===== *)
(** The functions of the C library on strings and numbers that address.c, listener.c,
    config.c and the configuration parser use.  A C string is the list of its bytes
    before the terminator. *)

From S2P Require Import Prelude.

(** * Searching *)

Fixpoint strchr (s : list Z) (c : Z) : option nat :=
  match s with
  | [] => None
  | x :: s' => if x =? c then Some 0%nat else S <$> strchr s' c
  end.

Fixpoint strrchr (s : list Z) (c : Z) : option nat :=
  match s with
  | [] => None
  | x :: s' =>
      match strrchr s' c with
      | Some i => Some (S i)
      | None => if x =? c then Some 0%nat else None
      end
  end.

Fixpoint strspn (s accept : list Z) : nat :=
  match s with
  | [] => 0
  | x :: s' => if bool_decide (x ∈ accept) then S (strspn s' accept) else 0
  end.

(** * Comparison

    [strncmp(a, b, n) == 0]: a terminator ends the comparison. *)
Definition strncmp_eq (a b : list Z) (n : nat) : bool := bool_decide (take n a = take n b).
Definition strncasecmp0 (a b : list Z) (n : nat) : bool := caseless_eq (take n a) (take n b).
Definition strcmp_eq (a b : list Z) : bool := bool_decide (a = b).
Definition strcasecmp_eq (a b : list Z) : bool := caseless_eq a b.

(** [memcmp]: only the sign of the result is specified. *)
Fixpoint memcmp (a b : list Z) (n : nat) {struct n} : Z :=
  match n, a, b with
  | S n', x :: a', y :: b' => if x <? y then -1 else if y <? x then 1 else memcmp a' b' n'
  | _, _, _ => 0
  end.

(** * Numbers *)

Definition isspace (c : Z) : bool := (c =? 32) || ((9 <=? c) && (c <=? 13)).
Definition isxdigit (c : Z) : bool :=
  isdigit c || ((65 <=? c) && (c <=? 70)) || ((97 <=? c) && (c <=? 102)).
Definition isalnum_ (c : Z) : bool :=
  isdigit c || ((65 <=? c) && (c <=? 90)) || ((97 <=? c) && (c <=? 122)) || (c =? 95).

Fixpoint skip_while (p : Z → bool) (s : list Z) : list Z :=
  match s with
  | c :: t => if p c then skip_while p t else s
  | [] => []
  end.

Fixpoint take_digits (s : list Z) : list Z :=
  match s with
  | c :: t => if isdigit c then c :: take_digits t else []
  | [] => []
  end.

Definition digits_value (ds : list Z) : Z := foldl (λ n c, 10 * n + (c - 48)) 0 ds.

Definition skip_sign (s : list Z) : list Z :=
  match s with
  | c :: t => if (c =? 43) || (c =? 45) then t else s
  | [] => []
  end.

(** [strtol(s, NULL, 10)] for a 64-bit long, which saturates. *)
Definition strtol (s : list Z) : Z :=
  let t := skip_while isspace s in
  let v := digits_value (take_digits (skip_sign t)) in
  let v := match t with c :: _ => if c =? 45 then - v else v | [] => v end in
  Z.max (- 2 ^ 63) (Z.min v (2 ^ 63 - 1)).

(** [atoi] of the GNU C library is [(int) strtol(s, NULL, 10)]. *)
Definition atoi (s : list Z) : Z := c_int (strtol s).

(** [strtod(s, &p)]: what is left of the string at [p]. *)

Definition mantissa (digit : Z → bool) (s : list Z) : option (list Z) :=
  let fraction t := match t with c :: r => if c =? 46 then skip_while digit r else t | [] => t end in
  match s with
  | c :: t =>
      if digit c then Some (fraction (skip_while digit t))
      else match t with
           | d :: _ => if (c =? 46) && digit d then Some (skip_while digit t) else None
           | [] => None
           end
  | [] => None
  end.

Definition exponent (lower upper : Z) (s : list Z) : list Z :=
  match s with
  | c :: t =>
      if (c =? lower) || (c =? upper) then
        match skip_sign t with
        | d :: u => if isdigit d then skip_while isdigit u else s
        | [] => s
        end
      else s
  | [] => s
  end.

Definition has_prefix (p s : list Z) : bool := caseless_eq p (take (length p) s).

(** After "nan": an optional parenthesised sequence. *)
Definition nan_tail (s : list Z) : list Z :=
  match s with
  | c :: t =>
      if c =? 40 then
        match skip_while isalnum_ t with d :: u => if d =? 41 then u else s | [] => s end
      else s
  | [] => s
  end.

Definition strtod_end (s : list Z) : list Z :=
  let u := skip_sign (skip_while isspace s) in
  match (if has_prefix (bytes "0x") u then mantissa isxdigit (drop 2 u) else None) with
  | Some r => exponent 112 80 r
  | None =>
      match mantissa isdigit u with
      | Some r => exponent 101 69 r
      | None =>
          if has_prefix (bytes "infinity") u then drop 8 u
          else if has_prefix (bytes "inf") u then drop 3 u
          else if has_prefix (bytes "nan") u then nan_tail (drop 3 u)
          else s
      end
  end.

(** * Output *)

(** The decimal digits of a number ([%u], PRIu16). *)
Fixpoint decimal_fuel (fuel : nat) (n : Z) : list Z :=
  match fuel with
  | O => []
  | S fuel => if n <? 10 then [48 + n] else decimal_fuel fuel (n / 10) ++ [48 + n mod 10]
  end.
Definition decimal (n : Z) : list Z := decimal_fuel (S (Z.to_nat (Z.log2 n))) n.

(** What [snprintf(buffer, size, ...)] leaves in the buffer as a string. *)
Definition snprintf (size : Z) (s : list Z) : list Z := take (Z.to_nat (size - 1)) s.

(** Reading the string at offset [off] of a block: it must be terminated inside it. *)
Definition c_string (m : list Z) (off : Z) : outcome (list Z) :=
  let s := drop (Z.to_nat off) m in
  if bool_decide (0 ∈ s) then Ok (until_nul s) else Fault OutOfBounds.

(** * Lemmas *)

Lemma until_nul_free s : 0 ∉ until_nul s.
Proof.
  induction s as [|c s IH]; cbn [until_nul]; [apply not_elem_of_nil|].
  destruct (Z.eqb_spec c 0); [apply not_elem_of_nil|]. apply not_elem_of_cons. split; [by apply not_eq_sym|done].
Qed.

Lemma until_nul_app s r : 0 ∉ s → until_nul (s ++ 0 :: r) = s.
Proof.
  induction s as [|c s IH]; [done|]. intros [Hc Hs]%not_elem_of_cons. cbn.
  rewrite (proj2 (Z.eqb_neq c 0)) by done. by rewrite IH.
Qed.

(** A string that was read is terminated and inside the object. *)
Lemma c_string_Ok m off s :
  c_string m off = Ok s → ∃ r, drop (Z.to_nat off) m = s ++ 0 :: r ∧ 0 ∉ s.
Proof.
  unfold c_string. case_bool_decide as Hin; [|done]. intros [= <-]. revert Hin.
  generalize (drop (Z.to_nat off) m). intros l. induction l as [|c l IH]; [by intros ?%elem_of_nil|].
  intros Hin. cbn [until_nul]. destruct (Z.eqb_spec c 0) as [->|Hc].
  - exists l. split; [done|apply not_elem_of_nil].
  - apply elem_of_cons in Hin as [?|Hin]; [done|]. destruct (IH Hin) as (r & Hr & H0). exists r.
    split; [cbn; by rewrite <- Hr|]. apply not_elem_of_cons. split; [by apply not_eq_sym|done].
Qed.

Lemma c_string_app p s r off :
  off = Zlen p → 0 ∉ s → c_string (p ++ s ++ 0 :: r) off = Ok s.
Proof.
  intros -> Hs. unfold c_string, Zlen. rewrite Nat2Z.id, drop_app_length.
  rewrite bool_decide_true by set_solver. by rewrite until_nul_app.
Qed.

Lemma c_string_0 s r : 0 ∉ s → c_string (s ++ 0 :: r) 0 = Ok s.
Proof. by apply (c_string_app []). Qed.

Lemma strchr_Some s c i :
  strchr s c = Some i → ∃ a b, s = a ++ c :: b ∧ (c ∉ a) ∧ length a = i.
Proof.
  revert i. induction s as [|x s IH]; intros i; [done|]. cbn.
  destruct (Z.eqb_spec x c) as [->|Hx].
  - intros [= <-]. exists [], s. split_and!; [done|apply not_elem_of_nil|done].
  - intros (j & Hj & ->)%fmap_Some. destruct (IH j Hj) as (a & b & -> & Ha & <-).
    exists (x :: a), b. split_and!; [done| |done]. rewrite not_elem_of_cons. done.
Qed.

Lemma strchr_None s c : strchr s c = None ↔ c ∉ s.
Proof.
  induction s as [|x s IH]; [split; [intros _; apply not_elem_of_nil|done]|]. cbn.
  rewrite not_elem_of_cons. destruct (Z.eqb_spec x c) as [->|Hx]; [by split; [|intros []]|].
  rewrite fmap_None, IH. split; [done|by intros []].
Qed.

Lemma strchr_app a b c : c ∉ a → strchr (a ++ c :: b) c = Some (length a).
Proof.
  induction a as [|x a IH]; intros Ha; cbn; [by rewrite Z.eqb_refl|].
  apply not_elem_of_cons in Ha as [Hx Ha].
  rewrite (proj2 (Z.eqb_neq x c)) by done. by rewrite IH.
Qed.

Lemma strrchr_None s c : c ∉ s → strrchr s c = None.
Proof.
  induction s as [|x s IH]; [done|]. intros [Hx Hs]%not_elem_of_cons. cbn.
  rewrite IH by done. by rewrite (proj2 (Z.eqb_neq x c)).
Qed.

Lemma strrchr_app a b c : c ∉ b → strrchr (a ++ c :: b) c = Some (length a).
Proof.
  intros Hb. induction a as [|x a IH]; cbn; [|by rewrite IH].
  rewrite strrchr_None by done. by rewrite Z.eqb_refl.
Qed.

Lemma strrchr_Some s c i :
  strrchr s c = Some i → ∃ a b, s = a ++ c :: b ∧ (c ∉ b) ∧ length a = i.
Proof.
  revert i. induction s as [|x s IH]; intros i; [done|]. cbn.
  destruct (strrchr s c) as [j|] eqn:Hj.
  - intros [= <-]. destruct (IH j eq_refl) as (a & b & -> & Hb & <-).
    by exists (x :: a), b.
  - destruct (Z.eqb_spec x c) as [->|]; [|done]. intros [= <-].
    exists [], s. split_and!; [done| |done]. clear IH. intros Hin.
    revert Hj. induction Hin as [y l|y x l Hin IH]; cbn; [by rewrite Z.eqb_refl; destruct strrchr|].
    destruct (strrchr l y); [done|]. intros _. by apply IH.
Qed.

Lemma strspn_app a b accept :
  (length a ≤ strspn (a ++ b) accept)%nat ↔ Forall (λ c, c ∈ accept) a.
Proof.
  induction a as [|x a [IH1 IH2]]; cbn; [split; [constructor|lia]|].
  case_bool_decide; split.
  - intros Hlen. constructor; [done|apply IH1; lia].
  - intros Hxa. apply Forall_cons_1 in Hxa as [_ Ha]. specialize (IH2 Ha). lia.
  - lia.
  - intros Hxa. by apply Forall_cons_1 in Hxa as [? _].
Qed.

Lemma strncmp_eq_app p s : strncmp_eq p (p ++ s) (length p) = true.
Proof.
  unfold strncmp_eq. rewrite take_app_length, take_ge by lia. by rewrite bool_decide_true.
Qed.

(** ** [memcmp] is a three-way comparison *)

Lemma memcmp_range a b n : memcmp a b n = -1 ∨ memcmp a b n = 0 ∨ memcmp a b n = 1.
Proof.
  revert a b. induction n as [|n IH]; intros [|x a] [|y b]; cbn; try tauto. zcase; auto.
Qed.

Lemma memcmp_opp a b n : memcmp b a n = - memcmp a b n.
Proof. revert a b. induction n as [|n IH]; intros [|x a] [|y b]; cbn; try done. zcase; auto. Qed.

Lemma memcmp_0 a b n :
  (n ≤ length a)%nat → (n ≤ length b)%nat → memcmp a b n = 0 ↔ take n a = take n b.
Proof.
  revert a b. induction n as [|n IH]; intros [|x a] [|y b] Ha Hb; cbn in *; try done; try lia.
  zcase.
  - split; [lia|]. intros [= -> _]. lia.
  - split; [lia|]. intros [= -> _]. lia.
  - rewrite IH by lia. assert (x = y) as -> by lia. split; congruence.
Qed.

(** ** Decimal numbers *)

Definition digits (ds : list Z) : Prop := Forall (λ c, isdigit c = true) ds.

Lemma skip_while_all p a b : Forall (λ c, p c = true) a → skip_while p (a ++ b) = skip_while p b.
Proof. induction 1 as [|x a Hx _ IH]; [done|]. cbn. by rewrite Hx. Qed.

Lemma take_digits_all ds : digits ds → take_digits ds = ds.
Proof. induction 1 as [|x a Hx _ IH]; [done|]. cbn. by rewrite Hx, IH. Qed.

Lemma digits_value_app a b : digits_value (a ++ [b]) = 10 * digits_value a + (b - 48).
Proof. unfold digits_value. by rewrite foldl_app. Qed.

Lemma decimal_fuel_spec fuel n :
  0 ≤ n < 2 ^ Z.of_nat fuel → digits (decimal_fuel fuel n) ∧ decimal_fuel fuel n ≠ [] ∨ fuel = 0%nat.
Proof.
  revert n. induction fuel as [|fuel IH]; intros n Hn; [by right|left]. cbn [decimal_fuel].
  destruct (Z.ltb_spec n 10).
  - split; [|done]. constructor; [|constructor]. unfold isdigit. lia.
  - assert (0 ≤ n / 10 < 2 ^ Z.of_nat fuel) as Hlt.
    { rewrite Nat2Z.inj_succ, Z.pow_succ_r in Hn by lia. split; [apply Z.div_pos; lia|].
      apply Z.div_lt_upper_bound; lia. }
    split; [|destruct (decimal_fuel fuel (n / 10)); done].
    apply Forall_app. split.
    + destruct (IH _ Hlt) as [[? _]| ->]; [done|constructor].
    + constructor; [|constructor]. unfold isdigit. pose proof (Z.mod_pos_bound n 10). lia.
Qed.

Lemma decimal_fuel_value fuel n :
  0 ≤ n < 2 ^ Z.of_nat fuel → digits_value (decimal_fuel fuel n) = n.
Proof.
  revert n. induction fuel as [|fuel IH]; intros n Hn; [cbn in *; lia|]. cbn [decimal_fuel].
  destruct (Z.ltb_spec n 10); [cbn; lia|]. rewrite digits_value_app, IH.
  - pose proof (Z.div_mod n 10). lia.
  - rewrite Nat2Z.inj_succ, Z.pow_succ_r in Hn by lia. split; [apply Z.div_pos; lia|].
    apply Z.div_lt_upper_bound; lia.
Qed.

Lemma decimal_bound n : 0 ≤ n → 0 ≤ n < 2 ^ Z.of_nat (S (Z.to_nat (Z.log2 n))).
Proof.
  intros Hn. split; [done|]. rewrite Nat2Z.inj_succ, Z2Nat.id by apply Z.log2_nonneg.
  destruct (decide (n = 0)) as [->|]; [done|]. apply Z.log2_spec. lia.
Qed.

Lemma decimal_digits n : 0 ≤ n → digits (decimal n) ∧ decimal n ≠ [].
Proof. intros Hn. by destruct (decimal_fuel_spec _ n (decimal_bound n Hn)). Qed.

(** A literal has no NUL. *)
Ltac no_nul := apply (bool_decide_unpack _); by vm_compute.

Lemma decimal_nul_free n : 0 ≤ n → 0 ∉ decimal n.
Proof.
  intros [Hd _]%decimal_digits H0. unfold digits in Hd. rewrite Forall_forall in Hd. by specialize (Hd 0 (proj1 (list_elem_of_In _ _) H0)).
Qed.

Lemma decimal_value n : 0 ≤ n → digits_value (decimal n) = n.
Proof. intros Hn. apply decimal_fuel_value, decimal_bound, Hn. Qed.

Lemma digit_not_space c : isdigit c = true → isspace c = false ∧ (c =? 43) = false ∧ (c =? 45) = false.
Proof. unfold isdigit, isspace. lia. Qed.

Lemma atoi_digits ds :
  digits ds → ds ≠ [] → 0 ≤ digits_value ds < 2 ^ 31 → atoi ds = digits_value ds.
Proof.
  intros Hds Hne Hv. destruct Hds as [|c ds Hc Hds]; [done|].
  destruct (digit_not_space c Hc) as (Hs & Hp & Hm).
  unfold atoi, strtol. cbn [skip_while]. rewrite Hs. cbn [skip_sign]. rewrite Hp, Hm. cbn [orb].
  rewrite take_digits_all by by constructor. rewrite c_int_small; lia.
Qed.

Lemma atoi_decimal n : 0 ≤ n < 2 ^ 31 → atoi (decimal n) = n.
Proof.
  intros Hn. destruct (decimal_digits n) as [Hd Hne]; [lia|].
  rewrite atoi_digits; rewrite ?decimal_value; done || lia.
Qed.

(** A string of digits is one number to [strtod], unless it starts with "0x". *)
Lemma strtod_end_digits ds : digits ds → ds ≠ [] → strtod_end ds = [].
Proof.
  intros Hds Hne. destruct Hds as [|c ds Hc Hds]; [done|].
  destruct (digit_not_space c Hc) as (Hs & Hp & Hm).
  unfold strtod_end. cbn [skip_while]. rewrite Hs. cbn [skip_sign]. rewrite Hp, Hm. cbn [orb].
  assert (has_prefix (bytes "0x") (c :: ds) = false) as ->.
  { unfold has_prefix, caseless_eq. apply bool_decide_false. destruct Hds as [|d ds Hd _]; [done|].
    intros Heq%(f_equal (λ l, l !! 1%nat)). cbn in Heq. injection Heq as Heq.
    unfold isdigit, tolower in *. change (120 = if (65 <=? d) && (d <=? 90) then d + 32 else d) in Heq.
    destruct ((65 <=? d) && (d <=? 90)) eqn:?; lia. }
  cbn [mantissa]. rewrite Hc. rewrite <- (app_nil_r ds), skip_while_all by done. done.
Qed.

(** ** What [strtod] reads

    [reads s t]: [t] is what is left of [s] after characters other than a bracket. *)

Definition reads (s t : list Z) : Prop := ∃ p, s = p ++ t ∧ Forall (λ c, c ≠ 93) p.

#[global] Instance reads_preorder : PreOrder reads.
Proof.
  split.
  - intros s. exists []. by split; [|constructor].
  - intros s t u (p & -> & Hp) (q & -> & Hq). exists (p ++ q). rewrite app_assoc.
    split; [done|]. by apply Forall_app.
Qed.

Lemma reads_cons c t u : c ≠ 93 → reads t u → reads (c :: t) u.
Proof. intros Hc (p & -> & Hp). exists (c :: p). split; [done|]. by constructor. Qed.

Lemma reads_skip_while p s : (∀ c, p c = true → c ≠ 93) → reads s (skip_while p s).
Proof.
  intros Hp. induction s as [|c s IH]; [done|]. cbn. destruct (p c) eqn:Hc; [|done].
  apply reads_cons; auto.
Qed.

Lemma reads_skip_sign s : reads s (skip_sign s).
Proof. destruct s as [|c s]; [done|]. cbn. destruct (_ || _) eqn:Hc; [|done]. apply reads_cons; [lia|done]. Qed.

Lemma isdigit_no_bracket c : isdigit c = true → c ≠ 93.
Proof. unfold isdigit. lia. Qed.
Lemma isxdigit_no_bracket c : isxdigit c = true → c ≠ 93.
Proof. unfold isxdigit, isdigit. lia. Qed.
Lemma isalnum_no_bracket c : isalnum_ c = true → c ≠ 93.
Proof. unfold isalnum_, isdigit. lia. Qed.
Lemma isspace_no_bracket c : isspace c = true → c ≠ 93.
Proof. unfold isspace. lia. Qed.

#[export] Hint Resolve isdigit_no_bracket isxdigit_no_bracket isalnum_no_bracket
  isspace_no_bracket reads_skip_while reads_skip_sign : csem.

Lemma reads_mantissa digit s r :
  (∀ c, digit c = true → c ≠ 93) → mantissa digit s = Some r → reads s r.
Proof.
  intros Hd. destruct s as [|c t]; [done|]. cbn [mantissa]. destruct (digit c) eqn:Hc.
  - intros [= <-]. apply reads_cons; [by apply Hd|].
    transitivity (skip_while digit t); [auto with csem|].
    destruct (skip_while digit t) as [|d u]; [done|].
    destruct (Z.eqb_spec d 46); [|done]. apply reads_cons; [lia|auto with csem].
  - destruct t as [|d u]; [done|]. pose proof (reads_skip_while digit (d :: u) Hd) as Ht.
    destruct (Z.eqb_spec c 46); [|done]. cbn [andb]. destruct (digit d) eqn:Hdd; [|done].
    intros [= <-]. by apply reads_cons; [lia|].
Qed.

Lemma reads_exponent lower upper s : lower ≠ 93 → upper ≠ 93 → reads s (exponent lower upper s).
Proof.
  intros Hl Hu. destruct s as [|c t]; [done|]. cbn [exponent]. destruct (_ || _) eqn:Hc; [|done].
  pose proof (reads_skip_sign t) as Ht. destruct (skip_sign t) as [|d u]; [done|].
  destruct (isdigit d) eqn:Hd; [|done]. apply reads_cons; [lia|]. etrans; [exact Ht|].
  apply reads_cons; auto with csem.
Qed.

Lemma reads_nan_tail s : reads s (nan_tail s).
Proof.
  destruct s as [|c t]; [done|]. cbn. destruct (Z.eqb_spec c 40); [|done].
  pose proof (reads_skip_while isalnum_ t isalnum_no_bracket) as Ht.
  destruct (skip_while isalnum_ t) as [|d u]; [done|]. destruct (Z.eqb_spec d 41); [|done].
  apply reads_cons; [lia|]. etrans; [exact Ht|]. apply reads_cons; [lia|done].
Qed.

Lemma reads_prefix p s :
  Forall (λ c, c ≠ 93) p → has_prefix p s = true → reads s (drop (length p) s).
Proof.
  intros Hp Heq%bool_decide_eq_true_1. exists (take (length p) s). rewrite take_drop. split; [done|].
  revert s Heq. induction Hp as [|x p Hx Hp IH]; intros [|y s] Heq; cbn in *; try by constructor.
  injection Heq as Hxy Heq. constructor; [|by apply IH]. intros ->. apply Hx. unfold tolower in Hxy.
  change ((65 <=? 93) && (93 <=? 90)) with false in Hxy.
  destruct ((65 <=? x) && (x <=? 90)) eqn:?; lia.
Qed.

Lemma reads_strtod s : reads s (strtod_end s).
Proof.
  unfold strtod_end. set (u := skip_sign (skip_while isspace s)).
  assert (reads s u) as Hu by (transitivity (skip_while isspace s); [apply reads_skip_while, isspace_no_bracket|apply reads_skip_sign]).
  destruct (if has_prefix _ _ then _ else _) as [r|] eqn:Hx.
  { destruct (has_prefix (bytes "0x") u) eqn:H0; [|done].
    etrans; [exact Hu|]. etrans; [apply reads_prefix; [|exact H0]; by repeat constructor|].
    etrans; [eapply reads_mantissa; [|exact Hx]; auto with csem|]. by apply reads_exponent. }
  destruct (mantissa isdigit u) as [r|] eqn:Hm.
  { etrans; [exact Hu|]. etrans; [eapply reads_mantissa; [|exact Hm]; auto with csem|].
    by apply reads_exponent. }
  destruct (has_prefix (bytes "infinity") u) eqn:H1.
  { etrans; [exact Hu|]. apply (reads_prefix (bytes "infinity")); [by repeat constructor|done]. }
  destruct (has_prefix (bytes "inf") u) eqn:H2.
  { etrans; [exact Hu|]. apply (reads_prefix (bytes "inf")); [by repeat constructor|done]. }
  destruct (has_prefix (bytes "nan") u) eqn:H3; [|done].
  etrans; [exact Hu|]. etrans; [|apply reads_nan_tail].
  apply (reads_prefix (bytes "nan")); [by repeat constructor|done].
Qed.

Lemma strtod_end_bracket s : strtod_end (s ++ [93]) ≠ [].
Proof.
  intros Heq. destruct (reads_strtod (s ++ [93])) as (p & Hp & Hall). rewrite Heq, app_nil_r in Hp.
  subst p. apply Forall_app in Hall as [_ Hall]. by inversion Hall.
Qed.

(** A number below a power of ten has as many digits at most. *)
Lemma decimal_fuel_length fuel k n :
  0 ≤ n < 10 ^ Z.of_nat (S k) → (length (decimal_fuel fuel n) ≤ S k)%nat.
Proof.
  revert k n. induction fuel as [|fuel IH]; intros k n Hn; cbn [decimal_fuel]; [cbn; lia|].
  destruct (Z.ltb_spec n 10); [cbn; lia|]. rewrite length_app. cbn [length].
  destruct k as [|k]; [cbn in Hn; lia|]. enough (length (decimal_fuel fuel (n / 10)) ≤ S k)%nat by lia.
  apply IH. rewrite (Nat2Z.inj_succ (S k)), Z.pow_succ_r in Hn by lia.
  split; [apply Z.div_pos; lia|]. apply Z.div_lt_upper_bound; lia.
Qed.

Lemma decimal_length_u16 n : 0 ≤ n < 65536 → Zlen (decimal n) ≤ 5.
Proof.
  intros Hn. unfold Zlen. pose proof (decimal_fuel_length (S (Z.to_nat (Z.log2 n))) 4 n ltac:(cbn; lia)).
  unfold decimal. lia.
Qed.

Lemma digits_not_in c ds : digits ds → isdigit c = false → c ∉ ds.
Proof.
  intros Hds Hc Hin. apply list_elem_of_In in Hin. unfold digits in Hds.
  rewrite List.Forall_forall in Hds. specialize (Hds c Hin). cbn in Hds. congruence.
Qed.
