(* ===== verification/RefCount.v ===== *)
(** Stores of reference-counted objects, and the monad of the operations on them.  Tables, listeners, loggers and log sinks are objects that are freed
    when the last reference to them is put back.  This file states what such a store keeps
    true, once for all four: the count of every object is the number of references to it,
    and every reference is to an object that still exists. *)

From S2P Require Import Prelude.
From stdpp Require Import list gmap.

#[local] Open Scope Z_scope.

(** A pointer to an object of a store.  The store holds the objects that are allocated, so an
    access to any other location is a use after free. *)
Definition loc := positive.

#[export] Instance loc_eq_dec : EqDecision loc := _ : EqDecision positive.
#[export] Instance loc_countable : Countable loc := _ : Countable positive.
#[export] Instance loc_infinite : Infinite loc := _ : Infinite positive.

Definition deref {A} (h : gmap loc A) (l : loc) : outcome A :=
  match h !! l with Some a => Ok a | None => Fault UseAfterFree end.

Lemma deref_Some {A} (h : gmap loc A) l a : h !! l = Some a → deref h l = Ok a.
Proof. unfold deref. by intros ->. Qed.

(** [SLIST_REMOVE]: walking off the end of the list is a NULL dereference. *)
Fixpoint slist_remove (l : list loc) (x : loc) : outcome (list loc) :=
  match l with
  | [] => Fault NullDereference
  | y :: l' =>
      if bool_decide (y = x) then Ok l'
      else l' ← slist_remove l' x; Ok (y :: l')
  end.

(** * State and faults

    An operation on a state [S] returns a value and the new state, or ends in a fault. *)

Definition ST (S A : Type) : Type := S → outcome (A * S).

#[export] Instance ST_ret {S} : MRet (ST S) := λ A a s, Ok (a, s).
#[export] Instance ST_bind {S} : MBind (ST S) := λ A B f m s,
  match m s with Ok (a, s') => f a s' | Fault e => Fault e end.

Definition gets {S A} (f : S → A) : ST S A := λ s, Ok (f s, s).
Definition modify {S} (f : S → S) : ST S unit := λ s, Ok ((), f s).
Definition lift {S A} (o : outcome A) : ST S A := λ s,
  match o with Ok a => Ok (a, s) | Fault e => Fault e end.
Definition raise {S A} (e : fault) : ST S A := λ _, Fault e.
(** [p->field] for a pointer that may be NULL. *)
Definition not_null {S A} (p : option A) : ST S A :=
  lift (match p with Some a => Ok a | None => Fault NullDereference end).
Definition when {S} (b : bool) (m : ST S unit) : ST S unit := if b then m else mret ().

Fixpoint for_each {S A} (f : A → ST S unit) (l : list A) : ST S unit :=
  match l with
  | [] => mret ()
  | a :: l' => f a ≫= λ _, for_each f l'
  end.

(** An operation on a part of the state. *)
Definition zoom {S T A} (part : S → T) (set_part : T → S → S) (m : ST T A) : ST S A := λ s,
  match m (part s) with Ok (a, t) => Ok (a, set_part t s) | Fault e => Fault e end.

Section equations.
Context {S : Type}.
Implicit Types s : S.

Lemma bind_eq {A B} (m : ST S A) (f : A → ST S B) s :
  (m ≫= f) s = match m s with Ok (a, s') => f a s' | Fault e => Fault e end.
Proof. done. Qed.
Lemma ret_eq {A} (a : A) s : (mret a : ST S A) s = Ok (a, s).
Proof. done. Qed.
Lemma gets_eq {A} (f : S → A) s : gets f s = Ok (f s, s).
Proof. done. Qed.
Lemma modify_eq f s : modify f s = Ok ((), f s).
Proof. done. Qed.
Lemma lift_eq {A} (a : A) s : lift (Ok a) s = Ok (a, s).
Proof. done. Qed.
Lemma lift_fault_eq {A} e s : (lift (Fault e) : ST S A) s = Fault e.
Proof. done. Qed.
Lemma when_true_eq (m : ST S unit) : when true m = m.
Proof. done. Qed.
Lemma when_false_eq (m : ST S unit) : when false m = mret ().
Proof. done. Qed.
End equations.

(** Runs an operation on a state as far as its conditions are known. *)
Ltac st_simpl :=
  cbv beta iota;
  repeat (first [rewrite bind_eq | rewrite gets_eq | rewrite modify_eq | rewrite lift_eq | rewrite ret_eq
    | rewrite lift_fault_eq | rewrite when_true_eq | rewrite when_false_eq ]; cbv beta iota).

(** Started where [P] holds, [m] does not end in a fault, and [Q] holds of its result. *)
Definition triple {S A} (P : S → Prop) (m : ST S A) (Q : A → S → Prop) : Prop :=
  ∀ s, P s → yields (m s) (λ r, Q r.1 r.2).

Section triple.
Context {S : Type}.
Implicit Types P : S → Prop.

Lemma triple_ret {A} P (a : A) (Q : A → S → Prop) : (∀ s, P s → Q a s) → triple P (mret a) Q.
Proof. intros HQ s HP. exists (a, s). split; [done|by apply HQ]. Qed.

Lemma triple_bind {A B} P (m : ST S A) (f : A → ST S B) Q R :
  triple P m Q → (∀ a, triple (Q a) (f a) R) → triple P (m ≫= f) R.
Proof.
  intros Hm Hf s HP. destruct (Hm s HP) as ([a s'] & Heq & HQ).
  unfold mbind, ST_bind. rewrite Heq. by apply Hf.
Qed.

Lemma triple_gets {A} P (f : S → A) (Q : A → S → Prop) : (∀ s, P s → Q (f s) s) → triple P (gets f) Q.
Proof. intros HQ s HP. exists (f s, s). split; [done|by apply HQ]. Qed.

Lemma triple_modify P (f : S → S) (Q : unit → S → Prop) : (∀ s, P s → Q () (f s)) → triple P (modify f) Q.
Proof. intros HQ s HP. exists ((), f s). split; [done|by apply HQ]. Qed.

Lemma triple_lift {A} P (o : outcome A) (Q : A → S → Prop) :
  (∀ s, P s → ∃ a, o = Ok a ∧ Q a s) → triple P (lift o) Q.
Proof. intros HQ s HP. destruct (HQ s HP) as (a & -> & Ha). by exists (a, s). Qed.

Lemma triple_conseq {A} P P' (m : ST S A) (Q Q' : A → S → Prop) :
  triple P m Q → (∀ s, P' s → P s) → (∀ a s, Q a s → Q' a s) → triple P' m Q'.
Proof. intros Hm HP HQ s Hs. destruct (Hm s (HP s Hs)) as (r & Heq & Hr). exists r. auto. Qed.

(** A precondition can be used to learn facts before the operation is run. *)
Lemma triple_pre {A} P (m : ST S A) Q : (∀ s, P s → triple (eq s) m Q) → triple P m Q.
Proof. intros Hm s HP. exact (Hm s HP s eq_refl). Qed.

Lemma triple_for_each {A} P (f : A → ST S unit) l :
  (∀ a, a ∈ l → triple P (f a) (λ _, P)) → triple P (for_each f l) (λ _, P).
Proof.
  induction l as [|a l IH]; intros Hf; [by apply triple_ret|].
  eapply triple_bind; [apply Hf; left|]. intros []. apply IH. intros b Hb. apply Hf. by right.
Qed.

Lemma triple_zoom {T A} (part : S → T) set_part (m : ST T A) P Q :
  (∀ s, P s → yields (m (part s)) (λ r, Q r.1 (set_part r.2 s))) → triple P (zoom part set_part m) Q.
Proof.
  intros Hm s HP. destruct (Hm s HP) as ([a t] & Heq & HQ). unfold zoom. rewrite Heq.
  by exists (a, set_part t s).
Qed.
End triple.

(** * Reference counts *)

Class RefCounted (A : Type) := {
  count : A → Z;
  set_count : Z → A → A;
  count_set n a : count (set_count n a) = n;
  set_count_set n m a : set_count n (set_count m a) = set_count n a
}.

(** How often [l] is among the references [R]. *)
Definition occurrences (l : loc) (R : list loc) : Z := Z.of_nat (length (filter (eq l) R)).

Lemma occurrences_cons l x R :
  occurrences l (x :: R) = (if decide (l = x) then 1 else 0) + occurrences l R.
Proof. unfold occurrences. rewrite filter_cons. case_decide; cbn [length]; lia. Qed.

Lemma occurrences_app l R R' : occurrences l (R ++ R') = occurrences l R + occurrences l R'.
Proof. unfold occurrences. rewrite filter_app, length_app. lia. Qed.

Lemma occurrences_nonneg l R : 0 ≤ occurrences l R.
Proof. unfold occurrences. lia. Qed.

Lemma occurrences_pos l R : 0 < occurrences l R ↔ l ∈ R.
Proof.
  induction R as [|x R IH]; [split; [done|by intros ?%elem_of_nil]|].
  rewrite occurrences_cons, elem_of_cons, <- IH. pose proof (occurrences_nonneg l R).
  case_decide; split; [by left|lia|lia|]. intros [->|?]; [done|lia].
Qed.

#[export] Instance occurrences_proper l : Proper ((≡ₚ) ==> eq) (occurrences l).
Proof. intros R R' HR. unfold occurrences. by rewrite HR. Qed.

Section refcount.
Context `{RefCounted A}.
Implicit Types (h : gmap loc A) (R : list loc).

Record counted h R : Prop := {
  counted_count l a : h !! l = Some a → count a = occurrences l R;
  counted_live l : l ∈ R → is_Some (h !! l)
}.

#[global] Instance counted_proper h : Proper ((≡ₚ) ==> iff) (counted h).
Proof.
  intros R R' HR. split; intros [Hc Hl]; constructor.
  - intros l a Ha. rewrite <- HR. by apply Hc.
  - intros l Hin. apply Hl. by rewrite HR.
  - intros l a Ha. rewrite HR. by apply Hc.
  - intros l Hin. apply Hl. by rewrite <- HR.
Qed.

(** Changing an object without changing its count. *)
Lemma counted_insert h R l a a' :
  counted h R → h !! l = Some a → count a' = count a → counted (<[l := a']> h) R.
Proof.
  intros [Hc Hl] Ha Heq. constructor.
  - intros x b. destruct (decide (x = l)) as [->|]; [|rewrite lookup_insert_ne by done; apply Hc].
    rewrite lookup_insert_eq. intros [= <-]. rewrite Heq. by apply Hc.
  - intros x Hx. destruct (decide (x = l)) as [->|]; [rewrite lookup_insert_eq; eauto|].
    rewrite lookup_insert_ne by done. by apply Hl.
Qed.

(** A new object, which nobody refers to yet. *)
Lemma counted_new h R l a :
  counted h R → h !! l = None → count a = 0 → counted (<[l := a]> h) R.
Proof.
  intros [Hc Hl] Hnone H0.
  assert (l ∉ R) as Hl' by (intros Hin; destruct (Hl l Hin); congruence). constructor.
  - intros x b. destruct (decide (x = l)) as [->|]; [|rewrite lookup_insert_ne by done; apply Hc].
    rewrite lookup_insert_eq. intros [= <-]. rewrite H0. pose proof (occurrences_nonneg l R).
    destruct (decide (0 < occurrences l R)) as [?%occurrences_pos|]; [done|lia].
  - intros x Hx. rewrite lookup_insert_ne by (intros ->; done). by apply Hl.
Qed.

(** Taking a reference. *)
Lemma counted_get h R l a :
  counted h R → h !! l = Some a → counted (<[l := set_count (count a + 1) a]> h) (l :: R).
Proof.
  intros [Hc Hl] Ha. constructor.
  - intros x b. rewrite occurrences_cons. destruct (decide (x = l)) as [->|].
    + rewrite lookup_insert_eq. intros [= <-]. rewrite count_set, (Hc l a Ha). lia.
    + rewrite lookup_insert_ne by done. intros Hb. rewrite (Hc x b Hb). lia.
  - intros x [->|Hx]%elem_of_cons; [rewrite lookup_insert_eq; eauto|].
    destruct (decide (x = l)) as [->|]; [rewrite lookup_insert_eq; eauto|].
    rewrite lookup_insert_ne by done. by apply Hl.
Qed.

(** Putting a reference back: it is there, and the object goes with the last one. *)
Lemma counted_put_pos h R l : counted h (l :: R) → ∃ a, h !! l = Some a ∧ 0 < count a.
Proof.
  intros [Hc Hl]. destruct (Hl l) as [a Ha]; [left|]. exists a. split; [done|].
  rewrite (Hc l a Ha), occurrences_cons, decide_True by done. pose proof (occurrences_nonneg l R). lia.
Qed.

Lemma counted_put h R l a :
  counted h (l :: R) → h !! l = Some a → count a ≠ 1 → counted (<[l := set_count (count a - 1) a]> h) R.
Proof.
  intros [Hc Hl] Ha Hne. pose proof (Hc l a Ha) as Hca. rewrite occurrences_cons, decide_True in Hca by done.
  constructor.
  - intros x b. destruct (decide (x = l)) as [->|].
    + rewrite lookup_insert_eq. intros [= <-]. rewrite count_set. lia.
    + rewrite lookup_insert_ne by done. intros Hb. rewrite (Hc x b Hb), occurrences_cons, decide_False by done. lia.
  - intros x Hx. destruct (decide (x = l)) as [->|]; [rewrite lookup_insert_eq; eauto|].
    rewrite lookup_insert_ne by done. apply Hl. by right.
Qed.

Lemma counted_put_last h R l a :
  counted h (l :: R) → h !! l = Some a → count a = 1 → counted (delete l h) R.
Proof.
  intros [Hc Hl] Ha H1. pose proof (Hc l a Ha) as Hca. rewrite occurrences_cons, decide_True in Hca by done.
  assert (l ∉ R) as Hl' by (intros Hin%occurrences_pos; lia). constructor.
  - intros x b. rewrite lookup_delete_Some. intros [Hne Hb]. rewrite (Hc x b Hb), occurrences_cons, decide_False by done. lia.
  - intros x Hx. rewrite lookup_delete_ne by (intros ->; done). apply Hl. by right.
Qed.

(** A store with known contents can be checked by evaluation. *)
Lemma counted_checked h R :
  map_Forall (λ l a, count a = occurrences l R) h → Forall (λ l, is_Some (h !! l)) R → counted h R.
Proof. intros Hc Hl. constructor; [done|]. by apply Forall_forall. Qed.
End refcount.

(** * References held by the objects of a store *)

Section holders.
Context {B : Type} (f : B → list loc).
Implicit Types m : gmap loc B.

Definition holders m : list loc := mjoin (f <$> (map_to_list m).*2).

Lemma holders_insert_new m k b : m !! k = None → holders (<[k := b]> m) ≡ₚ f b ++ holders m.
Proof. intros Hk. unfold holders. rewrite map_to_list_insert by done. done. Qed.

Lemma holders_delete m k b : m !! k = Some b → holders m ≡ₚ f b ++ holders (delete k m).
Proof.
  intros Hk. rewrite <- (insert_delete_id m k b Hk) at 1. apply holders_insert_new, lookup_delete_eq.
Qed.

Lemma holders_insert m k b : holders (<[k := b]> m) ≡ₚ f b ++ holders (delete k m).
Proof. rewrite <- insert_delete_eq. apply holders_insert_new, lookup_delete_eq. Qed.

(** A change that keeps the references of the object. *)
Lemma holders_same m k b b' : m !! k = Some b → f b' = f b → holders (<[k := b']> m) ≡ₚ holders m.
Proof. intros Hk Hf. by rewrite holders_insert, Hf, <- holders_delete. Qed.

Lemma elem_of_holders l m : l ∈ holders m ↔ ∃ k b, m !! k = Some b ∧ l ∈ f b.
Proof.
  unfold holders. rewrite list_elem_of_join. setoid_rewrite list_elem_of_fmap. split.
  - intros (ls & Hl & b & -> & Hb). apply list_elem_of_fmap in Hb as ([k b'] & -> & Hkb%elem_of_map_to_list). eauto.
  - intros (k & b & Hkb & Hl). exists (f b). split; [done|]. exists b. split; [done|].
    apply list_elem_of_fmap. exists (k, b). split; [done|]. by apply elem_of_map_to_list.
Qed.
End holders.
