(* ===== verification/Protocol.v ===== *)
(** The protocol interface of src/protocol.h, through which a listener reaches the
    TLS and the HTTP parser. *)

From S2P Require Import Prelude.

(** [parse_packet data data_len hostname]: [data] is the block the pointer points
    into, from the pointer on; the result is the return code and what [*hostname]
    points to afterwards, [None] for NULL.  [malloc] says which allocations succeed. *)
Record Protocol := mkProtocol {
  name : string;
  default_port : Z;
  parse_packet : (Z → bool) → list Z → Z → bool → outcome (Z * option (list Z));
  abort_message : list Z;
  abort_message_len : Z
}.

(** What the documentation above both parsers promises of a result: a nonnegative
    code is the length of a NUL-terminated hostname, and a negative code, an [int], comes with
    no hostname. *)
Definition parse_result_ok (r : Z * option (list Z)) : Prop :=
  match r with
  | (code, Some h) => 0 ≤ code < Zlen h ∧ h !! Z.to_nat code = Some 0
  | (code, None) => - 2 ^ 31 ≤ code < 0
  end.

(** A parser that can be given any data of at least [min] bytes. *)
Class ParserOk (p : Protocol) (min : Z) : Prop := {
  parser_safe malloc data data_len :
    Forall is_byte data → min ≤ data_len ≤ Zlen data → Zlen data < 2 ^ 31 →
    yields (parse_packet p malloc data data_len true) parse_result_ok;
  parser_abort : Zlen (abort_message p) = abort_message_len p;
  parser_abort_bounds : 0 < abort_message_len p ≤ 4096
}.
