(* ===== verification/Buffer.v ===== *)
(** The byte ring buffer of src/buffer.c: its operations, its representation
    invariant, and the refinement of its operations to a bounded FIFO queue. *)

From S2P Require Import Prelude.

(** * Data *)

Record Buffer := mkBuffer {
  buffer    : list Z;  (* the malloc'ed block *)
  size_mask : Z;
  head      : Z;       (* index of first byte of content *)
  len       : Z;       (* size of content *)
  last_recv : Z;       (* ev_tstamp *)
  last_send : Z;
  tx_bytes  : Z;
  rx_bytes  : Z
}.

Record iovec := Iovec { iov_base : Z; iov_len : Z }.

Definition BUFFER_MAX_SIZE : Z := 1024 * 1024 * 1024.

Definition NOT_POWER_OF_2 (x : Z) : bool :=
  (x =? 0) || negb (Z.land x (size_t (x - 1)) =? 0).

Definition buffer_size (b : Buffer) : Z := size_t (size_mask b + 1).
Definition buffer_len (b : Buffer) : Z := len b.
Definition buffer_room (b : Buffer) : Z := size_t (buffer_size b - len b).

Definition set_head (h : Z) (b : Buffer) : Buffer :=
  mkBuffer (buffer b) (size_mask b) h (len b) (last_recv b) (last_send b) (tx_bytes b) (rx_bytes b).
Definition set_block (m : list Z) (b : Buffer) : Buffer :=
  mkBuffer m (size_mask b) (head b) (len b) (last_recv b) (last_send b) (tx_bytes b) (rx_bytes b).
Definition set_last_recv (t : Z) (b : Buffer) : Buffer :=
  mkBuffer (buffer b) (size_mask b) (head b) (len b) t (last_send b) (tx_bytes b) (rx_bytes b).
Definition set_last_send (t : Z) (b : Buffer) : Buffer :=
  mkBuffer (buffer b) (size_mask b) (head b) (len b) (last_recv b) t (tx_bytes b) (rx_bytes b).

(** * Construction

    [struct_block] is whether the [malloc] of the struct succeeds; [data_block] is
    the (uninitialised) block the second [malloc] returns, [None] on failure. *)

Definition new_buffer (size now : Z) (struct_block : bool) (data_block : option (list Z))
    : option Buffer :=
  if NOT_POWER_OF_2 size then None
  else if negb struct_block then None
  else match data_block with
       | None => None
       | Some m => Some (mkBuffer m (size_t (size - 1)) 0 0 now now 0 0)
       end.

(** * I/O vectors over the free and over the used part of the ring *)

(** The assertions both set-up functions make about their result. *)
Definition assert_iov_in (b : Buffer) (v : iovec) (limit : Z) : outcome unit :=
  c_assert (0 <? iov_len v) ≫= λ _,
  c_assert (0 <=? iov_base v) ≫= λ _,
  c_assert (iov_base v + iov_len v <=? limit).

Definition setup_write_iov (b : Buffer) (n : Z) : outcome (list iovec) :=
  let room := size_t (buffer_size b - len b) in
  if room =? 0 then Ok [] else
  let write_len := if negb (n =? 0) then MIN room n else room in
  let start := Z.land (size_t (head b + len b)) (size_mask b) in
  if size_t (start + write_len) <=? buffer_size b then
    let iov0 := Iovec start write_len in
    assert_iov_in b iov0 (buffer_size b) ≫= λ _, Ok [iov0]
  else
    let iov0 := Iovec start (size_t (buffer_size b - start)) in
    let iov1 := Iovec 0 (size_t (write_len - iov_len iov0)) in
    assert_iov_in b iov0 (buffer_size b) ≫= λ _,
    assert_iov_in b iov1 (iov_base iov0) ≫= λ _, Ok [iov0; iov1].

Definition setup_read_iov (b : Buffer) (n : Z) : outcome (list iovec) :=
  if len b =? 0 then Ok [] else
  let read_len := if negb (n =? 0) then MIN n (len b) else len b in
  if size_t (head b + read_len) <=? buffer_size b then
    let iov0 := Iovec (head b) read_len in
    assert_iov_in b iov0 (buffer_size b) ≫= λ _, Ok [iov0]
  else
    let iov0 := Iovec (head b) (size_t (buffer_size b - head b)) in
    let iov1 := Iovec 0 (size_t (read_len - iov_len iov0)) in
    assert_iov_in b iov0 (buffer_size b) ≫= λ _,
    assert_iov_in b iov1 (iov_base iov0) ≫= λ _, Ok [iov0; iov1].

Definition advance_write_position (offset : Z) (b : Buffer) : Buffer :=
  mkBuffer (buffer b) (size_mask b) (head b) (size_t (len b + offset))
    (last_recv b) (last_send b) (tx_bytes b) (size_t (rx_bytes b + offset)).

Definition advance_read_position (offset : Z) (b : Buffer) : Buffer :=
  mkBuffer (buffer b) (size_mask b) (Z.land (size_t (head b + offset)) (size_mask b))
    (size_t (len b - offset)) (last_recv b) (last_send b)
    (size_t (tx_bytes b + offset)) (rx_bytes b).

(** * Copies between the ring and a flat block *)

(** The loop of [buffer_peek]: [dst] is [None] for a NULL destination. *)
Fixpoint peek_loop (src : list Z) (iov : list iovec) (dst : option (list Z)) (copied : Z)
    : outcome (Z * option (list Z)) :=
  match iov with
  | [] => Ok (copied, dst)
  | v :: iov' =>
      dst' ← match dst with
             | None => Ok None
             | Some d =>
                 bs ← load_range src (iov_base v) (iov_len v);
                 d' ← store_range d copied bs; Ok (Some d')
             end;
      peek_loop src iov' dst' (size_t (copied + iov_len v))
  end.

Definition buffer_peek (src : Buffer) (dst : option (list Z)) (n : Z)
    : outcome (Z * option (list Z)) :=
  iov ← setup_read_iov src n;
  peek_loop (buffer src) iov dst 0.

Definition buffer_pop (src : Buffer) (dst : option (list Z)) (n : Z)
    : outcome (Z * option (list Z) * Buffer) :=
  '(bytes, dst') ← buffer_peek src dst n;
  Ok (bytes, dst', if 0 <? bytes then advance_read_position bytes src else src).

(** The loop of [buffer_push]: copies from the flat block [src] into the ring. *)
Fixpoint push_loop (dst : list Z) (iov : list iovec) (src : list Z) (appended : Z)
    : outcome (Z * list Z) :=
  match iov with
  | [] => Ok (appended, dst)
  | v :: iov' =>
      bs ← load_range src appended (iov_len v);
      dst' ← store_range dst (iov_base v) bs;
      push_loop dst' iov' src (size_t (appended + iov_len v))
  end.

Definition buffer_push (dst : Buffer) (src : list Z) (n : Z) : outcome (Z * Buffer) :=
  let dst := if len dst =? 0 then set_head 0 dst else dst in
  if size_t (buffer_size dst - len dst) <? n then Ok (0, dst)
  else
    iov ← setup_write_iov dst n;
    '(bytes_appended, m) ← push_loop (buffer dst) iov src 0;
    let dst := set_block m dst in
    Ok (bytes_appended,
        if 0 <? bytes_appended then advance_write_position bytes_appended dst else dst).

(** [dst] of [buffer_coalesce] is returned as the offset of the region in the block;
    [temp] is the block its [malloc] returns. *)
Definition buffer_coalesce (b : Buffer) (temp : option (list Z))
    : outcome (Z * Z * Buffer) :=
  let buffer_tail := Z.land (size_t (head b + len b)) (size_mask b) in
  if buffer_tail <=? head b then Ok (head b, len b, b)
  else
    let l := len b in
    b' ← match temp with
         | None => Ok b
         | Some t =>
             '(_, t', b1) ← buffer_pop b (Some t) l;
             c_assert (len b1 =? 0) ≫= λ _,
             '(_, b2) ← buffer_push b1 (default [] t') l;
             c_assert (head b2 =? 0) ≫= λ _,
             c_assert (len b2 =? l) ≫= λ _, Ok b2
         end;
    Ok (0, len b', b').

(** [new_block] is what the [malloc] of the new block returns. *)
Definition buffer_resize (b : Buffer) (new_size : Z) (new_block : option (list Z))
    : outcome (Z * Buffer) :=
  if NOT_POWER_OF_2 new_size then Ok (-4, b)
  else if BUFFER_MAX_SIZE <? new_size then Ok (-3, b)
  else if new_size <? len b then Ok (-1, b)
  else match new_block with
       | None => Ok (-2, b)
       | Some m =>
           '(_, m') ← buffer_peek b (Some m) new_size;
           Ok (len b, mkBuffer (default [] m') (size_t (new_size - 1)) 0 (len b)
                 (last_recv b) (last_send b) (tx_bytes b) (rx_bytes b))
       end.

(** * Transfers from and to a descriptor

    The kernel's side of a transfer is a value: the bytes a read delivered, the
    number of bytes a write took, or an error. *)

Inductive recv_result : Type :=
  | Received (bs : list Z)      (* the bytes the call stored; none: end of stream *)
  | RecvError (errno : Z).

Inductive send_result : Type :=
  | Sent (n : Z)                (* how many of the offered bytes were taken *)
  | SendError (errno : Z).

Definition recv_ret (r : recv_result) : Z :=
  match r with Received bs => Zlen bs | RecvError _ => -1 end.
Definition send_ret (r : send_result) : Z :=
  match r with Sent n => n | SendError _ => -1 end.

Definition iov_capacity (iov : list iovec) : Z := foldr (λ v n, iov_len v + n) 0 iov.

(** The kernel scatters the delivered bytes over the vector, in order. *)
Fixpoint scatter (m : list Z) (iov : list iovec) (bs : list Z) : outcome (list Z) :=
  match iov with
  | [] => match bs with [] => Ok m | _ => Fault OutOfBounds end
  | v :: iov' =>
      m' ← store_range m (iov_base v) (take (Z.to_nat (iov_len v)) bs);
      scatter m' iov' (drop (Z.to_nat (iov_len v)) bs)
  end.

(** The bytes the kernel gathers from the vector. *)
Fixpoint gather (m : list Z) (iov : list iovec) : outcome (list Z) :=
  match iov with
  | [] => Ok []
  | v :: iov' =>
      bs ← load_range m (iov_base v) (iov_len v);
      rest ← gather m iov'; Ok (bs ++ rest)
  end.

(** The common part of [buffer_recv] and [buffer_read]. *)
Definition receive_into (b : Buffer) (r : recv_result) : outcome (Z * Buffer) :=
  let b := if len b =? 0 then set_head 0 b else b in
  iov ← setup_write_iov b 0;
  m ← match r with Received bs => scatter (buffer b) iov bs | RecvError _ => Ok (buffer b) end;
  let b := set_block m b in
  let bytes := recv_ret r in
  Ok (bytes, if 0 <? bytes then advance_write_position bytes b else b).

Definition buffer_recv (b : Buffer) (r : recv_result) (now : Z) : outcome (Z * Buffer) :=
  '(bytes, b') ← receive_into b r; Ok (bytes, set_last_recv now b').

Definition buffer_read (b : Buffer) (r : recv_result) : outcome (Z * Buffer) :=
  receive_into b r.

(** The common part of [buffer_send] and [buffer_write], with the bytes the kernel
    took off the vector. *)
Definition transmit_from (b : Buffer) (r : send_result) : outcome (Z * list Z * Buffer) :=
  iov ← setup_read_iov b 0;
  all ← gather (buffer b) iov;
  let bytes := send_ret r in
  Ok (bytes, take (Z.to_nat bytes) all,
      if 0 <? bytes then advance_read_position bytes b else b).

Definition buffer_send (b : Buffer) (r : send_result) (now : Z) : outcome (Z * list Z * Buffer) :=
  '(bytes, sent, b') ← transmit_from b r; Ok (bytes, sent, set_last_send now b').

Definition buffer_write (b : Buffer) (r : send_result) : outcome (Z * list Z * Buffer) :=
  transmit_from b r.

(** * Representation invariant and abstraction *)

(** Every size the program allocates is a power of two below [PTRDIFF_MAX], which
    bounds what [malloc] can return. *)
Record buffer_wf (b : Buffer) : Prop := {
  wf_mask : ∃ k, 0 ≤ k ≤ 62 ∧ size_mask b = 2 ^ k - 1;
  wf_block : Zlen (buffer b) = size_mask b + 1;
  wf_head : 0 ≤ head b ≤ size_mask b;
  wf_len : 0 ≤ len b ≤ size_mask b + 1;
  wf_tx : 0 ≤ tx_bytes b < 2 ^ 64;
  wf_rx : rx_bytes b = size_t (tx_bytes b + len b)
}.

(** The queue of bytes a buffer holds, oldest first. *)
Definition contents (b : Buffer) : list Z :=
  take (Z.to_nat (len b))
    (drop (Z.to_nat (head b)) (buffer b) ++ take (Z.to_nat (head b)) (buffer b)).

(** ** Arithmetic of the mask *)

Lemma NOT_POWER_OF_2_spec x :
  0 ≤ x < 2 ^ 64 → NOT_POWER_OF_2 x = false ↔ ∃ k, 0 ≤ k ∧ x = 2 ^ k.
Proof.
  intros Hx. unfold NOT_POWER_OF_2. rewrite orb_false_iff, negb_false_iff, Z.eqb_neq, Z.eqb_eq.
  split.
  - intros [Hnz Hland]. rewrite size_t_small in Hland by lia.
    exists (Z.log2 x). split; [apply Z.log2_nonneg|].
    destruct (Z.log2_spec x) as [Hlo Hhi]; [lia|].
    destruct (decide (x = 2 ^ Z.log2 x)) as [|Hne]; [done|exfalso].
    assert (Z.log2 (x - 1) = Z.log2 x) as Heq.
    { apply Z.log2_unique; [apply Z.log2_nonneg|]. lia. }
    assert (Z.testbit (Z.land x (x - 1)) (Z.log2 x) = true) as Hbit.
    { rewrite Z.land_spec, Z.bit_log2 by lia. rewrite <- Heq.
      apply Z.bit_log2. pose proof (Z.log2_nonneg x).
      pose proof (Z.pow_pos_nonneg 2 (Z.log2 x)). lia. }
    rewrite Hland, Z.bits_0 in Hbit. done.
  - intros (k & Hk & ->). pose proof (Z.pow_pos_nonneg 2 k ltac:(lia) Hk).
    split; [lia|]. rewrite size_t_small by lia.
    rewrite Z.sub_1_r, <- Z.ones_equiv, Z.land_ones by done. apply Z.mod_same. lia.
Qed.

Lemma wf_size b : buffer_wf b → buffer_size b = size_mask b + 1 ∧ 0 ≤ size_mask b < 2 ^ 62.
Proof.
  intros H. destruct (wf_mask b H) as (k & Hk & Hm). unfold buffer_size. rewrite Hm.
  assert (0 < 2 ^ k) by (apply Z.pow_pos_nonneg; lia).
  assert (2 ^ k ≤ 2 ^ 62) by (apply Z.pow_le_mono_r; lia).
  rewrite size_t_small; lia.
Qed.

(** Masking an index that is at most one lap ahead. *)
Lemma mask_index b i :
  buffer_wf b → 0 ≤ i < 2 * (size_mask b + 1) →
  Z.land (size_t i) (size_mask b) =
    if decide (i ≤ size_mask b) then i else i - (size_mask b + 1).
Proof.
  intros H Hi. destruct (wf_size b H) as [_ Hsz].
  destruct (wf_mask b H) as (k & Hk & Hm). rewrite size_t_small by lia.
  rewrite Hm in *. rewrite Z.sub_1_r, <- Z.ones_equiv, Z.land_ones by lia.
  rewrite Z.ones_equiv, <- Z.sub_1_r in *.
  case_decide; [apply Z.mod_small; lia|].
  symmetry. apply (Z.mod_unique_pos _ _ 1); lia.
Qed.

(** ** Reading the abstraction *)

Lemma lookup_contents b i :
  buffer_wf b →
  contents b !! i =
    if decide (Z.of_nat i < len b) then
      buffer b !! Z.to_nat (if decide (head b + Z.of_nat i ≤ size_mask b)
                            then head b + Z.of_nat i
                            else head b + Z.of_nat i - (size_mask b + 1))
    else None.
Proof.
  intros H. destruct H as [_ Hblk Hhead Hlen _ _]. unfold contents, Zlen in *.
  case_decide; [|apply lookup_take_ge; lia].
  rewrite lookup_take_lt by lia. case_decide.
  - rewrite lookup_app_l by (rewrite length_drop; lia).
    rewrite lookup_drop. f_equal. lia.
  - rewrite lookup_app_r; rewrite length_drop; [|lia].
    rewrite lookup_take_lt by lia. f_equal. lia.
Qed.

Lemma Zlen_contents b : buffer_wf b → Zlen (contents b) = len b.
Proof.
  intros [_ Hblk Hhead Hlen _ _]. unfold contents, Zlen in *.
  rewrite length_take, length_app, length_drop, length_take. lia.
Qed.

(** ** The regions of a ring

    Both set-up functions describe [k] bytes of the ring from index [start]. *)

Definition ring_iov (size start k : Z) : list iovec :=
  if k =? 0 then []
  else if start + k <=? size then [Iovec start k]
  else [Iovec start (size - start); Iovec 0 (start + k - size)].

Definition ring_slice (m : list Z) (start k : Z) : list Z :=
  take (Z.to_nat k) (drop (Z.to_nat start) m ++ take (Z.to_nat start) m).

Definition ring_splice (m : list Z) (start : Z) (bs : list Z) : list Z :=
  let room := Zlen m - start in
  if Zlen bs <=? room then splice m start bs
  else splice (splice m start (slice bs 0 room)) 0 (slice bs room (Zlen bs - room)).

(** Equality of I/O vectors up to arithmetic. *)
Ltac iov_eq :=
  repeat match goal with
  | |- Ok _ = Ok _ => f_equal
  | |- _ :: _ = _ :: _ => f_equal
  | |- Iovec _ _ = Iovec _ _ => f_equal
  | |- @eq Z _ _ => lia
  | |- _ => reflexivity
  end.

Lemma setup_read_iov_Ok b n :
  buffer_wf b → 0 ≤ n →
  setup_read_iov b n =
    Ok (ring_iov (size_mask b + 1) (head b) (if n =? 0 then len b else Z.min n (len b))).
Proof.
  intros H Hn. destruct (wf_size b H) as [Hsz Hm].
  destruct (wf_head b H), (wf_len b H). unfold setup_read_iov, ring_iov. rewrite Hsz, MIN_min.
  destruct (Z.eqb_spec (len b) 0) as [He|]; destruct (Z.eqb_spec n 0); cbn [negb].
  1, 2: rewrite ?He; zcase; done.
  all: unfold assert_iov_in; cbn [iov_len iov_base]; crun; iov_eq.
Qed.

Lemma setup_write_iov_Ok b n :
  buffer_wf b → 0 ≤ n →
  setup_write_iov b n =
    Ok (ring_iov (size_mask b + 1)
          (if decide (head b + len b ≤ size_mask b) then head b + len b
           else head b + len b - (size_mask b + 1))
          (let room := size_mask b + 1 - len b in
           if n =? 0 then room else Z.min room n)).
Proof.
  intros H Hn. destruct (wf_size b H) as [Hsz Hm].
  destruct (wf_head b H), (wf_len b H). unfold setup_write_iov, ring_iov.
  rewrite mask_index by (done || lia). rewrite Hsz, MIN_min.
  rewrite (size_t_small (size_mask b + 1 - len b)) by lia.
  unfold assert_iov_in. cbn [iov_len iov_base].
  destruct (Z.eqb_spec (size_mask b + 1 - len b) 0) as [He|]; cbn zeta.
  { rewrite He. destruct (Z.eqb_spec n 0); zcase; done. }
  destruct (Z.eqb_spec n 0); cbn [negb]; case_decide; crun; iov_eq.
Qed.

(** ** Copying through the regions *)

Section ring.
Context (m : list Z) (start k : Z).
Context (Hstart : 0 ≤ start) (Hk : 0 ≤ k) (Hk_le : k ≤ Zlen m) (Hstart_lt : start < Zlen m).

Lemma ring_slice_flat : start + k ≤ Zlen m → ring_slice m start k = slice m start k.
Proof.
  intros. unfold ring_slice, slice, Zlen in *.
  rewrite take_app_le; [done|]. rewrite length_drop. lia.
Qed.

Lemma ring_slice_wrap :
  Zlen m < start + k →
  ring_slice m start k = slice m start (Zlen m - start) ++ slice m 0 (start + k - Zlen m).
Proof.
  intros. unfold ring_slice, slice, Zlen in *.
  rewrite take_app, length_drop, drop_0, take_take. f_equal.
  - by rewrite !take_ge by (rewrite length_drop; lia).
  - f_equal. lia.
Qed.

Lemma Zlen_ring_slice : Zlen (ring_slice m start k) = k.
Proof.
  unfold ring_slice, Zlen in *.
  rewrite length_take, length_app, length_drop, length_take. lia.
Qed.

Lemma gather_ring : gather m (ring_iov (Zlen m) start k) = Ok (ring_slice m start k).
Proof.
  unfold ring_iov. destruct (Z.eqb_spec k 0) as [->|]; [done|].
  destruct (Z.leb_spec (start + k) (Zlen m)); cbn [gather iov_base iov_len].
  - rewrite load_range_Ok by lia. outcome_simpl. by rewrite app_nil_r, ring_slice_flat.
  - rewrite !load_range_Ok by lia. outcome_simpl. by rewrite app_nil_r, ring_slice_wrap.
Qed.

(** The loop of [buffer_peek] writes the region at the front of the destination. *)
Lemma peek_loop_ring d :
  k ≤ Zlen d → Zlen m < 2 ^ 63 →
  peek_loop m (ring_iov (Zlen m) start k) (Some d) 0 =
    Ok (k, Some (splice d 0 (ring_slice m start k))).
Proof.
  intros Hd Hsz. unfold ring_iov. destruct (Z.eqb_spec k 0) as [->|]; [done|].
  destruct (Z.leb_spec (start + k) (Zlen m)); cbn [peek_loop iov_base iov_len].
  - rewrite load_range_Ok by lia. outcome_simpl.
    rewrite store_range_Ok by (rewrite ?Zlen_slice; lia).
    outcome_simpl. cbn [peek_loop]. nowrap. by rewrite ring_slice_flat.
  - rewrite !load_range_Ok by lia. outcome_simpl.
    rewrite (store_range_Ok d) by (rewrite ?Zlen_slice; lia). outcome_simpl. nowrap.
    rewrite store_range_Ok by (rewrite ?Zlen_splice; rewrite ?Zlen_slice; lia).
    outcome_simpl. cbn [peek_loop]. nowrap. do 2 f_equal; [lia|]. f_equal.
    rewrite ring_slice_wrap by lia.
    set (s1 := slice m start (Zlen m - start)). set (s2 := slice m 0 (start + k - Zlen m)).
    assert (Zlen s1 = Zlen m - start) as H1 by (apply Zlen_slice; lia).
    assert (Zlen s2 = start + k - Zlen m) as H2 by (apply Zlen_slice; lia).
    apply list_eq. intros i.
    rewrite !lookup_splice by (rewrite ?Zlen_splice, ?Zlen_app; lia).
    rewrite Zlen_app. repeat case_decide; try lia; try done.
    + rewrite lookup_app_r by (unfold Zlen in *; lia). f_equal. unfold Zlen in *. lia.
    + rewrite lookup_app_l by (unfold Zlen in *; lia). done.
Qed.

Lemma peek_loop_null iov c : ∃ c', peek_loop m iov None c = Ok (c', None).
Proof. revert c. induction iov as [|v iov IH]; intros c; cbn; eauto. Qed.

Lemma peek_loop_ring_null :
  Zlen m < 2 ^ 63 → peek_loop m (ring_iov (Zlen m) start k) None 0 = Ok (k, None).
Proof.
  intros. unfold ring_iov. destruct (Z.eqb_spec k 0) as [->|]; [done|].
  destruct (Z.leb_spec (start + k) (Zlen m)); cbn; nowrap; do 2 f_equal; lia.
Qed.

Lemma Zlen_ring_splice bs :
  Zlen bs = k → Zlen (ring_splice m start bs) = Zlen m.
Proof.
  intros Hbs. unfold ring_splice. rewrite Hbs. zcase.
  - rewrite Zlen_splice; lia.
  - rewrite !Zlen_splice; rewrite ?Zlen_splice, ?Zlen_slice; rewrite ?Zlen_slice; lia.
Qed.

Lemma lookup_ring_splice bs i :
  Zlen bs = k →
  ring_splice m start bs !! i =
    if decide (start ≤ Z.of_nat i < Z.min (start + k) (Zlen m))
    then bs !! Z.to_nat (Z.of_nat i - start)
    else if decide (Z.of_nat i < start + k - Zlen m)
    then bs !! Z.to_nat (Z.of_nat i + Zlen m - start)
    else m !! i.
Proof.
  intros Hbs. unfold ring_splice. rewrite Hbs. zcase.
  - rewrite lookup_splice by lia. rewrite Hbs. repeat case_decide; done || lia.
  - assert (Zlen (slice bs 0 (Zlen m - start)) = Zlen m - start) as H1 by (apply Zlen_slice; lia).
    assert (Zlen (slice bs (Zlen m - start) (k - (Zlen m - start)))
            = k - (Zlen m - start)) as H2 by (apply Zlen_slice; lia).
    rewrite lookup_splice by (rewrite ?Zlen_splice; lia). rewrite H2.
    rewrite lookup_splice, H1 by lia. rewrite !lookup_slice by lia.
    repeat case_decide; try lia; try done; f_equal; lia.
Qed.

(** Scattering bytes over the region; the same effect as the loop of [buffer_push]. *)
Lemma push_loop_ring src :
  k ≤ Zlen src → Zlen m < 2 ^ 63 →
  push_loop m (ring_iov (Zlen m) start k) src 0 =
    Ok (k, ring_splice m start (slice src 0 k)).
Proof.
  intros Hsrc Hsz. unfold ring_iov, ring_splice. rewrite (Zlen_slice src 0 k) by lia.
  destruct (Z.eqb_spec k 0) as [->|].
  { zcase. by rewrite slice_0, splice_nil. }
  zcase; cbn [push_loop iov_base iov_len].
  - rewrite load_range_Ok by lia. outcome_simpl.
    rewrite store_range_Ok by (rewrite ?Zlen_slice; lia). outcome_simpl.
    cbn [push_loop]. nowrap. done.
  - nowrap. rewrite !load_range_Ok by lia. outcome_simpl.
    rewrite (store_range_Ok m) by (rewrite ?Zlen_slice; lia). outcome_simpl.
    rewrite store_range_Ok by (rewrite ?Zlen_splice; rewrite ?Zlen_slice; lia).
    outcome_simpl. cbn [push_loop]. nowrap. do 2 f_equal; [lia|].
    f_equal; [f_equal|]; apply list_eq; intros i; rewrite !lookup_slice by lia;
      repeat case_decide; try lia; try done; rewrite ?lookup_slice by lia;
      repeat case_decide; try lia; f_equal; lia.
Qed.
End ring.

Lemma scatter_ring m start k bs :
  0 ≤ start < Zlen m → Zlen bs ≤ k ≤ Zlen m →
  scatter m (ring_iov (Zlen m) start k) bs = Ok (ring_splice m start bs).
Proof.
  intros Hs Hk. pose proof (Zlen_nonneg bs). unfold ring_iov, ring_splice.
  destruct (Z.eqb_spec k 0) as [->|].
  { destruct bs; [|rewrite Zlen_cons in *; pose proof (Zlen_nonneg bs); lia].
    zcase. by rewrite splice_nil. }
  destruct (Z.leb_spec (start + k) (Zlen m)); cbn [scatter iov_base iov_len].
  - rewrite take_ge, drop_ge by (unfold Zlen in *; lia).
    rewrite store_range_Ok by lia. outcome_simpl. cbn [scatter]. zcase. done.
  - destruct (Z.leb_spec (Zlen bs) (Zlen m - start)).
    + rewrite (take_ge bs), (drop_ge bs) by (unfold Zlen in *; lia).
      rewrite store_range_Ok by lia. outcome_simpl. rewrite take_nil, drop_nil.
      rewrite store_range_Ok by (rewrite ?Zlen_splice by lia; unfold Zlen in *; simpl; lia).
      cbn [scatter]. outcome_simpl. by rewrite splice_nil.
    + change (take (Z.to_nat (Zlen m - start)) bs) with (slice bs 0 (Zlen m - start)).
      rewrite store_range_Ok by (rewrite ?Zlen_slice; lia). outcome_simpl.
      rewrite drop_drop, (drop_ge bs (_ + _)) by (unfold Zlen in *; lia).
      rewrite (take_ge (drop _ bs)) by (unfold Zlen in *; rewrite length_drop; lia).
      assert (slice bs (Zlen m - start) (Zlen bs - (Zlen m - start))
              = drop (Z.to_nat (Zlen m - start)) bs) as Heq.
      { unfold slice. apply take_ge. unfold Zlen in *. rewrite length_drop. lia. }
      rewrite <- Heq. rewrite store_range_Ok by
        (rewrite ?Zlen_splice; rewrite ?Zlen_slice; lia).
      outcome_simpl. done.
Qed.

(** * One step of the queue *)

Lemma contents_length b : buffer_wf b → length (contents b) = Z.to_nat (len b).
Proof. intros H. pose proof (Zlen_contents b H). unfold Zlen in *. lia. Qed.

(** Reading into an empty buffer restarts at the beginning of the block. *)
Definition rewind (b : Buffer) : Buffer := if len b =? 0 then set_head 0 b else b.

Lemma rewind_spec b :
  buffer_wf b → buffer_wf (rewind b) ∧ contents (rewind b) = contents b ∧
  size_mask (rewind b) = size_mask b ∧ len (rewind b) = len b ∧
  tx_bytes (rewind b) = tx_bytes b ∧ rx_bytes (rewind b) = rx_bytes b.
Proof.
  intros H. pose proof (wf_size b H). unfold rewind. destruct (Z.eqb_spec (len b) 0) as [He|]; [|done].
  repeat split; try apply H; cbn; try lia.
  unfold contents. cbn [set_head len head buffer]. by rewrite He.
Qed.

(** The index at which the next byte is stored. *)
Definition write_index (b : Buffer) : Z :=
  if decide (head b + len b ≤ size_mask b) then head b + len b
  else head b + len b - (size_mask b + 1).

Lemma write_index_range b :
  buffer_wf b → len b ≤ size_mask b + 1 → 0 ≤ write_index b < size_mask b + 1.
Proof.
  intros H. destruct (wf_head b H), (wf_len b H). unfold write_index. case_decide; lia.
Qed.

Definition appended (b : Buffer) (bs : list Z) : Buffer :=
  advance_write_position (Zlen bs) (set_block (ring_splice (buffer b) (write_index b) bs) b).

Lemma appended_spec b bs :
  buffer_wf b → len b + Zlen bs ≤ size_mask b + 1 →
  buffer_wf (appended b bs) ∧ contents (appended b bs) = contents b ++ bs ∧
  len (appended b bs) = len b + Zlen bs ∧ size_mask (appended b bs) = size_mask b ∧
  tx_bytes (appended b bs) = tx_bytes b ∧
  rx_bytes (appended b bs) = size_t (rx_bytes b + Zlen bs) ∧
  head (appended b bs) = head b.
Proof.
  intros H Hroom. pose proof (Zlen_nonneg bs). destruct (wf_size b H) as [_ Hm].
  pose proof (wf_block b H) as Hblk. destruct (wf_head b H), (wf_len b H).
  pose proof (write_index_range b H ltac:(lia)) as Hwi.
  assert (len (appended b bs) = len b + Zlen bs) as Hl by (cbn; nowrap; done).
  assert (buffer_wf (appended b bs)) as Hwf.
  { constructor; rewrite ?Hl; try apply H; cbn; try lia.
    - rewrite (Zlen_ring_splice _ _ (Zlen bs)); lia.
    - by rewrite (wf_rx b H), size_t_idemp_add_l, Z.add_assoc. }
  split_and!; try done. apply list_eq. intros i.
  rewrite (lookup_contents _ _ Hwf), Hl. cbn [appended advance_write_position set_block
    buffer head size_mask].
  destruct (decide (Z.of_nat i < len b)).
  - rewrite lookup_app_l by (rewrite contents_length; [lia|done]).
    rewrite (lookup_contents _ _ H). rewrite !decide_True by lia.
    rewrite (lookup_ring_splice _ _ (Zlen bs)) by lia.
    unfold write_index. repeat case_decide; try lia; done.
  - rewrite lookup_app_r; rewrite contents_length by done; [|lia].
    case_decide; [|symmetry; apply lookup_ge_None_2; unfold Zlen in *; lia].
    rewrite (lookup_ring_splice _ _ (Zlen bs)) by lia.
    unfold write_index in *. repeat case_decide; try lia; f_equal; lia.
Qed.

Lemma advance_read_spec b n :
  buffer_wf b → 0 ≤ n ≤ len b →
  buffer_wf (advance_read_position n b) ∧
  contents (advance_read_position n b) = drop (Z.to_nat n) (contents b) ∧
  len (advance_read_position n b) = len b - n ∧
  rx_bytes (advance_read_position n b) = rx_bytes b ∧
  tx_bytes (advance_read_position n b) = size_t (tx_bytes b + n).
Proof.
  intros H Hn. destruct (wf_size b H) as [_ Hm].
  pose proof (wf_block b H) as Hblk. destruct (wf_head b H), (wf_len b H).
  assert (len (advance_read_position n b) = len b - n) as Hl by (cbn; nowrap; done).
  assert (head (advance_read_position n b) =
          if decide (head b + n ≤ size_mask b) then head b + n
          else head b + n - (size_mask b + 1)) as Hh by (cbn; rewrite mask_index; done || lia).
  assert (buffer_wf (advance_read_position n b)) as Hwf.
  { constructor; rewrite ?Hl, ?Hh; try apply H; cbn; try lia.
    - case_decide; lia.
    - apply size_t_range.
    - rewrite (wf_rx b H), size_t_idemp_add_l by lia. f_equal. lia. }
  split_and!; try done. apply list_eq. intros i.
  rewrite (lookup_contents _ _ Hwf), lookup_drop, (lookup_contents _ _ H), Hl, Hh.
  cbn [advance_read_position buffer size_mask].
  repeat case_decide; try lia; try done; f_equal; lia.
Qed.

(** * The operations as steps of the queue *)

(** How many bytes a read of at most [n] covers; zero asks for everything. *)
Definition read_amount (b : Buffer) (n : Z) : Z := if n =? 0 then len b else Z.min n (len b).

Lemma read_amount_range b n : buffer_wf b → 0 ≤ n → 0 ≤ read_amount b n ≤ len b.
Proof. intros H ?. destruct (wf_len b H). unfold read_amount. zcase. Qed.

Lemma take_contents b k :
  buffer_wf b → 0 ≤ k ≤ len b →
  ring_slice (buffer b) (head b) k = take (Z.to_nat k) (contents b).
Proof. intros H ?. unfold ring_slice, contents. rewrite take_take. f_equal. lia. Qed.

Lemma buffer_peek_Ok b d n :
  buffer_wf b → 0 ≤ n → read_amount b n ≤ Zlen d →
  buffer_peek b (Some d) n =
    Ok (read_amount b n, Some (splice d 0 (take (Z.to_nat (read_amount b n)) (contents b)))).
Proof.
  intros H Hn Hd. pose proof (read_amount_range b n H Hn).
  destruct (wf_size b H), (wf_head b H), (wf_len b H). pose proof (wf_block b H) as Hblk.
  unfold buffer_peek. rewrite setup_read_iov_Ok by done. outcome_simpl.
  fold (read_amount b n). rewrite <- Hblk. rewrite peek_loop_ring by lia.
  by rewrite take_contents.
Qed.

Lemma buffer_peek_null b n :
  buffer_wf b → 0 ≤ n → buffer_peek b None n = Ok (read_amount b n, None).
Proof.
  intros H Hn. pose proof (read_amount_range b n H Hn).
  destruct (wf_size b H), (wf_head b H), (wf_len b H). pose proof (wf_block b H) as Hblk.
  unfold buffer_peek. rewrite setup_read_iov_Ok by done. outcome_simpl.
  fold (read_amount b n). rewrite <- Hblk. apply peek_loop_ring_null; lia.
Qed.

(** The state of a queue operation's result, shared by every reading operation. *)
Definition consumed (b : Buffer) (n : Z) (b' : Buffer) : Prop :=
  buffer_wf b' ∧ contents b' = drop (Z.to_nat n) (contents b) ∧
  len b' = len b - n ∧ size_mask b' = size_mask b ∧
  rx_bytes b' = rx_bytes b ∧ tx_bytes b' = size_t (tx_bytes b + n).

(** ... and by every writing operation. *)
Definition extended (b : Buffer) (bs : list Z) (b' : Buffer) : Prop :=
  buffer_wf b' ∧ contents b' = contents b ++ bs ∧
  len b' = len b + Zlen bs ∧ size_mask b' = size_mask b ∧
  tx_bytes b' = tx_bytes b ∧ rx_bytes b' = size_t (rx_bytes b + Zlen bs).

Lemma consumed_advance b n :
  buffer_wf b → 0 ≤ n ≤ len b →
  consumed b n (if 0 <? n then advance_read_position n b else b).
Proof.
  intros H Hn. unfold consumed. zcase.
  - destruct (advance_read_spec b n) as (?&?&?&?&?); done.
  - assert (n = 0) as -> by lia. rewrite Z.sub_0_r, Z.add_0_r.
    split_and!; try done. rewrite size_t_small; [done|apply H].
Qed.

Lemma extended_refl b : buffer_wf b → extended b [] b.
Proof.
  intros H. unfold extended. rewrite Zlen_nil, app_nil_r, !Z.add_0_r.
  split_and!; try done. rewrite (wf_rx b H). by rewrite <- (Z.add_0_l (size_t _)), size_t_idemp_add_r.
Qed.

Lemma extended_rewind b bs b' :
  buffer_wf b → extended (rewind b) bs b' → extended b bs b'.
Proof.
  intros H. destruct (rewind_spec b H) as (?&Hc&Hm&Hl&Ht&Hr).
  unfold extended. by rewrite Hc, Hm, Hl, Ht, Hr.
Qed.

Lemma extended_appended b bs :
  buffer_wf b → len b + Zlen bs ≤ size_mask b + 1 → extended b bs (appended b bs).
Proof. intros H ?. destruct (appended_spec b bs) as (?&?&?&?&?&?&?); done. Qed.

Lemma buffer_pop_Ok b d n :
  buffer_wf b → 0 ≤ n → read_amount b n ≤ Zlen d →
  ∃ b', buffer_pop b (Some d) n =
          Ok (read_amount b n,
              Some (splice d 0 (take (Z.to_nat (read_amount b n)) (contents b))), b') ∧
        consumed b (read_amount b n) b'.
Proof.
  intros H Hn Hd. unfold buffer_pop. rewrite buffer_peek_Ok by done. outcome_simpl.
  eexists. split; [done|]. apply consumed_advance; [done|]. by apply read_amount_range.
Qed.

Lemma buffer_pop_null b n :
  buffer_wf b → 0 ≤ n →
  ∃ b', buffer_pop b None n = Ok (read_amount b n, None, b') ∧ consumed b (read_amount b n) b'.
Proof.
  intros H Hn. unfold buffer_pop. rewrite buffer_peek_null by done. outcome_simpl.
  eexists. split; [done|]. apply consumed_advance; [done|]. by apply read_amount_range.
Qed.

Lemma buffer_push_eq b src n :
  buffer_push b src n =
    (if size_t (buffer_size (rewind b) - len (rewind b)) <? n then Ok (0, rewind b)
     else
       iov ← setup_write_iov (rewind b) n;
       '(bytes_appended, m) ← push_loop (buffer (rewind b)) iov src 0;
       Ok (bytes_appended,
           if 0 <? bytes_appended
           then advance_write_position bytes_appended (set_block m (rewind b))
           else set_block m (rewind b))).
Proof. done. Qed.

Lemma buffer_push_full b src n :
  buffer_wf b → size_mask b + 1 - len b < n →
  buffer_push b src n = Ok (0, rewind b) ∧ extended b [] (rewind b).
Proof.
  intros H Hn. destruct (rewind_spec b H) as (Hwf & Hc & Hm & Hl & Ht & Hr).
  destruct (wf_size _ Hwf) as [Hsz ?], (wf_len b H).
  split; [|by apply extended_rewind, extended_refl].
  rewrite buffer_push_eq, Hsz, Hl, Hm. crun. done.
Qed.

Lemma buffer_push_fits b src n :
  buffer_wf b → 0 < n ≤ Zlen src → len b + n ≤ size_mask b + 1 →
  buffer_push b src n = Ok (n, appended (rewind b) (slice src 0 n)) ∧
  extended b (slice src 0 n) (appended (rewind b) (slice src 0 n)).
Proof.
  intros H Hn Hroom. destruct (rewind_spec b H) as (Hwf & Hc & Hm & Hl & Ht & Hr).
  destruct (wf_size _ Hwf) as [Hsz ?], (wf_len b H).
  assert (Zlen (slice src 0 n) = n) as Hn' by (apply Zlen_slice; lia).
  split; [|apply extended_rewind, extended_appended; try done; lia].
  rewrite buffer_push_eq, Hsz, Hl, Hm. crun.
  rewrite setup_write_iov_Ok by (done || lia). outcome_simpl.
  fold (write_index (rewind b)). cbn zeta. zcase. rewrite Z.min_r by lia.
  pose proof (write_index_range _ Hwf) as Hwi. rewrite <- (wf_block _ Hwf).
  rewrite push_loop_ring by (rewrite ?(wf_block _ Hwf); lia). outcome_simpl. zcase.
  unfold appended. by rewrite Hn'.
Qed.

Lemma receive_into_eq b r :
  receive_into b r =
    (iov ← setup_write_iov (rewind b) 0;
     m ← match r with
         | Received bs => scatter (buffer (rewind b)) iov bs
         | RecvError _ => Ok (buffer (rewind b))
         end;
     Ok (recv_ret r,
         if 0 <? recv_ret r then advance_write_position (recv_ret r) (set_block m (rewind b))
         else set_block m (rewind b))).
Proof. done. Qed.

Definition received_bytes (r : recv_result) : list Z :=
  match r with Received bs => bs | RecvError _ => [] end.

(** What POSIX promises of a receive: no more bytes than the vector has room for. *)
Definition recv_fits (b : Buffer) (r : recv_result) : Prop :=
  Zlen (received_bytes r) ≤ size_mask b + 1 - len b.

Lemma receive_into_Ok b r :
  buffer_wf b → recv_fits b r →
  ∃ b', receive_into b r = Ok (recv_ret r, b') ∧ extended b (received_bytes r) b'.
Proof.
  intros H Hfits. destruct (rewind_spec b H) as (Hwf & Hc & Hm & Hl & Ht & Hr).
  destruct (wf_size _ Hwf) as [Hsz ?], (wf_len b H). unfold recv_fits in Hfits.
  pose proof (write_index_range _ Hwf) as Hwi. pose proof (wf_block _ Hwf) as Hblk.
  rewrite receive_into_eq, setup_write_iov_Ok by done. outcome_simpl.
  fold (write_index (rewind b)). cbn [Z.eqb]. rewrite <- Hblk.
  destruct r as [bs|e]; cbn [received_bytes recv_ret] in *.
  - pose proof (Zlen_nonneg bs). rewrite scatter_ring by lia. outcome_simpl.
    eexists. split; [done|]. apply extended_rewind; [done|]. zcase.
    + apply (extended_appended (rewind b)); [done|lia].
    + assert (bs = []) as -> by (destruct bs; [done|rewrite Zlen_cons in *;
        pose proof (Zlen_nonneg bs); lia]).
      unfold ring_splice. rewrite Zlen_nil. zcase. rewrite splice_nil.
      destruct (rewind b). by apply (extended_refl _).
  - outcome_simpl. eexists. split; [done|]. apply extended_rewind; [done|].
    zcase. destruct (rewind b). by apply (extended_refl _).
Qed.

Lemma buffer_recv_Ok b r now :
  buffer_wf b → recv_fits b r →
  ∃ b', buffer_recv b r now = Ok (recv_ret r, b') ∧ extended b (received_bytes r) b' ∧
        last_recv b' = now.
Proof.
  intros H Hfits. destruct (receive_into_Ok b r H Hfits) as (b' & Heq & Hwf & Hrest).
  unfold buffer_recv. rewrite Heq. outcome_simpl. eexists. split; [done|].
  split; [|done]. split; [by destruct Hwf|]. done.
Qed.

Definition sent_count (r : send_result) : Z := match r with Sent n => n | SendError _ => 0 end.

(** What POSIX promises of a send: at most the bytes it was offered. *)
Definition send_fits (b : Buffer) (r : send_result) : Prop := 0 ≤ sent_count r ≤ len b.

Lemma transmit_from_Ok b r :
  buffer_wf b → send_fits b r →
  ∃ b', transmit_from b r =
          Ok (send_ret r, take (Z.to_nat (sent_count r)) (contents b), b') ∧
        consumed b (sent_count r) b'.
Proof.
  intros H Hfits. unfold send_fits in Hfits. destruct (wf_size b H), (wf_head b H), (wf_len b H).
  pose proof (wf_block b H) as Hblk. unfold transmit_from.
  rewrite setup_read_iov_Ok by done. outcome_simpl. cbn [Z.eqb]. rewrite <- Hblk.
  rewrite gather_ring by lia. outcome_simpl.
  rewrite take_contents by (done || lia).
  rewrite (take_ge (contents b)) by (rewrite contents_length; done).
  destruct r as [n|e]; cbn [sent_count send_ret] in *.
  - eexists. split; [done|]. by apply consumed_advance.
  - eexists. split; [done|]. zcase. by apply (consumed_advance b 0).
Qed.

Lemma buffer_send_Ok b r now :
  buffer_wf b → send_fits b r →
  ∃ b', buffer_send b r now =
          Ok (send_ret r, take (Z.to_nat (sent_count r)) (contents b), b') ∧
        consumed b (sent_count r) b' ∧ last_send b' = now.
Proof.
  intros H Hfits. destruct (transmit_from_Ok b r H Hfits) as (b' & Heq & Hwf & Hrest).
  unfold buffer_send. rewrite Heq. outcome_simpl. eexists. split; [done|].
  split; [|done]. split; [by destruct Hwf|]. done.
Qed.

(** Coalescing. *)

Definition wrapped (b : Buffer) : Prop := size_mask b + 1 < head b + len b.

Lemma coalesce_tail b :
  buffer_wf b →
  Z.land (size_t (head b + len b)) (size_mask b) = write_index b.
Proof.
  intros H. destruct (wf_head b H), (wf_len b H). unfold write_index.
  apply mask_index; [done|lia].
Qed.

Lemma splice_whole t bs : Zlen t = Zlen bs → splice t 0 bs = bs.
Proof.
  intros Heq. unfold splice, Zlen in *. rewrite take_0, drop_ge by lia. by rewrite app_nil_r.
Qed.

(** The popping and pushing branch of [buffer_coalesce]. *)
Lemma coalesce_moves b t :
  buffer_wf b → Zlen t = len b → head b < write_index b →
  ∃ b', buffer_coalesce b (Some t) = Ok (0, len b, b') ∧ buffer_wf b' ∧
        head b' = 0 ∧ len b' = len b ∧ contents b' = contents b ∧ size_mask b' = size_mask b ∧
        tx_bytes b' = size_t (tx_bytes b + len b) ∧ rx_bytes b' = size_t (rx_bytes b + len b).
Proof.
  intros H Ht Hlt. destruct (wf_size b H), (wf_head b H), (wf_len b H).
  assert (0 < len b) by (unfold write_index in Hlt; case_decide; lia).
  unfold buffer_coalesce. rewrite coalesce_tail by done. zcase.
  assert (read_amount b (len b) = len b) as Hra by (unfold read_amount; zcase).
  destruct (buffer_pop_Ok b t (len b)) as (b1 & Hpop & Hwf1 & Hc1 & Hl1 & Hm1 & Hr1 & Ht1);
    [done|lia|lia|].
  rewrite Hpop, Hra. rewrite Hra in Hl1, Ht1. outcome_simpl.
  rewrite (take_ge (contents b)) by (rewrite contents_length; done).
  rewrite splice_whole by (rewrite Zlen_contents; done). cbn [default id].
  rewrite Z.sub_diag in Hl1. rewrite (c_assert_true (len b1 =? 0)) by lia. outcome_simpl.
  assert (Zlen (contents b) = len b) as Hcl by by apply Zlen_contents.
  destruct (buffer_push_fits b1 (contents b) (len b)) as
    (Hpush & Hwf2 & Hc2 & Hl2 & Hm2 & Ht2 & Hr2); [done|lia|lia|].
  assert (slice (contents b) 0 (len b) = contents b) as Hs by (rewrite <- Hcl; apply slice_all).
  rewrite Hpush, Hs. rewrite Hs in Hwf2, Hc2, Hl2, Hm2, Ht2, Hr2. outcome_simpl.
  assert (head (appended (rewind b1) (contents b)) = 0) as Hh2.
  { cbn. unfold rewind. by rewrite Hl1. }
  rewrite (c_assert_true (head _ =? 0)) by (rewrite Hh2; done). outcome_simpl.
  rewrite (c_assert_true (len _ =? _)) by lia. outcome_simpl.
  eexists. split; [by rewrite Hl2, Hl1, Hcl|].
  rewrite Hc2, Hl2, Hm2, Ht2, Hr2, Hl1, Hr1, Ht1, Hm1, Hcl.
  split_and!; try done.
  rewrite Hc1, Hra. rewrite drop_ge by (rewrite contents_length; done). done.
Qed.

Lemma coalesce_stays b temp :
  buffer_wf b → write_index b ≤ head b → buffer_coalesce b temp = Ok (head b, len b, b).
Proof. intros H Hle. unfold buffer_coalesce. rewrite coalesce_tail by done. zcase. done. Qed.

Lemma write_index_wrapped b :
  buffer_wf b → head b < write_index b ↔ 0 < len b ∧ head b + len b ≤ size_mask b.
Proof.
  intros H. destruct (wf_head b H), (wf_len b H). unfold write_index. case_decide; lia.
Qed.

(** Coalescing never changes the queue, whichever branch it takes. *)
Lemma coalesce_contents b temp :
  buffer_wf b → (∀ t, temp = Some t → Zlen t = len b) →
  ∃ off n b', buffer_coalesce b temp = Ok (off, n, b') ∧ n = len b ∧ buffer_wf b' ∧
    contents b' = contents b ∧ len b' = len b ∧ size_mask b' = size_mask b.
Proof.
  intros H Ht. destruct (decide (head b < write_index b)) as [Hlt|Hge].
  - destruct temp as [t|].
    + destruct (coalesce_moves b t) as (b' & Heq & ?&?&?&?&?&?&?); [done|by apply Ht|done|].
      exists 0, (len b), b'. done.
    + exists 0, (len b), b. split_and!; try done.
      unfold buffer_coalesce. rewrite coalesce_tail by done. zcase. done.
  - exists (head b), (len b), b. split_and!; try done. apply coalesce_stays; [done|lia].
Qed.

Lemma resize_moves b n m :
  buffer_wf b → NOT_POWER_OF_2 n = false → 0 ≤ n ≤ BUFFER_MAX_SIZE → len b ≤ n →
  Zlen m = n →
  ∃ b', buffer_resize b n (Some m) = Ok (len b, b') ∧ buffer_wf b' ∧
        contents b' = contents b ∧ buffer_size b' = n ∧ len b' = len b ∧ head b' = 0.
Proof.
  intros H Hp Hn Hlen Hm. unfold BUFFER_MAX_SIZE in *. destruct (wf_len b H) as [Hl0 _].
  assert (∃ k, 0 ≤ k ∧ n = 2 ^ k) as (k & Hk & Hnk) by (by apply NOT_POWER_OF_2_spec; [lia|]).
  assert (k ≤ 30) by (apply (Z.pow_le_mono_r_iff 2); lia).
  assert (0 < n) by (rewrite Hnk; apply Z.pow_pos_nonneg; lia).
  unfold buffer_resize. rewrite Hp. unfold BUFFER_MAX_SIZE. zcase.
  assert (read_amount b n = len b) as Hra by (unfold read_amount; zcase).
  rewrite buffer_peek_Ok by (done || lia). outcome_simpl. rewrite Hra.
  rewrite (take_ge (contents b)) by (rewrite contents_length; done). cbn [default id].
  pose proof (Zlen_contents b H) as Hc. nowrap.
  assert (Zlen (splice m 0 (contents b)) = n) as Hsp by (rewrite Zlen_splice; lia).
  eexists. split; [done|]. split_and!; try done.
  - constructor; cbn; try lia; try apply H. exists k. lia.
  - unfold contents at 1. cbn [len head buffer]. rewrite drop_0, take_0, app_nil_r.
    unfold splice. rewrite take_0. cbn [app].
    rewrite take_app_le by (rewrite contents_length; done).
    apply take_ge. by rewrite contents_length.
  - unfold buffer_size. cbn. rewrite size_t_small; lia.
Qed.

(** * Runs of the buffer *)

Inductive buf_op : Type :=
  | OpPush (src : list Z)                      (* buffer_push(b, src, sizeof src) *)
  | OpPop (n : Z)                              (* buffer_pop(b, dst, n) *)
  | OpRecv (r : recv_result) (now : Z)         (* buffer_recv *)
  | OpSend (r : send_result) (now : Z)         (* buffer_send *)
  | OpCoalesce (temp : option (list Z))        (* buffer_coalesce *)
  | OpResize (n : Z) (m : option (list Z)).    (* buffer_resize *)

(** What the callers and the operating system guarantee of an operation. *)
Definition op_ok (b : Buffer) (o : buf_op) : Prop :=
  match o with
  | OpPush src => src ≠ []
  | OpPop n => 0 < n
  | OpRecv r _ => recv_fits b r
  | OpSend r _ => send_fits b r
  | OpCoalesce temp => ∀ t, temp = Some t → Zlen t = len b
  | OpResize n m => 0 ≤ n < 2 ^ 64 ∧ ∀ t, m = Some t → Zlen t = n
  end.

(** Runs an operation; returns the bytes that entered and the bytes that left. *)
Definition run_op (b : Buffer) (o : buf_op) : outcome (list Z * list Z * Buffer) :=
  match o with
  | OpPush src =>
      '(n, b') ← buffer_push b src (Zlen src); Ok (take (Z.to_nat n) src, [], b')
  | OpPop n =>
      '(k, d, b') ← buffer_pop b (Some (replicate (Z.to_nat n) 0)) n;
      Ok ([], take (Z.to_nat k) (default [] d), b')
  | OpRecv r now => '(_, b') ← buffer_recv b r now; Ok (received_bytes r, [], b')
  | OpSend r now => '(_, out, b') ← buffer_send b r now; Ok ([], out, b')
  | OpCoalesce temp => '(_, _, b') ← buffer_coalesce b temp; Ok ([], [], b')
  | OpResize n m => '(_, b') ← buffer_resize b n m; Ok ([], [], b')
  end.

(** The reference queue: what goes in comes out in order. *)
Definition queue_step (q inp out q' : list Z) : Prop := q ++ inp = out ++ q'.

Inductive run_ops : Buffer → list buf_op → list Z → list Z → Buffer → Prop :=
  | run_nil b : run_ops b [] [] [] b
  | run_cons b o i w b' os ins outs b'' :
      op_ok b o → run_op b o = Ok (i, w, b') → run_ops b' os ins outs b'' →
      run_ops b (o :: os) (i ++ ins) (w ++ outs) b''.

Lemma consumed_queue b n b' :
  consumed b n b' → queue_step (contents b) [] (take (Z.to_nat n) (contents b)) (contents b').
Proof. intros (_ & Hc & _). unfold queue_step. by rewrite Hc, app_nil_r, take_drop. Qed.

Lemma extended_queue b bs b' :
  extended b bs b' → queue_step (contents b) bs [] (contents b').
Proof. intros (_ & Hc & _). unfold queue_step. by rewrite Hc. Qed.

Lemma unchanged_queue b b' :
  contents b' = contents b → queue_step (contents b) [] [] (contents b').
Proof. intros ->. unfold queue_step. by rewrite app_nil_r. Qed.

Lemma run_op_push b src :
  buffer_wf b → src ≠ [] →
  ∃ i b', run_op b (OpPush src) = Ok (i, [], b') ∧ buffer_wf b' ∧
          queue_step (contents b) i [] (contents b').
Proof.
  intros H Hne. assert (0 < Zlen src) by (destruct src; [done|]; unfold Zlen; simpl; lia).
  cbn [run_op]. destruct (decide (size_mask b + 1 - len b < Zlen src)).
  - destruct (buffer_push_full b src (Zlen src)) as (-> & Hx); [done|done|]. outcome_simpl.
    eexists _, _. split; [done|]. split; [apply Hx|]. apply (extended_queue _ _ _ Hx).
  - destruct (buffer_push_fits b src (Zlen src)) as (-> & Hx); [done|lia|lia|]. outcome_simpl.
    rewrite slice_all in *. eexists _, _. split; [done|]. split; [apply Hx|].
    rewrite take_ge by (unfold Zlen; lia). apply (extended_queue _ _ _ Hx).
Qed.

Lemma run_op_pop b n :
  buffer_wf b → 0 < n →
  ∃ w b', run_op b (OpPop n) = Ok ([], w, b') ∧ buffer_wf b' ∧
          queue_step (contents b) [] w (contents b').
Proof.
  intros H Hn. cbn [run_op].
  assert (0 ≤ read_amount b n ≤ len b) by (apply read_amount_range; [done|lia]).
  assert (read_amount b n ≤ n) by (unfold read_amount; zcase).
  destruct (buffer_pop_Ok b (replicate (Z.to_nat n) 0) n) as (b' & -> & Hx);
    [done|lia|unfold Zlen; rewrite length_replicate; lia|]. outcome_simpl. cbn [default id].
  eexists _, _. split; [done|]. split; [apply Hx|].
  pose proof (contents_length b H). unfold splice. rewrite take_0. cbn [app].
  rewrite take_app_le by (rewrite length_take; lia).
  rewrite take_take, Nat.min_id. apply (consumed_queue _ _ _ Hx).
Qed.

Lemma run_op_resize b n m :
  buffer_wf b → op_ok b (OpResize n m) →
  ∃ b', run_op b (OpResize n m) = Ok ([], [], b') ∧ buffer_wf b' ∧ contents b' = contents b.
Proof.
  intros H [Hn Hm]. cbn [run_op].
  destruct (NOT_POWER_OF_2 n) eqn:Hp; [unfold buffer_resize; rewrite Hp; by exists b|].
  destruct (decide (BUFFER_MAX_SIZE < n)).
  { unfold buffer_resize. rewrite Hp. zcase. by exists b. }
  destruct (decide (n < len b)).
  { unfold buffer_resize. rewrite Hp. zcase. by exists b. }
  destruct m as [t|].
  - destruct (resize_moves b n t) as (b' & -> & ?&?&?&?); [done|done|lia|lia|by apply Hm|].
    by exists b'.
  - unfold buffer_resize. rewrite Hp. zcase. by exists b.
Qed.

(** Every operation is safe, keeps the invariant, and is a step of the queue. *)
Lemma run_op_step b o :
  buffer_wf b → op_ok b o →
  ∃ i w b', run_op b o = Ok (i, w, b') ∧ buffer_wf b' ∧
            queue_step (contents b) i w (contents b').
Proof.
  intros H Ho. destruct o as [src|n|r now|r now|temp|n m].
  - destruct (run_op_push b src H Ho) as (i & b' & ?&?&?). eauto 6.
  - destruct (run_op_pop b n H Ho) as (w & b' & ?&?&?). eauto 6.
  - cbn [run_op]. destruct (buffer_recv_Ok b r now H Ho) as (b' & -> & Hx & _). outcome_simpl.
    eexists _, _, _. split; [done|]. split; [apply Hx|]. apply (extended_queue _ _ _ Hx).
  - cbn [run_op]. destruct (buffer_send_Ok b r now H Ho) as (b' & -> & Hx & _). outcome_simpl.
    eexists _, _, _. split; [done|]. split; [apply Hx|]. apply (consumed_queue _ _ _ Hx).
  - cbn [run_op]. destruct (coalesce_contents b temp H Ho) as (off&k&b'&->&_&?&?&_). outcome_simpl.
    eexists _, _, _. split; [done|]. split; [done|]. by apply unchanged_queue.
  - destruct (run_op_resize b n m H Ho) as (b' & ?&?&?).
    eexists _, _, _. split; [done|]. split; [done|]. by apply unchanged_queue.
Qed.

Lemma run_ops_queue b os ins outs b' :
  run_ops b os ins outs b' → buffer_wf b →
  buffer_wf b' ∧ contents b ++ ins = outs ++ contents b'.
Proof.
  induction 1 as [b|b o i w b' os ins outs b'' Ho Hrun Hruns IH]; intros H.
  - by rewrite app_nil_r.
  - destruct (run_op_step b o H Ho) as (i1 & w1 & b1 & Heq & H1 & Hq).
    rewrite Hrun in Heq. injection Heq as <- <- <-. destruct (IH H1) as [H'' Hs].
    split; [done|]. unfold queue_step in Hq. by rewrite app_assoc, Hq, <- app_assoc, Hs, app_assoc.
Qed.

Lemma new_buffer_wf size now m :
  0 ≤ size ≤ 2 ^ 62 → NOT_POWER_OF_2 size = false → Zlen m = size →
  ∃ b, new_buffer size now true (Some m) = Some b ∧ buffer_wf b ∧ contents b = [] ∧
       buffer_room b = size ∧ len b = 0 ∧ head b = 0 ∧ size_mask b = size - 1 ∧
       last_recv b = now ∧ last_send b = now.
Proof.
  intros Hs Hp Hm. unfold new_buffer. rewrite Hp. cbn [negb].
  destruct (proj1 (NOT_POWER_OF_2_spec size ltac:(lia)) Hp) as (k & Hk & ->).
  assert (0 < 2 ^ k) by (apply Z.pow_pos_nonneg; lia).
  assert (k ≤ 62) by (apply (Z.pow_le_mono_r_iff 2); lia).
  eexists. split; [done|]. split_and!; try done.
  - constructor; cbn; rewrite ?size_t_small; try lia. exists k. lia.
  - unfold buffer_room, buffer_size. cbn. nowrap. lia.
  - cbn. nowrap. lia.
Qed.

Lemma slice_ring b :
  buffer_wf b → head b + len b ≤ size_mask b + 1 → slice (buffer b) (head b) (len b) = contents b.
Proof.
  intros H Hle. pose proof (wf_block b H). destruct (wf_head b H), (wf_len b H).
  rewrite <- ring_slice_flat by lia. rewrite take_contents by (done || lia).
  apply take_ge. by rewrite contents_length.
Qed.

Lemma push_loop_short m start k src :
  0 ≤ start < Zlen m → 0 < k ≤ Zlen m → Zlen m < 2 ^ 63 → Zlen src < k →
  push_loop m (ring_iov (Zlen m) start k) src 0 = Fault OutOfBounds.
Proof.
  intros Hs Hk Hm Hsrc. pose proof (Zlen_nonneg src). unfold ring_iov.
  destruct (Z.eqb_spec k 0); [lia|].
  destruct (Z.leb_spec (start + k) (Zlen m)); cbn [push_loop iov_base iov_len].
  - by rewrite load_range_short by lia.
  - destruct (decide (Zlen m - start ≤ Zlen src)) as [Hle|Hgt].
    + rewrite (load_range_Ok src 0) by lia. outcome_simpl.
      rewrite (store_range_Ok m) by (rewrite ?Zlen_slice; lia). outcome_simpl.
      nowrap. by rewrite load_range_short by lia.
    + by rewrite (load_range_short src 0) by lia.
Qed.

(** A receive into an empty buffer stores from the start of the block. *)
Lemma buffer_recv_head b r now k b' :
  len b = 0 → buffer_recv b r now = Ok (k, b') → head b' = 0.
Proof.
  intros Hl. unfold buffer_recv. rewrite receive_into_eq.
  assert (head (rewind b) = 0) as Hh by (unfold rewind; by rewrite Hl).
  destruct (setup_write_iov (rewind b) 0) as [iov|]; cbn; [|done].
  destruct r as [bs|e]; cbn.
  - destruct (scatter _ _ _); cbn; [|done]. intros [= _ <-]. by destruct (0 <? Zlen bs).
  - by intros [= _ <-].
Qed.

(** A receive leaves contents that start at the beginning of the block there. *)
Lemma buffer_recv_head_kept b r now k b' :
  head b = 0 → buffer_recv b r now = Ok (k, b') → head b' = 0.
Proof.
  intros Hl. unfold buffer_recv. rewrite receive_into_eq.
  assert (head (rewind b) = 0) as Hh by (unfold rewind; by destruct (len b =? 0)).
  destruct (setup_write_iov (rewind b) 0) as [iov|]; cbn; [|done].
  destruct r as [bs|e]; cbn.
  - destruct (scatter _ _ _); cbn; [|done]. intros [= _ <-]. by destruct (0 <? Zlen bs).
  - by intros [= _ <-].
Qed.

(** Such contents are contiguous, and coalescing hands out the block from its beginning. *)
Lemma coalesce_at_start b temp :
  buffer_wf b → head b = 0 → (∀ t, temp = Some t → Zlen t = len b) →
  ∃ b', buffer_coalesce b temp = Ok (0, len b, b') ∧ buffer_wf b' ∧ head b' = 0 ∧
        len b' = len b ∧ contents b' = contents b ∧ size_mask b' = size_mask b.
Proof.
  intros H Hh Ht. destruct (decide (head b < write_index b)) as [Hlt|Hge].
  - destruct temp as [t|].
    + destruct (coalesce_moves b t) as (b' & Heq & ?&?&?&?&?&?&?); [done|by apply Ht|done|]. eauto 8.
    + exists b. unfold buffer_coalesce. rewrite coalesce_tail by done. zcase. done.
  - exists b. rewrite coalesce_stays by (done || lia). by rewrite Hh.
Qed.

(** * Byte blocks

    The operations keep a block of bytes a block of bytes. *)

Definition buffer_bytes (b : Buffer) : Prop := Forall is_byte (buffer b).

Lemma slice_bytes m off n : Forall is_byte m → Forall is_byte (slice m off n).
Proof. intros. by apply Forall_take, Forall_drop. Qed.

Lemma store_range_bytes m off bs m' :
  Forall is_byte m → Forall is_byte bs → store_range m off bs = Ok m' → Forall is_byte m'.
Proof.
  intros Hm Hbs. unfold store_range. destruct (in_range _ _ _); [|done]. intros [= <-].
  unfold splice. rewrite !Forall_app. split_and!; [by apply Forall_take|done|by apply Forall_drop].
Qed.

Lemma load_range_bytes m off n bs :
  Forall is_byte m → load_range m off n = Ok bs → Forall is_byte bs.
Proof.
  intros Hm. unfold load_range. destruct (in_range _ _ _); [|done]. intros [= <-]. by apply slice_bytes.
Qed.

Lemma scatter_bytes m iov bs m' :
  Forall is_byte m → Forall is_byte bs → scatter m iov bs = Ok m' → Forall is_byte m'.
Proof.
  revert m bs. induction iov as [|v iov IH]; intros m bs Hm Hbs; cbn [scatter].
  - destruct bs; [by intros [= <-]|done].
  - intros (m1 & H1 & H2)%outcome_bind_Ok. eapply IH; [|by apply Forall_drop|exact H2].
    eapply store_range_bytes; [exact Hm| |exact H1]. by apply Forall_take.
Qed.

Lemma push_loop_bytes m iov src k n m' :
  Forall is_byte m → Forall is_byte src → push_loop m iov src k = Ok (n, m') → Forall is_byte m'.
Proof.
  revert m k. induction iov as [|v iov IH]; intros m k Hm Hsrc; cbn [push_loop].
  - by intros [= _ <-].
  - intros (bs & H1 & (m1 & H2 & H3)%outcome_bind_Ok)%outcome_bind_Ok. eapply IH; [|done|exact H3].
    eapply store_range_bytes; [| |exact H2]; [done|].
    eapply load_range_bytes; [|exact H1]. done.
Qed.

Lemma peek_loop_bytes src iov d k n o :
  Forall is_byte src → Forall is_byte d → peek_loop src iov (Some d) k = Ok (n, o) →
  ∃ d', o = Some d' ∧ Forall is_byte d'.
Proof.
  revert d k. induction iov as [|v iov IH]; intros d k Hsrc Hd; cbn [peek_loop].
  - intros [= _ <-]. by exists d.
  - intros (o1 & (bs & H1 & (d1 & H2 & [= <-])%outcome_bind_Ok)%outcome_bind_Ok & H3)%outcome_bind_Ok.
    eapply IH; [done| |exact H3]. eapply store_range_bytes; [| |exact H2]; [done|].
    eapply load_range_bytes; [|exact H1]. done.
Qed.

Lemma buffer_recv_bytes b r now n b' :
  buffer_bytes b → Forall is_byte (received_bytes r) → buffer_recv b r now = Ok (n, b') →
  buffer_bytes b'.
Proof.
  unfold buffer_recv, receive_into, buffer_bytes.
  intros Hb Hr ([k b1] & (iov & _ & (m & Hm & [= _ <-])%outcome_bind_Ok)%outcome_bind_Ok & [= _ <-])%outcome_bind_Ok.
  assert (Forall is_byte m) as H.
  { destruct r as [bs|err]; [|injection Hm as <-; by destruct (len b =? 0)].
    eapply scatter_bytes; [|exact Hr|exact Hm]. by destruct (len b =? 0). }
  by destruct (0 <? _), (len b =? 0).
Qed.

Lemma buffer_push_bytes b src n k b' :
  buffer_bytes b → Forall is_byte src → buffer_push b src n = Ok (k, b') → buffer_bytes b'.
Proof.
  unfold buffer_push, buffer_bytes. intros Hb Hsrc.
  set (b0 := if len b =? 0 then set_head 0 b else b).
  assert (Forall is_byte (buffer b0)) as Hb0 by (unfold b0; by destruct (len b =? 0)).
  destruct (_ <? _); [by intros [= _ <-]|].
  intros (iov & _ & ([a m] & Hm & [= _ <-])%outcome_bind_Ok)%outcome_bind_Ok.
  pose proof (push_loop_bytes _ _ _ _ _ _ Hb0 Hsrc Hm) as H. by destruct (0 <? a).
Qed.

Lemma buffer_pop_block b o n k o' b' :
  buffer_pop b o n = Ok (k, o', b') → buffer b' = buffer b.
Proof.
  unfold buffer_pop. intros ([bs d] & _ & [= _ _ <-])%outcome_bind_Ok. by destruct (0 <? bs).
Qed.

Lemma buffer_send_block b r now k bs b' :
  buffer_send b r now = Ok (k, bs, b') → buffer b' = buffer b.
Proof.
  unfold buffer_send, transmit_from.
  intros ([[n sent] b1] & (iov & _ & (all & _ & [= _ _ <-])%outcome_bind_Ok)%outcome_bind_Ok & [= _ _ <-])%outcome_bind_Ok.
  by destruct (0 <? send_ret r).
Qed.

Lemma buffer_coalesce_bytes b t off n b' :
  buffer_bytes b → (∀ m, t = Some m → Forall is_byte m) → buffer_coalesce b t = Ok (off, n, b') →
  buffer_bytes b'.
Proof.
  unfold buffer_coalesce. intros Hb Ht. destruct (_ <=? _); [by intros [= _ _ <-]|].
  intros (b1 & H & [= _ _ <-])%outcome_bind_Ok. destruct t as [m|]; [|by injection H as <-].
  apply outcome_bind_Ok in H as ([[k o] b2] & Hpop & H).
  apply outcome_bind_Ok in H as (_ & _ & H). apply outcome_bind_Ok in H as ([j b3] & Hpush & H).
  apply outcome_bind_Ok in H as (_ & _ & H). apply outcome_bind_Ok in H as (_ & _ & [= <-]).
  pose proof (buffer_pop_block _ _ _ _ _ _ Hpop) as Hblk.
  assert (∃ m', o = Some m' ∧ Forall is_byte m') as (m' & -> & Hm').
  { unfold buffer_pop in Hpop. apply outcome_bind_Ok in Hpop as ([k' o1] & Hpeek & [= _ <- _]).
    unfold buffer_peek in Hpeek. apply outcome_bind_Ok in Hpeek as (iov & _ & Hloop).
    eapply peek_loop_bytes; [|by apply Ht|exact Hloop]. done. }
  eapply buffer_push_bytes; [|exact Hm'|exact Hpush]. unfold buffer_bytes. by rewrite Hblk.
Qed.

(** * Properties *)



(** A push of zero bytes is not a no-op: [setup_write_iov] reads the length zero
    as "all the room there is", so the copy reads past the end of any source block
    smaller than the free space. *)
Theorem buffer_push_zero_overreads b src :
  buffer_wf b → Zlen src < buffer_room b → buffer_push b src 0 = Fault OutOfBounds.
Proof.
  intros H Hroom. pose proof (Zlen_nonneg src).
  destruct (rewind_spec b H) as (Hwf & Hc & Hm & Hl & _).
  destruct (wf_size _ Hwf) as [Hsz ?], (wf_len b H), (wf_size b H) as [Hsz0 _].
  unfold buffer_room in Hroom. rewrite Hsz0, size_t_small in Hroom by lia.
  pose proof (write_index_range _ Hwf). pose proof (wf_block _ Hwf) as Hblk.
  rewrite buffer_push_eq, Hsz, Hl, Hm. crun. rewrite setup_write_iov_Ok by (done || lia).
  outcome_simpl. fold (write_index (rewind b)). cbn [Z.eqb]. rewrite <- Hblk.
  rewrite push_loop_short by lia. done.
Qed.

(** [buffer_resize] answers -4, -3, -1 and -2 for a size that is not a power of
    two, is above the maximum, is below the contents, or cannot be allocated, and
    leaves the buffer alone in those cases; otherwise it returns the length and the
    resized buffer is well formed, has the new size and holds the same bytes. *)
Theorem buffer_resize_result b n m :
  buffer_wf b → op_ok b (OpResize n m) →
  ∃ r b', buffer_resize b n m = Ok (r, b') ∧
    (if NOT_POWER_OF_2 n then r = -4 ∧ b' = b
     else if BUFFER_MAX_SIZE <? n then r = -3 ∧ b' = b
     else if n <? len b then r = -1 ∧ b' = b
     else match m with
          | None => r = -2 ∧ b' = b
          | Some _ => r = len b ∧ buffer_wf b' ∧ contents b' = contents b ∧ buffer_size b' = n
          end).
Proof.
  intros H [Hn Hm]. destruct (NOT_POWER_OF_2 n) eqn:Hp.
  { exists (-4), b. unfold buffer_resize. by rewrite Hp. }
  destruct (Z.ltb_spec BUFFER_MAX_SIZE n).
  { exists (-3), b. unfold buffer_resize. rewrite Hp. zcase. done. }
  destruct (Z.ltb_spec n (len b)).
  { exists (-1), b. unfold buffer_resize. rewrite Hp. zcase. done. }
  destruct m as [t|].
  - destruct (resize_moves b n t) as (b' & ?&?&?&?&_); [done|done|lia|lia|by apply Hm|].
    exists (len b), b'. done.
  - exists (-2), b. unfold buffer_resize. rewrite Hp. zcase. done.
Qed.

(** The traffic counters the access log prints count coalescing as traffic: after
    receiving a first request into a new buffer and coalescing it, as every
    connection does, the buffer reports the request as transmitted although nothing
    was sent, and reports twice the bytes received. *)
Theorem buffer_coalesce_counts_traffic size now m b r b1 t b2 off n :
  0 ≤ size ≤ 2 ^ 62 → Zlen m = size → new_buffer size now true (Some m) = Some b →
  0 < Zlen (received_bytes r) < size → buffer_recv b r now = Ok (recv_ret r, b1) →
  Zlen t = len b1 → buffer_coalesce b1 (Some t) = Ok (off, n, b2) →
  rx_bytes b2 = 2 * Zlen (received_bytes r) ∧ tx_bytes b2 = Zlen (received_bytes r) ∧
  contents b2 = received_bytes r.
Proof.
  intros Hs Hm Hnew Hr Hrecv Ht Hco. destruct (NOT_POWER_OF_2 size) eqn:Hp.
  { unfold new_buffer in Hnew. by rewrite Hp in Hnew. }
  destruct (new_buffer_wf size now m Hs Hp Hm) as (b0 & Hnew' & Hwf & Hc & _ & Hl & Hh & Hmask & _).
  rewrite Hnew in Hnew'. injection Hnew' as <-.
  assert (tx_bytes b = 0 ∧ rx_bytes b = 0) as [Ht0 Hr0].
  { unfold new_buffer in Hnew. rewrite Hp in Hnew. cbn in Hnew. by injection Hnew as <-. }
  destruct (buffer_recv_Ok b r now Hwf) as (b1' & Heq & (Hwf1 & Hc1 & Hl1 & Hm1 & Htx & Hrx) & _);
    [unfold recv_fits; lia|].
  rewrite Hrecv in Heq. injection Heq as <-.
  pose proof (buffer_recv_head b r now _ _ Hl Hrecv) as Hh1.
  destruct (coalesce_moves b1 t Hwf1 Ht) as (b2' & Heq & _ & _ & _ & Hc2 & _ & Htx2 & Hrx2).
  { apply write_index_wrapped; [done|]. lia. }
  rewrite Hco in Heq. injection Heq as -> -> <-.
  rewrite Hrx2, Htx2, Hrx, Htx, Hl1, Hl, Ht0, Hr0, Hc2, Hc1, Hc.
  rewrite !Z.add_0_l. nowrap. split_and!; [lia|lia|done].
Qed.

(** * Witnesses *)

Definition ex_block : list Z := replicate 8 7.
Definition ex_buffer : Buffer := mkBuffer ex_block 7 0 0 0 0 0 0.
(** Six bytes pushed, five popped, five pushed: the contents wrap. *)
Definition ex_wrapped : Buffer := mkBuffer [2; 3; 4; 7; 7; 6; 0; 1] 7 5 6 0 0 5 11.

Lemma ex_wrapped_wf : buffer_wf ex_wrapped.
Proof. constructor; cbn; try lia; try done. by exists 3. Qed.

Definition ex_ops : list buf_op :=
  [OpPush [1; 2; 3; 4; 5; 6]; OpPop 5; OpRecv (Received [0; 1; 2; 3; 4]) 1;
   OpCoalesce (Some (replicate 6 0)); OpSend (Sent 2) 2].

Lemma ex_run : ∃ b',
  run_ops ex_buffer ex_ops [1; 2; 3; 4; 5; 6; 0; 1; 2; 3; 4] [1; 2; 3; 4; 5; 6; 0] b' ∧
  contents b' = [1; 2; 3; 4].
Proof.
  eexists. split; [|shelve].
  eapply (run_cons _ _ [1; 2; 3; 4; 5; 6] [] _ _ [0; 1; 2; 3; 4] [1; 2; 3; 4; 5; 6; 0]);
    [done|vm_compute; done|].
  eapply (run_cons _ _ [] [1; 2; 3; 4; 5] _ _ [0; 1; 2; 3; 4] [6; 0]); [done|vm_compute; done|].
  eapply (run_cons _ _ [0; 1; 2; 3; 4] [] _ _ [] [6; 0]); [done|vm_compute; done|].
  eapply (run_cons _ _ [] [] _ _ [] [6; 0]); [by intros t [= <-]|vm_compute; done|].
  eapply (run_cons _ _ [] [6; 0] _ _ [] []); [done|vm_compute; done|]. constructor.
  Unshelve. done.
Qed.



Lemma buffer_push_zero_overreads_witness :
  Zlen (bytes "x") < buffer_room ex_wrapped ∧
  buffer_push ex_wrapped (bytes "x") 0 = Fault OutOfBounds.
Proof.
  split; [vm_compute; done|].
  apply (buffer_push_zero_overreads ex_wrapped (bytes "x") ex_wrapped_wf). vm_compute. done.
Defined.

Lemma buffer_resize_result_witness :
  ∃ r b', buffer_resize ex_wrapped 16 (Some (replicate 16 0)) = Ok (r, b') ∧
          r = 6 ∧ contents b' = [6; 0; 1; 2; 3; 4].
Proof.
  destruct (buffer_resize_result ex_wrapped 16 (Some (replicate 16 0)) ex_wrapped_wf)
    as (r & b' & Heq & Hr).
  { split; [lia|]. by intros t [= <-]. }
  cbv beta iota delta [NOT_POWER_OF_2] in Hr. cbn in Hr.
  exists r, b'. split; [done|]. destruct Hr as (-> & _ & -> & _). done.
Defined.

Lemma buffer_coalesce_counts_traffic_witness :
  ∃ b1 off n b2, buffer_recv ex_buffer (Received [1; 2; 3]) 0 = Ok (3, b1) ∧
    buffer_coalesce b1 (Some [0; 0; 0]) = Ok (off, n, b2) ∧
    rx_bytes b2 = 6 ∧ tx_bytes b2 = 3.
Proof.
  eexists _, _, _, _. split; [vm_compute; done|]. split; [vm_compute; done|].
  destruct (buffer_coalesce_counts_traffic 8 0 ex_block ex_buffer (Received [1; 2; 3])
    (mkBuffer [1; 2; 3; 7; 7; 7; 7; 7] 7 0 3 0 0 0 3) [0; 0; 0]
    (mkBuffer [1; 2; 3; 7; 7; 7; 7; 7] 7 0 3 0 0 3 6) 0 3)
    as (? & ? & ?); vm_compute; done.
Defined.
