(* ===== verification/Tls.v ===== *)
(** The TLS client hello parser of src/tls.c, a grammar of the messages it reads, and
    the proof that the parser decides that grammar. *)

From S2P Require Import Prelude Protocol.

(** * The parser *)

Definition TLS_HEADER_LEN : Z := 5.
Definition TLS_HANDSHAKE_CONTENT_TYPE : Z := 0x16.
Definition TLS_HANDSHAKE_TYPE_CLIENT_HELLO : Z := 0x01.

Definition tls_alert : list Z := [0x15; 0x03; 0x01; 0x00; 0x02; 0x02; 0x28].

(** [((size_t)hi << 8) + (size_t)lo] *)
Definition be16 (hi lo : Z) : Z := size_t (size_t (Z.shiftl hi 8) + lo).

(** The loop of [parse_server_name_extension], at position [pos] of the extension
    body that starts at offset [base] of the block. *)
Fixpoint server_name_loop (fuel : nat) (malloc : Z → bool) (m : list Z)
    (base data_len pos : Z) : outcome (Z * option (list Z)) :=
  match fuel with
  | O => Fault OutOfFuel
  | S fuel =>
      if size_t (pos + 3) <? data_len then
        hi ← load m (base + (pos + 1));
        lo ← load m (base + (pos + 2));
        let len := be16 hi lo in
        if data_len <? size_t (pos + 3 + len) then Ok (-5, None) else
        name_type ← load m (base + pos);
        if name_type =? 0x00 then
          if malloc (size_t (len + 1)) then
            s ← strncpy m (base + (pos + 3)) (Z.to_nat len);
            Ok (c_int len, Some (s ++ [0]))
          else Ok (-4, None)
        else server_name_loop fuel malloc m base data_len (size_t (pos + size_t (3 + len)))
      else if negb (pos =? data_len) then Ok (-5, None)
      else Ok (-2, None)
  end.

Definition parse_server_name_extension (malloc : Z → bool) (m : list Z)
    (base data_len : Z) : outcome (Z * option (list Z)) :=
  server_name_loop (S (Z.to_nat data_len)) malloc m base data_len 2.

(** The loop of [parse_extensions]. *)
Fixpoint extensions_loop (fuel : nat) (malloc : Z → bool) (m : list Z)
    (base data_len pos : Z) : outcome (Z * option (list Z)) :=
  match fuel with
  | O => Fault OutOfFuel
  | S fuel =>
      if size_t (pos + 4) <=? data_len then
        hi ← load m (base + (pos + 2));
        lo ← load m (base + (pos + 3));
        let len := be16 hi lo in
        t0 ← load m (base + pos);
        t1 ← (if t0 =? 0x00 then load m (base + (pos + 1)) else Ok 1);
        if (t0 =? 0x00) && (t1 =? 0x00) then
          if data_len <? size_t (pos + 4 + len) then Ok (-5, None)
          else parse_server_name_extension malloc m (base + pos + 4) len
        else extensions_loop fuel malloc m base data_len (size_t (pos + size_t (4 + len)))
      else if negb (pos =? data_len) then Ok (-5, None)
      else Ok (-2, None)
  end.

Definition parse_extensions (malloc : Z → bool) (m : list Z)
    (base data_len : Z) : outcome (Z * option (list Z)) :=
  extensions_loop (S (Z.to_nat data_len)) malloc m base data_len 0.

Definition parse_tls_header (malloc : Z → bool) (data : list Z) (data_len : Z)
    (hostname : bool) : outcome (Z * option (list Z)) :=
  if negb hostname then Ok (-3, None) else
  if data_len <? TLS_HEADER_LEN then Ok (-1, None) else
  d0 ← load data 0;
  d2 ← (if negb (Z.land d0 0x80 =? 0) then load data 2 else Ok 0);
  if negb (Z.land d0 0x80 =? 0) && (d2 =? 1) then Ok (-2, None) else
  if negb (d0 =? TLS_HANDSHAKE_CONTENT_TYPE) then Ok (-5, None) else
  tls_version_major ← load data 1;
  tls_version_minor ← load data 2;
  if tls_version_major <? 3 then Ok (-2, None) else
  (* TLS record length *)
  d3 ← load data 3; d4 ← load data 4;
  let len := size_t (be16 d3 d4 + TLS_HEADER_LEN) in
  let data_len := MIN data_len len in
  if data_len <? len then Ok (-1, None) else
  (* Handshake *)
  let pos := TLS_HEADER_LEN in
  if data_len <? size_t (pos + 1) then Ok (-5, None) else
  ty ← load data pos;
  if negb (ty =? TLS_HANDSHAKE_TYPE_CLIENT_HELLO) then Ok (-5, None) else
  let pos := size_t (pos + 38) in
  (* Session ID *)
  if data_len <? size_t (pos + 1) then Ok (-5, None) else
  len ← load data pos;
  let pos := size_t (pos + size_t (1 + len)) in
  (* Cipher Suites *)
  if data_len <? size_t (pos + 2) then Ok (-5, None) else
  hi ← load data pos; lo ← load data (pos + 1);
  let pos := size_t (pos + size_t (2 + be16 hi lo)) in
  (* Compression Methods *)
  if data_len <? size_t (pos + 1) then Ok (-5, None) else
  len ← load data pos;
  let pos := size_t (pos + size_t (1 + len)) in
  if (pos =? data_len) && (tls_version_major =? 3) && (tls_version_minor =? 0)
  then Ok (-2, None) else
  (* Extensions *)
  if data_len <? size_t (pos + 2) then Ok (-5, None) else
  hi ← load data pos; lo ← load data (pos + 1);
  let len := be16 hi lo in
  let pos := size_t (pos + 2) in
  if data_len <? size_t (pos + len) then Ok (-5, None)
  else parse_extensions malloc data pos len.

Definition tls_protocol : Protocol :=
  mkProtocol "tls" 443 parse_tls_header tls_alert (Zlen tls_alert).

(** * The grammar

    The verdict on a byte string, following the structure of the messages rather than
    positions: length-prefixed vectors, a list of extensions, a list of names. *)

Inductive verdict : Type :=
  | Incomplete           (* more bytes may make it a client hello *)
  | NoName               (* well formed as far as read, but without a server name *)
  | Invalid
  | HostName (h : list Z).

Definition val16 (hi lo : Z) : Z := 256 * hi + lo.

(** The server name list of the extension: the first entry of type host_name decides.
    An entry is only read when something follows its three header bytes. *)
Inductive names_verdict : list Z → verdict → Prop :=
  | names_end : names_verdict [] NoName
  | names_short l : 0 < Zlen l ≤ 3 → names_verdict l Invalid
  | names_over ty hi lo rest :
      rest ≠ [] → Zlen rest < val16 hi lo → names_verdict (ty :: hi :: lo :: rest) Invalid
  | names_host hi lo h rest :
      h ++ rest ≠ [] → Zlen h = val16 hi lo →
      names_verdict (0 :: hi :: lo :: h ++ rest) (HostName h)
  | names_other ty hi lo n rest v :
      ty ≠ 0 → n ++ rest ≠ [] → Zlen n = val16 hi lo → names_verdict rest v →
      names_verdict (ty :: hi :: lo :: n ++ rest) v.

(** The extension body: two bytes of list length, which are not checked, and the names. *)
Inductive sni_verdict : list Z → verdict → Prop :=
  | sni_short l : Zlen l < 2 → sni_verdict l Invalid
  | sni_names l0 l1 l v : names_verdict l v → sni_verdict (l0 :: l1 :: l) v.

(** The extension list: the first server_name extension decides. *)
Inductive exts_verdict : list Z → verdict → Prop :=
  | exts_end : exts_verdict [] NoName
  | exts_short l : 0 < Zlen l < 4 → exts_verdict l Invalid
  | exts_over t0 t1 hi lo rest :
      Zlen rest < val16 hi lo → exts_verdict (t0 :: t1 :: hi :: lo :: rest) Invalid
  | exts_sni hi lo body rest v :
      Zlen body = val16 hi lo → sni_verdict body v →
      exts_verdict (0 :: 0 :: hi :: lo :: body ++ rest) v
  | exts_other t0 t1 hi lo body rest v :
      (t0 ≠ 0 ∨ t1 ≠ 0) → Zlen body = val16 hi lo → exts_verdict rest v →
      exts_verdict (t0 :: t1 :: hi :: lo :: body ++ rest) v.

(** A vector with a one-byte or a two-byte length, then the rest. *)
Definition vec8 (l : list Z) : option (list Z * list Z) :=
  match l with
  | n :: r => if n <=? Zlen r then Some (take (Z.to_nat n) r, drop (Z.to_nat n) r) else None
  | [] => None
  end.

Definition vec16 (l : list Z) : option (list Z * list Z) :=
  match l with
  | hi :: lo :: r =>
      if val16 hi lo <=? Zlen r
      then Some (take (Z.to_nat (val16 hi lo)) r, drop (Z.to_nat (val16 hi lo)) r) else None
  | _ => None
  end.

(** What follows the 38 fixed bytes of a client hello: session id, cipher suites,
    compression methods, and the extensions; [None] if a vector overruns the body. *)
Definition hello_vectors (body : list Z) : option (list Z) :=
  '(_, l) ← vec8 (drop 38 body);
  '(_, l) ← vec16 l;
  '(_, l) ← vec8 l; Some l.

Inductive body_verdict (major minor : Z) (body : list Z) : verdict → Prop :=
  | body_not_hello : head body ≠ Some 1 → body_verdict major minor body Invalid
  | body_bad_vectors :
      head body = Some 1 → hello_vectors body = None → body_verdict major minor body Invalid
  | body_ssl3 :
      head body = Some 1 → hello_vectors body = Some [] → major = 3 → minor = 0 →
      body_verdict major minor body NoName
  | body_no_exts l :
      head body = Some 1 → hello_vectors body = Some l →
      (l = [] → ¬ (major = 3 ∧ minor = 0)) → vec16 l = None →
      body_verdict major minor body Invalid
  | body_exts l exts rest v :
      head body = Some 1 → hello_vectors body = Some l →
      vec16 l = Some (exts, rest) → exts_verdict exts v → body_verdict major minor body v.

Inductive hello_verdict : list Z → verdict → Prop :=
  | hello_short l : Zlen l < 5 → hello_verdict l Incomplete
  | hello_sslv2 b0 b1 b3 b4 rest :
      Z.land b0 0x80 ≠ 0 → hello_verdict (b0 :: b1 :: 1 :: b3 :: b4 :: rest) NoName
  | hello_not_handshake b0 b1 b2 b3 b4 rest :
      (Z.land b0 0x80 = 0 ∨ b2 ≠ 1) → b0 ≠ 0x16 →
      hello_verdict (b0 :: b1 :: b2 :: b3 :: b4 :: rest) Invalid
  | hello_old b1 b2 b3 b4 rest :
      b1 < 3 → hello_verdict (0x16 :: b1 :: b2 :: b3 :: b4 :: rest) NoName
  | hello_partial b1 b2 b3 b4 rest :
      3 ≤ b1 → Zlen rest < val16 b3 b4 →
      hello_verdict (0x16 :: b1 :: b2 :: b3 :: b4 :: rest) Incomplete
  | hello_record b1 b2 b3 b4 body rest v :
      3 ≤ b1 → Zlen body = val16 b3 b4 → body_verdict b1 b2 body v →
      hello_verdict (0x16 :: b1 :: b2 :: b3 :: b4 :: body ++ rest) v.

(** The return code and hostname that report a verdict. *)
Definition report (malloc : Z → bool) (v : verdict) : Z * option (list Z) :=
  match v with
  | Incomplete => (-1, None)
  | NoName => (-2, None)
  | Invalid => (-5, None)
  | HostName h =>
      if malloc (Zlen h + 1) then (Zlen h, Some (nul_padded h ++ [0])) else (-4, None)
  end.

(** * The parser decides the grammar *)

Lemma be16_val hi lo :
  is_byte hi → is_byte lo → be16 hi lo = val16 hi lo ∧ 0 ≤ val16 hi lo ≤ 65535.
Proof.
  unfold is_byte, be16, val16. intros. rewrite Z.shiftl_mul_pow2 by lia. nowrap. lia.
Qed.

Lemma load_is_byte m i : Forall is_byte m → 0 ≤ i < Zlen m → ∃ b, load m i = Ok b ∧ is_byte b.
Proof.
  intros Hm Hi. destruct (load_Ok m i Hi) as (b & Hb & _).
  exists b. split; [done|]. by eapply load_byte.
Qed.

(** Loads the byte at offset [i] and names it. *)
Ltac fetch m i b Hb Hbyte :=
  destruct (load_is_byte m i) as (b & Hb & Hbyte); [done|lia|rewrite Hb; outcome_simpl].

Section loops.
Context (malloc : Z → bool) (m : list Z).
Context (Hm : Forall is_byte m).

Lemma server_name_loop_spec fuel base data_len pos :
  0 ≤ base → base + data_len ≤ Zlen m → data_len ≤ 65535 → 0 ≤ pos ≤ data_len →
  data_len - pos < Z.of_nat fuel →
  ∃ v, names_verdict (slice m (base + pos) (data_len - pos)) v ∧
       server_name_loop fuel malloc m base data_len pos = Ok (report malloc v).
Proof.
  intros Hbase Hend Hmax. revert pos. induction fuel as [|fuel IH]; intros pos Hpos Hfuel; [lia|].
  cbn [server_name_loop]. rewrite (size_t_small (pos + 3)) by lia.
  destruct (Z.ltb_spec (pos + 3) data_len).
  - destruct (load_is_byte m (base + pos)) as (ty & Hty & Htyb); [done|lia|].
    rewrite !Z.add_assoc.
    fetch m (base + pos + 1) hi Hhi Hhib. fetch m (base + pos + 2) lo Hlo Hlob.
    destruct (be16_val hi lo Hhib Hlob) as [-> Hrange].
    rewrite (slice_take3 _ _ _ _ _ _ Hty Hhi Hlo), Hty by lia. outcome_simpl. nowrap.
    pose proof (slice_nonempty m (base + pos + 3) (data_len - pos - 3)
      ltac:(lia) ltac:(lia) ltac:(lia)) as Hne.
    destruct (Z.ltb_spec data_len (pos + 3 + val16 hi lo)).
    { exists Invalid. split; [|done]. apply names_over; [done|]. rewrite Zlen_slice; lia. }
    rewrite (slice_split_at _ _ _ (val16 hi lo)) in * by lia.
    rewrite (slice_eq _ (base + pos + 3 + val16 hi lo) (base + (pos + 3 + val16 hi lo))
      _ (data_len - (pos + 3 + val16 hi lo))) in * by lia.
    destruct (Z.eqb_spec ty 0) as [->|Hnz].
    + exists (HostName (slice m (base + pos + 3) (val16 hi lo))). split.
      { apply names_host; [done|]. apply Zlen_slice; lia. }
      cbn [report]. rewrite Zlen_slice, c_int_small by lia. destruct (malloc _); [|done].
      rewrite strncpy_spec by lia. by rewrite Z2Nat.id by lia.
    + destruct (IH (pos + 3 + val16 hi lo)) as (v & Hv & Heq); [lia|lia|].
      exists v. split.
      { apply names_other; [done|done| |done]. apply Zlen_slice; lia. }
      by rewrite (Z.add_assoc pos 3).
  - destruct (Z.eqb_spec pos data_len) as [->|]; cbn [negb].
    + exists NoName. split; [|done]. rewrite slice_nil by lia. constructor.
    + exists Invalid. split; [|done]. apply names_short. rewrite Zlen_slice; lia.
Qed.
End loops.

Section hello.
Context (malloc : Z → bool) (m : list Z).
Context (Hm : Forall is_byte m).

Lemma parse_server_name_extension_spec base data_len :
  0 ≤ base → base + data_len ≤ Zlen m → 0 ≤ data_len ≤ 65535 →
  ∃ v, sni_verdict (slice m base data_len) v ∧
       parse_server_name_extension malloc m base data_len = Ok (report malloc v).
Proof.
  intros Hbase Hend Hmax. unfold parse_server_name_extension.
  destruct (decide (data_len < 2)).
  - exists Invalid. split; [apply sni_short; rewrite Zlen_slice; lia|].
    cbn [server_name_loop]. nowrap. zcase. done.
  - destruct (server_name_loop_spec malloc m Hm (S (Z.to_nat data_len)) base data_len 2)
      as (v & Hv & Heq); [lia..|].
    exists v. split; [|done].
    destruct (slice_uncons m base data_len) as (a & _ & ->); [lia..|].
    destruct (slice_uncons m (base + 1) (data_len - 1)) as (b & _ & ->); [lia..|].
    constructor. erewrite slice_eq; [exact Hv|lia..].
Qed.

Lemma extensions_loop_spec fuel base data_len pos :
  0 ≤ base → base + data_len ≤ Zlen m → data_len ≤ 65535 → 0 ≤ pos ≤ data_len →
  data_len - pos < Z.of_nat fuel →
  ∃ v, exts_verdict (slice m (base + pos) (data_len - pos)) v ∧
       extensions_loop fuel malloc m base data_len pos = Ok (report malloc v).
Proof.
  intros Hbase Hend Hmax. revert pos. induction fuel as [|fuel IH]; intros pos Hpos Hfuel; [lia|].
  cbn [extensions_loop]. rewrite (size_t_small (pos + 4)) by lia.
  destruct (Z.leb_spec (pos + 4) data_len).
  - rewrite !Z.add_assoc.
    fetch m (base + pos + 2) hi Hhi Hhib. fetch m (base + pos + 3) lo Hlo Hlob.
    destruct (be16_val hi lo Hhib Hlob) as [-> Hrange].
    destruct (load_is_byte m (base + pos + 1)) as (t1 & Ht1 & _); [done|lia|].
    fetch m (base + pos) t0 Ht0 Ht0b.
    rewrite (slice_take3 _ _ _ _ _ _ Ht0 Ht1 Hhi), (slice_cons_Z _ _ _ _ Hlo) by lia.
    rewrite (slice_eq _ _ (base + pos + 4) _ (data_len - pos - 4)) by lia. nowrap.
    assert (∀ A (f : Z → outcome A), ((if t0 =? 0 then load m (base + pos + 1) else Ok 1) ≫= f) =
      f (if t0 =? 0 then t1 else 1)) as -> by (intros; destruct (t0 =? 0); rewrite ?Ht1; done).
    destruct (decide (data_len < pos + 4 + val16 hi lo)) as [Hover|Hfit].
    { exists Invalid. split; [apply exts_over; rewrite Zlen_slice; lia|].
      destruct ((t0 =? 0) && _); [by zcase1|]. destruct fuel; [lia|].
      cbn [extensions_loop]. nowrap. zcase. done. }
    rewrite (slice_split_at _ _ _ (val16 hi lo)) by lia.
    destruct (decide (t0 = 0 ∧ t1 = 0)) as [[-> ->]|Hother].
    + cbn [Z.eqb andb]. zcase.
      destruct (parse_server_name_extension_spec (base + pos + 4) (val16 hi lo))
        as (v & Hv & ->); [lia..|].
      exists v. split; [|done]. apply exts_sni; [apply Zlen_slice; lia|done].
    + replace ((t0 =? 0) && _) with false by (destruct (Z.eqb_spec t0 0); cbn; lia).
      destruct (IH (pos + 4 + val16 hi lo)) as (v & Hv & Heq); [lia|lia|].
      exists v. split; [|by rewrite (Z.add_assoc pos 4)].
      apply exts_other; [lia|apply Zlen_slice; lia|].
      erewrite slice_eq; [exact Hv|lia..].
  - destruct (Z.eqb_spec pos data_len) as [->|]; cbn [negb].
    + exists NoName. split; [|done]. rewrite slice_nil by lia. constructor.
    + exists Invalid. split; [|done]. apply exts_short. rewrite Zlen_slice; lia.
Qed.

Lemma parse_extensions_spec base data_len :
  0 ≤ base → base + data_len ≤ Zlen m → 0 ≤ data_len ≤ 65535 →
  ∃ v, exts_verdict (slice m base data_len) v ∧
       parse_extensions malloc m base data_len = Ok (report malloc v).
Proof.
  intros. destruct (extensions_loop_spec (S (Z.to_nat data_len)) base data_len 0)
    as (v & Hv & Heq); [lia..|].
  exists v. split; [|done]. erewrite slice_eq; [exact Hv|lia..].
Qed.

(** The vectors of a client hello, as positions in the record that ends at [L]. *)
Lemma vec8_slice o L n :
  0 ≤ o < L → L ≤ Zlen m → load m o = Ok n → 0 ≤ n →
  vec8 (slice m o (L - o)) =
    if decide (o + 1 + n ≤ L) then Some (slice m (o + 1) n, slice m (o + 1 + n) (L - (o + 1 + n)))
    else None.
Proof.
  intros Ho HL Hn Hpos. rewrite (slice_cons_Z _ _ _ _ Hn) by lia. cbn [vec8].
  rewrite Zlen_slice by lia. case_decide; zcase; [|done].
  rewrite take_slice, drop_slice by lia. do 2 f_equal. apply slice_eq; lia.
Qed.

Lemma vec16_slice o L hi lo :
  0 ≤ o → o + 2 ≤ L → L ≤ Zlen m → load m o = Ok hi → load m (o + 1) = Ok lo →
  0 ≤ val16 hi lo →
  vec16 (slice m o (L - o)) =
    if decide (o + 2 + val16 hi lo ≤ L)
    then Some (slice m (o + 2) (val16 hi lo),
               slice m (o + 2 + val16 hi lo) (L - (o + 2 + val16 hi lo)))
    else None.
Proof.
  intros Ho Ho2 HL Hhi Hlo Hpos. rewrite (slice_take2 _ _ _ _ _ Hhi Hlo) by lia. cbn [vec16].
  rewrite Zlen_slice by lia. case_decide; zcase; [|done].
  rewrite take_slice, drop_slice by lia. do 2 f_equal. apply slice_eq; lia.
Qed.

Lemma vec8_short l : Zlen l < 1 → vec8 l = None.
Proof. destruct l; [done|]. rewrite Zlen_cons. pose proof (Zlen_nonneg l). lia. Qed.

Lemma vec16_short l : Zlen l < 2 → vec16 l = None.
Proof.
  destruct l as [|? [|? l]]; [done|done|]. rewrite !Zlen_cons. pose proof (Zlen_nonneg l). lia.
Qed.

(** Sizes of slices that may start past their end. *)
Lemma Zlen_slice_upto o L : 0 ≤ o → L ≤ Zlen m → Zlen (slice m o (L - o)) = Z.max 0 (L - o).
Proof.
  intros. destruct (decide (L < o)); [rewrite slice_nil by lia; rewrite Zlen_nil; lia|].
  rewrite Zlen_slice; lia.
Qed.
End hello.

(** The middle of [parse_tls_header]: skips session id, cipher suites and compression
    methods of a record that ends at [data_len], then continues with [k]. *)
Definition skip_vectors (data : list Z) (data_len : Z)
    (k : Z → outcome (Z * option (list Z))) : outcome (Z * option (list Z)) :=
  let pos := size_t (TLS_HEADER_LEN + 38) in
  if data_len <? size_t (pos + 1) then Ok (-5, None) else
  len ← load data pos;
  let pos := size_t (pos + size_t (1 + len)) in
  if data_len <? size_t (pos + 2) then Ok (-5, None) else
  hi ← load data pos; lo ← load data (pos + 1);
  let pos := size_t (pos + size_t (2 + be16 hi lo)) in
  if data_len <? size_t (pos + 1) then Ok (-5, None) else
  len ← load data pos;
  k (size_t (pos + size_t (1 + len))).

(** The last part: the extension block at [pos]. *)
Definition parse_extension_block (malloc : Z → bool) (data : list Z)
    (major minor data_len pos : Z) : outcome (Z * option (list Z)) :=
  if (pos =? data_len) && (major =? 3) && (minor =? 0) then Ok (-2, None) else
  if data_len <? size_t (pos + 2) then Ok (-5, None) else
  hi ← load data pos; lo ← load data (pos + 1);
  let len := be16 hi lo in
  let pos := size_t (pos + 2) in
  if data_len <? size_t (pos + len) then Ok (-5, None)
  else parse_extensions malloc data pos len.

Lemma skip_vectors_spec m L k :
  Forall is_byte m → 5 ≤ L ≤ Zlen m → L ≤ 65540 →
  (hello_vectors (slice m 5 (L - 5)) = None ∧ skip_vectors m L k = Ok (-5, None)) ∨
  (∃ o, 0 ≤ o < 2 ^ 32 ∧ skip_vectors m L k = k o ∧
        hello_vectors (slice m 5 (L - 5)) =
          if decide (o ≤ L) then Some (slice m o (L - o)) else None).
Proof.
  intros Hm HL Hmax. unfold skip_vectors, hello_vectors, TLS_HEADER_LEN.
  assert (drop 38 (slice m 5 (L - 5)) = slice m 43 (L - 43)) as ->.
  { rewrite (drop_slice m 5 _ 38) by lia. apply slice_eq; lia. }
  nowrap. change (5 + 38) with 43. destruct (Z.ltb_spec L (43 + 1)).
  { left. by rewrite vec8_short by (rewrite Zlen_slice_upto; lia). }
  fetch m 43 sl Hsl Hslb. unfold is_byte in Hslb.
  rewrite (vec8_slice m 43 L sl) by (done || lia). nowrap.
  set (o1 := 43 + (1 + sl)) in *. replace (43 + 1 + sl) with o1 by lia.
  destruct (Z.ltb_spec L (o1 + 2)).
  { left. split; [|done]. case_decide; [|done]. cbn.
    by rewrite vec16_short by (rewrite Zlen_slice_upto; lia). }
  rewrite decide_True by lia.
  fetch m o1 chi Hchi Hchib. fetch m (o1 + 1) clo Hclo Hclob.
  destruct (be16_val chi clo Hchib Hclob) as [-> Hcr]. cbn [mbind option_bind].
  rewrite (vec16_slice m o1 L chi clo) by (done || lia). nowrap.
  set (o2 := o1 + (2 + val16 chi clo)) in *. replace (o1 + 2 + val16 chi clo) with o2 by lia.
  destruct (Z.ltb_spec L (o2 + 1)).
  { left. split; [|done]. case_decide; [|done]. cbn.
    by rewrite vec8_short by (rewrite Zlen_slice_upto; lia). }
  rewrite decide_True by lia. fetch m o2 ml Hml Hmlb. unfold is_byte in Hmlb.
  cbn [mbind option_bind]. rewrite (vec8_slice m o2 L ml) by (done || lia). nowrap.
  right. exists (o2 + (1 + ml)). split; [lia|]. split; [done|].
  rewrite Z.add_assoc. by case_decide.
Qed.

Lemma parse_extension_block_spec malloc m major minor L o :
  Forall is_byte m → 5 ≤ L ≤ Zlen m → L ≤ 65540 → 0 ≤ o < 2 ^ 32 →
  head (slice m 5 (L - 5)) = Some 1 →
  hello_vectors (slice m 5 (L - 5)) = (if decide (o ≤ L) then Some (slice m o (L - o)) else None) →
  ∃ v, body_verdict major minor (slice m 5 (L - 5)) v ∧
       parse_extension_block malloc m major minor L o = Ok (report malloc v).
Proof.
  intros Hm HL Hmax Ho Hhead Hvec. unfold parse_extension_block. nowrap.
  case_decide.
  2: { exists Invalid. split; [by apply body_bad_vectors|]. zcase; done. }
  destruct (decide (o = L ∧ major = 3 ∧ minor = 0)) as [(-> & -> & ->)|Hnot].
  { exists NoName. rewrite Z.eqb_refl. split; [|done].
    apply body_ssl3; [done| |done|done]. rewrite Hvec. by rewrite slice_nil by lia. }
  replace ((o =? L) && _ && _) with false by
    (destruct (Z.eqb_spec o L), (Z.eqb_spec major 3), (Z.eqb_spec minor 0); cbn; lia).
  assert (∀ v, vec16 (slice m o (L - o)) = None → v = Ok (report malloc Invalid) →
    ∃ v', body_verdict major minor (slice m 5 (L - 5)) v' ∧ v = Ok (report malloc v')) as Hbad.
  { intros v Hv ->. exists Invalid. split; [|done]. eapply body_no_exts; [done|done| |done].
    intros Hnil%(f_equal Zlen). rewrite Zlen_slice, Zlen_nil in Hnil; lia. }
  destruct (Z.ltb_spec L (o + 2)).
  { apply Hbad; [|done]. by rewrite vec16_short by (rewrite Zlen_slice_upto; lia). }
  fetch m o ehi Hehi Hehib. fetch m (o + 1) elo Helo Helob.
  destruct (be16_val ehi elo Hehib Helob) as [-> Her].
  pose proof (vec16_slice m o L ehi elo ltac:(lia) ltac:(lia) ltac:(lia) Hehi Helo ltac:(lia)) as Hv16.
  nowrap. destruct (Z.ltb_spec L (o + 2 + val16 ehi elo)).
  { apply Hbad; [|done]. rewrite Hv16. by rewrite decide_False by lia. }
  rewrite decide_True in Hv16 by lia.
  destruct (parse_extensions_spec malloc m Hm (o + 2) (val16 ehi elo)) as (v & Hv & ->); [lia..|].
  exists v. split; [|done]. by eapply body_exts.
Qed.

(** The part of [parse_tls_header] after the record header. *)
Definition parse_handshake (malloc : Z → bool) (data : list Z) (major minor data_len : Z)
    : outcome (Z * option (list Z)) :=
  if data_len <? size_t (TLS_HEADER_LEN + 1) then Ok (-5, None) else
  ty ← load data TLS_HEADER_LEN;
  if negb (ty =? TLS_HANDSHAKE_TYPE_CLIENT_HELLO) then Ok (-5, None) else
  skip_vectors data data_len (parse_extension_block malloc data major minor data_len).

Lemma parse_handshake_spec malloc m major minor L :
  Forall is_byte m → 5 ≤ L ≤ Zlen m → L ≤ 65540 →
  ∃ v, body_verdict major minor (slice m 5 (L - 5)) v ∧
       parse_handshake malloc m major minor L = Ok (report malloc v).
Proof.
  intros Hm HL Hmax. unfold parse_handshake, TLS_HEADER_LEN, TLS_HANDSHAKE_TYPE_CLIENT_HELLO.
  nowrap. destruct (Z.ltb_spec L (5 + 1)).
  { exists Invalid. split; [|done]. apply body_not_hello. by rewrite slice_nil by lia. }
  fetch m 5 ty Hty Htyb.
  assert (head (slice m 5 (L - 5)) = Some ty) as Hhead.
  { by rewrite (slice_cons_Z _ _ _ _ Hty) by lia. }
  destruct (Z.eqb_spec ty 1) as [->|Hne]; cbn [negb].
  2: { exists Invalid. split; [|done]. apply body_not_hello. rewrite Hhead. congruence. }
  destruct (skip_vectors_spec m L (parse_extension_block malloc m major minor L) Hm HL Hmax)
    as [[Hv ->]|(o & Ho & -> & Hv)].
  - exists Invalid. split; [by apply body_bad_vectors|done].
  - by apply parse_extension_block_spec.
Qed.

Lemma parse_tls_header_eq malloc data data_len :
  parse_tls_header malloc data data_len true =
    (if data_len <? TLS_HEADER_LEN then Ok (-1, None) else
     d0 ← load data 0;
     d2 ← (if negb (Z.land d0 0x80 =? 0) then load data 2 else Ok 0);
     if negb (Z.land d0 0x80 =? 0) && (d2 =? 1) then Ok (-2, None) else
     if negb (d0 =? TLS_HANDSHAKE_CONTENT_TYPE) then Ok (-5, None) else
     major ← load data 1; minor ← load data 2;
     if major <? 3 then Ok (-2, None) else
     d3 ← load data 3; d4 ← load data 4;
     let len := size_t (be16 d3 d4 + TLS_HEADER_LEN) in
     if MIN data_len len <? len then Ok (-1, None)
     else parse_handshake malloc data major minor (MIN data_len len)).
Proof. done. Qed.

Lemma parse_tls_header_spec malloc data data_len :
  Forall is_byte data → 0 ≤ data_len ≤ Zlen data →
  ∃ v, hello_verdict (slice data 0 data_len) v ∧
       parse_tls_header malloc data data_len true = Ok (report malloc v).
Proof.
  intros Hd Hlen. rewrite parse_tls_header_eq. unfold TLS_HEADER_LEN, TLS_HANDSHAKE_CONTENT_TYPE.
  destruct (Z.ltb_spec data_len 5).
  { exists Incomplete. split; [|done]. apply hello_short. rewrite Zlen_slice; lia. }
  fetch data 0 b0 Hb0 Hb0b.
  destruct (load_is_byte data 1) as (b1 & Hb1 & _); [done|lia|].
  destruct (load_is_byte data 2) as (b2 & Hb2 & _); [done|lia|].
  destruct (load_is_byte data 3) as (b3 & Hb3 & Hb3b); [done|lia|].
  destruct (load_is_byte data 4) as (b4 & Hb4 & Hb4b); [done|lia|].
  rewrite (slice_take3 _ _ _ _ _ _ Hb0 Hb1 Hb2), (slice_take2 _ _ _ _ _ Hb3 Hb4) by lia.
  rewrite (slice_eq _ _ 5 _ (data_len - 5)) by lia. rewrite Hb1, Hb2, Hb3, Hb4. outcome_simpl.
  destruct (be16_val b3 b4 Hb3b Hb4b) as [-> Hr]. nowrap.
  destruct (decide (Z.land b0 128 ≠ 0 ∧ b2 = 1)) as [[Hl ->]|Hnot].
  { exists NoName. split; [by apply hello_sslv2|]. rewrite (proj2 (Z.eqb_neq _ _) Hl). done. }
  assert (∀ A (x : outcome A) y, (d2 ← (if negb (Z.land b0 128 =? 0) then Ok b2 else Ok 0);
    (if negb (Z.land b0 128 =? 0) && (d2 =? 1) then x else y)) = y) as ->.
  { intros. destruct (Z.eqb_spec (Z.land b0 128) 0); cbn; [done|].
    destruct (Z.eqb_spec b2 1); [by destruct Hnot|done]. }
  destruct (Z.eqb_spec b0 22) as [->|]; cbn [negb].
  2: { exists Invalid. split; [|done]. apply hello_not_handshake; [|done]. lia. }
  destruct (Z.ltb_spec b1 3). { exists NoName. split; [by apply hello_old|done]. }
  rewrite MIN_min. destruct (Z.ltb_spec (Z.min data_len (val16 b3 b4 + 5)) (val16 b3 b4 + 5)).
  { exists Incomplete. split; [|done]. apply hello_partial; [done|]. rewrite Zlen_slice; lia. }
  rewrite Z.min_r by lia.
  destruct (parse_handshake_spec malloc data b1 b2 (val16 b3 b4 + 5)) as (v & Hv & ->); [done|lia..|].
  exists v. split; [|done]. rewrite (slice_split_at _ _ _ (val16 b3 b4)) by lia.
  apply hello_record; [done|apply Zlen_slice; lia|]. erewrite slice_eq; [exact Hv|lia..].
Qed.

(** * The grammar is unambiguous *)

(** Lengths of all the lists around, for rules whose side conditions exclude each other. *)
Ltac lens :=
  repeat match goal with H : _ ≠ [] |- _ => apply nonempty_Zlen in H end;
  rewrite ?Zlen_cons, ?Zlen_app in *; change (Zlen (@nil Z)) with 0 in *;
  repeat match goal with
  | l : list Z |- _ => lazymatch goal with
      | _ : 0 ≤ Zlen l |- _ => fail
      | _ => pose proof (Zlen_nonneg l)
      end
  end.

(** Two splits of one list with equally long first parts are the same split. *)
Ltac same_split :=
  match goal with
  | H : ?a ++ ?b = ?c ++ ?d |- _ =>
      destruct (app_inj_len a b c d H) as [? ?]; [lia|]; subst
  end.

(** Compares two derivations: a pair of rules either agrees or is excluded. *)
Ltac rules_agree := try done; try same_split; try done; try (exfalso; lens; lia).

Lemma names_verdict_det l v v' : names_verdict l v → names_verdict l v' → v = v'.
Proof.
  intros H. revert v'. induction H; intros v' H'; inversion H'; subst; rules_agree; auto.
Qed.

Lemma sni_verdict_det l v v' : sni_verdict l v → sni_verdict l v' → v = v'.
Proof.
  intros H H'; destruct H; inversion H'; subst; rules_agree. by eapply names_verdict_det.
Qed.

Lemma exts_verdict_det l v v' : exts_verdict l v → exts_verdict l v' → v = v'.
Proof.
  intros H. revert v'. induction H; intros v' H'; inversion H'; subst; rules_agree; auto.
  by eapply sni_verdict_det.
Qed.

Lemma body_verdict_det major minor l v v' :
  body_verdict major minor l v → body_verdict major minor l v' → v = v'.
Proof.
  intros H H'; destruct H; inversion H'; subst; try done; simplify_eq; try done.
  - naive_solver.
  - naive_solver.
  - by eapply exts_verdict_det.
Qed.

Lemma hello_verdict_det l v v' : hello_verdict l v → hello_verdict l v' → v = v'.
Proof.
  intros H H'; destruct H; inversion H'; subst; rules_agree; try lia; try (by cbn in *).
  by eapply body_verdict_det.
Qed.

(** * What a verdict says about the bytes *)

(** [h] occurs in [l]. *)
Definition occurs (h l : list Z) : Prop := ∃ pre post, l = pre ++ h ++ post.

Lemma occurs_refl h : occurs h h.
Proof. exists [], []. by rewrite app_nil_r. Qed.

Lemma occurs_app h l pre post : occurs h l → occurs h (pre ++ l ++ post).
Proof.
  intros (p & q & ->). exists (pre ++ p), (q ++ post). by rewrite <- !app_assoc.
Qed.

Lemma occurs_cons h l x : occurs h l → occurs h (x :: l).
Proof. intros H. apply (occurs_app h l [x] []) in H. by rewrite app_nil_r in H. Qed.

Lemma occurs_app_l h l post : occurs h l → occurs h (l ++ post).
Proof. apply (occurs_app h l []). Qed.

Lemma occurs_app_r h l pre : occurs h l → occurs h (pre ++ l).
Proof. intros H. apply (occurs_app h l pre []) in H. by rewrite app_nil_r in H. Qed.

Create HintDb occurs discriminated.
#[local] Hint Resolve occurs_refl occurs_cons occurs_app_l occurs_app_r : occurs.

Lemma occurs_drop h l n : occurs h (drop n l) → occurs h l.
Proof. intros H. rewrite <- (take_drop n l). by apply occurs_app_r. Qed.

Lemma occurs_take h l n : occurs h (take n l) → occurs h l.
Proof. intros H. rewrite <- (take_drop n l). by apply occurs_app_l. Qed.

Lemma names_verdict_occurs l v h : names_verdict l v → v = HostName h → occurs h l.
Proof. induction 1; intros Heq; simplify_eq; eauto 8 with occurs. Qed.

Lemma sni_verdict_occurs l h : sni_verdict l (HostName h) → occurs h l.
Proof. inversion 1; subst. do 2 apply occurs_cons. by eapply names_verdict_occurs. Qed.

Lemma exts_verdict_occurs l v h : exts_verdict l v → v = HostName h → occurs h l.
Proof.
  induction 1; intros Heq; simplify_eq; eauto 8 with occurs. do 4 apply occurs_cons.
  apply occurs_app_l. by apply sni_verdict_occurs.
Qed.

Lemma vec8_occurs h l a b : vec8 l = Some (a, b) → occurs h b → occurs h l.
Proof.
  destruct l as [|n l]; [done|]. cbn. destruct (n <=? Zlen l); [|done].
  intros [= _ <-] H%occurs_drop. by apply occurs_cons.
Qed.

Lemma vec16_occurs h l a b : vec16 l = Some (a, b) → occurs h a ∨ occurs h b → occurs h l.
Proof.
  destruct l as [|hi [|lo l]]; [done|done|]. cbn. destruct (val16 hi lo <=? Zlen l); [|done].
  intros [= <- <-] [H%occurs_take|H%occurs_drop]; by do 2 apply occurs_cons.
Qed.

Lemma hello_vectors_occurs h l r : hello_vectors l = Some r → occurs h r → occurs h l.
Proof.
  unfold hello_vectors. destruct (vec8 (drop 38 l)) as [[a1 r1]|] eqn:H1; cbn; [|done].
  destruct (vec16 r1) as [[a2 r2]|] eqn:H2; cbn; [|done].
  destruct (vec8 r2) as [[a3 r3]|] eqn:H3; cbn; [|done]. intros [= ->] H.
  eapply occurs_drop, vec8_occurs, vec16_occurs; [done|done|]. right. by eapply vec8_occurs.
Qed.

Lemma hello_verdict_occurs l h :
  hello_verdict l (HostName h) → occurs h l.
Proof.
  inversion 1 as [| | | | |????????? Hb]; subst. do 5 apply occurs_cons. apply occurs_app_l.
  inversion Hb as [| | | |??? ? ? Hv H16 He]; subst.
  eapply hello_vectors_occurs; [done|]. eapply vec16_occurs; [done|]. left.
  by eapply exts_verdict_occurs.
Qed.

(** A verdict other than [Incomplete] is final: further bytes do not change it. *)
Lemma hello_verdict_final l k v :
  hello_verdict l v → v ≠ Incomplete → hello_verdict (l ++ k) v.
Proof.
  destruct 1; intros Hv; try done; cbn [app]; try by constructor.
  rewrite <- app_assoc. by apply hello_record.
Qed.

(** * Client hello messages *)

Definition enc16 (n : Z) : list Z := [n / 256; n mod 256].
Definition vector8 (b : list Z) : list Z := Zlen b :: b.
Definition vector16 (b : list Z) : list Z := enc16 (Zlen b) ++ b.

(** A client hello that carries a server name, with the parts a server name can be
    surrounded by: other extensions, other kinds of names, and bytes after them. *)
Record client_hello := ClientHello {
  ch_major : Z;
  ch_minor : Z;
  ch_fixed : list Z;                        (* handshake length, version, random *)
  ch_session : list Z;
  ch_ciphers : list Z;
  ch_compression : list Z;
  ch_exts_before : list (Z * Z * list Z);   (* extensions of other types *)
  ch_list_len : Z * Z;
  ch_names_before : list (Z * list Z);      (* names that are not host names *)
  ch_host : list Z;
  ch_names_after : list Z;
  ch_exts_after : list Z
}.

Definition encode_ext (e : Z * Z * list Z) : list Z := e.1.1 :: e.1.2 :: vector16 e.2.
Definition encode_name (n : Z * list Z) : list Z := n.1 :: vector16 n.2.

Definition encode_names (ch : client_hello) : list Z :=
  foldr (λ n l, encode_name n ++ l)
    (encode_name (0, ch_host ch) ++ ch_names_after ch) (ch_names_before ch).

Definition encode_sni (ch : client_hello) : list Z :=
  (ch_list_len ch).1 :: (ch_list_len ch).2 :: encode_names ch.

Definition encode_exts (ch : client_hello) : list Z :=
  foldr (λ e l, encode_ext e ++ l)
    (encode_ext (0, 0, encode_sni ch) ++ ch_exts_after ch) (ch_exts_before ch).

Definition encode_body (ch : client_hello) : list Z :=
  (1 :: ch_fixed ch) ++ vector8 (ch_session ch) ++ vector16 (ch_ciphers ch) ++
  vector8 (ch_compression ch) ++ vector16 (encode_exts ch).

Definition encode (ch : client_hello) : list Z :=
  0x16 :: ch_major ch :: ch_minor ch :: vector16 (encode_body ch).

Record client_hello_ok (ch : client_hello) : Prop := {
  ok_major : 3 ≤ ch_major ch;
  ok_fixed : length (ch_fixed ch) = 37%nat;
  ok_exts : Forall (λ e, e.1.1 ≠ 0 ∨ e.1.2 ≠ 0) (ch_exts_before ch);
  ok_names : Forall (λ n, n.1 ≠ 0) (ch_names_before ch);
  ok_host : ch_host ch ++ ch_names_after ch ≠ []
}.

Lemma val16_enc n : val16 (n / 256) (n mod 256) = n.
Proof. unfold val16. pose proof (Z.div_mod n 256). lia. Qed.

Lemma names_verdict_encode ch :
  client_hello_ok ch → names_verdict (encode_names ch) (HostName (ch_host ch)).
Proof.
  intros H. unfold encode_names. pose proof (ok_names ch H) as Hn.
  induction Hn as [|[ty n] l Hty Hl IH]; cbn [foldr].
  - apply names_host; [apply H|]. by rewrite val16_enc.
  - apply (names_other ty _ _ n); [done| |by rewrite val16_enc|done].
    intros [_ Hnil]%app_nil. by destruct l.
Qed.

Lemma exts_verdict_encode ch :
  client_hello_ok ch → exts_verdict (encode_exts ch) (HostName (ch_host ch)).
Proof.
  intros H. unfold encode_exts. pose proof (ok_exts ch H) as He.
  induction He as [|[[t0 t1] b] l Hty Hl IH]; cbn [foldr].
  - apply exts_sni; [by rewrite val16_enc|]. by apply sni_names, names_verdict_encode.
  - apply (exts_other t0 t1 _ _ b); [done|by rewrite val16_enc|done].
Qed.

Lemma vec8_vector b l : vec8 (vector8 b ++ l) = Some (b, l).
Proof.
  unfold vec8, vector8. cbn [app]. rewrite Zlen_app. pose proof (Zlen_nonneg l). zcase.
  unfold Zlen. rewrite Nat2Z.id, take_app_length, drop_app_length. done.
Qed.

Lemma vec16_vector b l : vec16 (vector16 b ++ l) = Some (b, l).
Proof.
  unfold vec16, vector16, enc16. cbn [app]. rewrite val16_enc, Zlen_app.
  pose proof (Zlen_nonneg l). zcase.
  unfold Zlen. rewrite Nat2Z.id, take_app_length, drop_app_length. done.
Qed.

Lemma body_verdict_encode ch :
  client_hello_ok ch →
  body_verdict (ch_major ch) (ch_minor ch) (encode_body ch) (HostName (ch_host ch)).
Proof.
  intros H. eapply (body_exts _ _ _ (vector16 (encode_exts ch)) (encode_exts ch) []); [done| | |].
  - unfold hello_vectors, encode_body.
    rewrite (drop_app_length' (1 :: ch_fixed ch)) by (cbn; by rewrite (ok_fixed ch H)).
    rewrite vec8_vector. cbn [mbind option_bind]. rewrite vec16_vector. cbn [mbind option_bind].
    by rewrite vec8_vector.
  - pose proof (vec16_vector (encode_exts ch) []) as Hv. by rewrite app_nil_r in Hv.
  - by apply exts_verdict_encode.
Qed.

Lemma hello_verdict_encode ch rest :
  client_hello_ok ch → hello_verdict (encode ch ++ rest) (HostName (ch_host ch)).
Proof.
  intros H. apply hello_record; [apply H|by rewrite val16_enc|by apply body_verdict_encode].
Qed.

Lemma hello_verdict_prefix ch n :
  client_hello_ok ch → 0 ≤ n < Zlen (encode ch) →
  hello_verdict (slice (encode ch) 0 n) Incomplete.
Proof.
  intros H Hn. destruct (decide (n < 5)).
  { apply hello_short. rewrite Zlen_slice; lia. }
  unfold slice. cbn [drop]. replace (Z.to_nat n) with (5 + Z.to_nat (n - 5))%nat by lia.
  change (hello_verdict (22 :: ch_major ch :: ch_minor ch :: Zlen (encode_body ch) / 256
    :: Zlen (encode_body ch) mod 256 :: take (Z.to_nat (n - 5)) (encode_body ch)) Incomplete).
  apply hello_partial; [apply H|].
  rewrite val16_enc. unfold encode, vector16, enc16 in Hn. cbn [app] in Hn.
  rewrite !Zlen_cons in Hn. unfold Zlen in *. rewrite length_take. lia.
Qed.

(** The code of a verdict is never that of a fault of the interface. *)
Lemma report_ok malloc v : parse_result_ok (report malloc v).
Proof.
  destruct v as [| | |h]; cbn; try lia. destruct (malloc _); cbn; [|lia].
  rewrite Zlen_app, Zlen_cons. change (Zlen (@nil Z)) with 0.
  pose proof (length_nul_padded h) as Hl. split; [unfold Zlen in *; lia|].
  unfold Zlen. rewrite Nat2Z.id, <- Hl. by rewrite lookup_app_r, Nat.sub_diag by lia.
Qed.

#[global] Instance tls_parser_ok : ParserOk tls_protocol 0.
Proof.
  constructor.
  - intros malloc data data_len Hd Hlen _.
    destruct (parse_tls_header_spec malloc data data_len Hd) as (v & _ & Heq); [lia|].
    exists (report malloc v). split; [done|]. apply report_ok.
  - done.
  - done.
Qed.

(** * Properties *)

(** C6: on any bytes at all, and whatever allocations succeed, [parse_tls_header]
    terminates without reading outside the data and returns the code of the one
    verdict the grammar of client hellos gives those bytes. *)
Theorem parse_tls_header_decides malloc data data_len :
  Forall is_byte data → 0 ≤ data_len ≤ Zlen data →
  ∃ v, hello_verdict (slice data 0 data_len) v ∧
       (∀ v', hello_verdict (slice data 0 data_len) v' → v' = v) ∧
       parse_tls_header malloc data data_len true = Ok (report malloc v).
Proof.
  intros Hd Hlen. destruct (parse_tls_header_spec malloc data data_len Hd Hlen) as (v & Hv & Heq).
  exists v. split_and!; [done| |done]. intros v' Hv'. by eapply hello_verdict_det.
Qed.

(** C14: the host name of a client hello survives the trip through the parser, whatever
    other extensions and name types surround it and whatever bytes follow the record
    in the buffer. *)
Theorem tls_client_hello_roundtrip malloc ch rest :
  client_hello_ok ch → Forall is_byte (encode ch ++ rest) → 0 ∉ ch_host ch →
  malloc (Zlen (ch_host ch) + 1) = true →
  parse_tls_header malloc (encode ch ++ rest) (Zlen (encode ch ++ rest)) true =
    Ok (Zlen (ch_host ch), Some (ch_host ch ++ [0])).
Proof.
  intros H Hb Hnul Hmalloc. pose proof (Zlen_nonneg (encode ch ++ rest)).
  destruct (parse_tls_header_spec malloc _ (Zlen (encode ch ++ rest)) Hb) as (v & Hv & ->); [lia|].
  rewrite slice_all in Hv. f_equal.
  rewrite (hello_verdict_det _ _ _ Hv (hello_verdict_encode ch rest H)). cbn [report].
  by rewrite Hmalloc, nul_padded_no_nul.
Qed.

(** A client hello that arrives in pieces is recognised as incomplete at every
    strict prefix, so the connection keeps reading until the whole record is there. *)
Theorem tls_prefix_is_incomplete malloc ch n :
  client_hello_ok ch → Forall is_byte (encode ch) → 0 ≤ n < Zlen (encode ch) →
  parse_tls_header malloc (encode ch) n true = Ok (-1, None).
Proof.
  intros H Hb Hn. destruct (parse_tls_header_spec malloc _ n Hb) as (v & Hv & ->); [lia|].
  by rewrite (hello_verdict_det _ _ _ Hv (hello_verdict_prefix ch n H Hn)).
Qed.

(** C15: once the parser has answered anything but "incomplete" on some bytes, more
    bytes do not change its answer, so the decision does not depend on how the
    request was split into packets. *)
Theorem tls_answer_is_final malloc data n n' :
  Forall is_byte data → 0 ≤ n ≤ n' → n' ≤ Zlen data →
  parse_tls_header malloc data n true ≠ Ok (-1, None) →
  parse_tls_header malloc data n' true = parse_tls_header malloc data n true.
Proof.
  intros Hb Hn Hn' Hne.
  destruct (parse_tls_header_spec malloc data n Hb) as (v & Hv & Heq); [lia|].
  destruct (parse_tls_header_spec malloc data n' Hb) as (v' & Hv' & ->); [lia|].
  rewrite Heq in *. do 2 f_equal. eapply hello_verdict_det; [done|].
  rewrite (slice_split_at _ _ _ n) by lia. apply hello_verdict_final; [done|].
  by intros ->.
Qed.

(** A hostname the parser returns is a copy of bytes of the request, no
    longer than the data, NUL padded and NUL terminated: nothing from outside the received
    data reaches the table lookup. *)
Theorem tls_hostname_from_request malloc data data_len code h :
  Forall is_byte data → 0 ≤ data_len ≤ Zlen data →
  parse_tls_header malloc data data_len true = Ok (code, Some h) →
  ∃ s, occurs s (slice data 0 data_len) ∧ code = Zlen s ∧ h = nul_padded s ++ [0] ∧
       code ≤ data_len.
Proof.
  intros Hb Hlen Heq. destruct (parse_tls_header_spec malloc data data_len Hb Hlen) as (v & Hv & Heq').
  rewrite Heq in Heq'. destruct v as [| | |s]; try done. cbn [report] in Heq'.
  destruct (malloc _); [|done]. injection Heq' as -> ->.
  pose proof (hello_verdict_occurs _ _ Hv) as Hocc. exists s. split_and!; try done.
  destruct Hocc as (pre & post & Hs%(f_equal Zlen)).
  rewrite Zlen_slice, !Zlen_app in Hs by lia.
  pose proof (Zlen_nonneg pre). pose proof (Zlen_nonneg post). lia.
Qed.

(** * Witnesses *)

(** A hello with a session ticket extension before the server name, an unknown name
    type before the host name, and an empty renegotiation extension after it. *)
Definition ex_hello : client_hello :=
  ClientHello 3 1 (replicate 37 9) [7; 7] [0; 47; 0; 53] [0]
    [(0, 35, [1; 2; 3])] (0, 18) [(5, bytes "x")] (bytes "example.com") []
    (encode_ext (255, 1, [0])).

Lemma ex_hello_ok : client_hello_ok ex_hello.
Proof. constructor; cbn; try done; repeat constructor; cbn; lia. Qed.

Lemma ex_hello_bytes rest : Forall is_byte rest → Forall is_byte (encode ex_hello ++ rest).
Proof. intros. apply Forall_app. split; [|done]. by apply bytes_checked. Qed.

Lemma parse_tls_header_decides_witness :
  ∃ v, hello_verdict (slice (encode ex_hello) 0 60) v ∧
       parse_tls_header (λ _, true) (encode ex_hello) 60 true = Ok (report (λ _, true) v).
Proof.
  destruct (parse_tls_header_decides (λ _, true) (encode ex_hello) 60) as (v & ?&_&?).
  - by apply bytes_checked.
  - vm_compute. done.
  - by exists v.
Defined.

Lemma tls_client_hello_roundtrip_witness :
  parse_tls_header (λ _, true) (encode ex_hello ++ [1; 2]) (Zlen (encode ex_hello ++ [1; 2])) true
    = Ok (11, Some (bytes "example.com" ++ [0])).
Proof.
  apply (tls_client_hello_roundtrip (λ _, true) ex_hello [1; 2] ex_hello_ok).
  - by apply bytes_checked.
  - apply (bool_decide_unpack _). by vm_compute.
  - done.
Defined.

Lemma tls_prefix_is_incomplete_witness :
  parse_tls_header (λ _, true) (encode ex_hello) 90 true = Ok (-1, None).
Proof.
  apply (tls_prefix_is_incomplete (λ _, true) ex_hello 90 ex_hello_ok).
  - by apply bytes_checked.
  - vm_compute. done.
Defined.

Lemma tls_answer_is_final_witness :
  parse_tls_header (λ _, true) (encode ex_hello ++ [9; 9]) (Zlen (encode ex_hello) + 2) true =
  parse_tls_header (λ _, true) (encode ex_hello ++ [9; 9]) (Zlen (encode ex_hello)) true.
Proof.
  apply (tls_answer_is_final (λ _, true) (encode ex_hello ++ [9; 9]) (Zlen (encode ex_hello))).
  - by apply bytes_checked.
  - vm_compute. done.
  - vm_compute. done.
  - vm_compute. done.
Defined.

Lemma tls_hostname_from_request_witness :
  ∃ s, occurs s (slice (encode ex_hello) 0 (Zlen (encode ex_hello))) ∧ 11 = Zlen s.
Proof.
  destruct (tls_hostname_from_request (λ _, true) (encode ex_hello) (Zlen (encode ex_hello)) 11
    (bytes "example.com" ++ [0])) as (s & Hs & Hl & _).
  - by apply bytes_checked.
  - vm_compute. done.
  - vm_compute. done.
  - by exists s.
Defined.
