(* ===== verification/Http.v ===== *)
(** The HTTP request parser of src/http.c: the Host header of a request, with the
    port removed.  The scanning loops are related to a line-by-line reading of the
    request; the cases where they part from it are stated as well. *)

From S2P Require Import Prelude CString Protocol.

(** * The parser

    [data] and [data_len] are the pair the source passes by reference; a pointer is an
    offset into the block [m].  Every loop reads one byte further on in each round, so
    one round more than the block has bytes is enough fuel: a loop that runs longer
    has left the block. *)

Definition http_503 : list Z :=
  bytes "HTTP/1.1 503 Service Temporarily Unavailable" ++ [CR; LF] ++
  bytes "Content-Type: text/html" ++ [CR; LF] ++
  bytes "Connection: close" ++ [CR; LF] ++ [CR; LF] ++
  bytes "Backend not available".

(** First loop of [next_header]: to the end of the current line. *)
Fixpoint skip_to_eol (fuel : nat) (m : list Z) (data len : Z) : outcome (Z * Z) :=
  match fuel with
  | O => Fault OutOfFuel
  | S fuel =>
      if 2 <? len then
        c0 ← load m data;
        if c0 =? CR then Ok (data, len) else
        c1 ← load m (data + 1);
        if c1 =? LF then Ok (data, len) else
        skip_to_eol fuel m (data + 1) (size_t (len - 1))
      else Ok (data, len)
  end.

(** Second loop of [next_header]: the length of the header that starts at [data]. *)
Fixpoint header_length (fuel : nat) (m : list Z) (data len header_len : Z) : outcome Z :=
  match fuel with
  | O => Fault OutOfFuel
  | S fuel =>
      if size_t (header_len + 1) <? len then
        c0 ← load m (data + header_len);
        if c0 =? CR then Ok header_len else
        c1 ← load m (data + (header_len + 1));
        if c1 =? LF then Ok header_len else
        header_length fuel m data len (size_t (header_len + 1))
      else Ok header_len
  end.

Definition next_header (m : list Z) (data len : Z) : outcome (Z * (Z * Z)) :=
  '(data, len) ← skip_to_eol (S (length m)) m data len;
  let data := data + 2 in
  let len := size_t (len - 2) in
  header_len ← header_length (S (length m)) m data len 0;
  Ok (header_len, (data, len)).

(** Inner loop of [get_header]: leading white space of the value. *)
Fixpoint eat_blanks (fuel : nat) (m : list Z) (data len header_len : Z) : outcome Z :=
  match fuel with
  | O => Fault OutOfFuel
  | S fuel =>
      if header_len <? len then
        c ← load m (data + header_len);
        if isblank c then eat_blanks fuel m data len (size_t (header_len + 1)) else Ok header_len
      else Ok header_len
  end.

Fixpoint get_header_loop (fuel : nat) (malloc : Z → bool) (header : list Z)
    (m : list Z) (data data_len : Z) : outcome (Z * option (list Z)) :=
  match fuel with
  | O => Fault OutOfFuel
  | S fuel =>
      let header_len := Zlen header in
      '(len, (data, data_len)) ← next_header m data data_len;
      if len =? 0 then Ok (if data_len =? 0 then -1 else -2, None)
      else
        found ← (if header_len <? len then strncasecmp_eq header m data (length header) else Ok false);
        if (found : bool) then
          header_len ← eat_blanks (S (length m)) m data len header_len;
          if malloc (size_t (len - header_len + 1)) then
            s ← strncpy m (data + header_len) (Z.to_nat (len - header_len));
            Ok (c_int (len - header_len), Some (s ++ [0]))
          else Ok (-4, None)
        else get_header_loop fuel malloc header m data data_len
  end.

Definition get_header (malloc : Z → bool) (header m : list Z) (data data_len : Z)
    : outcome (Z * option (list Z)) :=
  get_header_loop (S (length m)) malloc header m data data_len.

(** The port-trimming loop of [parse_http_header]: [n] is [i + 1]. *)
Fixpoint trim_port (n : nat) (result : Z) (hostname : list Z) : outcome (Z * list Z) :=
  match n with
  | O => Ok (result, hostname)
  | S i =>
      c ← load hostname (Z.of_nat i);
      if c =? 58 then Ok (Z.of_nat i, <[i := 0]> hostname)
      else if negb (isdigit c) then Ok (result, hostname)
      else trim_port i result hostname
  end.

Definition parse_http_header (malloc : Z → bool) (data : list Z) (data_len : Z)
    (hostname : bool) : outcome (Z * option (list Z)) :=
  if negb hostname then Ok (-3, None) else
  '(result, h) ← get_header malloc (bytes "Host:") data 0 data_len;
  if result <? 0 then Ok (result, h) else
  match h with
  | None => Fault NullDereference
  | Some h =>
      '(result, h) ← trim_port (Z.to_nat result) result h; Ok (result, Some h)
  end.

Definition http_protocol : Protocol :=
  mkProtocol "http" 80 parse_http_header http_503 (Zlen http_503).

(** * The same reading on lists

    [eol l] is what is left of [l] at the end of its first line, and [hdr l] the
    length of the header [l] starts with, as the two loops see them. *)

Fixpoint eol (l : list Z) : list Z :=
  match l with
  | a :: ((b :: _ :: _) as t) => if (a =? CR) || (b =? LF) then l else eol t
  | _ => l
  end.

Fixpoint hdr (l : list Z) : nat :=
  match l with
  | a :: ((b :: _) as t) => if (a =? CR) || (b =? LF) then 0 else S (hdr t)
  | _ => 0
  end.

Fixpoint drop_blanks (l : list Z) : list Z :=
  match l with
  | a :: t => if isblank a then drop_blanks t else l
  | [] => []
  end.

(** What follows the first line. *)
Definition next_line (l : list Z) : list Z := drop 2 (eol l).

(** The header field at the start of [l]. *)
Definition field (l : list Z) : list Z := take (hdr l) l.

Definition is_field (header f : list Z) : bool :=
  (Zlen header <? Zlen f) && caseless_eq header (take (length header) f).

Definition field_value (header f : list Z) : list Z := drop_blanks (drop (length header) f).

Inductive http_verdict : Type :=
  | HIncomplete
  | HNoHost
  | HHost (value : list Z).

Inductive header_verdict (header : list Z) : list Z → http_verdict → Prop :=
  | hv_incomplete l : next_line l = [] → header_verdict header l HIncomplete
  | hv_none l : next_line l ≠ [] → field (next_line l) = [] → header_verdict header l HNoHost
  | hv_found l : is_field header (field (next_line l)) = true →
      header_verdict header l (HHost (field_value header (field (next_line l))))
  | hv_other l v : field (next_line l) ≠ [] → is_field header (field (next_line l)) = false →
      header_verdict header (next_line l) v → header_verdict header l v.

Definition report_header (malloc : Z → bool) (v : http_verdict) : Z * option (list Z) :=
  match v with
  | HIncomplete => (-1, None)
  | HNoHost => (-2, None)
  | HHost s => if malloc (Zlen s + 1) then (Zlen s, Some (nul_padded s ++ [0])) else (-4, None)
  end.

(** * The loops read the lists *)

Lemma eol_suffix l : ∃ k, eol l = drop k l ∧ (k ≤ length l)%nat ∧
  (2 ≤ length l → 2 ≤ length (eol l))%nat.
Proof.
  induction l as [|a [|b [|c t]] IH]; try (exists 0%nat; cbn; split_and!; done || lia).
  cbn [eol]. destruct ((a =? CR) || (b =? LF)); [exists 0%nat; cbn; split_and!; done || lia|].
  destruct IH as (k & Heq & Hk & Hlen). exists (S k). cbn [drop]. split_and!; [done|cbn in *; lia|].
  intros _. apply Hlen. cbn. lia.
Qed.

Lemma hdr_lt l : l ≠ [] → (hdr l < length l)%nat.
Proof.
  induction l as [|a [|b t] IH]; [done|cbn; lia|]. intros _. cbn [hdr].
  destruct (_ || _); [cbn; lia|]. specialize (IH ltac:(done)). cbn in *. lia.
Qed.

Section scan.
Context (m : list Z).
Context (Hmax : Zlen m < 2 ^ 31).

Lemma skip_to_eol_spec fuel data len :
  0 ≤ data → 0 ≤ len → data + len ≤ Zlen m → len < Z.of_nat fuel →
  ∃ k, skip_to_eol fuel m data len = Ok (data + k, len - k) ∧ 0 ≤ k ≤ len ∧
       (2 ≤ len → 2 ≤ len - k) ∧
       eol (slice m data len) = slice m (data + k) (len - k).
Proof.
  revert data len. induction fuel as [|fuel IH]; intros data len Hd Hl Hend Hfuel; [lia|].
  cbn [skip_to_eol]. destruct (Z.ltb_spec 2 len).
  - destruct (slice_uncons m data len) as (a & Ha & Hs1); [lia..|].
    destruct (slice_uncons m (data + 1) (len - 1)) as (b & Hb & Hs2); [lia..|].
    destruct (slice_uncons m (data + 1 + 1) (len - 1 - 1)) as (c & _ & Hs3); [lia..|].
    assert (eol (slice m data len) =
      if (a =? CR) || (b =? LF) then slice m data len else eol (slice m (data + 1) (len - 1))) as ->.
    { rewrite Hs1, Hs2, Hs3. done. }
    rewrite Ha. outcome_simpl.
    destruct (a =? CR); cbn [orb].
    { exists 0. rewrite Z.add_0_r, Z.sub_0_r. split_and!; done || lia. }
    rewrite Hb. outcome_simpl. destruct (b =? LF).
    { exists 0. rewrite Z.add_0_r, Z.sub_0_r. split_and!; done || lia. }
    nowrap. destruct (IH (data + 1) (len - 1)) as (k & -> & Hk & Hk2 & ->); [lia..|].
    exists (k + 1). split_and!; try lia; [|apply slice_eq; lia].
    do 2 f_equal; lia.
  - exists 0. rewrite Z.add_0_r, Z.sub_0_r. split_and!; try done; try lia.
    destruct (decide (len = 0)) as [->|]; [by rewrite slice_nil by lia|].
    destruct (slice_uncons m data len) as (a & _ & ->); [lia..|].
    destruct (decide (len = 1)) as [->|]; [by rewrite slice_nil by lia|].
    destruct (slice_uncons m (data + 1) (len - 1)) as (b & _ & ->); [lia..|].
    by rewrite slice_nil by lia.
Qed.

Lemma header_length_spec fuel data len h :
  0 ≤ data → 0 ≤ h ≤ len → data + len ≤ Zlen m → len - h < Z.of_nat fuel →
  header_length fuel m data len h =
    Ok (h + Z.of_nat (hdr (slice m (data + h) (len - h)))).
Proof.
  revert h. induction fuel as [|fuel IH]; intros h Hd Hh Hend Hfuel; [lia|].
  cbn [header_length]. nowrap. destruct (Z.ltb_spec (h + 1) len).
  - destruct (slice_uncons m (data + h) (len - h)) as (a & Ha & Hs1); [lia..|].
    destruct (slice_uncons m (data + h + 1) (len - h - 1)) as (b & Hb & Hs2); [lia..|].
    assert (hdr (slice m (data + h) (len - h)) = if (a =? CR) || (b =? LF) then 0%nat
      else S (hdr (slice m (data + h + 1) (len - h - 1)))) as ->.
    { by rewrite Hs1, Hs2. }
    rewrite Ha. outcome_simpl. destruct (a =? CR); cbn [orb]; [f_equal; lia|].
    rewrite Z.add_assoc, Hb. outcome_simpl. destruct (b =? LF); [f_equal; lia|].
    rewrite IH by lia. f_equal.
    rewrite (slice_eq m (data + (h + 1)) (data + h + 1) (len - (h + 1)) (len - h - 1)) by lia. lia.
  - f_equal. destruct (decide (h = len)); [rewrite slice_nil by lia; cbn; lia|].
    destruct (slice_uncons m (data + h) (len - h)) as (a & _ & ->); [lia..|].
    rewrite slice_nil by lia. cbn. lia.
Qed.

Lemma eat_blanks_spec fuel data len h :
  0 ≤ data → 0 ≤ h ≤ len → data + len ≤ Zlen m → len - h < Z.of_nat fuel →
  ∃ k, eat_blanks fuel m data len h = Ok (h + k) ∧ 0 ≤ k ≤ len - h ∧
       drop_blanks (slice m (data + h) (len - h)) = slice m (data + (h + k)) (len - (h + k)).
Proof.
  revert h. induction fuel as [|fuel IH]; intros h Hd Hh Hend Hfuel; [lia|].
  cbn [eat_blanks]. destruct (Z.ltb_spec h len).
  - destruct (slice_uncons m (data + h) (len - h)) as (a & Ha & Hs); [lia..|].
    rewrite Ha. outcome_simpl.
    destruct (isblank a) eqn:Hblank.
    + nowrap. destruct (IH (h + 1)) as (k & -> & Hk & Heq); [lia..|].
      exists (k + 1). split_and!; [f_equal; lia|lia|lia|].
      rewrite Hs. cbn [drop_blanks]. rewrite Hblank.
      rewrite (slice_eq m (data + h + 1) (data + (h + 1)) (len - h - 1) (len - (h + 1))) by lia.
      rewrite Heq. apply slice_eq; lia.
    + exists 0. rewrite !Z.add_0_r. split_and!; try done; try lia.
      rewrite Hs. cbn [drop_blanks]. by rewrite Hblank.
  - exists 0. rewrite !Z.add_0_r. split_and!; try done; try lia.
    by rewrite slice_nil by lia.
Qed.
End scan.

Section get_header.
Context (malloc : Z → bool) (m : list Z).
Context (Hmax : Zlen m < 2 ^ 31).

Lemma next_header_spec data len :
  0 ≤ data → 2 ≤ len → data + len ≤ Zlen m →
  ∃ data' len', next_header m data len =
      Ok (Z.of_nat (hdr (slice m data' len')), (data', len')) ∧
    slice m data' len' = next_line (slice m data len) ∧
    0 ≤ data' ∧ 0 ≤ len' ≤ len - 2 ∧ data' + len' ≤ Zlen m.
Proof.
  intros Hd Hl Hend. unfold next_header.
  destruct (skip_to_eol_spec m Hmax (S (length m)) data len) as (k & -> & Hk & Hk2 & Heol);
    [unfold Zlen in *; lia..|].
  specialize (Hk2 Hl). outcome_simpl. nowrap.
  rewrite header_length_spec by (unfold Zlen in *; lia). outcome_simpl.
  rewrite Z.add_0_r, Z.sub_0_r, Z.add_0_l.
  eexists _, _. split; [done|]. split_and!; try lia.
  unfold next_line. rewrite Heol, (drop_slice m _ _ 2) by lia. done.
Qed.

Lemma field_slice data len :
  0 ≤ data → 0 ≤ len → data + len ≤ Zlen m →
  let n := Z.of_nat (hdr (slice m data len)) in
  field (slice m data len) = slice m data n ∧ (n = 0 ∨ n < len).
Proof.
  intros Hd Hl Hend n. assert (n = 0 ∨ n < len) as Hn.
  { destruct (decide (len = 0)) as [->|]; [left; unfold n; by rewrite slice_nil by lia|right].
    pose proof (hdr_lt (slice m data len)) as Hlt. pose proof (Zlen_slice m data len) as Hz.
    unfold n, Zlen in *. rewrite Nat2Z.inj_lt, Hz in Hlt by lia. apply Hlt.
    intros Hnil. rewrite Hnil in Hz. cbn in Hz. lia. }
  split; [|done]. unfold field.
  replace (hdr (slice m data len)) with (Z.to_nat n) by lia. apply take_slice. lia.
Qed.

(** A header that is found is copied without the blanks before its value. *)
Lemma found_header header data n :
  0 ≤ data → Zlen header < n → data + n ≤ Zlen m →
  (header_len ← eat_blanks (S (length m)) m data n (Zlen header);
   if malloc (size_t (n - header_len + 1)) then
     s ← strncpy m (data + header_len) (Z.to_nat (n - header_len));
     Ok (c_int (n - header_len), Some (s ++ [0]))
   else Ok (-4, None)) =
  Ok (report_header malloc (HHost (field_value header (slice m data n)))).
Proof.
  intros Hd Hn Hend. pose proof (Zlen_nonneg header).
  destruct (eat_blanks_spec m Hmax (S (length m)) data n (Zlen header)) as (k & -> & Hk & Heq);
    [unfold Zlen in *; lia..|].
  outcome_simpl. unfold field_value.
  replace (length header) with (Z.to_nat (Zlen header)) by (unfold Zlen; lia).
  rewrite drop_slice, Heq by lia. cbn [report_header]. rewrite Zlen_slice by lia. nowrap.
  destruct (malloc _); [|done]. rewrite strncpy_spec by lia. outcome_simpl.
  rewrite Z2Nat.id, c_int_small by lia. done.
Qed.

Lemma get_header_loop_spec header fuel data len :
  0 ≤ data → 2 ≤ len → data + len ≤ Zlen m → len < Z.of_nat fuel →
  ∃ v, header_verdict header (slice m data len) v ∧
       get_header_loop fuel malloc header m data len = Ok (report_header malloc v).
Proof.
  revert data len. induction fuel as [|fuel IH]; intros data len Hd Hl Hend Hfuel; [lia|].
  cbn [get_header_loop].
  destruct (next_header_spec data len) as (d & l & -> & Hline & Hd' & Hl' & Hend'); [lia..|].
  destruct (field_slice d l) as [Hf Hn]; [lia..|]. outcome_simpl.
  set (n := Z.of_nat (hdr (slice m d l))) in *. rewrite Hline in Hf.
  destruct (Z.eqb_spec n 0) as [Hz|Hnz].
  { destruct (Z.eqb_spec l 0) as [->|].
    - exists HIncomplete. split; [|done]. constructor. by rewrite <- Hline, slice_nil by lia.
    - exists HNoHost. split; [|done]. constructor; [rewrite <- Hline; apply slice_nonempty; lia|].
      by rewrite Hf, Hz. }
  assert (Zlen (slice m d n) = n) as Hlen by (apply Zlen_slice; lia).
  assert (∀ A (f : bool → outcome A),
    ((if Zlen header <? n then strncasecmp_eq header m d (length header) else Ok false) ≫= f) =
    f (is_field header (slice m d n))) as ->.
  { intros A f. unfold is_field. rewrite Hlen. destruct (Z.ltb_spec (Zlen header) n); [|done].
    rewrite strncasecmp_eq_spec by lia. cbn. pose proof (Zlen_nonneg header).
    replace (length header) with (Z.to_nat (Zlen header)) by (unfold Zlen; lia).
    by rewrite take_slice by lia. }
  destruct (is_field header (slice m d n)) eqn:Hfound.
  - exists (HHost (field_value header (slice m d n))). split.
    { rewrite <- Hf. constructor. by rewrite Hf. }
    apply found_header; [done| |lia]. unfold is_field in Hfound. lia.
  - destruct (IH d l) as (v & Hv & ->); [lia..|]. exists v. split; [|done].
    apply hv_other; rewrite ?Hf; [apply slice_nonempty; lia|done|by rewrite <- Hline].
Qed.
End get_header.

(** * Trimming the port *)

(** [port_stripped s name]: [name] is [s] without a final colon and digits, or [s]
    itself when it does not end that way. *)
Inductive port_stripped : list Z → list Z → Prop :=
  | ps_port name ds : digits ds → port_stripped (name ++ 58 :: ds) name
  | ps_none s : (∀ name ds, digits ds → s ≠ name ++ 58 :: ds) → port_stripped s s.

Lemma first_nondigit (x y : list Z) c d u v :
  digits x → digits y → isdigit c = false → isdigit d = false →
  x ++ c :: u = y ++ d :: v → x = y ∧ c = d ∧ u = v.
Proof.
  intros Hx. revert y. induction Hx as [|a x Ha Hx IH]; intros y Hy Hc Hd Heq;
    destruct Hy as [|b y Hb Hy]; cbn in Heq; injection Heq as -> Heq; try congruence; [done|].
  destruct (IH y Hy Hc Hd Heq) as (-> & -> & ->). done.
Qed.

(** The last character of a string that is not a digit is determined. *)
Lemma last_nondigit (a b : list Z) c d x y :
  digits x → digits y → isdigit c = false → isdigit d = false →
  a ++ c :: x = b ++ d :: y → a = b ∧ c = d ∧ x = y.
Proof.
  intros Hx Hy Hc Hd Heq. apply (f_equal reverse) in Heq.
  rewrite !reverse_app, !reverse_cons, <- !app_assoc in Heq. cbn in Heq.
  apply first_nondigit in Heq as (?%(inj reverse) & -> & ?%(inj reverse)); try done;
    by apply Forall_reverse.
Qed.

Lemma port_stripped_det s n n' : port_stripped s n → port_stripped s n' → n = n'.
Proof.
  destruct 1 as [n ds Hds|s Hs]; inversion 1 as [? ds' Hds' Heq|? Hs']; subst; try done.
  - by apply last_nondigit in Heq as (-> & _ & _).
  - by destruct (Hs' n ds).
  - by destruct (Hs n' ds').
Qed.

Lemma load_mid (t r : list Z) c : load (t ++ c :: r) (Zlen t) = Ok c.
Proof. rewrite load_app_r, Z.sub_diag by lia. done. Qed.

Lemma trim_port_spec t ds z R :
  digits ds →
  (∃ name ds', digits ds' ∧ t ++ ds = name ++ 58 :: ds' ∧
    trim_port (length t) R (t ++ ds ++ z) = Ok (Zlen name, name ++ 0 :: ds' ++ z)) ∨
  ((∀ name ds', digits ds' → t ++ ds ≠ name ++ 58 :: ds') ∧
    trim_port (length t) R (t ++ ds ++ z) = Ok (R, t ++ ds ++ z)).
Proof.
  revert ds. induction t as [|c t IH] using rev_ind; intros ds Hds.
  - right. split; [|done]. intros name ds' _ Heq. cbn in Heq. subst ds.
    apply Forall_app in Hds as [_ Hds]. by inversion Hds.
  - rewrite length_app, Nat.add_comm. cbn [length Nat.add trim_port].
    rewrite <- !app_assoc. cbn [app]. fold (Zlen t). rewrite load_mid. outcome_simpl.
    destruct (Z.eqb_spec c 58) as [->|Hc].
    + left. exists t, ds. split_and!; [done|done|].
      rewrite insert_app_r_alt, Nat.sub_diag by lia. done.
    + destruct (isdigit c) eqn:Hdig; cbn [negb].
      * apply (IH (c :: ds)). by constructor.
      * right. split; [|done]. intros name ds' Hds' Heq.
        apply last_nondigit in Heq as (_ & ? & _); done.
Qed.

(** The result of [parse_http_header] for a verdict on the headers. *)
Inductive report_http (malloc : Z → bool) : http_verdict → Z * option (list Z) → Prop :=
  | rh_incomplete : report_http malloc HIncomplete (-1, None)
  | rh_none : report_http malloc HNoHost (-2, None)
  | rh_nomem s : malloc (Zlen s + 1) = false → report_http malloc (HHost s) (-4, None)
  | rh_host s name tail :
      malloc (Zlen s + 1) = true → port_stripped (nul_padded s) name →
      report_http malloc (HHost s) (Zlen name, Some (name ++ 0 :: tail)).

Lemma parse_http_header_spec malloc data data_len :
  Zlen data < 2 ^ 31 → 2 ≤ data_len ≤ Zlen data →
  ∃ v r, header_verdict (bytes "Host:") (slice data 0 data_len) v ∧
         parse_http_header malloc data data_len true = Ok r ∧ report_http malloc v r.
Proof.
  intros Hmax Hlen. unfold parse_http_header, get_header. cbn [negb].
  destruct (get_header_loop_spec malloc data Hmax (bytes "Host:") (S (length data)) 0 data_len)
    as (v & Hv & ->); [unfold Zlen in *; lia..|]. outcome_simpl. exists v.
  destruct v as [| |s]; cbn [report_header].
  1, 2: cbn; eexists; split; [done|]; split; [done|constructor].
  destruct (malloc (Zlen s + 1)) eqn:Hm.
  2: { cbn. eexists. split; [done|]. split; [done|by constructor]. }
  pose proof (Zlen_nonneg s). zcase. pose proof (length_nul_padded s) as Hl.
  replace (Z.to_nat (Zlen s)) with (length (nul_padded s)) by (unfold Zlen; lia).
  destruct (trim_port_spec (nul_padded s) [] [0] (Zlen s)) as
    [(name & ds & Hds & Heq & Htrim)|[Hnone Htrim]]; [constructor| |];
    cbn [app] in Htrim; rewrite Htrim; outcome_simpl; eexists; (split; [done|]); (split; [done|]).
  - rewrite app_nil_r in Heq. apply rh_host; [done|]. rewrite Heq. by constructor.
  - replace (Zlen s) with (Zlen (nul_padded s)) by (unfold Zlen; lia).
    apply (rh_host _ _ _ []); [done|]. constructor. intros name ds Hds.
    specialize (Hnone name ds Hds). by rewrite app_nil_r in Hnone.
Qed.

(** * Requests as lines *)

Definition line (l : list Z) : Prop := (CR ∉ l) ∧ (LF ∉ l).
Definition crlf : list Z := [CR; LF].

Lemma line_nil : line [].
Proof. split; apply not_elem_of_nil. Qed.

Lemma line_cons c l : line (c :: l) ↔ c ≠ CR ∧ c ≠ LF ∧ line l.
Proof. unfold line. rewrite !not_elem_of_cons. intuition congruence. Qed.

Lemma eol_line l r : line l → eol (l ++ crlf ++ r) = crlf ++ r.
Proof.
  induction l as [|a l IH]; intros Hl; [destruct r; done|].
  apply line_cons in Hl as (Ha & _ & Hl). etrans; [|exact (IH Hl)].
  destruct l as [|b l]; cbn [app crlf eol].
  - by rewrite (proj2 (Z.eqb_neq a CR) Ha).
  - apply line_cons in Hl as (_ & Hb & _).
    rewrite (proj2 (Z.eqb_neq a CR)), (proj2 (Z.eqb_neq b LF)) by done. cbn [orb].
    by destruct l.
Qed.

Lemma next_line_line l r : line l → next_line (l ++ crlf ++ r) = r.
Proof. intros. unfold next_line. by rewrite eol_line. Qed.

Lemma hdr_line l r : line l → hdr (l ++ CR :: r) = length l.
Proof.
  induction l as [|a l IH]; intros Hl; [by destruct r|].
  apply line_cons in Hl as (Ha & _ & Hl).
  destruct l as [|b l]; cbn [app hdr length] in *.
  - rewrite (proj2 (Z.eqb_neq a CR)) by done. cbn [orb]. f_equal. by rewrite IH.
  - pose proof Hl as Hl'. apply line_cons in Hl' as (_ & Hb & _).
    rewrite (proj2 (Z.eqb_neq a CR)), (proj2 (Z.eqb_neq b LF)) by done. cbn [orb]. f_equal.
    by rewrite <- IH.
Qed.

Lemma field_line f r : line f → field (f ++ crlf ++ r) = f.
Proof. intros Hf. unfold field. cbn [crlf app]. rewrite hdr_line by done. apply take_app_length. Qed.

(** A header cut off by the end of the data loses its last byte. *)
Lemma hdr_cut f c : line (f ++ [c]) → hdr (f ++ [c]) = length f.
Proof.
  induction f as [|a f IH]; intros Hl; [done|]. apply line_cons in Hl as (Ha & _ & Hl).
  pose proof (IH Hl) as Heq. destruct f as [|b f]; cbn [app hdr length] in *.
  - apply line_cons in Hl as (_ & Hc & _).
    by rewrite (proj2 (Z.eqb_neq a CR) Ha), (proj2 (Z.eqb_neq c LF) Hc).
  - apply line_cons in Hl as (_ & Hb & _).
    rewrite (proj2 (Z.eqb_neq a CR)), (proj2 (Z.eqb_neq b LF)) by done. cbn [orb]. by f_equal.
Qed.

Lemma field_cut f c : line (f ++ [c]) → field (f ++ [c]) = f.
Proof. intros. unfold field. rewrite hdr_cut by done. apply take_app_length. Qed.

Lemma two_bytes l r : 2 ≤ Zlen (l ++ crlf ++ r).
Proof.
  rewrite !Zlen_app. change (Zlen crlf) with 2.
  pose proof (Zlen_nonneg l). pose proof (Zlen_nonneg r). lia.
Qed.

(** The headers of a request in front of whatever follows them. *)
Definition with_headers (hs : list (list Z)) (rest : list Z) : list Z :=
  foldr (λ h r, h ++ crlf ++ r) rest hs.

Lemma with_headers_app hs r : with_headers hs r = with_headers hs [] ++ r.
Proof. unfold with_headers. induction hs as [|h hs IH]; [done|]. cbn [foldr]. by rewrite IH, <- !app_assoc. Qed.

Definition other_header (header h : list Z) : Prop := h ≠ [] ∧ line h ∧ is_field header h = false.

Lemma header_verdict_skip header l0 hs rest v :
  line l0 → Forall (other_header header) hs →
  (∀ l, line l → header_verdict header (l ++ crlf ++ rest) v) →
  header_verdict header (l0 ++ crlf ++ with_headers hs rest) v.
Proof.
  intros Hl0 Hhs Hrest. revert l0 Hl0.
  induction Hhs as [|h hs (Hne & Hl & Hf) Hhs IH]; intros l0 Hl0; [by apply Hrest|].
  cbn [with_headers foldr]. apply hv_other; rewrite next_line_line by done.
  - by rewrite field_line.
  - by rewrite field_line.
  - by apply IH.
Qed.

Lemma header_verdict_det header l v v' :
  header_verdict header l v → header_verdict header l v' → v = v'.
Proof.
  assert (∀ l, next_line l = [] → field (next_line l) = []) as Hnil by (by intros l' ->).
  assert (∀ f, is_field header f = true → f ≠ []) as Hne.
  { intros f Hf ->. unfold is_field in Hf. change (Zlen (@nil Z)) with 0 in Hf.
    pose proof (Zlen_nonneg header). lia. }
  induction 1; inversion 1; subst; try done; try congruence; naive_solver.
Qed.

Lemma report_http_ok malloc v r : report_http malloc v r → parse_result_ok r.
Proof.
  destruct 1 as [| | |s name tail]; cbn; try lia. pose proof (Zlen_nonneg name).
  pose proof (Zlen_nonneg tail). rewrite Zlen_app, Zlen_cons. split; [lia|].
  unfold Zlen. by rewrite Nat2Z.id, lookup_app_r, Nat.sub_diag by lia.
Qed.

#[global] Instance http_parser_ok : ParserOk http_protocol 2.
Proof.
  constructor.
  - intros malloc data data_len _ Hlen Hmax.
    destruct (parse_http_header_spec malloc data data_len) as (v & r & _ & Heq & Hr); [done|done|].
    exists r. split; [done|]. by eapply report_http_ok.
  - done.
  - vm_compute. done.
Qed.

Lemma drop_blanks_no_nul l : 0 ∉ l → 0 ∉ drop_blanks l.
Proof.
  induction l as [|a l IH]; [done|]. cbn. intros Hl. destruct (isblank a); [|done].
  apply IH. by apply not_elem_of_cons in Hl as [_ ?].
Qed.

Lemma field_value_no_nul header f : 0 ∉ f → 0 ∉ field_value header f.
Proof.
  intros Hf. apply drop_blanks_no_nul. intros Hin. apply Hf.
  rewrite <- (take_drop (length header) f). apply elem_of_app. by right.
Qed.

(** Runs the parser on data whose verdict is known. *)
Lemma parse_http_known malloc data junk v :
  2 ≤ Zlen data → Zlen (data ++ junk) < 2 ^ 31 →
  header_verdict (bytes "Host:") data v →
  ∃ r, parse_http_header malloc (data ++ junk) (Zlen data) true = Ok r ∧ report_http malloc v r.
Proof.
  intros Hlen Hmax Hv.
  destruct (parse_http_header_spec malloc (data ++ junk) (Zlen data)) as (v' & r & Hv' & Heq & Hr);
    [done|rewrite Zlen_app; pose proof (Zlen_nonneg junk); lia|].
  rewrite slice_app_l, slice_all in Hv' by lia.
  rewrite (header_verdict_det _ _ _ _ Hv Hv'). eauto.
Qed.

Lemma report_http_host malloc s r name :
  report_http malloc (HHost s) r → malloc (Zlen s + 1) = true → 0 ∉ s → port_stripped s name →
  ∃ tail, r = (Zlen name, Some (name ++ 0 :: tail)).
Proof.
  inversion 1 as [| |? Hm|? n tail Hm Hp]; intros Hmalloc Hs Hname; subst; [congruence|].
  rewrite nul_padded_no_nul in Hp by done. rewrite (port_stripped_det _ _ _ Hname Hp). eauto.
Qed.

(** The value of the first Host header of a request made of lines. *)
Lemma host_header_parsed malloc l0 hs f rest junk name :
  line l0 → Forall (other_header (bytes "Host:")) hs → line f →
  is_field (bytes "Host:") f = true → 0 ∉ f →
  port_stripped (field_value (bytes "Host:") f) name → (∀ n, malloc n = true) →
  let data := l0 ++ crlf ++ with_headers hs (f ++ crlf ++ rest) in
  Zlen (data ++ junk) < 2 ^ 31 →
  ∃ tail, parse_http_header malloc (data ++ junk) (Zlen data) true =
          Ok (Zlen name, Some (name ++ 0 :: tail)).
Proof.
  intros Hl0 Hhs Hf Hfield Hnul Hport Hmalloc data Hmax.
  destruct (parse_http_known malloc data junk (HHost (field_value (bytes "Host:") f)))
    as (r & Heq & Hr); [apply two_bytes|done| |].
  - apply header_verdict_skip; [done|done|]. intros l Hl.
    pose proof (hv_found (bytes "Host:") (l ++ crlf ++ f ++ crlf ++ rest)) as H.
    rewrite next_line_line, field_line in H by done. by apply H.
  - destruct (report_http_host _ _ _ _ Hr (Hmalloc _) (field_value_no_nul _ _ Hnul) Hport)
      as (tail & ->). by exists tail.
Qed.

(** * Properties *)


(** C17: in a request made of lines, the value of the first Host header (the name
    compared without case, white space before the value skipped, a final port
    removed) is what the parser returns, whatever headers stand before it and
    whatever follows it. *)
Theorem http_host_found malloc l0 hs f rest junk name :
  line l0 → Forall (other_header (bytes "Host:")) hs → line f →
  is_field (bytes "Host:") f = true → 0 ∉ f →
  port_stripped (field_value (bytes "Host:") f) name → (∀ n, malloc n = true) →
  let data := l0 ++ crlf ++ with_headers hs (f ++ crlf ++ rest) in
  Zlen (data ++ junk) < 2 ^ 31 →
  ∃ tail, parse_http_header malloc (data ++ junk) (Zlen data) true =
          Ok (Zlen name, Some (name ++ 0 :: tail)).
Proof. apply host_header_parsed. Qed.

(** A request whose headers end with an empty line and do not include Host is
    answered -2, and a request that so far consists of whole lines without Host is
    answered -1, so that more data is awaited. *)
Theorem http_host_absent malloc l0 hs body :
  line l0 → Forall (other_header (bytes "Host:")) hs →
  let complete := l0 ++ crlf ++ with_headers hs (crlf ++ body) in
  let partial := l0 ++ crlf ++ with_headers hs [] in
  Zlen complete < 2 ^ 31 →
  parse_http_header malloc complete (Zlen complete) true = Ok (-2, None) ∧
  parse_http_header malloc complete (Zlen partial) true = Ok (-1, None).
Proof.
  intros Hl0 Hhs complete partial Hmax.
  assert (complete = partial ++ crlf ++ body) as Hsplit.
  { unfold complete, partial. by rewrite (with_headers_app hs (crlf ++ body)), <- !app_assoc. }
  assert (2 ≤ Zlen partial) as Hlen by apply two_bytes.
  split.
  - destruct (parse_http_known malloc complete [] HNoHost) as (r & Heq & Hr);
      [rewrite Hsplit, Zlen_app; pose proof (Zlen_nonneg (crlf ++ body)); lia|by rewrite app_nil_r| |].
    + apply header_verdict_skip; [done|done|]. intros l Hl.
      apply hv_none; rewrite next_line_line by done; [done|]. apply (field_line []), line_nil.
    + rewrite app_nil_r in Heq. rewrite Heq. by inversion Hr.
  - rewrite Hsplit in *. destruct (parse_http_known malloc partial (crlf ++ body) HIncomplete)
      as (r & Heq & Hr); [done|done| |].
    + apply header_verdict_skip; [done|done|]. intros l Hl. apply hv_incomplete.
      by apply next_line_line.
    + rewrite Heq. by inversion Hr.
Qed.

(** Data that ends inside the Host header, which a later read would complete, is
    not reported as incomplete: the parser returns the part of the value received so
    far less its last byte as if it were the whole name. *)
Theorem http_cut_host_is_accepted malloc l0 hs f c junk name :
  line l0 → Forall (other_header (bytes "Host:")) hs → line (f ++ [c]) →
  is_field (bytes "Host:") f = true → 0 ∉ f →
  port_stripped (field_value (bytes "Host:") f) name → (∀ n, malloc n = true) →
  let data := l0 ++ crlf ++ with_headers hs (f ++ [c]) in
  Zlen (data ++ junk) < 2 ^ 31 →
  ∃ tail, parse_http_header malloc (data ++ junk) (Zlen data) true =
          Ok (Zlen name, Some (name ++ 0 :: tail)).
Proof.
  intros Hl0 Hhs Hf Hfield Hnul Hport Hmalloc data Hmax.
  destruct (parse_http_known malloc data junk (HHost (field_value (bytes "Host:") f)))
    as (r & Heq & Hr); [apply two_bytes|done| |].
  - apply header_verdict_skip; [done|done|]. intros l Hl.
    pose proof (hv_found (bytes "Host:") (l ++ crlf ++ f ++ [c])) as H.
    rewrite next_line_line, field_cut in H by done. by apply H.
  - destruct (report_http_host _ _ _ _ Hr (Hmalloc _) (field_value_no_nul _ _ Hnul) Hport)
      as (tail & ->). by exists tail.
Qed.

(** Data that ends one byte after the end of a line is refused with -2 (no Host
    header), whatever the byte is and whatever header it may be the beginning of;
    the same data without that byte is reported incomplete by -1. *)
Theorem http_one_more_byte_is_refused malloc l0 hs c junk :
  line l0 → Forall (other_header (bytes "Host:")) hs →
  let data := l0 ++ crlf ++ with_headers hs [c] in
  Zlen (data ++ junk) < 2 ^ 31 →
  parse_http_header malloc (data ++ junk) (Zlen data) true = Ok (-2, None).
Proof.
  intros Hl0 Hhs data Hmax.
  destruct (parse_http_known malloc data junk HNoHost) as (r & Heq & Hr); [apply two_bytes|done| |].
  - apply header_verdict_skip; [done|done|]. intros l Hl.
    by apply hv_none; rewrite next_line_line by done.
  - rewrite Heq. by inversion Hr.
Qed.

(** With less than two bytes of data the length kept by [next_header] wraps
    around and the parser reads past the data: into whatever the block still holds
    there, which it may return as the name, or out of the block. *)
Theorem http_short_data_overreads malloc c d :
  (∀ n, malloc n = true) →
  parse_http_header malloc [c] 1 true = Fault OutOfBounds ∧
  parse_http_header malloc [] 0 true = Fault OutOfBounds ∧
  parse_http_header malloc (c :: d :: bytes "Host: stale.example" ++ crlf ++ crlf) 1 true =
    Ok (13, Some (bytes "stale.example" ++ [0])).
Proof.
  intros Hmalloc. split_and!; [done|done|]. vm_compute. by rewrite Hmalloc.
Qed.

(** * Witnesses *)

Definition request : list Z :=
  bytes "GET / HTTP/1.1" ++ crlf ++ bytes "Accept: */*" ++ crlf ++
  bytes "HOST:  example.com:8080" ++ crlf ++ crlf.


Ltac by_decision := apply (bool_decide_unpack _); vm_compute; exact I.
Ltac is_line := unfold line; by_decision.

Lemma http_host_found_witness :
  ∃ tail, parse_http_header (λ _, true) (request ++ [1]) (Zlen request) true =
          Ok (11, Some (bytes "example.com" ++ 0 :: tail)).
Proof.
  apply (http_host_found (λ _, true) (bytes "GET / HTTP/1.1") [bytes "Accept: */*"]
    (bytes "HOST:  example.com:8080") crlf [1] (bytes "example.com")).
  - is_line.
  - constructor; [|constructor]. split_and!; [done|is_line|done].
  - is_line.
  - done.
  - by_decision.
  - by apply (ps_port (bytes "example.com") (bytes "8080")); repeat constructor.
  - done.
  - done.
Defined.

Lemma http_host_absent_witness :
  let complete := bytes "GET / HTTP/1.1" ++ crlf ++ with_headers [bytes "Accept: */*"] (crlf ++ []) in
  let partial := bytes "GET / HTTP/1.1" ++ crlf ++ with_headers [bytes "Accept: */*"] [] in
  parse_http_header (λ _, true) complete (Zlen complete) true = Ok (-2, None) ∧
  parse_http_header (λ _, true) complete (Zlen partial) true = Ok (-1, None).
Proof.
  apply (http_host_absent (λ _, true) (bytes "GET / HTTP/1.1") [bytes "Accept: */*"] []).
  - is_line.
  - constructor; [|constructor]. split_and!; [done|is_line|done].
  - done.
Defined.

Lemma http_cut_host_is_accepted_witness :
  ∃ tail, parse_http_header (λ _, true)
            (bytes "GET / HTTP/1.1" ++ crlf ++ bytes "Host: example.com") 33 true =
          Ok (10, Some (bytes "example.co" ++ 0 :: tail)).
Proof.
  apply (http_cut_host_is_accepted (λ _, true) (bytes "GET / HTTP/1.1") []
    (bytes "Host: example.co") 109 [] (bytes "example.co")).
  - is_line.
  - constructor.
  - is_line.
  - done.
  - by_decision.
  - constructor. intros name ds _ Heq.
    assert (58 ∈ bytes "example.co") as Hin
      by (change (bytes "example.co" = name ++ 58 :: ds) in Heq; rewrite Heq; set_solver).
    contradict Hin. by_decision.
  - done.
  - done.
Defined.

Lemma http_one_more_byte_is_refused_witness :
  parse_http_header (λ _, true) (bytes "GET / HTTP/1.1" ++ crlf ++ [72]) 17 true = Ok (-2, None).
Proof.
  apply (http_one_more_byte_is_refused (λ _, true) (bytes "GET / HTTP/1.1") [] 72 []).
  - is_line.
  - constructor.
  - done.
Defined.

Lemma http_short_data_overreads_witness :
  parse_http_header (λ _, true) [22] 1 true = Fault OutOfBounds ∧
  parse_http_header (λ _, true) [] 0 true = Fault OutOfBounds ∧
  parse_http_header (λ _, true) (22 :: 3 :: bytes "Host: stale.example" ++ crlf ++ crlf) 1 true =
    Ok (13, Some (bytes "stale.example" ++ [0])).
Proof. by apply http_short_data_overreads. Defined.
