(* ===== verification/Address.v ===== *)
(** Addresses (src/address.c): host names, socket addresses, wildcards and patterns;
    their textual form, their order, and the port operations. *)

From S2P Require Import Prelude CString.

(** * Data *)

Inductive addr_type : Type := HOSTNAME | SOCKADDR | WILDCARD | PATTERN.

#[global] Instance addr_type_eq_dec : EqDecision addr_type.
Proof. solve_decision. Defined.

(** [data] is the flexible array member: the string with its terminator, or the bytes
    of the socket address.  The array of a wildcard is never used. *)
Record Address := mkAddress {
  type  : addr_type;
  alen  : Z;       (* len: length of data *)
  aport : Z;       (* port *)
  adata : list Z   (* data *)
}.

#[global] Instance Address_eq_dec : EqDecision Address.
Proof. solve_decision. Defined.

(** The values of the enumeration, which [address_compare] orders by. *)
Definition type_rank (t : addr_type) : Z :=
  match t with HOSTNAME => 0 | SOCKADDR => 1 | WILDCARD => 2 | PATTERN => 3 end.

Definition ADDRESS_BUFFER_SIZE : Z := 262.
Definition INET6_ADDRSTRLEN : Z := 46.

Definition valid_label_bytes : list Z :=
  bytes "-0123456789ABCDEFGHIJKLMNOPQRSTUVWXYZ_abcdefghijklmnopqrstuvwxyz".

(** Layout on 64-bit Linux: [struct Address], and the socket address structures, which
    start with the family in host order and hold the port in network order. *)
Definition offsetof_data : Z := 18.
Definition sizeof_Address : Z := 24.
Definition AF_UNSPEC : Z := 0.
Definition AF_UNIX : Z := 1.
Definition AF_INET : Z := 2.
Definition AF_INET6 : Z := 10.
Definition sizeof_sockaddr_in : Z := 16.
Definition sizeof_sockaddr_in6 : Z := 28.
Definition sizeof_sun_path : Z := 108.
Definition offsetof_sun_path : Z := 2.
Definition sizeof_sockaddr_storage : Z := 128.

Definition zeroed (n : Z) (l : list Z) : list Z := l ++ replicate (Z.to_nat n - length l) 0.

(** The union [s] of [new_address] after its fields were set. *)
Definition sockaddr_in (addr : list Z) : list Z :=
  zeroed sizeof_sockaddr_storage ([AF_INET; 0; 0; 0] ++ addr).
Definition sockaddr_in6 (addr : list Z) : list Z :=
  zeroed sizeof_sockaddr_storage ([AF_INET6; 0; 0; 0; 0; 0; 0; 0] ++ addr).
Definition sockaddr_un (path : list Z) : list Z :=
  zeroed sizeof_sockaddr_storage ([AF_UNIX; 0] ++ path).

Definition sa_family (sa : list Z) : outcome Z :=
  lo ← load sa 0; hi ← load sa 1; Ok (lo + 256 * hi).

(** [ntohs] of the port field, which is at offset 2 for both IP families. *)
Definition sin_port (sa : list Z) : outcome Z :=
  hi ← load sa 2; lo ← load sa 3; Ok (256 * hi + lo).

Definition htons (p : Z) : list Z := [p / 256; p mod 256].

(** * Ports *)

Definition address_port (addr : Address) : outcome Z :=
  match type addr with
  | HOSTNAME => Ok (aport addr)
  | SOCKADDR =>
      f ← sa_family (adata addr);
      if (f =? AF_INET) || (f =? AF_INET6) then sin_port (adata addr)
      else if (f =? AF_UNIX) || (f =? AF_UNSPEC) then Ok 0
      else Fault AssertionFailed
  | WILDCARD | PATTERN => Ok (aport addr)
  end.

Definition address_set_port (addr : Address) (port : Z) : outcome Address :=
  d ← match type addr with
      | SOCKADDR =>
          f ← sa_family (adata addr);
          if (f =? AF_INET) || (f =? AF_INET6) then store_range (adata addr) 2 (htons port)
          else if (f =? AF_UNIX) || (f =? AF_UNSPEC) then Ok (adata addr)
          else Fault AssertionFailed
      | _ => Ok (adata addr)
      end;
  Ok (mkAddress (type addr) (alen addr) port d).

(** The result and the address afterwards. *)
Definition address_set_port_str (addr : Address) (str : list Z) : outcome (Z * Address) :=
  let port := atoi str in
  if (port <? 0) || (65535 <? port) then Ok (0, addr)
  else addr' ← address_set_port addr port; Ok (1, addr').

(** * Parsing *)

(** [is_numeric(s)], [None] for NULL. *)
Definition is_numeric (s : option (list Z)) : bool :=
  match s with
  | None | Some [] => false
  | Some s => match strtod_end s with [] => true | _ => false end
  end.

(** The loop of [valid_hostname] from [label] on. *)
Fixpoint labels_loop (fuel : nat) (label : list Z) : outcome bool :=
  match fuel with
  | O => Fault OutOfFuel
  | S fuel =>
      if Zlen label =? 0 then Ok true else
      let label_len := match strchr label 46 with Some i => Z.of_nat i | None => Zlen label end in
      c_assert (label_len <=? Zlen label) ≫= λ _,
      if (63 <? label_len) || (label_len <? 1) then Ok false else
      first ← load label 0;
      last ← load label (label_len - 1);
      if (first =? 45) || (last =? 45) then Ok false else
      if Z.of_nat (strspn label valid_label_bytes) <? label_len then Ok false
      else labels_loop fuel (drop (Z.to_nat (label_len + 1)) label)
  end.

Definition valid_hostname (hostname : option (list Z)) : outcome bool :=
  match hostname with
  | None => Ok false
  | Some h =>
      let hostname_len := Zlen h in
      if (hostname_len <? 1) || (255 <? hostname_len) then Ok false else
      c ← load h 0;
      if c =? 46 then Ok false else labels_loop (S (length h)) h
  end.

Section new_address.
Context (inet_pton : Z → list Z → option (list Z)) (malloc : Z → bool).

Definition new_address_sa (sa : list Z) (sa_len : Z) : outcome (option Address) :=
  if malloc (size_t (offsetof_data + sa_len)) then
    d ← load_range sa 0 sa_len;
    p ← address_port (mkAddress SOCKADDR sa_len 0 d);
    Ok (Some (mkAddress SOCKADDR sa_len p d))
  else Ok None.

(** [strncpy(ip_buf, src, len); ip_buf\[len\] = 0] on the array of 262 bytes; the
    string left in it. *)
Definition copy_to_ip_buf (src : list Z) (n : nat) : outcome (list Z) :=
  buf ← store_range (replicate (Z.to_nat ADDRESS_BUFFER_SIZE) 0) 0 (take n src ++ [0]);
  Ok (until_nul buf).

Definition new_string_address (t : addr_type) (s : list Z) : option Address :=
  if malloc (size_t (offsetof_data + Zlen s + 1))
  then Some (mkAddress t (Zlen s) 0 (s ++ [0])) else None.

(** The test for an IPv6 address in brackets. *)
Definition bracketed_ip6 (s : list Z) : outcome (option (list Z)) :=
  match s, strchr s 93 with
  | c :: s', Some i =>
      if c =? 91 then ip_buf ← copy_to_ip_buf s' (i - 1); Ok (inet_pton AF_INET6 ip_buf)
      else Ok None
  | _, _ => Ok None
  end.

(** The tests after the one for a trailing port. *)
Definition new_address_plain (s : list Z) : outcome (option Address) :=
  match strchr s 36 with
  | Some _ => Ok (new_string_address PATTERN s)
  | None =>
  if strcmp_eq (bytes "*") s then
    Ok (if malloc sizeof_Address then Some (mkAddress WILDCARD 0 0 []) else None) else
  match inet_pton AF_INET s with
  | Some ip => new_address_sa (sockaddr_in ip) sizeof_sockaddr_in
  | None =>
  ip6 ← bracketed_ip6 s;
  match ip6 with
  | Some ip => new_address_sa (sockaddr_in6 ip) sizeof_sockaddr_in6
  | None =>
  valid ← valid_hostname (Some s);
  if (valid : bool) then Ok (new_string_address HOSTNAME (tolower <$> s)) else Ok None
  end end end.

Fixpoint new_address_fuel (fuel : nat) (s : list Z) : outcome (option Address) :=
  match fuel with
  | O => Fault OutOfFuel
  | S fuel =>
      match inet_pton AF_INET6 s with
      | Some ip => new_address_sa (sockaddr_in6 ip) sizeof_sockaddr_in6
      | None =>
      if strncmp_eq (bytes "unix:") s 5 then
        if sizeof_sun_path <=? Zlen s then Ok None
        else
          let path := take (Z.to_nat (sizeof_sun_path - 1)) (drop 5 s) in
          new_address_sa (sockaddr_un path) (offsetof_sun_path + Zlen path + 1)
      else
      match strrchr s 58 with
      | Some i =>
          let port_num := atoi (drop (S i) s) in
          if is_numeric (Some (drop (S i) s)) && ((Z.of_nat i <? ADDRESS_BUFFER_SIZE) &&
               (0 <=? port_num) && (port_num <=? 65535))
          then
            ip_buf ← copy_to_ip_buf s i;
            addr ← new_address_fuel fuel ip_buf;
            match addr with
            | Some a => a' ← address_set_port a port_num; Ok (Some a')
            | None => Ok None
            end
          else new_address_plain s
      | None => new_address_plain s
      end end
  end.

(** [new_address(s)], [None] for NULL: every recursive call is on a shorter string. *)
Definition new_address (hostname_or_ip : option (list Z)) : outcome (option Address) :=
  match hostname_or_ip with
  | None => Ok None
  | Some s => new_address_fuel (S (length s)) s
  end.

End new_address.

(** * Copies, sizes, order *)

Definition address_len (addr : Address) : Z :=
  match type addr with
  | HOSTNAME | PATTERN => size_t (offsetof_data + alen addr + 1)
  | SOCKADDR => size_t (offsetof_data + alen addr)
  | WILDCARD => sizeof_Address
  end.

(** The bytes of a wildcard after its header are padding. *)
Definition copy_address (malloc : Z → bool) (addr : Address) : outcome (option Address) :=
  let len := address_len addr in
  if malloc len then
    d ← load_range (adata addr) 0
          (match type addr with WILDCARD => 0 | _ => len - offsetof_data end);
    Ok (Some (mkAddress (type addr) (alen addr) (aport addr) d))
  else Ok None.

(** [None] is NULL. *)
Definition address_compare (addr_1 addr_2 : option Address) : Z :=
  match addr_1, addr_2 with
  | None, None => 0
  | None, Some _ => -1
  | Some _, None => 1
  | Some a, Some b =>
      if type_rank (type a) <? type_rank (type b) then -1 else
      if type_rank (type b) <? type_rank (type a) then 1 else
      let result := memcmp (adata a) (adata b) (Z.to_nat (MIN (alen a) (alen b))) in
      if result =? 0 then
        if alen a <? alen b then -1 else
        if alen b <? alen a then 1 else
        if aport a <? aport b then -1 else
        if aport b <? aport a then 1 else result
      else result
  end.

Definition address_is (t : addr_type) (addr : option Address) : bool :=
  match addr with Some a => bool_decide (type a = t) | None => false end.
Definition address_is_hostname (addr : option Address) : bool := address_is HOSTNAME addr.
Definition address_is_sockaddr (addr : option Address) : bool := address_is SOCKADDR addr.
Definition address_is_wildcard (addr : option Address) : bool := address_is WILDCARD addr.
Definition address_is_pattern (addr : option Address) : bool := address_is PATTERN addr.

(** The strings and the socket address, [None] for NULL. *)
Definition address_hostname (addr : Address) : option (list Z) :=
  match type addr with HOSTNAME => Some (until_nul (adata addr)) | _ => None end.
Definition address_pattern (addr : Address) : option (list Z) :=
  match type addr with PATTERN => Some (until_nul (adata addr)) | _ => None end.
Definition address_sa (addr : Address) : option (list Z) :=
  match type addr with SOCKADDR => Some (adata addr) | _ => None end.
Definition address_sa_len (addr : Address) : Z :=
  match type addr with SOCKADDR => alen addr | _ => 0 end.

(** * Display

    The string left in a buffer of [buffer_len] bytes; [None] for NULL.  [inet_ntop]
    gives the text of an address of a family. *)

Definition with_port (s : list Z) (port : Z) : list Z :=
  if negb (port =? 0) then s ++ [58] ++ decimal port else s.

Definition display_sockaddr (inet_ntop : Z → list Z → list Z) (sa : list Z) (buffer_len : Z)
    : outcome (list Z) :=
  f ← sa_family sa;
  if f =? AF_INET then
    addr ← load_range sa 4 4; port ← sin_port sa;
    Ok (snprintf buffer_len (with_port (inet_ntop AF_INET addr) port))
  else if f =? AF_INET6 then
    addr ← load_range sa 8 16; port ← sin_port sa;
    Ok (snprintf buffer_len (with_port ([91] ++ inet_ntop AF_INET6 addr ++ [93]) port))
  else if f =? AF_UNIX then
    path ← c_string sa offsetof_sun_path; Ok (snprintf buffer_len (bytes "unix:" ++ path))
  else if f =? AF_UNSPEC then Ok (snprintf buffer_len (bytes "NONE"))
  else Fault AssertionFailed.

Definition display_address (inet_ntop : Z → list Z → list Z) (addr : option Address)
    (buffer_len : Z) : outcome (option (list Z)) :=
  match addr with
  | None => Ok None
  | Some a =>
      match type a with
      | HOSTNAME | PATTERN =>
          s ← c_string (adata a) 0; Ok (Some (snprintf buffer_len (with_port s (aport a))))
      | SOCKADDR => s ← display_sockaddr inet_ntop (adata a) buffer_len; Ok (Some s)
      | WILDCARD => Ok (Some (snprintf buffer_len (with_port (bytes "*") (aport a))))
      end
  end.

(** * Host names *)

Definition label_ok (l : list Z) : Prop :=
  1 ≤ Zlen l ≤ 63 ∧ Forall (λ c, c ∈ valid_label_bytes) l ∧
  l !! 0%nat ≠ Some 45 ∧ l !! pred (length l) ≠ Some 45.

(** Labels separated by dots, the last one possibly followed by a dot. *)
Inductive labels : list Z → Prop :=
  | labels_end : labels []
  | labels_last l : label_ok l → labels l
  | labels_dot l r : label_ok l → labels r → labels (l ++ 46 :: r).

Definition hostname_ok (h : list Z) : Prop := 1 ≤ Zlen h ≤ 255 ∧ labels h.

#[global] Instance label_ok_dec l : Decision (label_ok l).
Proof. unfold label_ok. apply _. Defined.

Lemma label_no_dot l : label_ok l → 46 ∉ l.
Proof.
  intros (_ & Hl & _) Hin. rewrite List.Forall_forall in Hl.
  apply list_elem_of_In in Hin. specialize (Hl 46 Hin). revert Hl. apply (bool_decide_unpack _). done.
Qed.

(** The checks of one round of the loop, on the label [a] in front of [rest]. *)
Lemma label_checks {A} a rest (k : outcome A) (no : outcome A) :
  (if (63 <? Zlen a) || (Zlen a <? 1) then no else
   first ← load (a ++ rest) 0;
   last ← load (a ++ rest) (Zlen a - 1);
   if (first =? 45) || (last =? 45) then no else
   if Z.of_nat (strspn (a ++ rest) valid_label_bytes) <? Zlen a then no else k) =
  if decide (label_ok a) then k else no.
Proof.
  destruct ((63 <? Zlen a) || (Zlen a <? 1)) eqn:Hlen.
  { rewrite decide_False; [done|]. unfold label_ok. lia. }
  assert (1 ≤ Zlen a ≤ 63) as Ha by lia. clear Hlen. rewrite !load_app_l by lia.
  destruct (load_Ok a 0) as (x & -> & Hx); [lia|].
  destruct (load_Ok a (Zlen a - 1)) as (y & -> & Hy); [lia|]. outcome_simpl.
  replace (Z.to_nat (Zlen a - 1)) with (pred (length a)) in Hy by (unfold Zlen in *; lia).
  change (Z.to_nat 0) with 0%nat in Hx.
  pose proof (strspn_app a rest valid_label_bytes) as Hspan.
  destruct (Z.eqb_spec x 45) as [->|Hx']; cbn [orb]; [by rewrite decide_False by by intros (_ & _ & ? & _)|].
  destruct (Z.eqb_spec y 45) as [->|Hy']; [by rewrite decide_False by by intros (_ & _ & _ & ?)|].
  destruct (Z.ltb_spec (Z.of_nat (strspn (a ++ rest) valid_label_bytes)) (Zlen a)).
  - rewrite decide_False; [done|]. intros (_ & Hall & _). apply Hspan in Hall. unfold Zlen in *. lia.
  - rewrite decide_True; [done|]. split_and!; [lia..| |congruence|congruence].
    apply Hspan. unfold Zlen in *. lia.
Qed.

Lemma labels_inv l : labels l → l ≠ [] →
  (label_ok l ∧ (46 ∉ l)) ∨ ∃ a r, l = a ++ 46 :: r ∧ label_ok a ∧ labels r.
Proof. destruct 1 as [|l Hl|a r Ha Hr]; [done| |]; intros _; [left; auto using label_no_dot|right; eauto]. Qed.

Lemma labels_loop_spec fuel l :
  Zlen l < Z.of_nat fuel → ∃ b, labels_loop fuel l = Ok b ∧ (b = true ↔ labels l).
Proof.
  revert l. induction fuel as [|fuel IH]; intros l Hfuel; [pose proof (Zlen_nonneg l); lia|].
  cbn [labels_loop]. destruct (Z.eqb_spec (Zlen l) 0) as [Hz|Hnz].
  { exists true. split; [done|]. split; [|done]. destruct l; [constructor|].
    rewrite Zlen_cons in Hz. pose proof (Zlen_nonneg l). lia. }
  assert (l ≠ []) as Hne by (by intros ->).
  destruct (strchr l 46) as [i|] eqn:Hdot.
  - destruct (strchr_Some _ _ _ Hdot) as (a & r & -> & Ha & <-). fold (Zlen a).
    rewrite Zlen_app, Zlen_cons in *. pose proof (Zlen_nonneg a). pose proof (Zlen_nonneg r).
    cassert. outcome_simpl. rewrite label_checks.
    replace (drop (Z.to_nat (Zlen a + 1)) (a ++ 46 :: r)) with r.
    2: { replace (Z.to_nat (Zlen a + 1)) with (S (length a)) by (unfold Zlen; lia).
         rewrite cons_middle, app_assoc. rewrite drop_app_ge; rewrite length_app; cbn; [|lia].
         by replace (_ - _)%nat with 0%nat by lia. }
    assert (labels (a ++ 46 :: r) → label_ok a ∧ labels r) as Hinv.
    { intros [[_ Hno]|(a' & r' & Heq & ? & ?)]%labels_inv; [set_solver| |done].
      pose proof (strchr_app a' r' 46 (label_no_dot _ ltac:(done))) as Hchr.
      rewrite <- Heq, strchr_app in Hchr by done. injection Hchr as Hlen.
      apply app_inj_1 in Heq as [-> [= ->]]; done. }
    destruct (decide (label_ok a)) as [Hok|Hbad].
    + destruct (IH r) as (b & -> & Hb); [lia|]. exists b. split; [done|].
      rewrite Hb. split; [by constructor|]. intros Hl. by apply Hinv.
    + exists false. split; [done|]. split; [done|]. intros Hl. by destruct Hbad; apply Hinv.
  - apply strchr_None in Hdot. pose proof (Zlen_nonneg l). cassert. outcome_simpl.
    pose proof (label_checks l [] (labels_loop fuel (drop (Z.to_nat (Zlen l + 1)) l)) (Ok false)) as Hc.
    rewrite app_nil_r in Hc. rewrite Hc.
    assert (labels l → label_ok l) as Hinv.
    { intros [[? _]|(a' & r' & -> & _)]%labels_inv; [done|set_solver|done]. }
    rewrite drop_ge by (unfold Zlen; lia). destruct (decide (label_ok l)) as [Hok|Hbad].
    + destruct (IH []) as (b & -> & Hb); [change (Zlen (@nil Z)) with 0; lia|].
      exists b. split; [done|]. rewrite Hb. split; intros; [by apply labels_last|constructor].
    + exists false. split; [done|]. split; [done|]. intros Hl. by destruct Hbad; apply Hinv.
Qed.

Lemma valid_hostname_spec h :
  ∃ b, valid_hostname (Some h) = Ok b ∧ (b = true ↔ hostname_ok h).
Proof.
  unfold valid_hostname, hostname_ok. destruct ((Zlen h <? 1) || (255 <? Zlen h)) eqn:Hlen.
  { exists false. split; [done|]. split; [done|]. lia. }
  destruct (load_Ok h 0) as (c & -> & Hc); [lia|]. outcome_simpl.
  destruct (labels_loop_spec (S (length h)) h) as (b & -> & Hb); [unfold Zlen; lia|].
  destruct (Z.eqb_spec c 46) as [->|Hc'].
  - exists false. split; [done|]. split; [done|]. intros [_ Hl]. exfalso.
    destruct h as [|x h]; [done|]. cbn in Hc. injection Hc as ->.
    apply labels_inv in Hl as [[_ Hno]|(a & r & Heq & Ha & _)]; [set_solver| |done].
    pose proof (label_no_dot a Ha) as Hno. destruct a as [|y a]; [destruct Ha as [[Ha _] _]; by apply Ha|].
    injection Heq as Hy _. apply Hno. rewrite Hy. left.
  - exists b. split; [done|]. rewrite Hb. split; [split; [lia|done]|tauto].
Qed.

(** ** Lower case *)

Lemma tolower_idemp c : tolower (tolower c) = tolower c.
Proof.
  unfold tolower. destruct ((65 <=? c) && (c <=? 90)) eqn:Hc; [|by rewrite Hc].
  destruct ((65 <=? c + 32) && (c + 32 <=? 90)) eqn:?; lia.
Qed.

Lemma tolower_dash c : tolower c = 45 ↔ c = 45.
Proof. unfold tolower. destruct ((65 <=? c) && (c <=? 90)) eqn:?; lia. Qed.

Lemma valid_tolower c : c ∈ valid_label_bytes → tolower c ∈ valid_label_bytes.
Proof.
  assert (Forall (λ c, tolower c ∈ valid_label_bytes) valid_label_bytes) as H
    by (apply (bool_decide_unpack _); vm_compute; exact I).
  rewrite List.Forall_forall in H. intros Hc. by apply H, list_elem_of_In.
Qed.

Lemma label_ok_tolower l : label_ok l → label_ok (tolower <$> l).
Proof.
  intros (Hlen & Hall & Hh & Ht). unfold label_ok, Zlen. rewrite length_fmap.
  split; [done|]. split.
  - apply Forall_fmap. eapply Forall_impl; [|exact Hall]. intros c. apply valid_tolower.
  - rewrite !list_lookup_fmap. split; intros (c & Hc & Heq%eq_sym)%fmap_Some;
      apply tolower_dash in Heq as ->; done.
Qed.

Lemma hostname_ok_tolower h : hostname_ok h → hostname_ok (tolower <$> h).
Proof.
  intros [Hlen Hl]. split; [unfold Zlen in *; by rewrite length_fmap|]. clear Hlen.
  induction Hl as [|l Hl|l r Hl _ IH]; [constructor|by apply labels_last, label_ok_tolower|].
  rewrite fmap_app, fmap_cons. constructor; [by apply label_ok_tolower|done].
Qed.

Lemma labels_chars h : labels h → Forall (λ c, c = 46 ∨ c ∈ valid_label_bytes) h.
Proof.
  assert (∀ l, label_ok l → Forall (λ c, c = 46 ∨ c ∈ valid_label_bytes) l) as Hl.
  { intros l (_ & Hl & _). eapply Forall_impl; [|exact Hl]. auto. }
  induction 1 as [|l ?|l r ? _ IH]; [constructor|by apply Hl|].
  apply Forall_app. split; [by apply Hl|]. constructor; [by left|done].
Qed.

(** A host name has none of the characters that mark the other forms. *)
Lemma hostname_not_in c h :
  bool_decide (c = 46 ∨ c ∈ valid_label_bytes) = false → hostname_ok h → c ∉ h.
Proof.
  intros Hc%bool_decide_eq_false [_ Hl%labels_chars] Hin. rewrite List.Forall_forall in Hl.
  apply Hc, Hl. by apply list_elem_of_In.
Qed.

(** * Well-formed addresses *)

Definition is_port (p : Z) : Prop := 0 ≤ p < 65536.

(** Every address the program holds: the four kinds, with the three families of socket
    addresses.  [aport] repeats the port of an IP socket address. *)
Inductive address_wf : Address → Prop :=
  | wf_hostname h p :
      hostname_ok h → tolower <$> h = h → is_port p →
      address_wf (mkAddress HOSTNAME (Zlen h) p (h ++ [0]))
  | wf_in p r :
      Zlen r = 12 → is_port p →
      address_wf (mkAddress SOCKADDR 16 p ([AF_INET; 0] ++ htons p ++ r))
  | wf_in6 p r :
      Zlen r = 24 → is_port p →
      address_wf (mkAddress SOCKADDR 28 p ([AF_INET6; 0] ++ htons p ++ r))
  | wf_un path p :
      0 ∉ path → Zlen path < sizeof_sun_path → is_port p →
      address_wf (mkAddress SOCKADDR (Zlen path + 3) p ([AF_UNIX; 0] ++ path ++ [0]))
  | wf_wildcard p : is_port p → address_wf (mkAddress WILDCARD 0 p [])
  | wf_pattern s p :
      36 ∈ s → 0 ∉ s → is_port p →
      address_wf (mkAddress PATTERN (Zlen s) p (s ++ [0])).

(** A socket address without ports. *)
Definition is_unix (a : Address) : bool :=
  bool_decide (type a = SOCKADDR) && bool_decide (take 2 (adata a) = [AF_UNIX; 0]).

Lemma sin_port_htons p f x r :
  is_port p → sin_port (f :: x :: htons p ++ r) = Ok p.
Proof.
  intros Hp. change (sin_port _) with (Ok (256 * (p / 256) + p mod 256)). f_equal.
  symmetry. by apply Z.div_mod.
Qed.

Lemma store_port f x p q r :
  store_range (f :: x :: htons p ++ r) 2 (htons q) = Ok (f :: x :: htons q ++ r).
Proof.
  rewrite store_range_Ok; [done|lia|]. rewrite !Zlen_cons, Zlen_app.
  change (Zlen (htons p)) with 2. change (Zlen (htons q)) with 2. pose proof (Zlen_nonneg r). lia.
Qed.

Lemma wf_small a : address_wf a → type a ≠ PATTERN → Zlen (adata a) < 2 ^ 32.
Proof.
  intros Hwf Ht. assert (∀ p, Zlen (htons p) = 2) as Hh by done.
  destruct Hwf as [h q [[_ ?] _]|q r|q r|path q|q|x q]; cbn [adata type] in *; [| | | |done|done];
    rewrite ?Zlen_app, ?Hh; change (Zlen [0]) with 1; change (Zlen [AF_INET; 0]) with 2;
    change (Zlen [AF_INET6; 0]) with 2; change (Zlen [AF_UNIX; 0]) with 2; unfold sizeof_sun_path in *; lia.
Qed.

(** The port operations on a well-formed address. *)
Lemma address_port_wf a :
  address_wf a → address_port a = Ok (if is_unix a then 0 else aport a).
Proof. destruct 1; try done; by apply sin_port_htons. Qed.

Lemma address_set_port_wf a p :
  address_wf a → is_port p →
  ∃ d, address_set_port a p = Ok (mkAddress (type a) (alen a) p d) ∧
       address_wf (mkAddress (type a) (alen a) p d) ∧
       take 2 d = take 2 (adata a) ∧ drop 4 d = drop 4 (adata a) ∧
       (type a = SOCKADDR ∨ d = adata a).
Proof.
  intros Hwf Hp.
  destruct Hwf as [h q|q r|q r|path q|q|s q]; cbn [type alen adata].
  - exists (h ++ [0]). split_and!; [done|by constructor|done|done|by right].
  - exists ([AF_INET; 0] ++ htons p ++ r). split_and!; [|by constructor|done|done|by left].
    unfold address_set_port. cbn [type adata].
    change (sa_family _) with (Ok AF_INET). outcome_simpl. cbn [orb Z.eqb AF_INET Pos.eqb].
    cbn [app]. by rewrite store_port.
  - exists ([AF_INET6; 0] ++ htons p ++ r). split_and!; [|by constructor|done|done|by left].
    unfold address_set_port. cbn [type adata].
    change (sa_family _) with (Ok AF_INET6). outcome_simpl. cbn [orb Z.eqb AF_INET AF_INET6 Pos.eqb].
    cbn [app]. by rewrite store_port.
  - exists ([AF_UNIX; 0] ++ path ++ [0]). split_and!; [done|by constructor|done|done|by left].
  - exists []. split_and!; [done|by constructor|done|done|by right].
  - exists (s ++ [0]). split_and!; [done|by constructor|done|done|by right].
Qed.

(** * What [new_address] returns *)

(** Documented behaviour of [inet_pton]: the size of the address it stores. *)
Class InetPton (inet_pton : Z → list Z → option (list Z)) : Prop := {
  pton_in s ip : inet_pton AF_INET s = Some ip → Zlen ip = 4;
  pton_in6 s ip : inet_pton AF_INET6 s = Some ip → Zlen ip = 16
}.

Definition in_address (ip : list Z) : Address :=
  mkAddress SOCKADDR 16 0 ([AF_INET; 0] ++ htons 0 ++ ip ++ replicate 8 0).
Definition in6_address (ip : list Z) : Address :=
  mkAddress SOCKADDR 28 0 ([AF_INET6; 0] ++ htons 0 ++ replicate 4 0 ++ ip ++ replicate 4 0).
Definition un_address (path : list Z) : Address :=
  mkAddress SOCKADDR (Zlen path + 3) 0 ([AF_UNIX; 0] ++ path ++ [0]).

Lemma in_address_wf ip : Zlen ip = 4 → address_wf (in_address ip).
Proof. intros. apply wf_in; [|done]. rewrite Zlen_app. change (Zlen (replicate 8 0)) with 8. lia. Qed.
Lemma in6_address_wf ip : Zlen ip = 16 → address_wf (in6_address ip).
Proof.
  intros. apply wf_in6; [|done]. rewrite !Zlen_app. change (Zlen (replicate 4 0)) with 4. lia.
Qed.
Lemma un_address_wf path : 0 ∉ path → Zlen path < sizeof_sun_path → address_wf (un_address path).
Proof. intros. by apply wf_un. Qed.

Section parsing.
Context (inet_pton : Z → list Z → option (list Z)) (malloc : Z → bool).
Context `{!InetPton inet_pton}.

(** The result is an address or, when no memory is left, NULL. *)
Definition or_null (a : Address) (r : option Address) : Prop :=
  r = Some a ∨ (r = None ∧ ∃ n, malloc n = false).

Lemma new_address_sa_Ok (sa : list Z) n a :
  0 ≤ n ≤ Zlen sa → a = mkAddress SOCKADDR n 0 (slice sa 0 n) → address_port a = Ok 0 →
  ∃ r, new_address_sa malloc sa n = Ok r ∧ or_null a r.
Proof.
  intros Hn -> Hp. unfold new_address_sa. destruct (malloc _) eqn:Hm.
  - rewrite load_range_Ok by lia. outcome_simpl. rewrite Hp. outcome_simpl.
    eexists. split; [done|]. by left.
  - eexists. split; [done|]. right. split; [done|]. by eexists.
Qed.

Lemma length_4 (ip : list Z) : Zlen ip = 4 → ∃ a b c d, ip = [a; b; c; d].
Proof.
  unfold Zlen. intros H. destruct ip as [|a [|b [|c [|d [|e ip]]]]]; cbn in H; try lia. eauto.
Qed.

Lemma length_16 (ip : list Z) : Zlen ip = 16 →
  ∃ a b c d e f g h i j k l m n o p, ip = [a; b; c; d; e; f; g; h; i; j; k; l; m; n; o; p].
Proof.
  unfold Zlen. intros H. do 16 (destruct ip as [|? ip]; [cbn in H; lia|]).
  destruct ip; [|cbn in H; lia]. repeat eexists.
Qed.

Lemma new_sa_in ip :
  Zlen ip = 4 →
  ∃ r, new_address_sa malloc (sockaddr_in ip) sizeof_sockaddr_in = Ok r ∧ or_null (in_address ip) r.
Proof.
  intros (a & b & c & d & ->)%length_4.
  apply new_address_sa_Ok; [split; by vm_compute|done|done].
Qed.

Lemma new_sa_in6 ip :
  Zlen ip = 16 →
  ∃ r, new_address_sa malloc (sockaddr_in6 ip) sizeof_sockaddr_in6 = Ok r ∧
       or_null (in6_address ip) r.
Proof.
  intros (? & ? & ? & ? & ? & ? & ? & ? & ? & ? & ? & ? & ? & ? & ? & ? & ->)%length_16.
  apply new_address_sa_Ok; [split; by vm_compute|done|done].
Qed.

Lemma new_sa_un path :
  Zlen path < sizeof_sun_path →
  ∃ r, new_address_sa malloc (sockaddr_un path) (offsetof_sun_path + Zlen path + 1) = Ok r ∧
       or_null (un_address path) r.
Proof.
  intros Hlen. pose proof (Zlen_nonneg path) as H0. unfold sizeof_sun_path in *.
  apply new_address_sa_Ok; [| |done].
  - unfold sockaddr_un, zeroed, offsetof_sun_path, Zlen in *.
    rewrite length_app, length_replicate. cbn [length app]. unfold sizeof_sockaddr_storage. lia.
  - unfold un_address, offsetof_sun_path. f_equal; [lia|]. unfold sockaddr_un, zeroed.
    cbn [length app]. unfold sizeof_sockaddr_storage.
    replace (Z.to_nat 128 - S (S (length path)))%nat with (S (125 - length path)) by (unfold Zlen in *; lia).
    pose proof (slice_mid [] (AF_UNIX :: 0 :: path ++ [0]) (replicate (125 - length path) 0) 0
      (2 + Zlen path + 1)) as Hs.
    cbn [app] in Hs. rewrite <- !app_assoc in Hs. symmetry. apply Hs; [done|].
    rewrite !Zlen_cons, Zlen_app. change (Zlen [0]) with 1. lia.
Qed.

Lemma copy_to_ip_buf_Ok src n :
  0 ∉ src → (n ≤ length src)%nat → Z.of_nat n < ADDRESS_BUFFER_SIZE →
  copy_to_ip_buf src n = Ok (take n src).
Proof.
  intros Hnul Hlen Hn. unfold copy_to_ip_buf.
  assert (Zlen (take n src ++ [0]) = Z.of_nat n + 1) as Hz.
  { rewrite Zlen_app. unfold Zlen. rewrite length_take. cbn. lia. }
  rewrite store_range_Ok; [|lia|].
  - outcome_simpl. f_equal. unfold splice. cbn [Z.to_nat take app].
    rewrite <- app_assoc. apply until_nul_app. intros Hin. apply Hnul.
    rewrite <- (take_drop n src). apply elem_of_app. by left.
  - rewrite Hz. unfold Zlen, ADDRESS_BUFFER_SIZE in *. rewrite length_replicate. lia.
Qed.

Lemma copy_to_ip_buf_overflow src n :
  (n ≤ length src)%nat → ADDRESS_BUFFER_SIZE ≤ Z.of_nat n →
  copy_to_ip_buf src n = Fault OutOfBounds.
Proof.
  intros Hlen Hn. unfold copy_to_ip_buf, store_range, in_range.
  rewrite (proj2 (Z.leb_gt (0 + _) _)); [by rewrite andb_false_r|].
  rewrite Zlen_app. unfold Zlen, ADDRESS_BUFFER_SIZE in *. rewrite length_take, length_replicate.
  cbn. lia.
Qed.

Definition wf_result (r : option Address) : Prop := ∀ a, r = Some a → address_wf a.

Lemma or_null_wf a r : address_wf a → or_null a r → wf_result r.
Proof. intros Ha [->|[-> _]] b Hb; [by injection Hb as <-|done]. Qed.

Lemma yields_or_null (m : outcome (option Address)) a :
  address_wf a → (∃ r, m = Ok r ∧ or_null a r) → ∃ r, m = Ok r ∧ wf_result r.
Proof. intros Ha (r & -> & Hr). exists r. split; [done|]. by eapply or_null_wf. Qed.

Lemma new_string_address_wf t s :
  (∀ p, is_port p → address_wf (mkAddress t (Zlen s) p (s ++ [0]))) →
  wf_result (new_string_address malloc t s).
Proof. intros H a. unfold new_string_address. destruct (malloc _); [|done]. intros [= <-]. by apply H. Qed.

Lemma bracketed_ip6_Ok s :
  0 ∉ s → Zlen s ≤ 263 →
  ∃ o, bracketed_ip6 inet_pton s = Ok o ∧ ∀ ip, o = Some ip → Zlen ip = 16.
Proof.
  intros Hnul Hlen. destruct s as [|c s]; [by exists None|]. unfold bracketed_ip6.
  destruct (strchr (c :: s) 93) as [i|] eqn:Hi; [|by exists None].
  destruct (Z.eqb_spec c 91) as [->|]; [|by exists None].
  destruct (strchr_Some _ _ _ Hi) as (a & b & Heq & _ & <-).
  destruct a as [|x a]; [done|]. injection Heq as _ ->.
  rewrite Zlen_cons, Zlen_app, Zlen_cons in Hlen. pose proof (Zlen_nonneg b).
  rewrite copy_to_ip_buf_Ok; [|set_solver|rewrite length_app; cbn; lia|].
  2: { unfold ADDRESS_BUFFER_SIZE, Zlen in *. cbn. lia. }
  outcome_simpl. eexists. split; [done|]. intros ip. apply pton_in6.
Qed.

Lemma new_address_plain_Ok s :
  0 ∉ s → Zlen s ≤ 263 →
  ∃ r, new_address_plain inet_pton malloc s = Ok r ∧ wf_result r.
Proof.
  intros Hnul Hlen. unfold new_address_plain. destruct (strchr s 36) as [i|] eqn:Hp.
  { eexists. split; [done|]. apply new_string_address_wf. intros p Hport. constructor; [|done|done].
    apply strchr_Some in Hp as (a & b & -> & _). set_solver. }
  destruct (strcmp_eq _ _).
  { eexists. split; [done|]. intros a. destruct (malloc _); [|done]. intros [= <-]. by constructor. }
  destruct (inet_pton AF_INET s) as [ip|] eqn:H4.
  { apply pton_in in H4. eapply yields_or_null; [by apply in_address_wf|by apply new_sa_in]. }
  destruct (bracketed_ip6_Ok s Hnul Hlen) as (o & -> & Hip). outcome_simpl.
  destruct o as [ip|].
  { eapply yields_or_null; [|apply new_sa_in6]; [apply in6_address_wf|]; by apply Hip. }
  destruct (valid_hostname_spec s) as (b & -> & Hb). outcome_simpl.
  destruct b; eexists; (split; [done|]); [|done]. apply new_string_address_wf. intros p Hport.
  constructor; [by apply hostname_ok_tolower, Hb| |done].
  rewrite <- list_fmap_compose. apply list_fmap_ext. intros ? c _. apply tolower_idemp.
Qed.

Lemma new_address_fuel_Ok fuel s :
  (length s < fuel)%nat → 0 ∉ s → Zlen s ≤ 263 →
  ∃ r, new_address_fuel inet_pton malloc fuel s = Ok r ∧ wf_result r.
Proof.
  revert s. induction fuel as [|fuel IH]; intros s Hfuel Hnul Hlen; [lia|]. cbn [new_address_fuel].
  destruct (inet_pton AF_INET6 s) as [ip|] eqn:H6.
  { apply pton_in6 in H6. eapply yields_or_null; [by apply in6_address_wf|by apply new_sa_in6]. }
  destruct (strncmp_eq _ _ _).
  { destruct (Z.leb_spec sizeof_sun_path (Zlen s)); [by eexists|].
    set (path := take _ (drop 5 s)).
    assert (Zlen path < sizeof_sun_path).
    { unfold path, Zlen, sizeof_sun_path. rewrite length_take. lia. }
    eapply yields_or_null; [apply un_address_wf|by apply new_sa_un]; [|done].
    intros Hin. apply Hnul. rewrite <- (take_drop 5 s). apply elem_of_app. right.
    rewrite <- (take_drop (Z.to_nat (sizeof_sun_path - 1)) (drop 5 s)). apply elem_of_app. by left. }
  destruct (strrchr s 58) as [i|] eqn:Hi; [|by apply new_address_plain_Ok].
  destruct (_ && _) eqn:Hc; [|by apply new_address_plain_Ok].
  apply andb_true_iff in Hc as [_ Hc].
  destruct (strrchr_Some _ _ _ Hi) as (a & b & -> & _ & <-).
  rewrite copy_to_ip_buf_Ok; [|done|rewrite length_app; lia|unfold ADDRESS_BUFFER_SIZE in *; lia].
  outcome_simpl. rewrite take_app_length. rewrite length_app in Hfuel. rewrite Zlen_app, Zlen_cons in Hlen.
  pose proof (Zlen_nonneg b).
  destruct (IH a) as (r & -> & Hr); [cbn in *; lia|set_solver|lia|]. outcome_simpl.
  destruct r as [x|]; [|by eexists]. 
  destruct (address_set_port_wf x (atoi (drop (S (length a)) (a ++ 58 :: b)))) as (d & -> & Hd & _);
    [by apply Hr|unfold is_port; lia|].
  eexists. split; [done|]. intros y [= <-]. done.
Qed.
(** Patterns are no longer than the text they come from. *)
Lemma new_address_plain_size s a :
  new_address_plain inet_pton malloc s = Ok (Some a) → type a = PATTERN → Zlen (adata a) = Zlen s + 1.
Proof.
  unfold new_address_plain, new_address_sa, new_string_address. intros Hx Ht.
  destruct (strchr s 36); [destruct (malloc _); [|done]; injection Hx as <-; cbn; by rewrite Zlen_app|].
  destruct (strcmp_eq _ _); [destruct (malloc _); [|done]; injection Hx as <-; done|].
  assert (∀ sa n, (if malloc (size_t (offsetof_data + n)) then
    d ← load_range sa 0 n; p ← address_port (mkAddress SOCKADDR n 0 d); Ok (Some (mkAddress SOCKADDR n p d))
    else Ok None) ≠ Ok (Some a)) as Hsa.
  { intros sa n. destruct (malloc (size_t (offsetof_data + n))); [|intros Hno; discriminate Hno].
    intros (d & _ & (p & _ & [= <-])%outcome_bind_Ok)%outcome_bind_Ok. done. }
  destruct (inet_pton AF_INET s); [by apply Hsa in Hx|]. apply outcome_bind_Ok in Hx as ([ip|] & _ & Hx); [by apply Hsa in Hx|].
  apply outcome_bind_Ok in Hx as ([] & _ & Hx); [|done]. destruct (malloc _); [|done]. by injection Hx as <-.
Qed.

Lemma new_address_fuel_size fuel s a :
  new_address_fuel inet_pton malloc fuel s = Ok (Some a) → type a = PATTERN → Zlen (adata a) ≤ Z.max (Zlen s) 262 + 1.
Proof.
  revert s a. induction fuel as [|fuel IH]; intros s a; [done|]. cbn [new_address_fuel].
  assert (∀ sa n, new_address_sa malloc sa n = Ok (Some a) → type a ≠ PATTERN) as Hsa.
  { intros sa n. unfold new_address_sa. destruct (malloc _); [|done].
    intros (d & _ & (p & _ & [= <-])%outcome_bind_Ok)%outcome_bind_Ok. done. }
  assert (new_address_plain inet_pton malloc s = Ok (Some a) → type a = PATTERN → Zlen (adata a) ≤ Z.max (Zlen s) 262 + 1)
    as Hplain by (intros; erewrite new_address_plain_size by done; lia).
  destruct (inet_pton AF_INET6 s); [by intros ?%Hsa|].
  destruct (strncmp_eq _ _ _); [destruct (_ <=? _); [done|by intros ?%Hsa]|].
  destruct (strrchr s 58) as [i|]; [|done]. destruct (_ && _); [|done].
  intros (buf & Hbuf & (r & Hr & Hx)%outcome_bind_Ok)%outcome_bind_Ok Ht. destruct r as [b|]; [|done].
  apply outcome_bind_Ok in Hx as (b' & Hset & [= <-]). unfold address_set_port in Hset.
  apply outcome_bind_Ok in Hset as (d & Hd & [= <-]). cbn in Ht |- *. rewrite Ht in Hd. injection Hd as <-.
  assert (Zlen buf ≤ 262) as Hlen.
  { unfold copy_to_ip_buf in Hbuf. apply outcome_bind_Ok in Hbuf as (m & Hm & [= <-]).
    assert (∀ l, Zlen (until_nul l) ≤ Zlen l) as Hun.
    { intros l. induction l as [|c l IHl]; [done|]. cbn [until_nul]. destruct (c =? 0); rewrite ?Zlen_cons; [|lia].
      pose proof (Zlen_nonneg l). unfold Zlen at 1. cbn. lia. }
    etransitivity; [apply Hun|]. unfold store_range in Hm. destruct (in_range _ _ _) eqn:Hin; [|done]. injection Hm as <-.
    apply in_range_spec in Hin as (? & ? & ?). by rewrite Zlen_splice. }
  specialize (IH buf b Hr Ht). lia.
Qed.

(** A word of the configuration file as an address. *)
Lemma new_address_word s :
  0 ∉ s → Zlen s ≤ 263 →
  ∃ r, new_address inet_pton malloc (Some s) = Ok r ∧ ∀ a, r = Some a → address_wf a ∧ Zlen (adata a) < 2 ^ 32.
Proof.
  intros H0 Hs. destruct (new_address_fuel_Ok (S (length s)) s) as (r & Heq & Hr); [lia|done|done|].
  exists r. split; [done|]. intros a ->. split; [by apply Hr|].
  destruct (decide (type a = PATTERN)) as [Ht|Ht]; [|by apply wf_small; [apply Hr|]].
  pose proof (new_address_fuel_size _ _ _ Heq Ht). lia.
Qed.
End parsing.

(** * Order *)

Definition cmp (x y : Z) : Z := if x <? y then -1 else if y <? x then 1 else 0.

(** Byte strings in lexicographic order, a proper prefix first. *)
Fixpoint lex (a b : list Z) : Z :=
  match a, b with
  | [], [] => 0
  | [], _ :: _ => -1
  | _ :: _, [] => 1
  | x :: a', y :: b' => if x <? y then -1 else if y <? x then 1 else lex a' b'
  end.

Definition then_by (r s : Z) : Z := if r =? 0 then s else r.

Definition key (a : Address) : list Z := take (Z.to_nat (alen a)) (adata a).

(** The order by kind, then by the bytes, then by the port. *)
Definition address_order (a b : Address) : Z :=
  then_by (cmp (type_rank (type a)) (type_rank (type b)))
    (then_by (lex (key a) (key b)) (cmp (aport a) (aport b))).

Definition terminator (t : addr_type) : list Z :=
  match t with HOSTNAME | PATTERN => [0] | SOCKADDR | WILDCARD => [] end.

Lemma wf_key a :
  address_wf a → alen a = Zlen (key a) ∧ adata a = key a ++ terminator (type a).
Proof.
  assert (∀ s : list Z, take (Z.to_nat (Zlen s)) (s ++ [0]) = s) as Hs.
  { intros s. unfold Zlen. rewrite Nat2Z.id. apply take_app_length. }
  assert (∀ n (d : list Z), Zlen d = n → take (Z.to_nat n) d = d) as Hd.
  { intros n d <-. unfold Zlen. rewrite Nat2Z.id. by rewrite take_ge by lia. }
  destruct 1; unfold key; cbn [alen adata type terminator]; rewrite ?app_nil_r, ?Hs; try done;
    cbn [app htons]; rewrite Hd; rewrite ?Zlen_cons, ?Zlen_app, ?Zlen_cons; change (Zlen (@nil Z)) with 0;
    try lia; (split; [lia|done]).
Qed.

Lemma memcmp_lex a b ra rb :
  then_by (memcmp (a ++ ra) (b ++ rb) (Z.to_nat (MIN (Zlen a) (Zlen b)))) (cmp (Zlen a) (Zlen b)) =
  lex a b.
Proof.
  rewrite MIN_min. revert b. induction a as [|x a IH]; intros [|y b]; cbn [lex].
  - done.
  - change (Zlen (@nil Z)) with 0. rewrite Z.min_l, Zlen_cons by apply Zlen_nonneg.
    unfold cmp. pose proof (Zlen_nonneg b). cbn. zcase. done.
  - change (Zlen (@nil Z)) with 0. rewrite Z.min_r, Zlen_cons by apply Zlen_nonneg.
    unfold cmp. pose proof (Zlen_nonneg a). cbn. zcase. done.
  - rewrite !Zlen_cons. pose proof (Zlen_nonneg a). pose proof (Zlen_nonneg b).
    replace (Z.to_nat (Z.min (1 + Zlen a) (1 + Zlen b))) with (S (Z.to_nat (Z.min (Zlen a) (Zlen b)))) by lia.
    cbn [app memcmp]. destruct (x <? y); [done|]. destruct (y <? x); [done|].
    rewrite <- IH. unfold cmp. f_equal. zcase; done.
Qed.

Lemma address_compare_eq a b :
  address_wf a → address_wf b → address_compare (Some a) (Some b) = address_order a b.
Proof.
  intros [Hla Hda]%wf_key [Hlb Hdb]%wf_key. unfold address_compare, address_order.
  rewrite <- (memcmp_lex _ _ (terminator (type a)) (terminator (type b))), <- Hda, <- Hdb, <- Hla, <- Hlb.
  unfold cmp, then_by. set (r := memcmp _ _ _). zcase; done.
Qed.

Lemma cmp_0 x y : cmp x y = 0 ↔ x = y.
Proof. unfold cmp. zcase; split; lia. Qed.
Lemma cmp_opp x y : cmp y x = - cmp x y.
Proof. unfold cmp. zcase; lia. Qed.
Lemma cmp_trans x y z : cmp x y < 0 → cmp y z < 0 → cmp x z < 0.
Proof. unfold cmp. zcase; lia. Qed.

Lemma lex_0 a b : lex a b = 0 ↔ a = b.
Proof.
  revert b. induction a as [|x a IH]; intros [|y b]; cbn; try (split; [lia|done]); [done|].
  zcase; try (split; [lia|]; intros [= -> _]; lia).
  assert (x = y) as -> by lia. rewrite IH. split; congruence.
Qed.
Lemma lex_opp a b : lex b a = - lex a b.
Proof. revert b. induction a as [|x a IH]; intros [|y b]; cbn; try done. zcase; auto. Qed.
Lemma lex_trans a b c : lex a b < 0 → lex b c < 0 → lex a c < 0.
Proof.
  revert b c. induction a as [|x a IH]; intros [|y b] [|z c]; cbn; try lia.
  zcase; intros; try lia. assert (x = z) as -> by lia. by eapply IH.
Qed.

(** Combining two orders one after the other. *)
Lemma then_by_trans r1 r2 r3 s1 s2 s3 :
  (r1 < 0 → r2 < 0 → r3 < 0) → (r1 = 0 → r3 = r2) → (r2 = 0 → r3 = r1) →
  (s1 < 0 → s2 < 0 → s3 < 0) →
  then_by r1 s1 < 0 → then_by r2 s2 < 0 → then_by r3 s3 < 0.
Proof. unfold then_by. zcase; lia. Qed.

Lemma address_order_trans a b c :
  address_order a b < 0 → address_order b c < 0 → address_order a c < 0.
Proof.
  apply then_by_trans; [apply cmp_trans|by intros ->%cmp_0|by intros ->%cmp_0|].
  apply then_by_trans; [apply lex_trans|by intros ->%lex_0|by intros ->%lex_0|apply cmp_trans].
Qed.

Lemma type_rank_inj t u : type_rank t = type_rank u → t = u.
Proof. by destruct t, u. Qed.

Lemma address_order_0 a b : address_wf a → address_wf b → address_order a b = 0 ↔ a = b.
Proof.
  intros [Hla Hda]%wf_key [Hlb Hdb]%wf_key. unfold address_order, then_by. split.
  - destruct (Z.eqb_spec (cmp (type_rank (type a)) (type_rank (type b))) 0) as [Ht|]; [|done].
    destruct (Z.eqb_spec (lex (key a) (key b)) 0) as [Hk|]; [|done].
    intros Hp. apply (proj1 (cmp_0 _ _)) in Hp.
    apply cmp_0, type_rank_inj in Ht. apply lex_0 in Hk.
    assert (alen a = alen b) as Hl by congruence. assert (adata a = adata b) as Hd by congruence.
    clear -Ht Hp Hl Hd. destruct a, b. cbn in *. subst. done.
  - intros ->. rewrite (proj2 (cmp_0 _ _)), (proj2 (lex_0 _ _)) by done. cbn. by apply cmp_0.
Qed.

Lemma address_order_opp a b : address_order b a = - address_order a b.
Proof.
  unfold address_order, then_by. rewrite (cmp_opp (type_rank (type a))), (lex_opp (key a)), (cmp_opp (aport a)).
  zcase; lia.
Qed.

(** * Text and back *)

(** Documented behaviour of the two conversions: they are inverse to each other, the
    text of an IPv4 address has digits and dots only, that of an IPv6 address hexadecimal
    digits, colons and dots, IPv6 text has at least two colons, and no text is empty. *)
Definition ip4_char (c : Z) : bool := isdigit c || (c =? 46).
Definition ip6_char (c : Z) : bool := isxdigit c || (c =? 58) || (c =? 46).

Class InetText (inet_pton : Z → list Z → option (list Z)) (inet_ntop : Z → list Z → list Z) : Prop := {
  inet_text_pton :: InetPton inet_pton;
  pton_ntop_in ip :
    Zlen ip = 4 → Forall is_byte ip → inet_pton AF_INET (inet_ntop AF_INET ip) = Some ip;
  pton_ntop_in6 ip :
    Zlen ip = 16 → Forall is_byte ip → inet_pton AF_INET6 (inet_ntop AF_INET6 ip) = Some ip;
  ntop_in_length ip : Zlen ip = 4 → Zlen (inet_ntop AF_INET ip) < INET6_ADDRSTRLEN;
  ntop_in6_length ip : Zlen ip = 16 → Zlen (inet_ntop AF_INET6 ip) < INET6_ADDRSTRLEN;
  pton_in_chars s ip : inet_pton AF_INET s = Some ip → forallb ip4_char s = true;
  pton_in6_chars s ip : inet_pton AF_INET6 s = Some ip → forallb ip6_char s = true;
  pton_in_nonempty s ip : inet_pton AF_INET s = Some ip → s ≠ [];
  pton_in6_colons s ip :
    inet_pton AF_INET6 s = Some ip → ∃ a b c, s = a ++ 58 :: b ++ 58 :: c ∧ (58 ∉ a)
}.

Lemma forallb_not_in (p : Z → bool) c s : forallb p s = true → p c = false → c ∉ s.
Proof.
  intros Hs Hc Hin%list_elem_of_In. rewrite forallb_forall in Hs. specialize (Hs c Hin). congruence.
Qed.

Lemma forallb_false_in (p : Z → bool) c s : c ∈ s → p c = false → forallb p s = false.
Proof.
  intros Hin Hc. destruct (forallb p s) eqn:Hs; [|done].
  by destruct (forallb_not_in p c s Hs Hc).
Qed.

(** The addresses whose text is read back: a host name must not look like an IPv4
    address, and the name "unix" must not have a port. *)
Inductive printable (inet_pton : Z → list Z → option (list Z)) : Address → Prop :=
  | pr_hostname h p :
      hostname_ok h → tolower <$> h = h → is_port p → inet_pton AF_INET h = None →
      (p = 0 ∨ h ≠ bytes "unix") →
      printable inet_pton (mkAddress HOSTNAME (Zlen h) p (h ++ [0]))
  | pr_wildcard p : is_port p → printable inet_pton (mkAddress WILDCARD 0 p [])
  | pr_in ip p :
      Zlen ip = 4 → Forall is_byte ip → is_port p →
      printable inet_pton (mkAddress SOCKADDR 16 p ([AF_INET; 0] ++ htons p ++ ip ++ replicate 8 0))
  | pr_in6 ip p :
      Zlen ip = 16 → Forall is_byte ip → is_port p →
      printable inet_pton
        (mkAddress SOCKADDR 28 p ([AF_INET6; 0] ++ htons p ++ replicate 4 0 ++ ip ++ replicate 4 0))
  | pr_un path : 0 ∉ path → Zlen path ≤ 102 → printable inet_pton (un_address path).

Section text.
Context (inet_pton : Z → list Z → option (list Z)) (inet_ntop : Z → list Z → list Z).
Context `{!InetText inet_pton inet_ntop}.
Context (malloc : Z → bool) (Hmalloc : ∀ n, malloc n = true).

Lemma or_null_some a r : or_null malloc a r → r = Some a.
Proof. intros [->|[_ [n Hn]]]; [done|]. by rewrite Hmalloc in Hn. Qed.

Lemma not_in6 c s : c ∈ s → ip6_char c = false → inet_pton AF_INET6 s = None.
Proof.
  intros Hin Hc. destruct (inet_pton AF_INET6 s) as [ip|] eqn:H; [|done].
  apply pton_in6_chars in H. by rewrite (forallb_false_in _ c) in H.
Qed.

Lemma not_in6_one_colon a b : (58 ∉ a) → (58 ∉ b) → inet_pton AF_INET6 (a ++ 58 :: b) = None.
Proof.
  intros Ha Hb. destruct (inet_pton AF_INET6 _) as [ip|] eqn:H; [|done]. exfalso.
  apply pton_in6_colons in H as (x & y & z & Heq & Hx).
  assert (length a = length x) as Hlen.
  { pose proof (strchr_app a b 58 Ha) as H1. rewrite Heq, strchr_app in H1 by done. by injection H1. }
  apply app_inj_1 in Heq as [_ [= ->]]; [|done]. apply Hb. apply elem_of_app. right. left.
Qed.

Lemma not_in6_no_colon s : (58 ∉ s) → inet_pton AF_INET6 s = None.
Proof.
  intros Hs. destruct (inet_pton AF_INET6 s) as [ip|] eqn:H; [|done]. exfalso.
  apply pton_in6_colons in H as (x & y & z & -> & _). apply Hs. apply elem_of_app. right. left.
Qed.

Lemma not_in c s : c ∈ s → ip4_char c = false → inet_pton AF_INET s = None.
Proof.
  intros Hin Hc. destruct (inet_pton AF_INET s) as [ip|] eqn:H; [|done].
  apply pton_in_chars in H. by rewrite (forallb_false_in _ c) in H.
Qed.

(** The text of the four kinds without a port. *)
Lemma plain_hostname h :
  hostname_ok h → inet_pton AF_INET h = None →
  new_address_plain inet_pton malloc h =
    Ok (Some (mkAddress HOSTNAME (Zlen h) 0 ((tolower <$> h) ++ [0]))).
Proof.
  intros Hok H4. unfold new_address_plain.
  rewrite (proj2 (strchr_None h 36)) by by apply hostname_not_in.
  unfold strcmp_eq. rewrite bool_decide_false.
  2: { intros <-. by apply (hostname_not_in 42 (bytes "*")); [..|left]. }
  rewrite H4. assert (bracketed_ip6 inet_pton h = Ok None) as ->.
  { destruct h as [|c h]; [done|]. unfold bracketed_ip6.
    by rewrite (proj2 (strchr_None (c :: h) 93)) by by apply hostname_not_in. }
  outcome_simpl. destruct (valid_hostname_spec h) as (b & -> & Hb). outcome_simpl.
  rewrite (proj2 Hb Hok). unfold new_string_address, Zlen. by rewrite Hmalloc, length_fmap.
Qed.

Lemma plain_in ip :
  Zlen ip = 4 → Forall is_byte ip →
  new_address_plain inet_pton malloc (inet_ntop AF_INET ip) = Ok (Some (in_address ip)).
Proof.
  intros Hlen Hb. pose proof (pton_ntop_in ip Hlen Hb) as H4. pose proof (pton_in_chars _ _ H4) as Hc.
  unfold new_address_plain. rewrite (proj2 (strchr_None _ 36)) by by eapply forallb_not_in.
  unfold strcmp_eq. rewrite bool_decide_false.
  2: { intros Heq. rewrite <- Heq in Hc. done. }
  rewrite H4. destruct (new_sa_in malloc ip Hlen) as (r & -> & ->%or_null_some). done.
Qed.

Lemma plain_in6 ip :
  Zlen ip = 16 → Forall is_byte ip →
  new_address_plain inet_pton malloc ([91] ++ inet_ntop AF_INET6 ip ++ [93]) =
    Ok (Some (in6_address ip)).
Proof.
  intros Hlen Hb. pose proof (pton_ntop_in6 ip Hlen Hb) as H6. pose proof (pton_in6_chars _ _ H6) as Hc.
  set (t := inet_ntop AF_INET6 ip) in *. unfold new_address_plain.
  assert (∀ c, ip6_char c = false → c ∉ t) as Hno by (intros; by eapply forallb_not_in).
  rewrite (proj2 (strchr_None _ 36)) by (rewrite !elem_of_app; specialize (Hno 36 eq_refl); set_solver).
  unfold strcmp_eq. rewrite bool_decide_false by done.
  rewrite (not_in 91) by (done || left). unfold bracketed_ip6. cbn [app].
  assert (strchr (91 :: t ++ [93]) 93 = Some (S (length t))) as ->.
  { apply (strchr_app (91 :: t) [] 93). apply not_elem_of_cons. split; [done|by apply Hno]. }
  cbn [length Z.eqb Pos.eqb Nat.sub]. rewrite Nat.sub_0_r.
  pose proof (ntop_in6_length ip Hlen) as Hshort. fold t in Hshort. unfold INET6_ADDRSTRLEN in Hshort.
  rewrite copy_to_ip_buf_Ok; [|rewrite elem_of_app; specialize (Hno 0 eq_refl); set_solver
    |rewrite length_app; lia|unfold Zlen, ADDRESS_BUFFER_SIZE in *; lia].
  outcome_simpl. rewrite take_app_length, H6. destruct (new_sa_in6 malloc ip Hlen) as (r & -> & ->%or_null_some).
  done.
Qed.

(** The prefix of a Unix socket. *)
Lemma not_unix_head c s : c ≠ 117 → strncmp_eq (bytes "unix:") (c :: s) 5 = false.
Proof. intros Hc. apply bool_decide_false. intros Heq. change (117 :: bytes "nix:" = c :: take 4 s) in Heq. congruence. Qed.

Lemma not_unix_no_colon s : (58 ∉ s) → strncmp_eq (bytes "unix:") s 5 = false.
Proof.
  intros Hs. apply bool_decide_false. intros Heq. apply Hs. rewrite <- (take_drop 5 s), <- Heq.
  apply elem_of_app. left. by apply (bool_decide_unpack _).
Qed.

Lemma not_unix_port a b :
  (58 ∉ a) → a ≠ bytes "unix" → strncmp_eq (bytes "unix:") (a ++ 58 :: b) 5 = false.
Proof.
  intros Ha Hne. apply bool_decide_false. intros Heq. apply Hne.
  pose proof (take_drop 5 (a ++ 58 :: b)) as Hsplit. rewrite <- Heq in Hsplit.
  pose proof (strchr_app a b 58 Ha) as Hchr. rewrite <- Hsplit in Hchr.
  set (t := drop 5 _) in *. clearbody t. injection Hchr as Hlen.
  symmetry in Hsplit. change (take 5 (bytes "unix:") ++ t) with (bytes "unix" ++ 58 :: t) in Hsplit.
  by apply app_inj_1 in Hsplit as [-> _].
Qed.

(** A string without a trailing port. *)
Lemma fuel_plain fuel s :
  inet_pton AF_INET6 s = None → strncmp_eq (bytes "unix:") s 5 = false →
  (58 ∉ s) ∨ (∃ x, s = x ++ [93]) →
  new_address_fuel inet_pton malloc (S fuel) s = new_address_plain inet_pton malloc s.
Proof.
  intros H6 Hunix Hs. cbn [new_address_fuel]. rewrite H6, Hunix.
  destruct (strrchr s 58) as [i|] eqn:Hi; [|done].
  destruct (strrchr_Some _ _ _ Hi) as (a & b & -> & Hb & <-).
  destruct Hs as [Hno|[x Hx]]; [destruct Hno; apply elem_of_app; right; left|].
  rewrite (drop_app_ge a) by lia. replace (S (length a) - length a)%nat with 1%nat by lia. cbn [drop]. rewrite !drop_0.
  destruct b as [|c b _] using rev_ind.
  { apply app_inj_2 in Hx as [_ [=]]. done. }
  rewrite app_comm_cons, app_assoc in Hx. apply app_inj_2 in Hx as [_ [= ->]]; [|done].
  destruct (is_numeric (Some (b ++ [93]))) eqn:Hnum; [|done]. exfalso.
  unfold is_numeric in Hnum. pose proof (strtod_end_bracket b). by destruct b; destruct (strtod_end _).
Qed.

(** A host name is read as such, in lower case. *)
Lemma fuel_hostname fuel h :
  hostname_ok h → inet_pton AF_INET h = None →
  new_address_fuel inet_pton malloc (S fuel) h =
    Ok (Some (mkAddress HOSTNAME (Zlen h) 0 ((tolower <$> h) ++ [0]))).
Proof.
  intros Hok H4. assert (58 ∉ h) as Hc by by apply hostname_not_in.
  rewrite fuel_plain; [by apply plain_hostname|by apply not_in6_no_colon
    |by apply not_unix_no_colon|by left].
Qed.

Lemma is_numeric_decimal p : 0 ≤ p → is_numeric (Some (decimal p)) = true.
Proof.
  intros Hp. destruct (decimal_digits p Hp) as [Hd Hne]. unfold is_numeric.
  rewrite strtod_end_digits by done. by destruct (decimal p).
Qed.

(** The text of an address with a port, from the text without it. *)
Lemma text_with_port s a0 a p :
  (∀ fuel, new_address_fuel inet_pton malloc (S fuel) s = Ok (Some a0)) →
  0 ∉ s → Zlen s ≤ 255 → is_port p →
  (p ≠ 0 → inet_pton AF_INET6 (s ++ 58 :: decimal p) = None ∧
           strncmp_eq (bytes "unix:") (s ++ 58 :: decimal p) 5 = false) →
  address_set_port a0 p = Ok a → (p = 0 → a0 = a) →
  new_address inet_pton malloc (Some (snprintf ADDRESS_BUFFER_SIZE (with_port s p))) = Ok (Some a).
Proof.
  intros Hparse Hnul Hlen Hp Hother Hset H0.
  assert (∀ t, Zlen t ≤ 261 → snprintf ADDRESS_BUFFER_SIZE t = t) as Hfits.
  { intros t Ht. apply take_ge. unfold Zlen, ADDRESS_BUFFER_SIZE in *. lia. }
  pose proof (decimal_length_u16 p Hp) as Hdl. unfold with_port.
  destruct (Z.eqb_spec p 0) as [->|Hne]; cbn [negb].
  { rewrite Hfits by lia. unfold new_address. by rewrite Hparse, H0. }
  rewrite Hfits by (rewrite !Zlen_app; change (Zlen [58]) with 1; lia). cbn [app].
  destruct (Hother Hne) as [H6 Hunix]. unfold new_address. cbn [new_address_fuel].
  destruct (decimal_digits p) as [Hd _]; [apply Hp|]. rewrite H6, Hunix.
  rewrite strrchr_app by by eapply digits_not_in.
  rewrite (drop_app_ge s) by lia. replace (S (length s) - length s)%nat with 1%nat by lia.
  cbn [drop]. rewrite !drop_0, is_numeric_decimal, atoi_decimal by (unfold is_port in *; lia).
  replace (_ && _) with true by (unfold is_port, Zlen, ADDRESS_BUFFER_SIZE in *; lia).
  rewrite copy_to_ip_buf_Ok.
  - outcome_simpl. rewrite take_app_length, length_app. cbn [length].
    rewrite Nat.add_succ_r, Hparse. outcome_simpl.
    by rewrite Hset.
  - rewrite elem_of_app, elem_of_cons. intros [?|[?|?]]; [done|done|].
    by apply (digits_not_in 0 (decimal p)).
  - rewrite length_app. lia.
  - unfold Zlen, ADDRESS_BUFFER_SIZE in *. lia.
Qed.

Lemma text_hostname h p :
  hostname_ok h → tolower <$> h = h → is_port p → inet_pton AF_INET h = None →
  (p = 0 ∨ h ≠ bytes "unix") →
  new_address inet_pton malloc (Some (snprintf ADDRESS_BUFFER_SIZE (with_port h p))) =
    Ok (Some (mkAddress HOSTNAME (Zlen h) p (h ++ [0]))).
Proof.
  intros Hok Hlow Hp H4 Hunix. assert (58 ∉ h) as Hc by by apply hostname_not_in.
  destruct (decimal_digits p) as [Hd _]; [apply Hp|].
  apply text_with_port with (a0 := mkAddress HOSTNAME (Zlen h) 0 (h ++ [0])).
  - intros fuel. rewrite fuel_hostname by done. by rewrite Hlow.
  - by apply hostname_not_in.
  - apply Hok.
  - done.
  - intros Hne. split; [apply not_in6_one_colon; [done|by eapply digits_not_in]|].
    apply not_unix_port; [done|naive_solver].
  - done.
  - by intros ->.
Qed.

Lemma text_wildcard p :
  is_port p →
  new_address inet_pton malloc (Some (snprintf ADDRESS_BUFFER_SIZE (with_port (bytes "*") p))) =
    Ok (Some (mkAddress WILDCARD 0 p [])).
Proof.
  intros Hp. destruct (decimal_digits p) as [Hd _]; [apply Hp|].
  apply text_with_port with (a0 := mkAddress WILDCARD 0 0 []).
  - intros fuel. rewrite fuel_plain; [|by apply (not_in6 42); [left|]|done|left; by apply (bool_decide_unpack _)].
    unfold new_address_plain. cbn. by rewrite Hmalloc.
  - by apply (bool_decide_unpack _).
  - done.
  - done.
  - intros _. split; [by apply (not_in6 42); [left|]|by apply not_unix_head].
  - done.
  - by intros ->.
Qed.

Lemma text_in ip p :
  Zlen ip = 4 → Forall is_byte ip → is_port p →
  new_address inet_pton malloc
    (Some (snprintf ADDRESS_BUFFER_SIZE (with_port (inet_ntop AF_INET ip) p))) =
    Ok (Some (mkAddress SOCKADDR 16 p ([AF_INET; 0] ++ htons p ++ ip ++ replicate 8 0))).
Proof.
  intros Hlen Hb Hp. pose proof (pton_in_chars _ _ (pton_ntop_in ip Hlen Hb)) as Hc.
  assert (∀ c, ip4_char c = false → c ∉ inet_ntop AF_INET ip) as Hno by (intros; by eapply forallb_not_in).
  destruct (decimal_digits p) as [Hd _]; [apply Hp|].
  pose proof (ntop_in_length ip Hlen). unfold INET6_ADDRSTRLEN in *.
  apply text_with_port with (a0 := in_address ip).
  - intros fuel. rewrite fuel_plain; [by apply plain_in|by apply not_in6_no_colon, Hno
      |by apply not_unix_no_colon, Hno|left; by apply Hno].
  - by apply Hno.
  - lia.
  - done.
  - intros _. split; [apply not_in6_one_colon; [by apply Hno|by eapply digits_not_in]|].
    apply not_unix_port; [by apply Hno|]. intros Heq. rewrite Heq in Hc. done.
  - by destruct (length_4 ip Hlen) as (? & ? & ? & ? & ->).
  - by intros ->.
Qed.

Lemma text_in6 ip p :
  Zlen ip = 16 → Forall is_byte ip → is_port p →
  new_address inet_pton malloc
    (Some (snprintf ADDRESS_BUFFER_SIZE (with_port ([91] ++ inet_ntop AF_INET6 ip ++ [93]) p))) =
    Ok (Some (mkAddress SOCKADDR 28 p
      ([AF_INET6; 0] ++ htons p ++ replicate 4 0 ++ ip ++ replicate 4 0))).
Proof.
  intros Hlen Hb Hp. pose proof (pton_in6_chars _ _ (pton_ntop_in6 ip Hlen Hb)) as Hc.
  pose proof (ntop_in6_length ip Hlen) as Hshort. unfold INET6_ADDRSTRLEN in Hshort.
  set (t := inet_ntop AF_INET6 ip) in *.
  apply text_with_port with (a0 := in6_address ip).
  - intros fuel. rewrite fuel_plain; [by apply plain_in6|by apply (not_in6 91); [left|]
      |by apply not_unix_head|right; by exists (91 :: t)].
  - pose proof (forallb_not_in _ 0 _ Hc eq_refl). rewrite !elem_of_app. set_solver.
  - rewrite !Zlen_app. change (Zlen [91]) with 1. change (Zlen [93]) with 1. lia.
  - done.
  - intros _. split; [by apply (not_in6 91); [left|]|by apply not_unix_head].
  - by destruct (length_16 ip Hlen) as (? & ? & ? & ? & ? & ? & ? & ? & ? & ? & ? & ? & ? & ? & ? & ? & ->).
  - by intros ->.
Qed.

Lemma text_un path :
  0 ∉ path → Zlen path ≤ 102 →
  new_address inet_pton malloc (Some (snprintf ADDRESS_BUFFER_SIZE (bytes "unix:" ++ path))) =
    Ok (Some (un_address path)).
Proof.
  intros Hnul Hlen. assert (snprintf ADDRESS_BUFFER_SIZE (bytes "unix:" ++ path) = bytes "unix:" ++ path) as ->.
  { apply take_ge. rewrite length_app. unfold Zlen, ADDRESS_BUFFER_SIZE in *. cbn. lia. }
  unfold new_address. cbn [new_address_fuel]. rewrite (not_in6 117) by (done || left).
  rewrite (strncmp_eq_app (bytes "unix:") path : strncmp_eq _ _ 5 = true).
  rewrite (proj2 (Z.leb_gt _ _)).
  2: { rewrite Zlen_app. unfold sizeof_sun_path. change (Zlen (bytes "unix:")) with 5. lia. }
  change (drop 5 (bytes "unix:" ++ path)) with path.
  rewrite take_ge by (unfold Zlen, sizeof_sun_path in *; lia).
  destruct (new_sa_un malloc path) as (r & -> & ->%or_null_some); [unfold sizeof_sun_path; lia|]. done.
Qed.
End text.

(** * Copies *)

Lemma copy_address_wf malloc a :
  address_wf a → Zlen (adata a) < 2 ^ 32 →
  copy_address malloc a = Ok (if malloc (address_len a) then Some a else None).
Proof.
  intros Hwf Hsmall. unfold copy_address. destruct (malloc _); [|done].
  destruct (wf_key a Hwf) as [Hlen Hdata]. pose proof (Zlen_nonneg (key a)).
  assert (Zlen (adata a) = alen a + Zlen (terminator (type a))) as Hd.
  { by rewrite Hdata at 1; rewrite Zlen_app, <- Hlen. }
  assert (load_range (adata a) 0 (match type a with WILDCARD => 0 | _ => address_len a - offsetof_data end)
    = Ok (adata a)) as ->; [|by destruct a].
  assert (match type a with WILDCARD => 0 | _ => address_len a - offsetof_data end = Zlen (adata a)) as ->.
  { unfold address_len, offsetof_data. destruct Hwf; cbn [type alen adata terminator] in *;
      try done; change (Zlen [0]) with 1 in *; change (Zlen (@nil Z)) with 0 in *; nowrap; lia. }
  pose proof (Zlen_nonneg (adata a)). rewrite load_range_Ok by lia. by rewrite slice_all.
Qed.

(** The text of any well-formed address can be made. *)
Lemma display_address_Ok inet_ntop a n : address_wf a → ∃ t, display_address inet_ntop (Some a) n = Ok (Some t).
Proof.
  intros Hwf. unfold display_address. destruct Hwf as [h p Hh|p r Hr|p r Hr|path p H0|p|x p _ H0]; cbn [type adata].
  - rewrite (c_string_0 h []); [by eexists|]. by apply hostname_not_in.
  - unfold display_sockaddr. cbn [app]. change (sa_family _) with (Ok AF_INET). outcome_simpl. cbn [Z.eqb AF_INET Pos.eqb].
    rewrite load_range_Ok; [|lia|lia|rewrite !Zlen_cons, Zlen_app; change (Zlen (htons p)) with 2; lia].
    outcome_simpl. rewrite sin_port_htons by done. by eexists.
  - unfold display_sockaddr. cbn [app]. change (sa_family _) with (Ok AF_INET6). outcome_simpl.
    cbn [Z.eqb AF_INET AF_INET6 Pos.eqb].
    rewrite load_range_Ok; [|lia|lia|rewrite !Zlen_cons, Zlen_app; change (Zlen (htons p)) with 2; lia].
    outcome_simpl. rewrite sin_port_htons by done. by eexists.
  - unfold display_sockaddr. cbn [app]. change (sa_family _) with (Ok AF_UNIX). outcome_simpl.
    cbn [Z.eqb AF_INET AF_INET6 AF_UNIX Pos.eqb].
    assert (c_string (AF_UNIX :: 0 :: path ++ [0]) offsetof_sun_path = Ok path) as ->
      by by apply (c_string_app [AF_UNIX; 0] path []).
    by eexists.
  - by eexists.
  - rewrite (c_string_0 x []) by done. by eexists.
Qed.

(** * Properties *)

(** C18: on every string of at most 263 characters [new_address] terminates, stays inside
    its local buffers, trips no assertion, and returns NULL or a well-formed address: a
    valid host name in lower case, a socket address of one of the three families with
    its size and port, a wildcard, or a pattern. *)
Theorem new_address_total inet_pton malloc s :
  InetPton inet_pton → 0 ∉ s → Zlen s ≤ 263 →
  ∃ r, new_address inet_pton malloc (Some s) = Ok r ∧ ∀ a, r = Some a → address_wf a.
Proof. intros. apply new_address_fuel_Ok; [done|lia|done|done]. Qed.

(** A longer string is not safe: a name in brackets of 262 characters or more is
    copied past the end of the local buffer. *)
Theorem new_address_bracket_overflow inet_pton inet_ntop malloc t :
  InetText inet_pton inet_ntop → (36 ∉ t) → (58 ∉ t) → (93 ∉ t) → 262 ≤ Zlen t →
  new_address inet_pton malloc (Some ([91] ++ t ++ [93])) = Fault OutOfBounds.
Proof.
  intros Htext H36 H58 H93 Hlen. unfold new_address.
  rewrite (fuel_plain inet_pton malloc);
    [|by eapply (not_in6 inet_pton inet_ntop 91); [left|]|by apply not_unix_head
     |left; rewrite !elem_of_app; set_solver].
  unfold new_address_plain. rewrite (proj2 (strchr_None _ 36)) by (rewrite !elem_of_app; set_solver).
  unfold strcmp_eq. rewrite bool_decide_false by done.
  rewrite (not_in inet_pton inet_ntop 91) by (done || left). cbn [app]. unfold bracketed_ip6.
  assert (strchr (91 :: t ++ [93]) 93 = Some (S (length t))) as ->.
  { apply (strchr_app (91 :: t) [] 93). by apply not_elem_of_cons. }
  cbn [Z.eqb Pos.eqb Nat.sub]. rewrite Nat.sub_0_r.
  rewrite copy_to_ip_buf_overflow; [done|rewrite length_app; lia|].
  unfold Zlen, ADDRESS_BUFFER_SIZE in *. lia.
Qed.

(** C21: a string without the marks of the other forms is accepted exactly when it is a
    host name (1 to 255 bytes; labels of 1 to 63 letters, digits, underscores and inner
    dashes; separated by dots, possibly with a final dot), and is stored in lower case. *)
Theorem new_address_hostname inet_pton inet_ntop malloc h :
  InetText inet_pton inet_ntop → (∀ n, malloc n = true) →
  (36 ∉ h) → (58 ∉ h) → (91 ∉ h) → h ≠ bytes "*" → inet_pton AF_INET h = None →
  (hostname_ok h →
   new_address inet_pton malloc (Some h) =
     Ok (Some (mkAddress HOSTNAME (Zlen h) 0 ((tolower <$> h) ++ [0])))) ∧
  (¬ hostname_ok h → new_address inet_pton malloc (Some h) = Ok None).
Proof.
  intros Htext Hmalloc H36 H58 H91 Hstar H4. unfold new_address.
  rewrite (fuel_plain inet_pton malloc);
    [|by eapply not_in6_no_colon|by apply not_unix_no_colon|by left].
  unfold new_address_plain. rewrite (proj2 (strchr_None _ 36)) by done.
  unfold strcmp_eq. rewrite bool_decide_false by done. rewrite H4.
  assert (bracketed_ip6 inet_pton h = Ok None) as ->.
  { destruct h as [|c h]; [done|]. unfold bracketed_ip6. destruct (strchr _ _); [|done].
    destruct (Z.eqb_spec c 91) as [->|]; [|done]. destruct H91. left. }
  outcome_simpl. destruct (valid_hostname_spec h) as (b & -> & Hb). outcome_simpl. split.
  - intros Hok. rewrite (proj2 Hb Hok). unfold new_string_address. rewrite Hmalloc.
    unfold Zlen. by rewrite length_fmap.
  - intros Hno. destruct b; [|done]. by destruct Hno; apply Hb.
Qed.


(** C20: [address_compare] is a strict total order on addresses (NULL first): it returns 0
    exactly on equal addresses, swapping the arguments swaps the sign, and it is
    transitive.  The listeners are kept sorted by it. *)
Theorem address_compare_total_order a b c :
  address_wf a → address_wf b → address_wf c →
  (address_compare (Some a) (Some b) = 0 ↔ a = b) ∧
  address_compare (Some b) (Some a) = - address_compare (Some a) (Some b) ∧
  (address_compare (Some a) (Some b) < 0 → address_compare (Some b) (Some c) < 0 →
   address_compare (Some a) (Some c) < 0) ∧
  address_compare None (Some a) = -1 ∧ address_compare (Some a) None = 1.
Proof.
  intros Ha Hb Hc. rewrite !address_compare_eq by done.
  split_and!; [by apply address_order_0|apply address_order_opp|apply address_order_trans|done|done].
Qed.

(** Setting the port of a well-formed address keeps it well formed, reading it back
    gives the port (0 for a Unix socket, which has none), and nothing but the port
    changes: not the kind, not the length, not the family, not the address. *)
Theorem address_set_port_get a p :
  address_wf a → is_port p →
  ∃ a', address_set_port a p = Ok a' ∧ address_wf a' ∧
        address_port a' = Ok (if is_unix a then 0 else p) ∧
        type a' = type a ∧ alen a' = alen a ∧
        take 2 (adata a') = take 2 (adata a) ∧ drop 4 (adata a') = drop 4 (adata a) ∧
        (type a = SOCKADDR ∨ adata a' = adata a).
Proof.
  intros Ha Hp. destruct (address_set_port_wf a p Ha Hp) as (d & Heq & Hwf & H2 & H4 & Hd).
  eexists. split; [done|]. split; [done|]. split; [|done].
  rewrite address_port_wf by done. unfold is_unix. cbn [type adata aport]. by rewrite H2.
Qed.

(** * Witnesses

    A pair of conversions with the documented behaviour: IPv4 addresses as twelve decimal
    digits, IPv6 addresses as two colons and thirty-two hexadecimal digits. *)

Definition dec3 (b : Z) : list Z := [48 + b / 100; 48 + b / 10 mod 10; 48 + b mod 10].
Definition hex_digit (n : Z) : Z := if n <? 10 then 48 + n else 87 + n.
Definition hex_value (c : Z) : Z := if isdigit c then c - 48 else c - 87.
Definition hex2 (b : Z) : list Z := [hex_digit (b / 16); hex_digit (b mod 16)].

Fixpoint undec3 (s : list Z) : list Z :=
  match s with
  | a :: b :: c :: t => (100 * (a - 48) + 10 * (b - 48) + (c - 48)) :: undec3 t
  | _ => []
  end.
Fixpoint unhex2 (s : list Z) : list Z :=
  match s with
  | a :: b :: t => (16 * hex_value a + hex_value b) :: unhex2 t
  | _ => []
  end.

Definition fixed_pton (af : Z) (s : list Z) : option (list Z) :=
  if af =? AF_INET then
    if (Zlen s =? 12) && forallb isdigit s then Some (undec3 s) else None
  else match s with
       | a :: b :: t =>
           if (a =? 58) && (b =? 58) && (Zlen t =? 32) && forallb isxdigit t
           then Some (unhex2 t) else None
       | _ => None
       end.
Definition fixed_ntop (af : Z) (ip : list Z) : list Z :=
  if af =? AF_INET then concat (dec3 <$> ip) else [58; 58] ++ concat (hex2 <$> ip).

Lemma undec3_dec3 ip : Forall is_byte ip → undec3 (concat (dec3 <$> ip)) = ip.
Proof.
  induction 1 as [|b ip Hb _ IH]; [done|]. cbn. rewrite IH. f_equal. unfold is_byte in Hb.
  assert (b = 100 * (b / 100) + 10 * (b / 10 mod 10) + b mod 10) as Hsum; [|lia].
  pose proof (Z.div_mod b 10 ltac:(lia)). pose proof (Z.div_mod (b / 10) 10 ltac:(lia)) as H10.
  rewrite Z.div_div in H10 by lia. change (10 * 10) with 100 in H10. lia.
Qed.

Lemma hex_value_digit n : 0 ≤ n < 16 → hex_value (hex_digit n) = n.
Proof. intros. unfold hex_value, hex_digit, isdigit. zcase; cbn [andb]; lia. Qed.

Lemma unhex2_hex2 ip : Forall is_byte ip → unhex2 (concat (hex2 <$> ip)) = ip.
Proof.
  induction 1 as [|b ip Hb _ IH]; [done|]. unfold is_byte in Hb. cbn [fmap list_fmap concat hex2 app unhex2].
  rewrite IH. f_equal. rewrite !hex_value_digit.
  - pose proof (Z.div_mod b 16). lia.
  - apply Z.mod_pos_bound. lia.
  - split; [apply Z.div_pos; lia|apply Z.div_lt_upper_bound; lia].
Qed.

Lemma fixed_digits ip :
  Forall is_byte ip → forallb isdigit (concat (dec3 <$> ip)) = true ∧
  forallb isxdigit (concat (hex2 <$> ip)) = true.
Proof.
  induction 1 as [|b ip Hb _ [IH1 IH2]]; [done|]. unfold is_byte in Hb.
  cbn [fmap list_fmap concat]. rewrite !forallb_app, IH1, IH2, !andb_true_r.
  pose proof (Z.mod_pos_bound b 10). pose proof (Z.mod_pos_bound (b / 10) 10).
  pose proof (Z.mod_pos_bound b 16).
  assert (0 ≤ b / 100 ≤ 2) by (split; [apply Z.div_pos; lia|apply Z.lt_succ_r, Z.div_lt_upper_bound; lia]).
  assert (0 ≤ b / 16 < 16) by (split; [apply Z.div_pos; lia|apply Z.div_lt_upper_bound; lia]).
  assert (∀ n, 0 ≤ n < 16 → isxdigit (hex_digit n) = true) as Hx.
  { intros n Hn. unfold isxdigit, hex_digit, isdigit. zcase; cbn [andb orb]; done || lia. }
  split; cbn [dec3 hex2 forallb]; [unfold isdigit; lia|]. by rewrite !Hx by lia.
Qed.

Lemma length_concat_fixed (f : Z → list Z) n ip :
  (∀ b, length (f b) = n) → length (concat (f <$> ip)) = (n * length ip)%nat.
Proof.
  intros Hf. induction ip as [|b ip IH]; [cbn; lia|]. cbn [fmap list_fmap concat length].
  rewrite length_app, Hf, IH. lia.
Qed.

#[global] Instance fixed_inet : InetText fixed_pton fixed_ntop.
Proof.
  assert (∀ ip, Zlen (concat (dec3 <$> ip)) = 3 * Zlen ip) as L3.
  { intros. unfold Zlen. rewrite (length_concat_fixed _ 3); [lia|done]. }
  assert (∀ ip, Zlen (concat (hex2 <$> ip)) = 2 * Zlen ip) as L2.
  { intros. unfold Zlen. rewrite (length_concat_fixed _ 2); [lia|done]. }
  constructor; [constructor|..]; unfold fixed_pton, fixed_ntop; cbn [Z.eqb AF_INET AF_INET6 Pos.eqb].
  - intros s ip. destruct (_ && _) eqn:H; [|done]. intros [= <-].
    apply andb_true_iff in H as [H _]. unfold Zlen in *.
    do 12 (destruct s as [|? s]; [done|]). destruct s; [done|]. exfalso. apply Z.eqb_eq in H. cbn [length] in H. lia.
  - intros [|a [|b t]] ip; [done..|]. destruct (_ && _) eqn:H; [|done]. intros [= <-].
    rewrite !andb_true_iff in H. destruct H as [[_ H] _]. unfold Zlen in *.
    do 32 (destruct t as [|? t]; [done|]). destruct t; [done|]. exfalso. apply Z.eqb_eq in H. cbn [length] in H. lia.
  - intros ip Hlen Hb. rewrite L3, Hlen, (proj1 (fixed_digits ip Hb)). cbn. by rewrite undec3_dec3.
  - intros ip Hlen Hb. cbn [app]. rewrite L2, Hlen, (proj2 (fixed_digits ip Hb)). cbn.
    by rewrite unhex2_hex2.
  - intros ip Hlen. rewrite L3. unfold INET6_ADDRSTRLEN. lia.
  - intros ip Hlen. rewrite Zlen_app, L2. change (Zlen [58; 58]) with 2. unfold INET6_ADDRSTRLEN. lia.
  - intros s ip. destruct (_ && _) eqn:H; [|done]. intros _. apply andb_true_iff in H as [_ H].
    rewrite forallb_forall in *. intros c Hc. unfold ip4_char. by rewrite (H c Hc).
  - intros [|a [|b t]] ip; [done..|]. destruct (_ && _) eqn:H; [|done]. intros _.
    rewrite !andb_true_iff in H. destruct H as [[[Ha Hb] _] H]. cbn [forallb].
    rewrite !andb_true_iff. split_and!; [unfold ip6_char; lia..|].
    rewrite forallb_forall in *. intros c Hc. unfold ip6_char. by rewrite (H c Hc).
  - by intros [|c s] ip.
  - intros [|a [|b t]] ip; [done..|]. destruct (_ && _) eqn:H; [|done]. intros _.
    rewrite !andb_true_iff in H. destruct H as [[[Ha%Z.eqb_eq Hb%Z.eqb_eq] _] _]. subst.
    exists [], [], t. split; [done|apply not_elem_of_nil].
Qed.

Lemma new_address_total_witness :
  ∃ r, new_address fixed_pton (λ _, true) (Some (bytes "Example.COM:8080")) = Ok r ∧
       ∀ a, r = Some a → address_wf a.
Proof.
  apply new_address_total; [apply _| |by vm_compute].
  apply (bool_decide_unpack _). vm_compute. exact I.
Defined.

Lemma new_address_bracket_overflow_witness :
  new_address fixed_pton (λ _, true) (Some ([91] ++ replicate 262 97 ++ [93])) = Fault OutOfBounds.
Proof.
  apply (new_address_bracket_overflow fixed_pton fixed_ntop (λ _, true) (replicate 262 97)).
  - apply _.
  - apply (bool_decide_unpack _). vm_compute. exact I.
  - apply (bool_decide_unpack _). vm_compute. exact I.
  - apply (bool_decide_unpack _). vm_compute. exact I.
  - by vm_compute.
Defined.

Lemma example_com_ok : hostname_ok (bytes "example.com").
Proof.
  split; [by vm_compute|]. apply (labels_dot (bytes "example") (bytes "com"));
    [|apply labels_last]; apply (bool_decide_unpack _); vm_compute; exact I.
Qed.

Lemma new_address_hostname_witness :
  (hostname_ok (bytes "example.com") →
   new_address fixed_pton (λ _, true) (Some (bytes "example.com")) =
     Ok (Some (mkAddress HOSTNAME 11 0 (bytes "example.com" ++ [0])))) ∧
  (¬ hostname_ok (bytes "example.com") →
   new_address fixed_pton (λ _, true) (Some (bytes "example.com")) = Ok None).
Proof.
  apply (new_address_hostname fixed_pton fixed_ntop (λ _, true) (bytes "example.com"));
    first [apply _ | done | apply (bool_decide_unpack _); vm_compute; exact I].
Defined.


Definition ex_in (port : Z) : Address :=
  mkAddress SOCKADDR 16 port ([AF_INET; 0] ++ htons port ++ [127; 0; 0; 1] ++ replicate 8 0).

Lemma ex_in_wf port : is_port port → address_wf (ex_in port).
Proof. intros. by apply wf_in. Qed.

Lemma address_compare_total_order_witness :
  let a := ex_in 80 in let b := ex_in 443 in let c := mkAddress WILDCARD 0 0 [] in
  (address_compare (Some a) (Some b) = 0 ↔ a = b) ∧
  address_compare (Some b) (Some a) = - address_compare (Some a) (Some b) ∧
  (address_compare (Some a) (Some b) < 0 → address_compare (Some b) (Some c) < 0 →
   address_compare (Some a) (Some c) < 0) ∧
  address_compare None (Some a) = -1 ∧ address_compare (Some a) None = 1.
Proof.
  apply address_compare_total_order; [by apply ex_in_wf|by apply ex_in_wf|by constructor].
Defined.

Lemma address_set_port_get_witness :
  ∃ a', address_set_port (ex_in 80) 443 = Ok a' ∧ address_wf a' ∧
        address_port a' = Ok 443 ∧ type a' = SOCKADDR ∧ alen a' = 16 ∧
        take 2 (adata a') = [AF_INET; 0] ∧ drop 4 (adata a') = drop 4 (adata (ex_in 80)) ∧
        (SOCKADDR = SOCKADDR ∨ adata a' = adata (ex_in 80)).
Proof. by apply (address_set_port_get (ex_in 80) 443); [apply ex_in_wf|]. Defined.
