(* ===== verification/Resolv.v ===== *)
(** The resolver (src/resolv.c): a query asks libudns for the IPv4 and IPv6 addresses of a
    name, collects the answers, and calls its client once with the address it prefers. *)

From S2P Require Import Prelude CString Address.
From stdpp Require Import list.

#[local] Open Scope Z_scope.

(** * Data *)

Definition RESOLV_MODE_DEFAULT : Z := 0.
Definition RESOLV_MODE_IPV4_ONLY : Z := 1.
Definition RESOLV_MODE_IPV6_ONLY : Z := 2.
Definition RESOLV_MODE_IPV4_FIRST : Z := 3.
Definition RESOLV_MODE_IPV6_FIRST : Z := 4.

(** [queries] says which of the A and the AAAA query is pending; [responses] is the array of
    pointers that was allocated, NULL before the first answer. *)
Record ResolvQuery := mkQuery {
  resolv_mode    : Z;
  queries        : bool * bool;
  response_count : Z;
  responses      : list (option Address)
}.

(** The static variables of the file. *)
Record Resolver := mkResolver {
  default_resolv_mode : Z;
  io_fd               : Z;         (* resolv_io_watcher *)
  io_active           : bool;
  timeout_active      : bool       (* resolv_timeout_watcher *)
}.

(** Calls of libudns and of the client of a query; [v6] marks AAAA queries. *)
Inductive dns_event : Type :=
  | DnsInit
  | DnsReset
  | DnsAddServ (s : list Z)
  | DnsAddSrch (s : list Z)
  | DnsSubmit (v6 : bool) (host : list Z)
  | DnsCancel (v6 : bool)
  | DnsIoevent
  | DnsTimeouts
  | DnsClose
  | ClientCb (a : option Address)
  | ClientFree.

(** * Starting and stopping *)

(** [sockfd] is the result of dns_open; a failure ends the program ([None]). *)
Definition resolv_init (nameservers search : option (list (list Z))) (mode sockfd : Z)
    : list dns_event * option Resolver :=
  let evs :=
    match nameservers with
    | None => [DnsInit]
    | Some ns => DnsReset :: (DnsAddServ <$> ns) ++ (DnsAddSrch <$> default [] search)
    end in
  if sockfd <? 0 then (evs, None) else (evs, Some (mkResolver mode sockfd true false)).

Definition resolv_shutdown (r : Resolver) : list dns_event * Resolver :=
  ([DnsClose], mkResolver (default_resolv_mode r) (io_fd r) false false).

Definition resolv_sock_cb (revents : Z) : list dns_event :=
  if Z.land revents 1 =? 0 then [] else [DnsIoevent].

Definition resolv_timeout_cb (revents : Z) : list dns_event :=
  if Z.land revents 256 =? 0 then [] else [DnsTimeouts].

(** [ctx] is whether the context is not NULL. *)
Definition dns_timer_setup_cb (r : Resolver) (ctx : bool) (timeout : Z) : Resolver :=
  mkResolver (default_resolv_mode r) (io_fd r) (io_active r) (ctx && (0 <=? timeout)).

(** * Queries *)

Definition all_queries_are_null (q : ResolvQuery) : bool :=
  negb (queries q).1 && negb (queries q).2.

Definition sizeof_ResolvQuery : Z := 64.

(** [submit] says which kind of query libudns accepts.  Nothing is left of a query that has
    no pending part, and its client is told to free its data. *)
Definition resolv_query (r : Resolver) (malloc : Z → bool) (submit : bool → bool) (host : list Z) (mode : Z)
    : list dns_event * option ResolvQuery :=
  if negb (malloc sizeof_ResolvQuery) then ([], None) else
  let mode := if negb (mode =? RESOLV_MODE_DEFAULT) then mode else default_resolv_mode r in
  let ask4 := negb (mode =? RESOLV_MODE_IPV6_ONLY) in
  let ask6 := negb (mode =? RESOLV_MODE_IPV4_ONLY) in
  let q := mkQuery mode (ask4 && submit false, ask6 && submit true) 0 [] in
  let evs := (if ask4 then [DnsSubmit false host] else []) ++ (if ask6 then [DnsSubmit true host] else []) in
  if all_queries_are_null q then (evs ++ [ClientFree], None) else (evs, Some q).

(** The query is freed; its addresses are not. *)
Definition resolv_cancel (q : ResolvQuery) : list dns_event :=
  (if (queries q).1 then [DnsCancel false] else []) ++
  (if (queries q).2 then [DnsCancel true] else []) ++ [ClientFree].

(** [responses\[i\]]: a load from the array. *)
Definition response (q : ResolvQuery) (i : nat) : outcome (option Address) :=
  match responses q !! i with Some a => Ok a | None => Fault OutOfBounds end.

(** The loops of [choose_ipv4_first] and [choose_ipv6_first], from response [i] on, [n] of
    them left. *)
Fixpoint choose_family (q : ResolvQuery) (family : Z) (i n : nat) : outcome (option Address) :=
  match n with
  | O => Ok None
  | S n' =>
      a ← response q i;
      if address_is_sockaddr a then
        match a with
        | None => Fault NullDereference
        | Some b =>
            f ← sa_family (adata b);
            if f =? family then Ok a else choose_family q family (S i) n'
        end
      else choose_family q family (S i) n'
  end.

Definition choose_any (q : ResolvQuery) : outcome (option Address) :=
  if 1 <=? response_count q then response q 0 else Ok None.

Definition choose_ipv4_first (q : ResolvQuery) : outcome (option Address) :=
  a ← choose_family q AF_INET 0 (Z.to_nat (response_count q));
  match a with Some a => Ok (Some a) | None => choose_any q end.

Definition choose_ipv6_first (q : ResolvQuery) : outcome (option Address) :=
  a ← choose_family q AF_INET6 0 (Z.to_nat (response_count q));
  match a with Some a => Ok (Some a) | None => choose_any q end.

(** The responses that are freed after the client was called. *)
Fixpoint free_responses (q : ResolvQuery) (i n : nat) : outcome unit :=
  match n with
  | O => Ok ()
  | S n' => _ ← response q i; free_responses q (S i) n'
  end.

Definition process_client_callback (q : ResolvQuery) : outcome (list dns_event) :=
  best ← (if resolv_mode q =? RESOLV_MODE_IPV4_FIRST then choose_ipv4_first q
          else if resolv_mode q =? RESOLV_MODE_IPV6_FIRST then choose_ipv6_first q
          else choose_any q);
  _ ← free_responses q 0 (Z.to_nat (response_count q));
  Ok [ClientCb best; ClientFree].

Section answers.
Context (malloc : Z → bool) (realloc : Z → bool).

(** [realloc] of the array to [n] pointers. *)
Definition resized (l : list (option Address)) (n : nat) : list (option Address) := take n l ++ replicate (n - length l) None.

Definition store_response (q : ResolvQuery) (a : option Address) : outcome ResolvQuery :=
  let i := Z.to_nat (response_count q) in
  if bool_decide (i < length (responses q))%nat then
    Ok (mkQuery (resolv_mode q) (queries q)
          (match a with None => response_count q | Some _ => size_t (response_count q + 1) end)
          (<[i := a]> (responses q)))
  else Fault OutOfBounds.

(** The loop over the addresses of an answer; [v6] chooses the kind of socket address. *)
Fixpoint store_responses (q : ResolvQuery) (v6 : bool) (addrs : list (list Z)) : outcome ResolvQuery :=
  match addrs with
  | [] => Ok q
  | ip :: addrs' =>
      a ← (if v6 then new_address_sa malloc (sockaddr_in6 ip) sizeof_sockaddr_in6
           else new_address_sa malloc (sockaddr_in ip) sizeof_sockaddr_in);
      q ← store_response q a;
      store_responses q v6 addrs'
  end.

(** [result] is the answer of libudns: NULL, or the addresses.  [None] means that the query
    was freed. *)
Definition dns_query_cb (v6 : bool) (q : ResolvQuery) (result : option (list (list Z)))
    : outcome (list dns_event * option ResolvQuery) :=
  q ← match result with
      | None | Some [] => Ok q
      | Some addrs =>
          let n := size_t (size_t (response_count q + Zlen addrs) * 8) in
          if negb (realloc n) then Ok q
          else store_responses (mkQuery (resolv_mode q) (queries q) (response_count q)
                 (resized (responses q) (Z.to_nat (n / 8)))) v6 addrs
      end;
  let q := mkQuery (resolv_mode q) (if v6 then ((queries q).1, false) else (false, (queries q).2))
             (response_count q) (responses q) in
  if all_queries_are_null q then evs ← process_client_callback q; Ok (evs, None)
  else Ok ([], Some q).

Definition dns_query_v4_cb := dns_query_cb false.
Definition dns_query_v6_cb := dns_query_cb true.
End answers.

(** * The answers that were collected *)

Definition family_is (family : Z) (a : Address) : bool := bool_decide (sa_family (adata a) = Ok family).

Definition first_of (family : Z) (l : list Address) : option Address :=
  match List.find (family_is family) l with Some a => Some a | None => head l end.

(** The preferred one of the addresses, in the order in which they arrived. *)
Definition best (mode : Z) (l : list Address) : option Address :=
  if mode =? RESOLV_MODE_IPV4_FIRST then first_of AF_INET l
  else if mode =? RESOLV_MODE_IPV6_FIRST then first_of AF_INET6 l
  else head l.

(** What clients rely on: no address, or a socket address. *)
Definition answer_ok (result : option Address) : Prop :=
  ∀ a, result = Some a → address_wf a ∧ type a = SOCKADDR.

Definition usable (a : Address) : Prop := address_wf a ∧ type a = SOCKADDR.

Lemma best_ok mode l : Forall usable l → answer_ok (best mode l).
Proof.
  intros Hl. assert (∀ a, head l = Some a → usable a) as Hhead.
  { intros a. destruct Hl; [done|]. by intros [= <-]. }
  assert (∀ f, answer_ok (first_of f l)) as Hfirst.
  { intros f a. unfold first_of. destruct (List.find _ l) as [b|] eqn:Hb; [|apply Hhead].
    intros [= <-]. apply List.find_some in Hb as [Hin _]. by eapply List.Forall_forall in Hl. }
  unfold best. destruct (_ =? _); [apply Hfirst|]. destruct (_ =? _); [apply Hfirst|exact Hhead].
Qed.

(** The first responses of the array are the addresses [got]. *)
Record collected (q : ResolvQuery) (got : list Address) : Prop := {
  col_count : response_count q = Zlen got;
  col_small : Zlen got < 2 ^ 60;
  col_array : ∃ rest, responses q = (Some <$> got) ++ rest;
  col_usable : Forall usable got
}.

Lemma usable_family a : usable a → ∃ f, sa_family (adata a) = Ok f.
Proof. intros [[] Ht]; try done; by eexists. Qed.

Lemma response_got q got i a : collected q got → got !! i = Some a → response q i = Ok (Some a).
Proof.
  intros [_ _ (rest & Hr) _] Ha. unfold response. rewrite Hr, lookup_app_l.
  - by rewrite list_lookup_fmap, Ha.
  - rewrite length_fmap. by eapply lookup_lt_Some.
Qed.

Lemma choose_family_spec q got family i l :
  collected q got → drop i got = l → choose_family q family i (length l) = Ok (List.find (family_is family) l).
Proof.
  intros Hc. revert i. induction l as [|a l IH]; intros i Hl; [done|]. cbn [choose_family length List.find].
  assert (got !! i = Some a) as Ha by by rewrite <- (Nat.add_0_r i), <- lookup_drop, Hl.
  rewrite (response_got _ _ _ _ Hc Ha). outcome_simpl.
  assert (usable a) as Hu by (eapply Forall_lookup_1; [apply Hc|done]).
  unfold address_is_sockaddr, address_is. rewrite bool_decide_true by apply Hu.
  destruct (usable_family a Hu) as [f Hf]. rewrite Hf. outcome_simpl. unfold family_is at 1. rewrite Hf.
  destruct (Z.eqb_spec f family) as [->|Hne]; [by rewrite bool_decide_true|].
  rewrite bool_decide_false by congruence. apply IH. rewrite <- Nat.add_1_r, <- drop_drop, Hl. done.
Qed.

Lemma choose_any_spec q got : collected q got → choose_any q = Ok (head got).
Proof.
  intros Hc. unfold choose_any. rewrite (col_count _ _ Hc). destruct got as [|a got]; [done|].
  rewrite Zlen_cons. pose proof (Zlen_nonneg got). rewrite (proj2 (Z.leb_le _ _)) by lia.
  by eapply response_got.
Qed.

Lemma choose_first_spec q got family :
  collected q got →
  (a ← choose_family q family 0 (Z.to_nat (response_count q));
   match a with Some a => Ok (Some a) | None => choose_any q end) = Ok (first_of family got).
Proof.
  intros Hc. rewrite (col_count _ _ Hc). unfold Zlen. rewrite Nat2Z.id, (choose_family_spec _ got _ _ got) by done.
  outcome_simpl. unfold first_of. destruct (List.find _ got); [done|]. by apply choose_any_spec.
Qed.

Lemma free_responses_spec q got i n :
  collected q got → (i + n ≤ length got)%nat → free_responses q i n = Ok ().
Proof.
  intros Hc. revert i. induction n as [|n IH]; intros i Hi; [done|]. cbn [free_responses].
  destruct (lookup_lt_is_Some_2 got i) as [a Ha]; [lia|]. rewrite (response_got _ _ _ _ Hc Ha). outcome_simpl.
  apply IH. lia.
Qed.

Lemma process_client_callback_spec q got :
  collected q got → process_client_callback q = Ok [ClientCb (best (resolv_mode q) got); ClientFree].
Proof.
  intros Hc. unfold process_client_callback, best, choose_ipv4_first, choose_ipv6_first.
  rewrite !(choose_first_spec q got), (choose_any_spec q got) by done.
  assert (free_responses q 0 (Z.to_nat (response_count q)) = Ok ()) as Hf.
  { apply (free_responses_spec _ got); [done|]. rewrite (col_count _ _ Hc). unfold Zlen. lia. }
  destruct (_ =? _); outcome_simpl; [by rewrite Hf|]. destruct (_ =? _); outcome_simpl; by rewrite Hf.
Qed.

(** The addresses made from an answer: none when there is no memory for them. *)
Definition answered (malloc : Z → bool) (v6 : bool) (addrs : list (list Z)) : list Address :=
  if malloc (size_t (offsetof_data + (if v6 then sizeof_sockaddr_in6 else sizeof_sockaddr_in)))
  then (if v6 then in6_address else in_address) <$> addrs else [].

(** What libudns hands over: the addresses have the size of their family. *)
Definition addrs_ok (v6 : bool) (addrs : list (list Z)) : Prop :=
  Forall (λ ip, Zlen ip = if v6 then 16 else 4) addrs ∧ Zlen addrs < 2 ^ 31.

Lemma answered_usable malloc v6 addrs : addrs_ok v6 addrs → Forall usable (answered malloc v6 addrs).
Proof.
  intros [Hall _]. unfold answered. destruct (malloc _); [|constructor]. apply Forall_fmap. eapply Forall_impl; [exact Hall|].
  intros ip Hip. destruct v6; cbn; (split; [|done]); [by apply in6_address_wf|by apply in_address_wf].
Qed.

Lemma answered_cons malloc v6 ip addrs :
  answered malloc v6 (ip :: addrs) = answered malloc v6 [ip] ++ answered malloc v6 addrs.
Proof. unfold answered. by destruct (malloc _). Qed.

Lemma new_response malloc (v6 : bool) ip :
  Zlen ip = (if v6 then 16 else 4) →
  (if v6 then new_address_sa malloc (sockaddr_in6 ip) sizeof_sockaddr_in6
   else new_address_sa malloc (sockaddr_in ip) sizeof_sockaddr_in) = Ok (head (answered malloc v6 [ip])).
Proof.
  intros Hip. unfold answered. destruct v6; unfold new_address_sa; destruct (malloc _); try done; cbn [fmap list_fmap head].
  - apply length_16 in Hip as (? & ? & ? & ? & ? & ? & ? & ? & ? & ? & ? & ? & ? & ? & ? & ? & ->). done.
  - apply length_4 in Hip as (? & ? & ? & ? & ->). done.
Qed.

Lemma store_response_spec q got a rest :
  collected q got → responses q = (Some <$> got) ++ rest → rest ≠ [] → Forall usable (option_list a) →
  Zlen got + 1 < 2 ^ 60 →
  ∃ q', store_response q a = Ok q' ∧ collected q' (got ++ option_list a) ∧
    resolv_mode q' = resolv_mode q ∧ queries q' = queries q ∧
    ∃ rest', responses q' = (Some <$> (got ++ option_list a)) ++ rest' ∧
      length rest' = (length rest - length (option_list a))%nat.
Proof.
  intros [Hc Hsm _ Hu] Hr Hne Ha Hbig. unfold store_response. rewrite Hc. unfold Zlen. rewrite Nat2Z.id.
  destruct rest as [|x rest]; [done|]. rewrite Hr.
  rewrite bool_decide_true by (rewrite length_app, length_fmap; cbn [length]; lia).
  rewrite insert_app_r_alt by (rewrite length_fmap; lia). rewrite length_fmap, Nat.sub_diag. cbn [insert list_insert].
  eexists. split; [done|].
  assert (∀ k (r : list (option Address)), (Some <$> got) ++ a :: rest = (Some <$> got ++ option_list a) ++ r →
    k = Zlen (got ++ option_list a) → collected (mkQuery (resolv_mode q) (queries q) k ((Some <$> got) ++ a :: rest)) (got ++ option_list a)) as Hcol.
  { intros k r Heq Hk. constructor; cbn; [done| |by exists r|by apply Forall_app].
    rewrite Zlen_app. destruct a; cbn; [change (Zlen [a]) with 1|change (Zlen (@nil Address)) with 0]; lia. }
  destruct a as [a|]; cbn [option_list length].
  - split_and!; [|done|done|].
    + apply (Hcol _ rest); [by rewrite fmap_app, <- (assoc_L (++))|]. rewrite Zlen_app. change (Zlen [a]) with 1.
      unfold Zlen in *. by rewrite size_t_small by lia.
    + exists rest. split; [by rewrite fmap_app, <- (assoc_L (++))|cbn; lia].
  - rewrite app_nil_r. split_and!; [|done|done|].
    + specialize (Hcol (Z.of_nat (length got)) (None :: rest)). rewrite app_nil_r in Hcol. by apply Hcol.
    + exists (None :: rest). split; [done|]. cbn. lia.
Qed.

Lemma store_responses_spec malloc v6 addrs q got rest :
  collected q got → responses q = (Some <$> got) ++ rest → (length addrs ≤ length rest)%nat →
  addrs_ok v6 addrs → Zlen got + Zlen addrs < 2 ^ 60 →
  ∃ q', store_responses malloc q v6 addrs = Ok q' ∧ collected q' (got ++ answered malloc v6 addrs) ∧
    resolv_mode q' = resolv_mode q ∧ queries q' = queries q.
Proof.
  revert q got rest. induction addrs as [|ip addrs IH]; intros q got rest Hc Hr Hlen [Hall Hn] Hbig.
  { exists q. split; [done|]. replace (answered malloc v6 []) with (@nil Address) by (unfold answered; by destruct (malloc _)).
    by rewrite app_nil_r. }
  cbn [store_responses]. rewrite Zlen_cons in *. apply Forall_cons in Hall as [Hip Hall].
  rewrite (new_response malloc v6 ip Hip). outcome_simpl.
  set (one := answered malloc v6 [ip]).
  assert (one = option_list (head one)) as Hone by (unfold one, answered; by destruct (malloc _)).
  assert (Forall usable one) as Hu by (apply answered_usable; split; [by constructor|done]).
  pose proof (Zlen_nonneg addrs).
  destruct (store_response_spec q got (head one) rest) as (q1 & -> & Hc1 & Hm1 & Hq1 & rest1 & Hr1 & Hl1);
    [done|done|destruct rest; [cbn in Hlen; lia|done]|by rewrite <- Hone|lia|].
  outcome_simpl. rewrite <- Hone in *.
  assert (length one ≤ 1)%nat as H1 by (unfold one, answered; by destruct (malloc _); cbn; lia).
  destruct (IH q1 (got ++ one) rest1) as (q' & -> & Hc' & Hm' & Hq'); [done|done|cbn in Hlen; lia|split; [done|lia]| |].
  { rewrite Zlen_app. unfold Zlen in *. lia. }
  exists q'. rewrite answered_cons, (assoc_L (++)). split_and!; [done|done|congruence|congruence].
Qed.

Lemma resized_app l n got rest :
  l = (Some <$> got) ++ rest → (length got ≤ n)%nat →
  ∃ rest', resized l n = (Some <$> got) ++ rest' ∧ length rest' = (n - length got)%nat.
Proof.
  intros -> Hn. unfold resized. rewrite take_app_ge by (rewrite length_fmap; done).
  exists (take (n - length (Some <$> got)) rest ++ replicate (n - length ((Some <$> got) ++ rest)) None).
  split; [by rewrite (assoc_L (++))|]. rewrite !length_app, length_take, length_replicate, !length_fmap. lia.
Qed.

(** An answer of libudns to one of the queries, and the memory there is then. *)
Record answer := mkAnswer {
  ans_v6      : bool;
  ans_result  : option (list (list Z));
  ans_malloc  : Z → bool;
  ans_realloc : bool
}.

Definition dns_answer (q : ResolvQuery) (a : answer) : outcome (list dns_event * option ResolvQuery) :=
  if ans_v6 a then dns_query_v6_cb (ans_malloc a) (λ _, ans_realloc a) q (ans_result a)
  else dns_query_v4_cb (ans_malloc a) (λ _, ans_realloc a) q (ans_result a).

(** The answers in the order in which they arrive; a freed query gets none. *)
Fixpoint dns_answers (q : ResolvQuery) (l : list answer) : outcome (list dns_event * option ResolvQuery) :=
  match l with
  | [] => Ok ([], Some q)
  | a :: l' =>
      '(evs, q') ← dns_answer q a;
      match q' with
      | None => if bool_decide (l' = []) then Ok (evs, None) else Fault UseAfterFree
      | Some q' => '(evs', q'') ← dns_answers q' l'; Ok (evs ++ evs', q'')
      end
  end.

Definition gained (a : answer) : list Address :=
  match ans_result a with
  | None => []
  | Some addrs => if ans_realloc a then answered (ans_malloc a) (ans_v6 a) addrs else []
  end.

Definition answer_fits (a : answer) : Prop :=
  match ans_result a with None => True | Some addrs => addrs_ok (ans_v6 a) addrs end.

(** The kinds of queries that are pending. *)
Definition pending (q : ResolvQuery) : list bool :=
  (if (queries q).1 then [false] else []) ++ (if (queries q).2 then [true] else []).

Lemma dns_answer_spec q got a :
  collected q got → Zlen got < 2 ^ 59 → answer_fits a →
  ∃ q', collected q' (got ++ gained a) ∧ resolv_mode q' = resolv_mode q ∧
    queries q' = (if ans_v6 a then ((queries q).1, false) else (false, (queries q).2)) ∧
    dns_answer q a = if all_queries_are_null q'
                     then Ok ([ClientCb (best (resolv_mode q) (got ++ gained a)); ClientFree], None)
                     else Ok ([], Some q').
Proof.
  intros Hc Hsmall Hfit. unfold dns_answer, dns_query_v6_cb, dns_query_v4_cb.
  assert (∃ q1, (match ans_result a with
      | None | Some [] => Ok q
      | Some addrs =>
          let n := size_t (size_t (response_count q + Zlen addrs) * 8) in
          if negb (ans_realloc a) then Ok q
          else store_responses (ans_malloc a) (mkQuery (resolv_mode q) (queries q) (response_count q)
                 (resized (responses q) (Z.to_nat (n / 8)))) (ans_v6 a) addrs
      end) = Ok q1 ∧ collected q1 (got ++ gained a) ∧ resolv_mode q1 = resolv_mode q ∧ queries q1 = queries q)
    as (q1 & H1 & Hc1 & Hm1 & Hq1).
  { unfold gained, answer_fits in *. destruct (ans_result a) as [[|ip addrs]|].
    - exists q. replace (if ans_realloc a then answered _ _ [] else []) with (@nil Address).
      + by rewrite app_nil_r.
      + unfold answered. destruct (ans_realloc a); [|done]. by destruct (ans_malloc a _).
    - destruct (ans_realloc a); cbn [negb]; [|exists q; by rewrite app_nil_r].
      set (l := ip :: addrs) in *. rewrite (col_count _ _ Hc). destruct Hfit as [Hall Hn]. pose proof (Zlen_nonneg got).
      pose proof (Zlen_nonneg l). nowrap.
      rewrite Z.div_mul by lia. destruct (col_array _ _ Hc) as (rest & Hr).
      destruct (resized_app (responses q) (Z.to_nat (Zlen got + Zlen l)) got rest Hr) as (rest' & Hr' & Hl'); [unfold Zlen; lia|].
      cbv zeta. match goal with |- context [store_responses _ ?q0 _ _] =>
        destruct (store_responses_spec (ans_malloc a) (ans_v6 a) l q0 got rest') as (q' & -> & Hc' & ? & ?) end;
        [|done|rewrite Hl'; unfold Zlen in *; lia|done|lia|by exists q'].
      destruct Hc. constructor; cbn; [done|done|by exists rest'|done].
    - exists q. by rewrite app_nil_r. }
  exists (mkQuery (resolv_mode q1) (if ans_v6 a then ((queries q1).1, false) else (false, (queries q1).2))
    (response_count q1) (responses q1)).
  split; [by destruct Hc1; constructor|]. split; [done|]. split; [cbn; by rewrite Hq1|].
  assert (∀ x, collected (mkQuery (resolv_mode q1) x (response_count q1) (responses q1)) (got ++ gained a)) as Hcx
    by (intros x; by destruct Hc1; constructor).
  cbv zeta in H1. destruct (ans_v6 a); unfold dns_query_cb; cbv beta zeta; rewrite H1; outcome_simpl; rewrite (process_client_callback_spec _ _ (Hcx _)), Hm1;
    by destruct (all_queries_are_null _).
Qed.

Lemma gained_small a : answer_fits a → Zlen (gained a) < 2 ^ 31.
Proof.
  unfold gained, answer_fits, answered. destruct (ans_result a); [|done]. intros [_ Hn].
  destruct (ans_realloc a); [|done]. destruct (ans_malloc a _); [|done]. unfold Zlen in *. by rewrite length_fmap.
Qed.

Lemma gained_usable a : answer_fits a → Forall usable (gained a).
Proof.
  unfold gained, answer_fits. destruct (ans_result a); [|constructor]. intros Hfit.
  destruct (ans_realloc a); [by apply answered_usable|constructor].
Qed.

(** An answer to a pending query leaves the other one. *)
Lemma pending_answered (p : bool * bool) (v6 : bool) rest q q' :
  queries q = p → queries q' = (if v6 then (p.1, false) else (false, p.2)) →
  v6 :: rest ≡ₚ pending q → rest ≡ₚ pending q' ∧ (all_queries_are_null q' = true ↔ rest = []).
Proof.
  intros Hq Hq' Hperm. unfold pending, all_queries_are_null in *. rewrite Hq, Hq' in *.
  assert (rest ≡ₚ (if (if v6 then (p.1, false) else (false, p.2)).1 then [false] else []) ++
                  (if (if v6 then (p.1, false) else (false, p.2)).2 then [true] else [])) as Hrest.
  { destruct v6, p as [[] []]; cbn in *.
    - rewrite (Permutation_swap true false []) in Hperm. by apply Permutation_cons_inv in Hperm.
    - by apply Permutation_singleton_r in Hperm.
    - by apply Permutation_cons_inv in Hperm.
    - by apply Permutation_nil_r in Hperm.
    - by apply Permutation_cons_inv in Hperm.
    - by apply Permutation_cons_inv in Hperm.
    - by apply Permutation_singleton_r in Hperm.
    - by apply Permutation_nil_r in Hperm. }
  split; [done|]. destruct v6, p as [[] []]; cbn in *; split; try done;
    try (by intros _; apply Permutation_nil_r); intros ->; by apply Permutation_nil_l in Hrest.
Qed.

Lemma dns_answers_spec answers q got :
  collected q got → Zlen got + 2 ^ 31 * Zlen answers < 2 ^ 59 → answers ≠ [] →
  ans_v6 <$> answers ≡ₚ pending q → Forall answer_fits answers →
  dns_answers q answers = Ok ([ClientCb (best (resolv_mode q) (got ++ mjoin (gained <$> answers))); ClientFree], None).
Proof.
  revert q got. induction answers as [|a answers IH]; intros q got Hc Hsmall Hne Hperm Hfit; [done|].
  apply Forall_cons in Hfit as [Ha Hfit]. rewrite Zlen_cons in Hsmall. pose proof (Zlen_nonneg answers).
  destruct (dns_answer_spec q got a Hc) as (q' & Hc' & Hm & Hq' & Heq); [lia|done|].
  cbn [dns_answers]. rewrite Heq. rewrite fmap_cons in Hperm.
  destruct (pending_answered (queries q) (ans_v6 a) (ans_v6 <$> answers) q q') as [Hrest Hnull]; [done..|].
  cbn [fmap list_fmap mjoin list_join]. rewrite (assoc_L (++)).
  destruct (all_queries_are_null q'); outcome_simpl.
  - assert (ans_v6 <$> answers = []) as Hnil by by apply Hnull.
    apply fmap_nil_inv in Hnil as ->.
    cbn. by rewrite app_nil_r.
  - rewrite (IH q' (got ++ gained a)); [by rewrite Hm|done| | |done|done].
    + rewrite Zlen_app. pose proof (gained_small a Ha). lia.
    + intros ->. discriminate (proj2 Hnull eq_refl).
Qed.

(** * Properties *)

(** C34: a query calls its client exactly once, when the last of its answers has come, and is
    freed then.  Whatever the order of the A and the AAAA answer, whether they fail or memory
    runs out on the way, no response is written or read outside the array, and the
    address handed over is the preferred one of those that arrived, for each mode; it
    satisfies what a connection relies on. *)
Theorem resolv_query_answers_once r malloc submit host mode evs q answers :
  resolv_query r malloc submit host mode = (evs, Some q) →
  ans_v6 <$> answers ≡ₚ pending q → Forall answer_fits answers →
  let result := best (resolv_mode q) (mjoin (gained <$> answers)) in
  dns_answers q answers = Ok ([ClientCb result; ClientFree], None) ∧ answer_ok result.
Proof.
  intros Hq Hperm Hfit result. split.
  - unfold resolv_query in Hq. destruct (malloc _); [|done]. cbn [negb] in Hq.
    set (q0 := mkQuery _ _ _ _) in Hq. destruct (all_queries_are_null q0) eqn:Hnull; [done|]. injection Hq as _ <-.
    assert (length answers ≤ 2)%nat as Hlen.
    { apply Permutation_length in Hperm. rewrite length_fmap in Hperm. rewrite Hperm. unfold pending.
      rewrite length_app. destruct (queries q0) as [[] []]; cbn; lia. }
    apply (dns_answers_spec answers q0 []); try done.
    + by constructor; [| |exists []|].
    + unfold Zlen. cbn [length]. lia.
    + intros ->. clearbody q0. unfold pending in Hperm. unfold all_queries_are_null in Hnull. cbn in Hperm.
      apply Permutation_nil_l in Hperm. by destruct (queries q0) as [[] []].
  - apply best_ok. apply Forall_join, Forall_fmap. eapply Forall_impl; [exact Hfit|]. intros a. apply gained_usable.
Qed.

(** * Witnesses *)

Definition ex_resolver : Resolver := mkResolver RESOLV_MODE_IPV4_FIRST 3 true false.

(** The AAAA answer comes first; IPv4 is preferred. *)
Definition ex_answers : list answer :=
  [ mkAnswer true (Some [replicate 16 1]) (λ _, true) true;
    mkAnswer false (Some [[127; 0; 0; 1]; [10; 0; 0; 1]]) (λ _, true) true ].

Lemma resolv_query_answers_once_witness :
  let q := mkQuery RESOLV_MODE_IPV4_FIRST (true, true) 0 [] in
  dns_answers q ex_answers = Ok ([ClientCb (Some (in_address [127; 0; 0; 1])); ClientFree], None) ∧
  answer_ok (Some (in_address [127; 0; 0; 1])).
Proof.
  apply (resolv_query_answers_once ex_resolver (λ _, true) (λ _, true) (bytes "a") 0
    [DnsSubmit false (bytes "a"); DnsSubmit true (bytes "a")]
    (mkQuery RESOLV_MODE_IPV4_FIRST (true, true) 0 []) ex_answers).
  - by vm_compute.
  - apply Permutation_swap.
  - repeat constructor; by vm_compute.
Defined.
