(* ===== verification/Backend.v ===== *)
(** Table entries (src/backend.c): a pattern, the address it leads to, and the rewriting
    of that address from what the pattern matched.  The regular expressions are those of
    libpcre, whose functions are parameters. *)

From S2P Require Import Prelude CString Address.

(** * Data *)

Record Backend (pcre : Type) := mkBackend {
  pattern            : option (list Z);
  address            : option Address;
  use_proxy_header   : bool;
  pattern_re         : option pcre
}.
Arguments mkBackend {pcre} _ _ _ _.
Arguments pattern {pcre} _.
Arguments address {pcre} _.
Arguments use_proxy_header {pcre} _.
Arguments pattern_re {pcre} _.

(** [matches\[0\]] is the result of [pcre_exec], the other 31 are its vector. *)
Record BackendLookupResult (pcre : Type) := mkLookup {
  backend : option (Backend pcre);
  bmatches : Z * list Z
}.
Arguments mkLookup {pcre} _ _.
Arguments backend {pcre} _.
Arguments bmatches {pcre} _.

Section backend.
Context {pcre : Type}.

(** [pcre_compile(pattern)], and [pcre_exec(re, subject, length)] with a vector of 31
    integers: its result and the vector. *)
Context (pcre_compile : list Z → option pcre).
Context (pcre_exec : pcre → list Z → Z → Z * list Z).
Context (inet_pton : Z → list Z → option (list Z)) (inet_ntop : Z → list Z → list Z).
Context (malloc : Z → bool).

Definition new_backend : option (Backend pcre) :=
  if malloc 48 then Some (mkBackend None None false None) else None.

Definition set_pattern (p : list Z) (b : Backend pcre) : Backend pcre :=
  mkBackend (Some p) (address b) (use_proxy_header b) (pattern_re b).
Definition set_address (a : Address) (b : Backend pcre) : Backend pcre :=
  mkBackend (pattern b) (Some a) (use_proxy_header b) (pattern_re b).
Definition set_pattern_re (re : pcre) (b : Backend pcre) : Backend pcre :=
  mkBackend (pattern b) (address b) (use_proxy_header b) (Some re).

(** The arguments of an entry, one call each: the pattern, the address, and then a port
    or "proxy_protocol".  [have_libudns] is the build option. *)
Definition accept_backend_arg (have_libudns : bool) (b : Backend pcre) (arg : list Z)
    : outcome (Z * Backend pcre) :=
  match pattern b with
  | None =>
      if malloc (Zlen arg + 1) then Ok (1, set_pattern arg b) else Ok (-1, b)
  | Some _ =>
      match address b with
      | None =>
          a ← new_address inet_pton malloc (Some arg);
          match a with
          | None => Ok (-1, b)
          | Some a =>
              let b := set_address a b in
              if negb have_libudns && negb (address_is_sockaddr (Some a)) then Ok (-1, b)
              else Ok (1, b)
          end
      | Some a =>
          port ← address_port a;
          if (port =? 0) && is_numeric (Some arg) then
            '(r, a') ← address_set_port_str a arg;
            Ok (if r =? 0 then -1 else 1, set_address a' b)
          else if negb (use_proxy_header b) && strcasecmp_eq arg (bytes "proxy_protocol") then
            Ok (1, mkBackend (pattern b) (address b) true (pattern_re b))
          else Ok (-1, b)
      end
  end.

(** The queue of a table, in order. *)
Definition add_backend (backends : list (Backend pcre)) (b : Backend pcre) : list (Backend pcre) :=
  backends ++ [b].

(** Removal of the element at a position, and its release. *)
Definition remove_backend (head : list (Backend pcre)) (i : nat) : list (Backend pcre) :=
  delete i head.

Definition init_backend (b : Backend pcre) : outcome (Z * Backend pcre) :=
  match pattern_re b with
  | Some _ => Ok (1, b)
  | None =>
      match pattern b with
      | None => Fault NullDereference
      | Some p =>
          match pcre_compile p with
          | None => Ok (0, b)
          | Some re => Ok (1, set_pattern_re re b)
          end
      end
  end.

(** The loop of [lookup_backend]. *)
Fixpoint lookup_loop (head : list (Backend pcre)) (name : list Z) (name_len : Z)
    (matches : Z * list Z) : outcome (BackendLookupResult pcre) :=
  match head with
  | [] => Ok (mkLookup None matches)
  | b :: head' =>
      match pattern_re b with
      | None => Fault AssertionFailed
      | Some re =>
          let m := pcre_exec re name name_len in
          if 0 <=? m.1 then Ok (mkLookup (Some b) m) else lookup_loop head' name name_len m
      end
  end.

(** [name] is [None] for NULL. *)
Definition lookup_backend (head : list (Backend pcre)) (name : option (list Z)) (name_len : Z)
    : outcome (BackendLookupResult pcre) :=
  match name with
  | None => lookup_loop head [] 0 (-1, [])
  | Some n => lookup_loop head n name_len (-1, [])
  end.

Definition backend_config_options (b : Backend pcre) : list Z :=
  if use_proxy_header b then bytes " proxy_protocol" else [].

Definition print_backend_config (b : Backend pcre) : outcome (list Z) :=
  d ← display_address inet_ntop (address b) ADDRESS_BUFFER_SIZE;
  Ok ([9] ++ default (bytes "(null)") (pattern b) ++ [32] ++ default (bytes "(null)") d ++
      backend_config_options b ++ [10]).

(** * Rewriting an address

    [pcre_copy_substring(name, vector, count, n, buffer, size)]: the result and what is
    written into the buffer. *)
Context (pcre_copy_substring : list Z → list Z → Z → Z → Z → Z * list Z).

(** [src] is what is left of the pattern and [pos] the position of [dst] in its block. *)
Fixpoint apply_loop (name : list Z) (matches : Z * list Z) (src : list Z)
    (dst : list Z) (pos length : Z) {struct src} : outcome (Z * list Z) :=
  let finish :=
    if negb (length =? 0) then dst ← store_range dst pos [0]; Ok (1, dst) else Ok (0, dst) in
  match src with
  | [] => finish
  | c :: t =>
      if negb (0 <? length) then finish else
      match t with
      | d :: u =>
          if c =? 36 then
            if (48 <=? d) && (d <=? 57) then
              dst ← store_range dst pos [0];
              let '(ret, bs) := pcre_copy_substring name matches.2 matches.1 (d - 48) length in
              dst ← store_range dst pos bs;
              if ret <? 0 then Ok (0, dst)
              else apply_loop name matches u dst (pos + ret) (c_int (length - ret))
            else
              dst ← store_range dst pos [d];
              apply_loop name matches u dst (pos + 1) (c_int (length - 1))
          else
            dst ← store_range dst pos [c];
            apply_loop name matches t dst (pos + 1) (c_int (length - 1))
      | [] =>
          dst ← store_range dst pos [c];
          apply_loop name matches t dst (pos + 1) (c_int (length - 1))
      end
  end.

Definition apply_pattern (name pattern : list Z) (matches : Z * list Z)
    (dst : list Z) (result_len : Z) : outcome (Z * list Z) :=
  let length := if 1024 <? result_len then 1024 else result_len in
  apply_loop name matches pattern dst 0 length.

(** * Lookup takes the first match *)

Definition initialised (b : Backend pcre) : Prop := is_Some (pattern_re b).

(** The expression of [b] matches the name. *)
Definition accepts (name : list Z) (name_len : Z) (b : Backend pcre) : Prop :=
  ∃ re, pattern_re b = Some re ∧ 0 ≤ (pcre_exec re name name_len).1.

Lemma lookup_loop_spec head name name_len m :
  Forall initialised head →
  (∃ pre b post re, head = pre ++ b :: post ∧ Forall (λ b, ¬ accepts name name_len b) pre ∧
     pattern_re b = Some re ∧ 0 ≤ (pcre_exec re name name_len).1 ∧
     lookup_loop head name name_len m = Ok (mkLookup (Some b) (pcre_exec re name name_len))) ∨
  (Forall (λ b, ¬ accepts name name_len b) head ∧
     ∃ m', lookup_loop head name name_len m = Ok (mkLookup None m')).
Proof.
  intros Hinit. revert m. induction Hinit as [|b head [re Hre] Hinit IH]; intros m.
  { right. split; [constructor|]. by exists m. }
  cbn [lookup_loop]. rewrite Hre. destruct (Z.leb_spec 0 (pcre_exec re name name_len).1) as [Hm|Hm].
  { left. exists [], b, head, re. split_and!; [done|constructor|done|done|done]. }
  assert (¬ accepts name name_len b) as Hno by (intros (re' & ? & ?); simplify_eq; lia).
  destruct (IH (pcre_exec re name name_len)) as [(pre & b' & post & re' & -> & Hpre & H)|[Hall H]].
  - left. exists (b :: pre), b', post, re'. split; [done|]. split; [by constructor|done].
  - right. split; [by constructor|done].
Qed.

(** * What the rewriting yields *)

(** Documented behaviour of [pcre_copy_substring]: the substring and a terminator, if the
    buffer has room for both. *)
Class PcreCopy (substring : list Z → list Z → Z → Z → option (list Z)) : Prop := {
  copy_substring_fits name v count n size s :
    substring name v count n = Some s → Zlen s < size →
    pcre_copy_substring name v count n size = (Zlen s, s ++ [0]);
  copy_substring_small name v count n size s :
    substring name v count n = Some s → size ≤ Zlen s →
    ∃ code, code < 0 ∧ pcre_copy_substring name v count n size = (code, []);
  copy_substring_none name v count n size :
    substring name v count n = None →
    ∃ code, code < 0 ∧ pcre_copy_substring name v count n size = (code, [])
}.

(** The pattern with [$0] to [$9] replaced by what was matched, and [$c] by [c]. *)
Fixpoint expand (group : Z → option (list Z)) (src : list Z) : option (list Z) :=
  match src with
  | [] => Some []
  | c :: t =>
      match t with
      | d :: u =>
          if c =? 36 then
            if (48 <=? d) && (d <=? 57) then
              match group (d - 48), expand group u with Some s, Some r => Some (s ++ r) | _, _ => None end
            else cons d <$> expand group u
          else cons c <$> expand group t
      | [] => Some [c]
      end
  end.

(** [d'] differs from [d] only from [pos] on and before [cap]. *)
Definition writes (pos cap : Z) (d d' : list Z) : Prop :=
  Zlen d' = Zlen d ∧ slice d' 0 pos = slice d 0 pos ∧
  slice d' cap (Zlen d - cap) = slice d cap (Zlen d - cap).

Lemma writes_refl pos cap d : writes pos cap d d.
Proof. done. Qed.

Lemma store_writes d pos cap bs :
  0 ≤ pos → pos + Zlen bs ≤ cap → cap ≤ Zlen d →
  ∃ d', store_range d pos bs = Ok d' ∧ writes pos cap d d' ∧ slice d' pos (Zlen bs) = bs.
Proof.
  intros Hpos Hcap Hd. pose proof (Zlen_nonneg bs). exists (splice d pos bs).
  split; [by apply store_range_Ok; lia|]. unfold writes.
  rewrite Zlen_splice by lia. split; [split_and!; [done|..]|].
  - apply list_eq. intros i. rewrite !lookup_slice by lia. case_decide; [|done].
    rewrite lookup_splice by lia. rewrite decide_False by lia. done.
  - apply list_eq. intros i. rewrite !lookup_slice by lia. case_decide; [|done].
    rewrite lookup_splice by lia. rewrite decide_False by lia. done.
  - apply list_eq. intros i. rewrite lookup_slice by lia. case_decide.
    + rewrite lookup_splice by lia. rewrite decide_True by lia. f_equal. lia.
    + symmetry. apply lookup_ge_None_2. unfold Zlen in *. lia.
Qed.

Lemma writes_step pos cap k d d1 d2 :
  0 ≤ pos → 0 ≤ k → writes pos cap d d1 → writes (pos + k) cap d1 d2 →
  writes pos cap d d2 ∧ slice d2 pos k = slice d1 pos k.
Proof.
  intros Hpos Hk (Hl1 & Hp1 & Hc1) (Hl2 & Hp2 & Hc2).
  rewrite !(slice_split_at _ 0 (pos + k) pos), Z.add_0_l in Hp2 by lia.
  replace (pos + k - pos) with k in Hp2 by lia.
  assert (slice d2 0 pos = slice d1 0 pos ∧ slice d2 pos k = slice d1 pos k) as [H1 H2].
  { apply app_inj_1; [|done]. unfold slice, Zlen in *. rewrite !length_take, !length_drop. lia. }
  split; [|done]. split_and!; [congruence|congruence|]. rewrite Hl1 in Hc2. congruence.
Qed.

Section rewriting.
Context (substring : list Z → list Z → Z → Z → option (list Z)) `{!PcreCopy substring}.
Context (name : list Z) (matches : Z * list Z) (cap : Z) (Hcap : cap < 2 ^ 31).

Definition rewritten (r : option (list Z)) (pos : Z) (d : list Z) (o : outcome (Z * list Z)) : Prop :=
  ∃ code d', o = Ok (code, d') ∧ writes pos cap d d' ∧
    match r with
    | Some s =>
        if pos + Zlen s <? cap then code = 1 ∧ slice d' pos (Zlen s + 1) = s ++ [0] else code = 0
    | None => code = 0
    end.

(** Storing [bs] and going on with the rest. *)
Lemma rewritten_step bs r pos d (k : list Z → outcome (Z * list Z)) z :
  0 ≤ pos → pos + Zlen bs + Zlen z ≤ cap → cap ≤ Zlen d →
  (∀ d', Zlen d' = Zlen d → rewritten r (pos + Zlen bs) d' (k d')) →
  rewritten (app bs <$> r) pos d (store_range d pos (bs ++ z) ≫= k).
Proof.
  intros Hpos Hb Hd Hk. pose proof (Zlen_nonneg bs). pose proof (Zlen_nonneg z).
  destruct (store_writes d pos cap (bs ++ z)) as (d1 & -> & Hw1 & Hs1); [rewrite ?Zlen_app; lia..|].
  outcome_simpl. destruct (Hk d1) as (code & d2 & -> & Hw2 & Hr); [apply Hw1|].
  destruct (writes_step pos cap (Zlen bs) d d1 d2) as [Hw Hs2]; [lia..|done|done|].
  exists code, d2. split; [done|]. split; [done|]. destruct r as [s|]; cbn [fmap option_fmap option_map];
    [|done].
  rewrite Zlen_app, Z.add_assoc. destruct (_ <? cap); [|done]. destruct Hr as [-> Hr]. split; [done|].
  pose proof (Zlen_nonneg s). rewrite <- Z.add_assoc, slice_split, Hr, Hs2 by lia.
  rewrite <- app_assoc. f_equal. rewrite Zlen_app in Hs1. rewrite slice_split in Hs1 by lia.
  apply app_inj_1 in Hs1 as [? _]; [done|]. unfold slice, Zlen in *.
  destruct Hw1 as (Hl1 & _). unfold Zlen in *. rewrite length_take, length_drop. lia.
Qed.

Lemma rewritten_stop r pos d :
  cap ≤ pos ∨ r = None → rewritten r pos d (Ok (0, d)).
Proof.
  intros H. exists 0, d. split; [done|]. split; [done|]. destruct r as [s|]; [|done].
  destruct H as [H|H]; [|done]. pose proof (Zlen_nonneg s). by rewrite (proj2 (Z.ltb_ge _ _)) by lia.
Qed.

Lemma rewritten_end pos d :
  0 ≤ pos ≤ cap → cap ≤ Zlen d →
  rewritten (Some []) pos d
    (if negb (cap - pos =? 0) then dst ← store_range d pos [0]; Ok (1, dst) else Ok (0, d)).
Proof.
  intros Hpos Hd. destruct (Z.eqb_spec (cap - pos) 0); cbn [negb]; [apply rewritten_stop; left; lia|].
  destruct (store_writes d pos cap [0]) as (d1 & -> & Hw & Hs);
    [lia|change (Zlen [0]) with 1; lia|lia|]. outcome_simpl.
  exists 1, d1. split; [done|]. split; [done|]. change (Zlen (@nil Z)) with 0.
  by rewrite (proj2 (Z.ltb_lt _ _)) by lia.
Qed.

Lemma rewritten_char c r pos d (k : list Z → outcome (Z * list Z)) :
  0 ≤ pos < cap → cap ≤ Zlen d →
  (∀ d', Zlen d' = Zlen d → rewritten r (pos + 1) d' (k d')) →
  rewritten (cons c <$> r) pos d (store_range d pos [c] ≫= k).
Proof.
  intros. apply (rewritten_step [c] r pos d k []); change (Zlen [c]) with 1; change (Zlen (@nil Z)) with 0; done || lia.
Qed.

Lemma apply_loop_spec src pos d :
  0 ≤ pos ≤ cap → cap ≤ Zlen d →
  rewritten (expand (substring name matches.2 matches.1) src) pos d
    (apply_loop name matches src d pos (cap - pos)).
Proof.
  remember (length src) as n eqn:Hn. revert src Hn pos d.
  induction n as [n IH] using lt_wf_ind. intros src -> pos d Hpos Hd.
  destruct src as [|c t]; [by apply rewritten_end|]. cbn [apply_loop expand].
  destruct (Z.ltb_spec 0 (cap - pos)) as [Hroom|Hroom]; cbn [negb].
  2: { rewrite (proj2 (Z.eqb_eq (cap - pos) 0)) by lia. apply rewritten_stop. left. lia. }
  rewrite (c_int_small (cap - pos - 1)) by lia. replace (cap - pos - 1) with (cap - (pos + 1)) by lia.
  destruct t as [|x u].
  { apply (rewritten_char c (Some [])); [lia..|]. intros d' Hd'. apply rewritten_end; lia. }
  destruct (c =? 36).
  2: { apply rewritten_char; [lia..|]. intros d' Hd'. eapply (IH (length (x :: u))); cbn; done || lia. }
  destruct ((48 <=? x) && (x <=? 57)).
  2: { apply rewritten_char; [lia..|]. intros d' Hd'. eapply (IH (length u)); cbn; done || lia. }
  match goal with |- rewritten ?r _ _ _ => replace r with (app [] <$> r) by (by destruct r) end.
  apply (rewritten_step [] _ pos d _ [0]);
    [lia|change (Zlen (@nil Z)) with 0; change (Zlen [0]) with 1; lia|lia|].
  intros d1 Hd1. change (Zlen (@nil Z)) with 0. rewrite Z.add_0_r.
  assert (∃ d2, store_range d1 pos [] = Ok d2 ∧ d2 = d1) as (? & Hnil & ->).
  { exists (splice d1 pos []). split; [|apply splice_nil].
    apply store_range_Ok; change (Zlen (@nil Z)) with 0; lia. }
  destruct (substring name matches.2 matches.1 (x - 48)) as [s|] eqn:Hs.
  - destruct (decide (Zlen s < cap - pos)) as [Hfit|Hbig].
    + rewrite (copy_substring_fits _ _ _ _ _ _ Hs Hfit). pose proof (Zlen_nonneg s).
      rewrite (proj2 (Z.ltb_ge (Zlen s) 0)) by lia. rewrite c_int_small by lia.
      replace (cap - pos - Zlen s) with (cap - (pos + Zlen s)) by lia.
      apply (rewritten_step s _ pos d1 _ [0]);
        [lia|change (Zlen [0]) with 1; lia|lia|]. intros d2 Hd2.
      eapply (IH (length u)); cbn; done || lia.
    + destruct (copy_substring_small name matches.2 matches.1 (x - 48) (cap - pos) s) as (code & Hc & ->);
        [done|lia|]. rewrite Hnil. outcome_simpl. rewrite (proj2 (Z.ltb_lt _ _)) by lia.
      destruct (expand _ u) as [r|]; [|apply rewritten_stop; by right].
      exists 0, d1. split; [done|]. split; [done|]. rewrite Zlen_app. pose proof (Zlen_nonneg r).
      by rewrite (proj2 (Z.ltb_ge _ _)) by lia.
  - destruct (copy_substring_none name matches.2 matches.1 (x - 48) (cap - pos)) as (code & Hc & ->); [done|].
    rewrite Hnil. outcome_simpl. rewrite (proj2 (Z.ltb_lt _ _)) by lia. apply rewritten_stop. by right.
Qed.
End rewriting.
End backend.

(** * Properties *)

(** C22: in a table whose expressions are all compiled, [lookup_backend] returns the first
    entry whose expression matches the requested name, with the vector of that match, and
    none when no entry matches; a missing name is looked up as the empty string. *)
Theorem lookup_backend_first_match {pcre} (pcre_exec : pcre → list Z → Z → Z * list Z)
    head name name_len :
  Forall initialised head →
  let n := default [] name in let l := match name with Some _ => name_len | None => 0 end in
  (∃ pre b post re, head = pre ++ b :: post ∧ Forall (λ b, ¬ accepts pcre_exec n l b) pre ∧
     pattern_re b = Some re ∧ 0 ≤ (pcre_exec re n l).1 ∧
     lookup_backend pcre_exec head name name_len = Ok (mkLookup (Some b) (pcre_exec re n l))) ∨
  (Forall (λ b, ¬ accepts pcre_exec n l b) head ∧
     ∃ m, lookup_backend pcre_exec head name name_len = Ok (mkLookup None m)).
Proof. intros Hinit. destruct name; by apply lookup_loop_spec. Qed.

(** C23: [apply_pattern] never writes past [result_len] (nor past 1024 bytes), and succeeds
    exactly when every group it names was matched and the expanded pattern with its
    terminator fits; the buffer then holds that text. *)
Theorem apply_pattern_expands pcre_copy_substring substring name pattern matches dst result_len :
  PcreCopy pcre_copy_substring substring → 0 ≤ result_len ≤ Zlen dst →
  let cap := Z.min 1024 result_len in
  ∃ code dst',
    apply_pattern pcre_copy_substring name pattern matches dst result_len = Ok (code, dst') ∧
    Zlen dst' = Zlen dst ∧ slice dst' cap (Zlen dst - cap) = slice dst cap (Zlen dst - cap) ∧
    match expand (substring name matches.2 matches.1) pattern with
    | Some s =>
        if Zlen s <? cap then code = 1 ∧ slice dst' 0 (Zlen s + 1) = s ++ [0] else code = 0
    | None => code = 0
    end.
Proof.
  intros Hcopy Hlen cap. unfold apply_pattern.
  destruct (apply_loop_spec pcre_copy_substring substring name matches cap ltac:(unfold cap; lia)
    pattern 0 dst ltac:(unfold cap; lia) ltac:(unfold cap; lia)) as (code & dst' & Heq & Hw & Hr).
  exists code, dst'. rewrite Z.sub_0_r in Heq.
  split; [|destruct Hw as (? & _ & ?); split_and!; done].
  rewrite <- Heq. f_equal. unfold cap. zcase.
Qed.

(** A request that reaches an entry whose expression did not compile aborts the
    process: the failure of [init_backend] is not reported to anyone. *)
Theorem lookup_uncompiled_asserts {pcre} pcre_compile (pcre_exec : pcre → list Z → Z → Z * list Z)
    pre b post name name_len p :
  Forall initialised pre → Forall (λ b, ¬ accepts pcre_exec name name_len b) pre →
  pattern b = Some p → pattern_re b = None → pcre_compile p = None →
  init_backend pcre_compile b = Ok (0, b) ∧
  lookup_backend pcre_exec (pre ++ b :: post) (Some name) name_len = Fault AssertionFailed.
Proof.
  intros Hinit Hno Hp Hre Hc. split; [unfold init_backend; by rewrite Hre, Hp, Hc|].
  unfold lookup_backend. generalize (-1, @nil Z). revert Hno.
  induction Hinit as [|b' pre [re Hre'] Hinit IH]; intros Hno m; cbn [app lookup_loop]; [by rewrite Hre|].
  inversion Hno as [|?? Hb Hpre]; subst. rewrite Hre'. rewrite (proj2 (Z.leb_gt _ _)); [by apply IH|].
  apply Z.nle_gt. intros ?. apply Hb. by exists re.
Qed.

(** * Witnesses *)

(** A toy engine: an expression is the prefix it accepts; group 1 is the rest. *)
Definition prefix_exec (re : list Z) (name : list Z) (len : Z) : Z * list Z :=
  if bool_decide (take (length re) name = re)
  then (2, [0; len; Zlen re; len]) else (-1, []).
Definition vector_group (name v : list Z) (count n : Z) : option (list Z) :=
  if (0 <=? n) && (n <? count) then
    i ← v !! Z.to_nat (2 * n); j ← v !! Z.to_nat (2 * n + 1); Some (slice name i (j - i))
  else None.
Definition vector_copy (name v : list Z) (count n size : Z) : Z * list Z :=
  match vector_group name v count n with
  | Some s => if Zlen s <? size then (Zlen s, s ++ [0]) else (-6, [])
  | None => (-7, [])
  end.

#[global] Instance vector_copy_ok : PcreCopy vector_copy vector_group.
Proof.
  constructor; unfold vector_copy.
  - intros name v count n size s -> H. by rewrite (proj2 (Z.ltb_lt _ _)).
  - intros name v count n size s -> H. exists (-6). rewrite (proj2 (Z.ltb_ge _ _)) by lia. done.
  - intros name v count n size ->. by exists (-7).
Qed.

Definition ex_backend (p : string) : Backend (list Z) :=
  mkBackend (Some (bytes p)) (Some (ex_in 443)) false (Some (bytes p)).

Lemma lookup_backend_first_match_witness :
  let head := [ex_backend "www."; ex_backend "api."] in
  (∃ pre b post re, head = pre ++ b :: post ∧
     Forall (λ b, ¬ accepts prefix_exec (bytes "api.example") 11 b) pre ∧
     pattern_re b = Some re ∧ 0 ≤ (prefix_exec re (bytes "api.example") 11).1 ∧
     lookup_backend prefix_exec head (Some (bytes "api.example")) 11 =
       Ok (mkLookup (Some b) (prefix_exec re (bytes "api.example") 11))) ∨
  (Forall (λ b, ¬ accepts prefix_exec (bytes "api.example") 11 b) head ∧
     ∃ m, lookup_backend prefix_exec head (Some (bytes "api.example")) 11 = Ok (mkLookup None m)).
Proof.
  apply (lookup_backend_first_match prefix_exec [ex_backend "www."; ex_backend "api."]
    (Some (bytes "api.example")) 11).
  do 2 (constructor; [by eexists|]). constructor.
Defined.

Lemma apply_pattern_expands_witness :
  let dst := replicate 64 7 in
  let matches := prefix_exec (bytes "www.") (bytes "www.example") 11 in
  ∃ code dst',
    apply_pattern vector_copy (bytes "www.example") (bytes "$1.internal") matches dst 32 =
      Ok (code, dst') ∧
    Zlen dst' = Zlen dst ∧ slice dst' 32 32 = slice dst 32 32 ∧
    code = 1 ∧ slice dst' 0 17 = bytes "example.internal" ++ [0].
Proof.
  apply (apply_pattern_expands vector_copy vector_group (bytes "www.example") (bytes "$1.internal")
    (prefix_exec (bytes "www.") (bytes "www.example") 11) (replicate 64 7) 32).
  - apply _.
  - by vm_compute.
Defined.

Lemma lookup_uncompiled_asserts_witness :
  let b : Backend (list Z) := mkBackend (Some (bytes "(")) (Some (ex_in 443)) false None in
  init_backend (λ _, None) b = Ok (0, b) ∧
  lookup_backend prefix_exec ([ex_backend "www."] ++ b :: []) (Some (bytes "api.example")) 11 =
    Fault AssertionFailed.
Proof.
  apply (lookup_uncompiled_asserts _ _ _ _ _ _ _ (bytes "(")).
  - constructor; [by eexists|constructor].
  - constructor; [|constructor]. intros (re & [= <-] & H). by vm_compute in H.
  - done.
  - done.
  - done.
Defined.
