(* ===== verification/Table.v ===== *)
(** Tables of backends (src/table.c): reference-counted objects in a store, linked into
    the list of a configuration, looked up by name and replaced when the configuration is
    reloaded. *)

From S2P Require Import Prelude CString RefCount Address Backend.
From stdpp Require Export list gmap.

#[local] Open Scope Z_scope.

(** * Data *)

Record Table (pcre : Type) := mkTable {
  tname             : option (list Z);   (* name *)
  tuse_proxy_header : bool;              (* use_proxy_header *)
  reference_count   : Z;
  backends          : list (Backend pcre)
}.
Arguments mkTable {pcre} _ _ _ _.
Arguments tname {pcre} _.
Arguments tuse_proxy_header {pcre} _.
Arguments reference_count {pcre} _.
Arguments backends {pcre} _.

Record LookupResult := mkLookupResult {
  raddress            : option Address;  (* address *)
  caller_free_address : bool;
  ruse_proxy_header   : bool;            (* use_proxy_header *)
  rmatches            : Z * list Z       (* matches *)
}.

Section table.
Context {pcre : Type}.
Local Abbreviation store := (gmap loc (Table pcre)).

Context (pcre_compile : list Z → option pcre).
Context (pcre_exec : pcre → list Z → Z → Z * list Z).
Context (inet_ntop : Z → list Z → list Z).
Context (malloc : Z → bool).

Definition set_refs (n : Z) (t : Table pcre) : Table pcre :=
  mkTable (tname t) (tuse_proxy_header t) n (backends t).
Definition set_backends (bs : list (Backend pcre)) (t : Table pcre) : Table pcre :=
  mkTable (tname t) (tuse_proxy_header t) (reference_count t) bs.

(** * Reference counting *)

Definition new_table (h : store) : option (loc * store) :=
  if malloc 56 then
    let l := fresh (dom h) in Some (l, <[l := mkTable None false 0 []]> h)
  else None.

(** [free_table]: the backends are released with their table. *)
Definition free_table (h : store) (l : loc) : store := delete l h.

Definition table_ref_put (h : store) (l : option loc) : outcome store :=
  match l with
  | None => Ok h
  | Some l =>
      t ← deref h l;
      c_assert (0 <? reference_count t) ≫= λ _,
      let n := reference_count t - 1 in
      let h := <[l := set_refs n t]> h in
      Ok (if n =? 0 then free_table h l else h)
  end.

Definition table_ref_get (h : store) (l : loc) : outcome store :=
  t ← deref h l; Ok (<[l := set_refs (reference_count t + 1) t]> h).

(** * Configuration *)

Definition accept_table_arg (t : Table pcre) (arg : list Z) : Z * Table pcre :=
  match tname t with
  | None =>
      if malloc (Zlen arg + 1)
      then (1, mkTable (Some arg) (tuse_proxy_header t) (reference_count t) (backends t))
      else (-1, t)
  | Some _ => (-1, t)
  end.

Definition add_table (h : store) (tables : list loc) (l : loc) : outcome (store * list loc) :=
  h ← table_ref_get h l; Ok (h, l :: tables).

Fixpoint init_backends (bs : list (Backend pcre)) : outcome (list (Backend pcre)) :=
  match bs with
  | [] => Ok []
  | b :: bs' => '(_, b) ← init_backend pcre_compile b; bs' ← init_backends bs'; Ok (b :: bs')
  end.

Definition init_table (h : store) (l : loc) : outcome store :=
  t ← deref h l; bs ← init_backends (backends t); Ok (<[l := set_backends bs t]> h).

Fixpoint free_tables (h : store) (tables : list loc) : outcome store :=
  match tables with
  | [] => Ok h
  | l :: tables' => h ← table_ref_put h (Some l); free_tables h tables'
  end.

Definition same_name (a b : option (list Z)) : bool :=
  match a, b with
  | None, None => true
  | Some x, Some y => strcmp_eq x y
  | _, _ => false
  end.

Fixpoint table_lookup (h : store) (tables : list loc) (name : option (list Z))
    : outcome (option loc) :=
  match tables with
  | [] => Ok None
  | l :: tables' =>
      t ← deref h l;
      if same_name (tname t) name then Ok (Some l) else table_lookup h tables' name
  end.

Definition remove_table (h : store) (tables : list loc) (l : loc) : outcome (store * list loc) :=
  tables ← slist_remove tables l; h ← table_ref_put h (Some l); Ok (h, tables).

(** * Lookup of a name *)

Definition table_lookup_server_address (t : Table pcre) (name : option (list Z)) (name_len : Z)
    : outcome LookupResult :=
  b ← lookup_backend pcre_exec (backends t) name name_len;
  match backend b with
  | None => Ok (mkLookupResult None false false (0, []))
  | Some be => Ok (mkLookupResult (address be) false (use_proxy_header be) (bmatches b))
  end.

(** * Reload *)

(** First loop: unused tables at the beginning of the list. *)
Fixpoint drop_unused_head (h : store) (tables new_tables : list loc)
    : outcome (store * list loc) :=
  match tables with
  | [] => Ok (h, [])
  | l :: tables' =>
      t ← deref h l;
      found ← table_lookup h new_tables (tname t);
      match found with
      | None => h ← table_ref_put h (Some l); drop_unused_head h tables' new_tables
      | Some _ => Ok (h, tables)
      end
  end.

(** Second loop: the iterator stands on the first element of [tables]. *)
Fixpoint drop_unused_next (h : store) (tables new_tables : list loc) {struct tables}
    : outcome (store * list loc) :=
  match tables with
  | [] => Ok (h, [])
  | iter :: rest =>
      match rest with
      | [] => Ok (h, [iter])
      | temp :: rest' =>
          t ← deref h temp;
          found ← table_lookup h new_tables (tname t);
          match found with
          | None =>
              h ← table_ref_put h (Some temp);
              '(h, rest') ← drop_unused_next h rest' new_tables; Ok (h, iter :: rest')
          | Some _ => '(h, rest) ← drop_unused_next h rest new_tables; Ok (h, iter :: rest)
          end
      end
  end.

(** One round of the third loop. *)
Definition reload_table (h : store) (tables : list loc) (iter : loc) : outcome (store * list loc) :=
  h ← init_table h iter;
  new ← deref h iter;
  existing ← table_lookup h tables (tname new);
  '(h, tables) ← match existing with
    | Some e =>
        old ← deref h e;
        let temp := backends old in
        let h := <[e := set_backends (backends new) old]> h in
        new ← deref h iter;
        Ok (<[iter := set_backends temp new]> h, tables)
    | None => add_table h tables iter
    end;
  h ← table_ref_put h (Some iter);
  Ok (h, tables).

Fixpoint reload_loop (h : store) (tables new_tables : list loc) : outcome (store * list loc) :=
  match new_tables with
  | [] => Ok (h, tables)
  | iter :: new_tables' =>
      '(h, tables) ← reload_table h tables iter; reload_loop h tables new_tables'
  end.

(** The list of the new configuration is empty afterwards. *)
Definition reload_tables (h : store) (tables new_tables : list loc) : outcome (store * list loc) :=
  '(h, tables) ← drop_unused_head h tables new_tables;
  '(h, tables) ← drop_unused_next h tables new_tables;
  reload_loop h tables new_tables.

(** * Output *)

Fixpoint print_backends (bs : list (Backend pcre)) : outcome (list Z) :=
  match bs with
  | [] => Ok []
  | b :: bs' => s ← print_backend_config inet_ntop b; r ← print_backends bs'; Ok (s ++ r)
  end.

Definition print_table_config (t : Table pcre) : outcome (list Z) :=
  s ← print_backends (backends t);
  Ok (match tname t with
      | None => bytes "table {" ++ [10]
      | Some n => bytes "table " ++ n ++ bytes " {" ++ [10]
      end ++ s ++ bytes "}" ++ [10; 10]).

(** * Linked tables *)

(** The tables of a list are allocated and referenced. *)
Definition live (h : store) (l : loc) : Prop := ∃ t, h !! l = Some t ∧ 0 < reference_count t.

Definition named (h : store) (l : loc) (n : option (list Z)) : Prop :=
  ∃ t, h !! l = Some t ∧ tname t = n.

(** A list of a configuration: distinct live tables with distinct names. *)
Record linked (h : store) (ts : list loc) : Prop := {
  linked_nodup : NoDup ts;
  linked_live l : l ∈ ts → live h l;
  linked_names l1 l2 n : l1 ∈ ts → l2 ∈ ts → named h l1 n → named h l2 n → l1 = l2
}.

Lemma same_name_true a b : same_name a b = true ↔ a = b.
Proof.
  destruct a, b; cbn; try done. unfold strcmp_eq. rewrite bool_decide_eq_true. split; congruence.
Qed.

Lemma table_lookup_total h ts n :
  (∀ l, l ∈ ts → live h l) →
  ∃ o, table_lookup h ts n = Ok o ∧
       match o with
       | Some l => l ∈ ts ∧ named h l n
       | None => ∀ l, l ∈ ts → ¬ named h l n
       end.
Proof.
  induction ts as [|l ts IH]; intros Hlive.
  { exists None. split; [done|]. intros l Hl. by apply elem_of_nil in Hl. }
  destruct (Hlive l) as (t & Ht & _); [left|]. cbn [table_lookup]. unfold deref. rewrite Ht. outcome_simpl.
  destruct (same_name (tname t) n) eqn:Hn.
  { exists (Some l). split; [done|]. split; [left|]. exists t. by apply same_name_true in Hn. }
  destruct IH as (o & -> & Ho); [intros; apply Hlive; by right|]. exists o. split; [done|].
  destruct o as [l'|]; [destruct Ho; split; [by right|done]|].
  intros l' [->|Hl']%elem_of_cons; [|by apply Ho]. intros (t' & Ht' & <-). simplify_eq.
  by rewrite (proj2 (same_name_true _ _)) in Hn.
Qed.

Lemma table_lookup_found h ts l n :
  linked h ts → l ∈ ts → named h l n → table_lookup h ts n = Ok (Some l).
Proof.
  intros Hlink Hl Hn. destruct (table_lookup_total h ts n) as (o & -> & Ho); [apply Hlink|].
  destruct o as [l'|]; [|by destruct (Ho l)]. destruct Ho as [Hl' Hn'].
  by rewrite (linked_names _ _ Hlink l' l n).
Qed.

Lemma table_ref_put_live h l :
  live h l → ∃ h', table_ref_put h (Some l) = Ok h' ∧ ∀ l', l' ≠ l → h' !! l' = h !! l'.
Proof.
  intros (t & Ht & Hrc). unfold table_ref_put, deref. rewrite Ht. outcome_simpl. cassert. outcome_simpl.
  eexists. split; [done|]. intros l' Hl'. unfold free_table.
  destruct (_ =? 0); rewrite ?lookup_delete_ne, lookup_insert_ne by done; done.
Qed.

(** ** Dropping unused tables *)

Definition wanted (h : store) (new : list loc) (l : loc) : Prop :=
  ∃ l' n, l' ∈ new ∧ named h l n ∧ named h l' n.

Lemma wanted_not_found h new l t :
  h !! l = Some t → (∀ l', l' ∈ new → ¬ named h l' (tname t)) → ¬ wanted h new l.
Proof. intros Ht Hno (l' & n & Hl' & (t' & Ht' & <-) & Hn). simplify_eq. by apply (Hno l'). Qed.

(** [h'], [ts'] are what is left of [h], [ts] when only tables of [ts] were dropped and
    none of the wanted ones. *)
Record dropped (h : store) (new ts : list loc) (h' : store) (ts' : list loc) : Prop := {
  dropped_sub : sublist ts' ts;
  dropped_frame l : (l ∉ ts) ∨ l ∈ ts' → h' !! l = h !! l;
  dropped_wanted l : l ∈ ts → wanted h new l → l ∈ ts'
}.

Lemma dropped_refl h new ts : dropped h new ts h ts.
Proof. by constructor. Qed.

Lemma wanted_frame h h' new l :
  h' !! l = h !! l → (∀ l, l ∈ new → h' !! l = h !! l) → wanted h new l → wanted h' new l.
Proof.
  intros Hl Hnew (l' & n & Hl' & (t & Ht & Hn) & (t' & Ht' & Hn')). exists l', n. split; [done|].
  split; [exists t; by rewrite Hl|exists t'; by rewrite Hnew].
Qed.

(** Dropping one unwanted table and then others. *)
Lemma dropped_cons h new l ts h1 h' ts' :
  NoDup (l :: ts) → (∀ x, x ∈ new → x ∉ l :: ts) →
  (∀ l', l' ≠ l → h1 !! l' = h !! l') → ¬ wanted h new l →
  dropped h1 new ts h' ts' → dropped h new (l :: ts) h' ts'.
Proof.
  intros [Hl Hnd]%NoDup_cons Hnew Hh1 Hno [Hsub Hframe Hw]. constructor.
  - by constructor.
  - intros l' [Hl'|Hl'].
    + apply not_elem_of_cons in Hl' as [? ?]. rewrite Hframe by by left. by apply Hh1.
    + rewrite Hframe by by right. apply Hh1. intros ->. apply Hl. by eapply elem_of_sublist.
  - intros l' [->|Hl']%elem_of_cons Hwant; [done|]. apply Hw; [done|].
    apply (wanted_frame h); [|intros x Hx|done]; apply Hh1; [by intros ->|].
    intros ->. apply (Hnew l Hx). left.
Qed.

Lemma dropped_keep h new l ts h' ts' :
  (l ∉ ts) → dropped h new ts h' ts' → dropped h new (l :: ts) h' (l :: ts').
Proof.
  intros Hl [Hsub Hframe Hw]. constructor.
  - by constructor.
  - intros x [Hx|Hx].
    + apply not_elem_of_cons in Hx as [_ Hx]. apply Hframe. by left.
    + apply elem_of_cons in Hx as [->|Hx]; apply Hframe; [by left|by right].
  - intros x [->|Hx]%elem_of_cons Hwant; [left|right; by apply Hw].
Qed.

Lemma live_frame h h' l : h' !! l = h !! l → live h l → live h' l.
Proof. unfold live. by intros ->. Qed.

(** The state in which the two dropping loops run. *)
Definition separate (h : store) (ts new : list loc) : Prop :=
  NoDup ts ∧ (∀ l, l ∈ ts ∨ l ∈ new → live h l) ∧ (∀ l, l ∈ new → l ∉ ts).

Lemma separate_drop h h1 l ts new :
  separate h (l :: ts) new → (∀ l', l' ≠ l → h1 !! l' = h !! l') → separate h1 ts new.
Proof.
  intros ([Hl Hnd]%NoDup_cons & Hlive & Hdis) Hh1. split_and!; [done| |].
  - intros x Hx. apply (live_frame h); [|apply Hlive; destruct Hx; [left; by right|by right]].
    apply Hh1. intros ->. destruct Hx as [?|Hx]; [done|]. apply (Hdis l Hx). left.
  - intros x Hx Hin. apply (Hdis x Hx). by right.
Qed.

Lemma separate_tail h l ts new : separate h (l :: ts) new → separate h ts new.
Proof. intros. by eapply separate_drop. Qed.

Lemma drop_unused_head_spec h ts new :
  separate h ts new →
  ∃ h' ts', drop_unused_head h ts new = Ok (h', ts') ∧ dropped h new ts h' ts'.
Proof.
  revert h. induction ts as [|l ts IH]; intros h Hsep.
  { exists h, []. split; [done|apply dropped_refl]. }
  pose proof Hsep as (Hnd & Hlive & Hdis). destruct (Hlive l) as (t & Ht & Hrc); [left; left|].
  cbn [drop_unused_head]. unfold deref. rewrite Ht. outcome_simpl.
  destruct (table_lookup_total h new (tname t)) as (o & -> & Ho); [intros; apply Hlive; by right|].
  outcome_simpl. destruct o as [l'|]; [by exists h, (l :: ts); split; [|apply dropped_refl]|].
  destruct (table_ref_put_live h l) as (h1 & -> & Hh1); [by exists t|]. outcome_simpl.
  destruct (IH h1) as (h' & ts' & -> & Hd); [by eapply separate_drop|]. exists h', ts'. split; [done|].
  eapply dropped_cons; [done|done|done| |done]. by eapply wanted_not_found.
Qed.

Lemma drop_unused_next_cons h iter temp rest new :
  drop_unused_next h (iter :: temp :: rest) new =
    t ← deref h temp;
    found ← table_lookup h new (tname t);
    match found with
    | None =>
        h ← table_ref_put h (Some temp);
        '(h, rest') ← drop_unused_next h rest new; Ok (h, iter :: rest')
    | Some _ => '(h, rest) ← drop_unused_next h (temp :: rest) new; Ok (h, iter :: rest)
    end.
Proof. done. Qed.

Lemma drop_unused_next_spec h ts new :
  separate h ts new →
  ∃ h' ts', drop_unused_next h ts new = Ok (h', ts') ∧ dropped h new ts h' ts'.
Proof.
  remember (length ts) as n eqn:Hn. revert ts Hn h. induction n as [n IH] using lt_wf_ind.
  intros [|iter [|temp rest]] -> h Hsep.
  { exists h, []. split; [done|apply dropped_refl]. }
  { exists h, [iter]. split; [done|apply dropped_refl]. }
  pose proof Hsep as (Hnd & Hlive & Hdis). pose proof (separate_tail _ _ _ _ Hsep) as Hsep'.
  apply NoDup_cons in Hnd as [Hiter Hnd].
  destruct (Hlive temp) as (t & Ht & Hrc); [left; right; left|].
  rewrite drop_unused_next_cons. unfold deref. rewrite Ht. outcome_simpl.
  destruct (table_lookup_total h new (tname t)) as (o & -> & Ho); [intros; apply Hlive; by right|].
  outcome_simpl. destruct o as [l'|].
  - destruct (IH (length (temp :: rest)) ltac:(cbn; lia) _ eq_refl h Hsep') as (h' & ts' & -> & Hd).
    outcome_simpl. exists h', (iter :: ts'). split; [done|]. by apply dropped_keep.
  - destruct (table_ref_put_live h temp) as (h1 & -> & Hh1); [by exists t|]. outcome_simpl.
    destruct (IH (length rest) ltac:(cbn; lia) _ eq_refl h1) as (h' & ts' & -> & Hd);
      [by eapply separate_drop|]. outcome_simpl.
    exists h', (iter :: ts'). split; [done|]. apply dropped_keep; [done|].
    eapply dropped_cons; [done|intros x Hx Hin; apply (Hdis x Hx); by right|done| |done].
    by eapply wanted_not_found.
Qed.

(** What dropping leaves is linked, keeps the wanted tables, and does not change the new
    ones. *)
Lemma dropped_linked h new ts h' ts' :
  dropped h new ts h' ts' → (∀ l, l ∈ new → l ∉ ts) → linked h ts → linked h new →
  linked h' ts' ∧ linked h' new ∧ (∀ l, l ∈ new → l ∉ ts') ∧
  (∀ l, l ∈ new ∨ l ∈ ts' → h' !! l = h !! l) ∧ (∀ l, l ∈ ts → wanted h new l → l ∈ ts').
Proof.
  intros [Hsub Hframe Hw] Hdis Hts Hnew.
  assert (∀ l, l ∈ ts' → l ∈ ts) as Hin by (intros; by eapply elem_of_sublist).
  assert (∀ l, l ∈ new ∨ l ∈ ts' → h' !! l = h !! l) as F.
  { intros l [Hl|Hl]; apply Hframe; [left; by apply Hdis|by right]. }
  assert (∀ l n, l ∈ new ∨ l ∈ ts' → named h' l n → named h l n) as N.
  { intros l n Hl (t & Ht & Hn). exists t. by rewrite <- F. }
  split_and!.
  - constructor; [eapply sublist_NoDup; [apply Hts|done]| |].
    + intros l Hl. eapply live_frame; [apply F; by right|]. apply Hts. auto.
    + intros l1 l2 n H1 H2 N1 N2. apply (linked_names _ _ Hts l1 l2 n); auto.
  - constructor; [apply Hnew| |].
    + intros l Hl. eapply live_frame; [apply F; by left|]. by apply Hnew.
    + intros l1 l2 n H1 H2 N1 N2. apply (linked_names _ _ Hnew l1 l2 n); auto.
  - intros l Hl Hl'. apply (Hdis l Hl). auto.
  - done.
  - done.
Qed.

(** ** Taking over the new tables *)

(** The table [l] of the list has the name and the backends. *)
Definition serves (h : store) (ts : list loc) (n : option (list Z)) (bs : list (Backend pcre))
    (l : loc) : Prop :=
  l ∈ ts ∧ ∃ t, h !! l = Some t ∧ tname t = n ∧ backends t = bs.

Lemma named_frame h h' l n : (tname <$> h' !! l = tname <$> h !! l) → named h l n ↔ named h' l n.
Proof.
  intros Heq. split; intros (t & Ht & Hn); rewrite Ht in Heq; cbn in Heq.
  - apply fmap_Some in Heq as (t' & Ht' & Heq). exists t'. by rewrite Ht', <- Hn.
  - symmetry in Heq. apply fmap_Some in Heq as (t' & Ht' & Heq). exists t'. by rewrite Ht', <- Hn.
Qed.

(** Changing contents but not names of live tables keeps a list linked. *)
Lemma linked_frame h h' ts :
  (∀ l, l ∈ ts → tname <$> h' !! l = tname <$> h !! l) → (∀ l, l ∈ ts → live h' l) →
  linked h ts → linked h' ts.
Proof.
  intros Hname Hlive [Hnd _ Hnames]. constructor; [done|done|].
  intros l1 l2 n H1 H2 N1 N2. apply (Hnames l1 l2 n); [done|done|..];
    by eapply named_frame; [apply Hname|].
Qed.

Record reloaded (h : store) (ts : list loc) (iter : loc) (n : option (list Z))
    (bs : list (Backend pcre)) (h' : store) (ts' : list loc) : Prop := {
  reloaded_linked : linked h' ts';
  reloaded_serves : ∃ l, serves h' ts' n bs l ∧ (∀ e, e ∈ ts → named h e n → l = e);
  reloaded_frame x : (x ∉ ts) → x ≠ iter → h' !! x = h !! x;
  reloaded_from x : x ∈ ts' → x ∈ ts ∨ x = iter;
  reloaded_keeps x : x ∈ ts → x ∈ ts' ∧ (∀ m, named h x m → named h' x m);
  reloaded_others x m bs' : m ≠ n → serves h ts m bs' x → serves h' ts' m bs' x
}.

(** The two ways a new table is taken over. *)
Lemma reloaded_swap h ts iter n bs h' e old :
  linked h ts → (iter ∉ ts) → e ∈ ts → h !! e = Some old → tname old = n →
  h' !! e = Some (set_backends bs old) → (∀ x, x ≠ e → x ≠ iter → h' !! x = h !! x) →
  reloaded h ts iter n bs h' ts.
Proof.
  intros Hlink Hiter He Hold Hn Hh' Hframe.
  assert (∀ x, x ∈ ts → x ≠ iter) as Hne by (by intros x Hx ->).
  assert (∀ x, x ∈ ts → tname <$> h' !! x = tname <$> h !! x) as Hnames.
  { intros x Hx. destruct (decide (x = e)) as [->|]; [by rewrite Hh', Hold|]. rewrite Hframe; auto. }
  constructor.
  - apply (linked_frame h); [done| |done]. intros x Hx. destruct (linked_live _ _ Hlink x Hx) as (t & Ht & Hrc).
    destruct (decide (x = e)) as [->|]; [|exists t; rewrite Hframe; auto].
    exists (set_backends bs old). simplify_eq. done.
  - exists e. split; [split; [done|]; by eexists|]. intros e' He' He'n.
    apply (linked_names _ _ Hlink e e' n); [done|done| |done]. by exists old.
  - intros x Hx Hxi. apply Hframe; [by intros ->|done].
  - auto.
  - intros x Hx. split; [done|]. intros m Hm. eapply named_frame; [|exact Hm]. by symmetry; apply Hnames.
  - intros x m bs' Hm [Hx (t & Ht & Htn & Hbs)]. split; [done|]. exists t.
    rewrite Hframe; [done| |by apply Hne]. intros ->. simplify_eq.
Qed.

Lemma reloaded_add h ts iter n bs h' t' :
  linked h ts → (iter ∉ ts) → (∀ l, l ∈ ts → ¬ named h l n) →
  h' !! iter = Some t' → tname t' = n → backends t' = bs → 0 < reference_count t' →
  (∀ x, x ≠ iter → h' !! x = h !! x) →
  reloaded h ts iter n bs h' (iter :: ts).
Proof.
  intros Hlink Hiter Hno Hh' Hn Hbs Hrc Hframe.
  assert (∀ x, x ∈ ts → h' !! x = h !! x) as Hts by (intros x Hx; apply Hframe; by intros ->).
  assert (∀ x m, x ∈ ts → named h' x m → named h x m) as Hback.
  { intros x m Hx (t & Ht & ?). exists t. by rewrite <- Hts. }
  assert (named h' iter n) as Hnamed by by exists t'.
  constructor.
  - constructor.
    + constructor; [done|apply Hlink].
    + intros x [->|Hx]%elem_of_cons; [by exists t'|].
      eapply live_frame; [by apply Hts|by apply Hlink].
    + assert (∀ x m, x ∈ ts → named h' x m → named h' iter m → False) as Hclash.
      { intros x m Hx Hxm (t & Ht & Htm). simplify_eq. by apply (Hno x Hx), Hback. }
      intros l1 l2 m [->|H1]%elem_of_cons [->|H2]%elem_of_cons N1 N2; [done| | |].
      * by destruct (Hclash l2 m).
      * by destruct (Hclash l1 m).
      * apply (linked_names _ _ Hlink l1 l2 m); auto.
  - exists iter. split; [split; [left|by exists t']|]. intros e He Hen. by destruct (Hno e).
  - intros x _ Hx. by apply Hframe.
  - intros x [->|Hx]%elem_of_cons; auto.
  - intros x Hx. split; [by right|]. intros m (t & Ht & ?). exists t. by rewrite Hts.
  - intros x m bs' Hm [Hx (t & Ht & ?)]. split; [by right|]. exists t. by rewrite Hts.
Qed.

Lemma reload_table_spec h ts iter t bs :
  linked h ts → (iter ∉ ts) → h !! iter = Some t → 0 < reference_count t →
  init_backends (backends t) = Ok bs →
  ∃ h' ts', reload_table h ts iter = Ok (h', ts') ∧ reloaded h ts iter (tname t) bs h' ts'.
Proof.
  intros Hlink Hiter Ht Hrc Hbs. unfold reload_table, init_table, deref. rewrite Ht. outcome_simpl.
  rewrite Hbs. outcome_simpl. rewrite lookup_insert_eq. outcome_simpl.
  set (h1 := <[iter := _]> h). cbn [tname set_backends backends].
  assert (∀ x, x ≠ iter → h1 !! x = h !! x) as H1 by (intros; by apply lookup_insert_ne).
  assert (h1 !! iter = Some (set_backends bs t)) as Hi1 by apply lookup_insert_eq.
  destruct (table_lookup_total h1 ts (tname t)) as (o & -> & Ho).
  { intros l Hl. eapply live_frame; [apply H1; by intros ->|by apply Hlink]. }
  outcome_simpl. destruct o as [e|].
  - destruct Ho as [He (old & Hold & Hn)]. assert (e ≠ iter) as Hne by by intros ->.
    rewrite Hold. outcome_simpl. rewrite lookup_insert_ne by done.
    rewrite Hi1. outcome_simpl.
    set (h3 := <[iter := _]> (<[e := _]> h1)).
    destruct (table_ref_put_live h3 iter) as (h' & -> & Hh').
    { eexists. unfold h3. rewrite lookup_insert_eq. split; [done|]. done. }
    outcome_simpl. exists h', ts. split; [done|]. rewrite H1 in Hold by done.
    apply reloaded_swap with (e := e) (old := old); try done.
    + rewrite Hh' by done. unfold h3. rewrite lookup_insert_ne, lookup_insert_eq by done. done.
    + intros x Hx Hxi. rewrite Hh' by done. unfold h3.
      rewrite !lookup_insert_ne by done. by apply H1.
  - unfold add_table, table_ref_get, table_ref_put, deref. rewrite Hi1.
    outcome_simpl. rewrite lookup_insert_eq. outcome_simpl. cbn [reference_count set_refs set_backends].
    cassert. outcome_simpl. rewrite (proj2 (Z.eqb_neq _ _)) by lia.
    eexists _, (iter :: ts). split; [done|].
    eapply reloaded_add; [done|done| |by rewrite lookup_insert_eq|done|done|cbn; lia|].
    + intros l Hl (t' & Ht' & Hn). apply (Ho l Hl). exists t'. rewrite H1; [done|by intros ->].
    + intros x Hx. rewrite !lookup_insert_ne by done. by apply H1.
Qed.

Lemma init_backends_Ok bs :
  Forall (λ b, pattern b ≠ None) bs → ∃ bs', init_backends bs = Ok bs'.
Proof.
  induction 1 as [|b bs Hb _ (bs' & IH)]; [by exists []|]. cbn [init_backends].
  assert (∃ r, init_backend pcre_compile b = Ok r) as ([c b'] & ->).
  { unfold init_backend. destruct (pattern_re b); [by eexists|]. destruct (pattern b) as [p|]; [|done].
    destruct (pcre_compile p); by eexists. }
  outcome_simpl. rewrite IH. by eexists.
Qed.

(** Every table of the new list, with its initialised backends. *)
Definition provides (h : store) (new : list loc) (n : option (list Z)) (bs : list (Backend pcre)) : Prop :=
  ∃ l t, l ∈ new ∧ h !! l = Some t ∧ tname t = n ∧ init_backends (backends t) = Ok bs.

Lemma reload_loop_spec h ts new :
  linked h ts → linked h new → (∀ l, l ∈ new → l ∉ ts) →
  (∀ l t, l ∈ new → h !! l = Some t → ∃ bs, init_backends (backends t) = Ok bs) →
  ∃ h' ts', reload_loop h ts new = Ok (h', ts') ∧ linked h' ts' ∧
    (∀ n bs, provides h new n bs →
       ∃ l, serves h' ts' n bs l ∧ (∀ e, e ∈ ts → named h e n → l = e)) ∧
    (∀ n bs l, serves h ts n bs l → (∀ l', l' ∈ new → ¬ named h l' n) → serves h' ts' n bs l).
Proof.
  revert h ts. induction new as [|iter new IH]; intros h ts Hts Hnew Hdis Hinit.
  { exists h, ts. split_and!; [done|done| |by auto].
    intros n bs (l & t & Hl & _). by apply elem_of_nil in Hl. }
  pose proof (linked_nodup _ _ Hnew) as [Hiter Hnd]%NoDup_cons.
  destruct (linked_live _ _ Hnew iter) as (t & Ht & Hrc); [left|].
  destruct (Hinit iter t) as (bs & Hbs); [left|done|].
  destruct (reload_table_spec h ts iter t bs) as (h1 & ts1 & Heq & Hr); [done|apply Hdis; left|done..|].
  cbn [reload_loop]. rewrite Heq. outcome_simpl.
  assert (∀ l, l ∈ new → h1 !! l = h !! l) as Hframe.
  { intros l Hl. apply (reloaded_frame _ _ _ _ _ _ _ Hr); [apply Hdis; by right|by intros ->]. }
  assert (∀ l, l ∈ new → ¬ named h l (tname t)) as Hclash.
  { intros l Hl Hn. apply Hiter. rewrite (linked_names _ _ Hnew iter l (tname t)); [done|left|by right| |done].
    by exists t. }
  assert (∀ l m, l ∈ new → named h1 l m ↔ named h l m) as Hnamed.
  { intros l m Hl. unfold named. by rewrite Hframe. }
  destruct (IH h1 ts1) as (h' & ts' & -> & Hlink & Hserve & Hkeep).
  - apply Hr.
  - constructor; [done| |].
    + intros l Hl. eapply live_frame; [by apply Hframe|]. apply (linked_live _ _ Hnew). by right.
    + intros l1 l2 m H1 H2. rewrite !Hnamed by done. intros. apply (linked_names _ _ Hnew l1 l2 m); (by right) || done.
  - intros l Hl Hin. apply (reloaded_from _ _ _ _ _ _ _ Hr) in Hin as [Hin| ->]; [|done].
    apply (Hdis l); [by right|done].
  - intros l t' Hl Ht'. rewrite Hframe in Ht' by done. apply (Hinit l t'); [by right|done].
  - exists h', ts'. split_and!; [done|done| |].
    + intros n bs' (l & t' & [->|Hl]%elem_of_cons & Ht' & Hn & Hbs').
      * simplify_eq. rewrite Hbs in Hbs'. injection Hbs' as <-.
        destruct (reloaded_serves _ _ _ _ _ _ _ Hr) as (l & Hl & Hu). exists l.
        split; [|done]. apply Hkeep; [done|]. intros l' Hl'. rewrite Hnamed by done. by apply Hclash.
      * destruct (Hserve n bs') as (x & Hx & Hu).
        { exists l, t'. rewrite Hframe by done. done. }
        exists x. split; [done|]. intros e He Hen.
        apply (reloaded_keeps _ _ _ _ _ _ _ Hr) in He as [He Hname]. apply Hu; [done|by apply Hname].
    + intros n bs' l Hl Hno. apply Hkeep.
      * apply (reloaded_others _ _ _ _ _ _ _ Hr); [|done]. intros ->. apply (Hno iter); [left|]. by exists t.
      * intros l' Hl'. rewrite Hnamed by done. apply Hno. by right.
Qed.
End table.

(** * Properties *)

(** C24: reloading replaces the tables in place.  From well-linked lists it touches no freed
    table and trips no assertion; afterwards the lookup of every name of the new
    configuration finds a table with exactly the new, compiled backends, and a table of
    that name that existed before is the one found, so that the listeners and connections
    that refer to it see the new backends. *)
Theorem reload_tables_installs {pcre} (pcre_compile : list Z → option pcre) h tables new_tables :
  linked h tables → linked h new_tables → (∀ l, l ∈ new_tables → l ∉ tables) →
  (∀ l t, l ∈ new_tables → h !! l = Some t → Forall (λ b, pattern b ≠ None) (backends t)) →
  ∃ h' tables',
    reload_tables pcre_compile h tables new_tables = Ok (h', tables') ∧ linked h' tables' ∧
    ∀ n bs, provides pcre_compile h new_tables n bs →
      ∃ l t, table_lookup h' tables' n = Ok (Some l) ∧ h' !! l = Some t ∧ backends t = bs ∧
             ∀ e, e ∈ tables → named h e n → l = e.
Proof.
  intros Hts Hnew Hdis Hpat. unfold reload_tables.
  assert (separate h tables new_tables) as Hsep.
  { split_and!; [apply Hts| |done]. intros l [Hl|Hl]; [by apply Hts|by apply Hnew]. }
  destruct (drop_unused_head_spec h tables new_tables Hsep) as (h1 & ts1 & -> & D1). outcome_simpl.
  destruct (dropped_linked _ _ _ _ _ D1 Hdis Hts Hnew) as (Hts1 & Hnew1 & Hdis1 & F1 & W1).
  assert (separate h1 ts1 new_tables) as Hsep1.
  { split_and!; [apply Hts1| |done]. intros l [Hl|Hl]; [by apply Hts1|by apply Hnew1]. }
  destruct (drop_unused_next_spec h1 ts1 new_tables Hsep1) as (h2 & ts2 & -> & D2). outcome_simpl.
  destruct (dropped_linked _ _ _ _ _ D2 Hdis1 Hts1 Hnew1) as (Hts2 & Hnew2 & Hdis2 & F2 & W2).
  assert (∀ l, l ∈ new_tables → h2 !! l = h !! l) as F.
  { intros l Hl. rewrite F2, F1; auto. }
  destruct (reload_loop_spec pcre_compile h2 ts2 new_tables) as (h' & ts' & -> & Hlink & Hserve & _); try done.
  { intros l t Hl. rewrite F by done. intros Ht. by eapply init_backends_Ok, Hpat. }
  exists h', ts'. split_and!; [done|done|]. intros n bs (l & t & Hl & Ht & Hn & Hbs).
  destruct (Hserve n bs) as (x & [Hx (t' & Ht' & Hn' & Hbs')] & Hu).
  { exists l, t. by rewrite F. }
  exists x, t'. split_and!; [|done|done|].
  { apply table_lookup_found; [done|done|]. by exists t'. }
  intros e He Hen. assert (wanted h new_tables e) as Hw.
  { exists l, n. split_and!; [done|done|]. by exists t. }
  assert (e ∈ ts1) as He1 by by apply W1. assert (e ∈ ts2) as He2.
  { apply W2; [done|]. apply (wanted_frame h); [apply F1; by right|intros; apply F1; by left|done]. }
  apply Hu; [done|]. destruct Hen as (te & Hte & ?). exists te. rewrite F2, F1; auto.
Qed.

(** Of two consecutive unused tables after a used one, the second is not removed: the
    loop steps over the element behind the one it has just unlinked. *)
Theorem reload_tables_keeps_stale {pcre} (h : gmap loc (Table pcre)) a b c new :
  linked h [a; b; c] → linked h new → (∀ l, l ∈ new → l ∉ [a; b; c]) →
  wanted h new a → ¬ wanted h new b → ¬ wanted h new c →
  ∃ h', drop_unused_head h [a; b; c] new = Ok (h, [a; b; c]) ∧
        drop_unused_next h [a; b; c] new = Ok (h', [a; c]) ∧ h' !! c = h !! c.
Proof.
  intros Hts Hnew Hdis Ha Hb Hc.
  assert (∀ l n, l ∈ [a; b; c] → named h l n → ∃ o, table_lookup h new n = Ok o ∧
    (o = None ↔ ¬ wanted h new l)) as Hlookup.
  { intros l n Hl Hn. destruct (table_lookup_total h new n) as (o & Ho & Hres); [apply Hnew|].
    exists o. split; [done|]. destruct o as [x|]; split; try done.
    - intros Hno. destruct Hno. exists x, n. split_and!; [apply Hres|done|apply Hres].
    - intros _ (x & m & Hx & (t & Ht & Hm) & Hxm). destruct Hn as (t' & Ht' & Hn'). simplify_eq.
      by apply (Hres x Hx). }
  assert (∀ l, l ∈ [a; b; c] → ∃ t, h !! l = Some t ∧ 0 < reference_count t ∧ named h l (tname t)) as Hlive.
  { intros l Hl. destruct (linked_live _ _ Hts l Hl) as (t & Ht & Hrc). exists t. split_and!; [done|done|].
    by exists t. }
  destruct (Hlive a) as (ta & Hta & _ & Hna); [left|].
  destruct (Hlive b) as (tb & Htb & Hrb & Hnb); [right; left|].
  destruct (Hlookup a _ ltac:(left) Hna) as (oa & Hoa & Hwa).
  destruct (Hlookup b _ ltac:(right; left) Hnb) as (ob & Hob & Hwb).
  destruct (table_ref_put_live h b) as (h' & Hput & Hh'); [by exists tb|].
  exists h'. split_and!.
  - cbn [drop_unused_head]. unfold deref. rewrite Hta. outcome_simpl. rewrite Hoa. outcome_simpl.
    destruct oa; [done|]. by destruct (proj1 Hwa eq_refl).
  - rewrite drop_unused_next_cons. unfold deref. rewrite Htb. outcome_simpl. rewrite Hob. outcome_simpl.
    rewrite (proj2 Hwb Hb). rewrite Hput. done.
  - apply Hh'. intros ->. pose proof (linked_nodup _ _ Hts) as Hnd.
    apply NoDup_cons in Hnd as [_ Hnd]. apply NoDup_cons in Hnd as [Hnd _]. apply Hnd. left.
Qed.

(** * Witnesses *)

Definition ex_table (n : string) (bs : list (Backend (list Z))) : Table (list Z) :=
  mkTable (Some (bytes n)) false 1 bs.

Definition ex_store : gmap loc (Table (list Z)) :=
  <[1%positive := ex_table "a" [ex_backend "old"]]> (<[2%positive := ex_table "b" []]>
  (<[3%positive := ex_table "c" []]> (<[4%positive := ex_table "a" [ex_backend "new"]]> ∅))).

Ltac by_cases_in := repeat match goal with
  | H : _ ∈ _ :: _ |- _ => apply elem_of_cons in H as [->|H]
  | H : _ ∈ [] |- _ => by apply elem_of_nil in H
  end.

Lemma ex_linked ts :
  NoDup ts → (∀ l, l ∈ ts → l ∈ [1; 2; 3; 4]%positive) → ¬ (1%positive ∈ ts ∧ 4%positive ∈ ts) →
  linked ex_store ts.
Proof.
  intros Hnd Hsub Hnot. constructor; [done| |].
  - intros l Hl%Hsub. by_cases_in; eexists; by split.
  - intros l1 l2 n H1 H2 (t1 & T1 & N1) (t2 & T2 & N2).
    pose proof (Hsub _ H1). pose proof (Hsub _ H2).
    by_cases_in; vm_compute in T1, T2; simplify_eq; try done; by destruct Hnot.
Qed.

Lemma reload_tables_installs_witness :
  ∃ h' tables',
    reload_tables Some ex_store [1; 2; 3]%positive [4%positive] = Ok (h', tables') ∧
    linked h' tables' ∧
    ∀ n bs, provides Some ex_store [4%positive] n bs →
      ∃ l t, table_lookup h' tables' n = Ok (Some l) ∧ h' !! l = Some t ∧ backends t = bs ∧
             ∀ e, e ∈ [1; 2; 3]%positive → named ex_store e n → l = e.
Proof.
  apply reload_tables_installs.
  - apply ex_linked; [apply (bool_decide_unpack _); by vm_compute|set_solver|set_solver].
  - apply ex_linked; [apply (bool_decide_unpack _); by vm_compute|set_solver|set_solver].
  - set_solver.
  - intros l t Hl Ht. by_cases_in. vm_compute in Ht. simplify_eq. by repeat constructor.
Defined.

Lemma reload_tables_keeps_stale_witness :
  ∃ h', drop_unused_head ex_store [1; 2; 3]%positive [4%positive] = Ok (ex_store, [1; 2; 3]%positive) ∧
        drop_unused_next ex_store [1; 2; 3]%positive [4%positive] = Ok (h', [1; 3]%positive) ∧
        h' !! 3%positive = ex_store !! 3%positive.
Proof.
  apply reload_tables_keeps_stale.
  - apply ex_linked; [apply (bool_decide_unpack _); by vm_compute|set_solver|set_solver].
  - apply ex_linked; [apply (bool_decide_unpack _); by vm_compute|set_solver|set_solver].
  - set_solver.
  - exists 4%positive, (Some (bytes "a")). split_and!; [left|by eexists|by eexists].
  - intros (x & n & Hx & (t & T & N) & (t' & T' & N')). by_cases_in. vm_compute in T, T'. by simplify_eq.
  - intros (x & n & Hx & (t & T & N) & (t' & T' & N')). by_cases_in. vm_compute in T, T'. by simplify_eq.
Defined.
