(* ===== verification/Listener.v ===== *)
(** Listeners (src/listener.c): their configuration, the sorted list they are kept in, and
    the choice of the server address for a requested name. *)

From S2P Require Import Prelude CString Protocol RefCount Tls Http Address Backend Table.
From stdpp Require Import list gmap sorting.

#[local] Open Scope Z_scope.

(** * Data *)

(** The two values [listener->protocol] can point to. *)
Inductive protocol_ptr : Type := tls_protocol_ptr | http_protocol_ptr.
Definition protocol_of (p : protocol_ptr) : Protocol :=
  match p with tls_protocol_ptr => tls_protocol | http_protocol_ptr => http_protocol end.

(** [reuseport] and [ipv6_v6only] are the results of [parse_boolean]; [accept_cb] is
    whether the callback is set.  The table and the access log are pointers. *)
Record Listener := mkListener {
  laddress                  : option Address;     (* address *)
  fallback_address          : option Address;
  source_address            : option Address;
  protocol                  : protocol_ptr;
  table_name                : option (list Z);
  access_log                : option loc;
  log_bad_requests          : bool;
  reuseport                 : Z;
  transparent_proxy         : bool;
  ipv6_v6only               : Z;
  fallback_use_proxy_header : bool;
  lreference_count          : Z;                  (* reference_count *)
  watcher_fd                : Z;                  (* watcher.fd *)
  watcher_active            : bool;               (* watcher is started *)
  backoff_active            : bool;               (* backoff_timer is started *)
  ltable                    : option loc;         (* table *)
  accept_cb                 : bool
}.

Definition set_laddress (a : option Address) (l : Listener) : Listener :=
  mkListener a (fallback_address l) (source_address l) (protocol l) (table_name l) (access_log l)
    (log_bad_requests l) (reuseport l) (transparent_proxy l) (ipv6_v6only l)
    (fallback_use_proxy_header l) (lreference_count l) (watcher_fd l) (watcher_active l)
    (backoff_active l) (ltable l) (accept_cb l).
Definition set_fallback (a : option Address) (p : bool) (l : Listener) : Listener :=
  mkListener (laddress l) a (source_address l) (protocol l) (table_name l) (access_log l)
    (log_bad_requests l) (reuseport l) (transparent_proxy l) (ipv6_v6only l)
    p (lreference_count l) (watcher_fd l) (watcher_active l)
    (backoff_active l) (ltable l) (accept_cb l).
Definition set_source (a : option Address) (transparent : bool) (l : Listener) : Listener :=
  mkListener (laddress l) (fallback_address l) a (protocol l) (table_name l) (access_log l)
    (log_bad_requests l) (reuseport l) transparent (ipv6_v6only l)
    (fallback_use_proxy_header l) (lreference_count l) (watcher_fd l) (watcher_active l)
    (backoff_active l) (ltable l) (accept_cb l).
Definition set_protocol (p : protocol_ptr) (l : Listener) : Listener :=
  mkListener (laddress l) (fallback_address l) (source_address l) p (table_name l) (access_log l)
    (log_bad_requests l) (reuseport l) (transparent_proxy l) (ipv6_v6only l)
    (fallback_use_proxy_header l) (lreference_count l) (watcher_fd l) (watcher_active l)
    (backoff_active l) (ltable l) (accept_cb l).
Definition set_table_name (n : list Z) (l : Listener) : Listener :=
  mkListener (laddress l) (fallback_address l) (source_address l) (protocol l) (Some n) (access_log l)
    (log_bad_requests l) (reuseport l) (transparent_proxy l) (ipv6_v6only l)
    (fallback_use_proxy_header l) (lreference_count l) (watcher_fd l) (watcher_active l)
    (backoff_active l) (ltable l) (accept_cb l).
Definition set_flags (bad : bool) (reuse v6only : Z) (l : Listener) : Listener :=
  mkListener (laddress l) (fallback_address l) (source_address l) (protocol l) (table_name l) (access_log l)
    bad reuse (transparent_proxy l) v6only
    (fallback_use_proxy_header l) (lreference_count l) (watcher_fd l) (watcher_active l)
    (backoff_active l) (ltable l) (accept_cb l).
Definition set_lrefs (n : Z) (l : Listener) : Listener :=
  mkListener (laddress l) (fallback_address l) (source_address l) (protocol l) (table_name l) (access_log l)
    (log_bad_requests l) (reuseport l) (transparent_proxy l) (ipv6_v6only l)
    (fallback_use_proxy_header l) n (watcher_fd l) (watcher_active l)
    (backoff_active l) (ltable l) (accept_cb l).

(** * Configuration *)

Definition parse_boolean (s : list Z) : Z :=
  if existsb (strcasecmp_eq s) [bytes "yes"; bytes "true"; bytes "on"] then 1
  else if existsb (strcasecmp_eq s) [bytes "no"; bytes "false"; bytes "off"] then 0
  else -1.

Section listener.
Context (inet_pton : Z → list Z → option (list Z)) (inet_ntop : Z → list Z → list Z).
Context (malloc : Z → bool).
(** Build options: HAVE_LIBUDNS, and the socket options the platform has. *)
Context (have_libudns have_reuseport have_v6only have_transparent : bool).

Definition new_listener : option Listener :=
  if malloc 248 then
    Some (mkListener None None None tls_protocol_ptr None None false 0 false 0 false 0 (-1)
      false false None false)
  else None.

(** [None] address: the callers below hand NULL to the address functions. *)
Definition port_of (a : option Address) : outcome Z :=
  match a with None => Fault NullDereference | Some a => address_port a end.

Definition set_port_str (l : Listener) (arg : list Z) : outcome (Z * Listener) :=
  match laddress l with
  | None => Fault NullDereference
  | Some a =>
      '(r, a) ← address_set_port_str a arg;
      Ok (if r =? 0 then -1 else 1, set_laddress (Some a) l)
  end.

Definition accept_listener_arg (l : Listener) (arg : list Z) : outcome (Z * Listener) :=
  match laddress l with
  | None =>
      if negb (is_numeric (Some arg)) then
        a ← new_address inet_pton malloc (Some arg);
        let l := set_laddress a l in
        if negb (address_is_sockaddr a) then Ok (-1, l) else Ok (1, l)
      else
        a ← new_address inet_pton malloc (Some (bytes "[::]"));
        let l := set_laddress a l in
        if negb (address_is_sockaddr a) then Ok (-1, l) else set_port_str l arg
  | Some a =>
      port ← address_port a;
      if (port =? 0) && is_numeric (Some arg) then set_port_str l arg
      else Ok (1, l)
  end.

Definition accept_listener_table_name (l : Listener) (name : list Z) : Z * Listener :=
  match table_name l with
  | Some _ => (0, l)
  | None => if malloc (Zlen name + 1) then (1, set_table_name name l) else (-1, l)
  end.

Definition accept_listener_protocol (l : Listener) (p : list Z) : outcome (Z * Listener) :=
  let proto :=
    if strncasecmp0 p (bytes "http") (length p) then http_protocol_ptr else tls_protocol_ptr in
  let l := set_protocol proto l in
  port ← port_of (laddress l);
  if port =? 0 then
    match laddress l with
    | None => Fault NullDereference
    | Some a =>
        a ← address_set_port a (default_port (protocol_of proto));
        Ok (1, set_laddress (Some a) l)
    end
  else Ok (1, l).

Definition accept_listener_reuseport (l : Listener) (s : list Z) : Z * Listener :=
  let v := parse_boolean s in
  let l := set_flags (log_bad_requests l) v (ipv6_v6only l) l in
  if v =? -1 then (0, l)
  else if negb have_reuseport && (v =? 1) then (0, l) else (1, l).

Definition accept_listener_ipv6_v6only (l : Listener) (s : list Z) : Z * Listener :=
  let v := parse_boolean s in
  let l := set_flags (log_bad_requests l) (reuseport l) v l in
  if v =? -1 then (0, l)
  else if negb have_v6only && (v =? 1) then (0, l) else (1, l).

(** [fatal], the last case, does not return. *)
Definition accept_listener_fallback_address (l : Listener) (s : list Z) : outcome (Z * Listener) :=
  match fallback_address l with
  | None =>
      a ← new_address inet_pton malloc (Some s);
      if negb (non_null a) then Ok (0, l)
      else if address_is_sockaddr a then Ok (1, set_fallback a (fallback_use_proxy_header l) l)
      else if address_is_hostname a then
        if negb have_libudns then Ok (0, l)
        else Ok (1, set_fallback a (fallback_use_proxy_header l) l)
      else if address_is_wildcard a then Ok (0, l)
      else Fault Exit
  | Some _ =>
      if strcasecmp_eq (bytes "proxy") s && negb (fallback_use_proxy_header l)
      then Ok (1, set_fallback (fallback_address l) true l)
      else Ok (0, l)
  end.

Definition accept_listener_source_address (l : Listener) (s : list Z) : outcome (Z * Listener) :=
  if (non_null (source_address l)) || transparent_proxy l then Ok (0, l)
  else if strcasecmp_eq (bytes "client") s then
    if have_transparent then Ok (1, set_source (source_address l) true l) else Ok (0, l)
  else
    a ← new_address inet_pton malloc (Some s);
    match a with
    | None => Ok (0, set_source None (transparent_proxy l) l)
    | Some a' =>
        if negb (address_is_sockaddr a) then Ok (0, set_source None (transparent_proxy l) l)
        else _ ← address_port a'; Ok (1, set_source a (transparent_proxy l) l)
    end.

Definition accept_listener_bad_request_action (l : Listener) (action : list Z) : Z * Listener :=
  (1, if strncmp_eq (bytes "log") action (length action)
      then set_flags true (reuseport l) (ipv6_v6only l) l else l).

(** The protocol can only be one of the two. *)
Definition valid_listener (l : Listener) : outcome Z :=
  if negb (accept_cb l) then Ok 0 else
  match laddress l with
  | None => Ok 0
  | Some a =>
      match address_sa a with
      | None => Ok 0
      | Some sa =>
          f ← sa_family sa;
          if f =? AF_UNIX then Ok 1
          else if (f =? AF_INET) || (f =? AF_INET6) then
            port ← address_port a; Ok (if port =? 0 then 0 else 1)
          else Ok 0
      end
  end.

(** * The list of listeners *)

Definition listener_ref_get (h : gmap loc Listener) (x : loc) : outcome (gmap loc Listener) :=
  l ← deref h x; Ok (<[x := set_lrefs (lreference_count l + 1) l]> h).

(** The loop of [add_listener]: the iterator stands on the first element. *)
Fixpoint insert_after (h : gmap loc Listener) (a : option Address) (x : loc) (iter : loc)
    (rest : list loc) : outcome (list loc) :=
  match rest with
  | [] => Ok [iter; x]
  | next :: rest' =>
      n ← deref h next;
      if address_compare a (laddress n) <? 0 then Ok (iter :: x :: rest)
      else r ← insert_after h a x next rest'; Ok (iter :: r)
  end.

Definition add_listener (h : gmap loc Listener) (listeners : list loc) (x : loc)
    : outcome (gmap loc Listener * list loc) :=
  l ← deref h x;
  c_assert (non_null (laddress l)) ≫= λ _,
  h ← listener_ref_get h x;
  ls ← match listeners with
       | [] => Ok [x]
       | first :: rest =>
           f ← deref h first;
           if address_compare (laddress l) (laddress f) <? 0 then Ok (x :: listeners)
           else insert_after h (laddress l) x first rest
       end;
  Ok (h, ls).

(** * The server address for a request *)

Context {pcre : Type}.
Context (pcre_exec : pcre → list Z → Z → Z * list Z).
Context (pcre_copy_substring : list Z → list Z → Z → Z → Z → Z * list Z).

Definition fallback_result (l : Listener) : LookupResult :=
  mkLookupResult (fallback_address l) false (fallback_use_proxy_header l) (0, []).

(** Common end of the wildcard and the pattern case: [new_addr] was made from the
    request. *)
Definition from_request (l : Listener) (r : LookupResult) (entry : Address)
    (new_addr : option Address) : outcome LookupResult :=
  match new_addr with
  | None => Ok (fallback_result l)
  | Some a =>
      if address_is_sockaddr new_addr then Ok (fallback_result l)
      else
        p ← address_port entry;
        port ← (if negb (p =? 0) then Ok p else port_of (laddress l));
        a ← address_set_port a port;
        Ok (mkLookupResult (Some a) true (ruse_proxy_header r) (0, []))
  end.

(** [name] is the block that holds the requested name; [replacement] is the local array
    before it is written. *)
Definition listener_lookup_server_address (l : Listener) (t : Table pcre) (replacement : list Z)
    (name : option (list Z)) (name_len : Z) : outcome LookupResult :=
  r ← table_lookup_server_address pcre_exec t name name_len;
  match raddress r with
  | None => Ok (fallback_result l)
  | Some entry =>
      if address_is_pattern (Some entry) then
        '(ok, replacement) ← apply_pattern pcre_copy_substring (default [] name)
            (default [] (address_pattern entry)) (rmatches r) replacement 1024;
        if ok =? 0 then Ok (fallback_result l) else
        s ← c_string replacement 0;
        new_addr ← new_address inet_pton malloc (Some s);
        from_request l r entry new_addr
      else if address_is_wildcard (Some entry) then
        s ← match name with None => Ok None | Some n => s ← c_string n 0; Ok (Some s) end;
        new_addr ← new_address inet_pton malloc s;
        from_request l r entry new_addr
      else
        p ← address_port entry;
        if p =? 0 then
          new_addr ← copy_address malloc entry;
          match new_addr with
          | None => Fault NullDereference
          | Some a =>
              port ← port_of (laddress l);
              a ← address_set_port a port;
              Ok (mkLookupResult (Some a) true (ruse_proxy_header r) (0, []))
          end
        else Ok r
  end.
End listener.

(** * Sorted insertion *)

Section sorted.
Context (h : gmap loc Listener) (addr : loc → Address).

(** The listener at [x] is allocated and [addr x] is its address. *)
Definition has_addr (x : loc) : Prop :=
  address_wf (addr x) ∧ ∃ l, h !! x = Some l ∧ laddress l = Some (addr x).

Definition addr_le (x y : loc) : Prop := address_order (addr x) (addr y) ≤ 0.

Lemma has_addr_compare x y :
  has_addr x → has_addr y → address_compare (Some (addr x)) (Some (addr y)) = address_order (addr x) (addr y).
Proof. intros [? _] [? _]. by apply address_compare_eq. Qed.

Lemma addr_le_flip x y : ¬ address_order (addr x) (addr y) < 0 → addr_le y x.
Proof. unfold addr_le. rewrite (address_order_opp (addr x)). lia. Qed.

Lemma insert_after_sorted x iter rest :
  has_addr x → Forall has_addr rest → addr_le iter x → Sorted addr_le (iter :: rest) →
  ∃ r, insert_after h (Some (addr x)) x iter rest = Ok (iter :: r) ∧
       r ≡ₚ x :: rest ∧ Sorted addr_le (iter :: r).
Proof.
  intros Hx Hrest. revert iter. induction Hrest as [|next rest Hnext Hrest IH]; intros iter Hle Hs.
  { exists [x]. split; [done|]. split; [done|]. by repeat constructor. }
  cbn [insert_after]. destruct (Hnext) as [_ (n & Hn & Hna)]. unfold deref. rewrite Hn. outcome_simpl.
  rewrite Hna, has_addr_compare by done. apply Sorted_inv in Hs as [Hs Hhd].
  destruct (Z.ltb_spec (address_order (addr x) (addr next)) 0) as [Hlt|Hge].
  - exists (x :: next :: rest). split; [done|]. split; [done|].
    constructor; [|by constructor]. constructor; [done|]. constructor. unfold addr_le. lia.
  - destruct (IH next) as (r & -> & Hperm & Hsorted); [apply addr_le_flip; lia|done|].
    outcome_simpl. exists (next :: r). split; [done|]. split; [by rewrite Hperm; constructor|].
    constructor; [done|]. constructor. by apply HdRel_inv in Hhd.
Qed.
End sorted.

Lemma has_addr_refs h addr x l n y :
  h !! x = Some l → has_addr h addr y → has_addr (<[x := set_lrefs n l]> h) addr y.
Proof.
  intros Hx [Hwf (ly & Hy & Ha)]. split; [done|]. destruct (decide (y = x)) as [->|].
  - rewrite lookup_insert_eq. eexists. split; [done|]. simplify_eq. done.
  - rewrite lookup_insert_ne by done. by exists ly.
Qed.

(** [add_listener] keeps the list sorted by [address_compare], adds exactly the new
    listener, and takes one reference to it. *)
Lemma add_listener_sorted h addr listeners x :
  Forall (has_addr h addr) (x :: listeners) → Sorted (addr_le addr) listeners →
  ∃ h' ls l, add_listener h listeners x = Ok (h', ls) ∧ ls ≡ₚ x :: listeners ∧
           Sorted (addr_le addr) ls ∧ h !! x = Some l ∧
           h' = <[x := set_lrefs (lreference_count l + 1) l]> h.
Proof.
  intros Hall Hs. apply Forall_cons in Hall as [Hx Hls].
  pose proof Hx as [Hwf (l & Hl & Hla)]. set (h' := <[x := set_lrefs (lreference_count l + 1) l]> h).
  assert (∀ y, has_addr h addr y → has_addr h' addr y) as Hrefs by (intros; by apply has_addr_refs).
  unfold add_listener, listener_ref_get, deref. rewrite Hl. outcome_simpl. rewrite Hla. outcome_simpl.
  fold h'. destruct listeners as [|first rest].
  { exists h', [x], l. split_and!; try done. by repeat constructor. }
  apply Forall_cons in Hls as [Hf Hrest]. destruct (Hrefs first Hf) as [_ (f & Hf' & Hfa)].
  rewrite Hf'. outcome_simpl. rewrite Hfa, (has_addr_compare h addr) by done.
  destruct (Z.ltb_spec (address_order (addr x) (addr first)) 0).
  - exists h', (x :: first :: rest), l. split_and!; try done. constructor; [done|].
    constructor. unfold addr_le. lia.
  - destruct (insert_after_sorted h' addr x first rest) as (r & -> & Hp & Hsr);
      [by apply Hrefs|by eapply Forall_impl|apply addr_le_flip; lia|done|].
    outcome_simpl. exists h', (first :: r), l. split_and!; try done.
    rewrite Hp. constructor.
Qed.

(** * Lemmas on the lookup *)

Section lookup.
Context (inet_pton : Z → list Z → option (list Z)) (malloc : Z → bool) {pcre : Type}.
Context (pcre_exec : pcre → list Z → Z → Z * list Z).
Context (pcre_copy_substring : list Z → list Z → Z → Z → Z → Z * list Z).

(** An address from the configuration: of a backend, possibly with another port, or the
    fallback. *)
Definition configured (l : Listener) (t : Table pcre) (a : Address) : Prop :=
  fallback_address l = Some a ∨
  ∃ b e, b ∈ backends t ∧ address b = Some e ∧ type a = type e ∧ alen a = alen e ∧
         take 2 (adata a) = take 2 (adata e) ∧ drop 4 (adata a) = drop 4 (adata e).

Lemma lookup_loop_in head name len m r b :
  lookup_loop pcre_exec head name len m = Ok r → backend r = Some b → b ∈ head.
Proof.
  revert m. induction head as [|b' head IH]; intros m; cbn [lookup_loop]; [by intros [= <-]|].
  destruct (pattern_re b'); [|done]. destruct (_ <=? _).
  - intros [= <-] [= <-]. left.
  - intros Hr Hb. right. by eapply IH.
Qed.

Lemma table_lookup_in t name len r e :
  table_lookup_server_address pcre_exec t name len = Ok r → raddress r = Some e →
  ∃ b, b ∈ backends t ∧ address b = Some e.
Proof.
  unfold table_lookup_server_address. intros (br & Hb & Hr)%outcome_bind_Ok He.
  destruct (backend br) as [b|] eqn:Hbr; [|by injection Hr as <-]. injection Hr as <-.
  exists b. split; [|done]. unfold lookup_backend in Hb. destruct name; by eapply lookup_loop_in.
Qed.

Lemma set_port_parts a p a' :
  address_set_port a p = Ok a' →
  type a' = type a ∧ alen a' = alen a ∧ take 2 (adata a') = take 2 (adata a) ∧
  drop 4 (adata a') = drop 4 (adata a).
Proof.
  unfold address_set_port. intros (d & Hd & [= <-])%outcome_bind_Ok. cbn [type alen adata].
  split; [done|]. split; [done|]. destruct (type a); try (by injection Hd as <-).
  apply outcome_bind_Ok in Hd as (f & _ & Hd). destruct (_ || _).
  - unfold store_range in Hd. destruct (in_range _ _ _) eqn:Hr; [|done]. injection Hd as <-.
    apply in_range_spec in Hr as (_ & _ & Hr). change (Zlen (htons p)) with 2 in Hr. unfold Zlen in Hr.
    unfold splice. change (Z.to_nat 2) with 2%nat. cbn [length htons].
    destruct (adata a) as [|x0 [|x1 [|x2 [|x3 d']]]]; cbn in Hr; try lia. done.
  - destruct (_ || _); [|done]. by injection Hd as <-.
Qed.

Lemma from_request_Ok l r entry na res :
  from_request l r entry na = Ok res →
  res = fallback_result l ∨
  ∃ a a' p, na = Some a ∧ type a ≠ SOCKADDR ∧ address_set_port a p = Ok a' ∧
            res = mkLookupResult (Some a') true (ruse_proxy_header r) (0, []).
Proof.
  unfold from_request. destruct na as [a|]; [|intros [= <-]; by left].
  destruct (address_is_sockaddr (Some a)) eqn:Hsa; [intros [= <-]; by left|].
  intros (p & _ & (port & _ & (a' & Ha' & [= <-])%outcome_bind_Ok)%outcome_bind_Ok)%outcome_bind_Ok.
  right. exists a, a', port. split_and!; [done| |done|done].
  cbn in Hsa. by apply bool_decide_eq_false in Hsa.
Qed.

Lemma fallback_configured l t a : raddress (fallback_result l) = Some a → configured l t a.
Proof. intros. by left. Qed.
End lookup.

(** Tables as the configuration leaves them: the addresses are well formed and small. *)
Definition table_addresses_ok {pcre} (t : Table pcre) : Prop :=
  ∀ b e, b ∈ backends t → address b = Some e → address_wf e ∧ Zlen (adata e) < 2 ^ 32.

Lemma wf_port_range a : address_wf a → is_port (aport a).
Proof. by destruct 1. Qed.

(** The port of a well-formed address, 0 for a Unix socket. *)
Definition port_value (a : Address) : Z := if is_unix a then 0 else aport a.

Lemma port_value_range a : address_wf a → is_port (port_value a).
Proof. intros H%wf_port_range. unfold port_value. by destruct (is_unix a). Qed.

Lemma port_of_wf l la :
  laddress l = Some la → address_wf la → port_of (laddress l) = Ok (port_value la).
Proof. intros -> Hwf. by apply address_port_wf. Qed.

(** An entry that is neither a wildcard nor a pattern. *)
Lemma lookup_plain_entry malloc l la tr e :
  (∀ n, malloc n = true) → laddress l = Some la → address_wf la → address_wf e →
  Zlen (adata e) < 2 ^ 32 → raddress tr = Some e →
  ∃ a r, (p ← address_port e;
          if p =? 0 then
            new_addr ← copy_address malloc e;
            match new_addr with
            | None => Fault NullDereference
            | Some a =>
                port ← port_of (laddress l);
                a ← address_set_port a port;
                Ok (mkLookupResult (Some a) true (ruse_proxy_header tr) (0, []))
            end
          else Ok tr) = Ok r ∧
    raddress r = Some a ∧ ruse_proxy_header r = ruse_proxy_header tr ∧ type a = type e ∧
    port_value a =
      (if is_unix e then 0 else if port_value e =? 0 then port_value la else port_value e) ∧
    take 2 (adata a) = take 2 (adata e) ∧ drop 4 (adata a) = drop 4 (adata e) ∧ address_wf a.
Proof.
  intros Hmalloc Hla Hlawf Hwf Hsmall Htr. rewrite address_port_wf by done. outcome_simpl.
  fold (port_value e). destruct (Z.eqb_spec (port_value e) 0) as [Hz|Hnz].
  - rewrite copy_address_wf, Hmalloc by done. outcome_simpl. rewrite (port_of_wf l la) by done. outcome_simpl.
    destruct (address_set_port_wf e (port_value la) Hwf (port_value_range la Hlawf))
      as (d & -> & Hawf & H2 & H4 & _). outcome_simpl.
    eexists _, _. split; [done|]. split; [done|]. split; [done|]. split; [done|]. split; [|done].
    unfold port_value at 1, is_unix. cbn [type adata aport]. by rewrite H2.
  - exists e, tr. split_and!; try done. unfold port_value in *. by destruct (is_unix e).
Qed.

(** The address of a result can be connected to, after a query if it is a host name. *)
Definition usable (a : Address) : Prop := address_wf a ∧ (type a = HOSTNAME ∨ type a = SOCKADDR).

(** A table whose entries are compiled and name fixed hosts or addresses. *)
Definition fixed_routes {pcre} (t : Table pcre) : Prop :=
  Forall (λ b, pattern_re b ≠ None ∧
    ∀ a, address b = Some a → usable a ∧ Zlen (adata a) < 2 ^ 32) (backends t).

Lemma lookup_loop_compiled {pcre} (pcre_exec : pcre → list Z → Z → Z * list Z) bs name n m :
  Forall (λ b, pattern_re b ≠ None) bs → ∃ r, lookup_loop pcre_exec bs name n m = Ok r.
Proof.
  intros Hbs. revert m. induction Hbs as [|b bs Hb _ IH]; intros m; [by eexists|].
  cbn [lookup_loop]. destruct (pattern_re b); [|done]. destruct (_ <=? _); [by eexists|apply IH].
Qed.

Lemma table_lookup_Ok {pcre} (pcre_exec : pcre → list Z → Z → Z * list Z) t name n :
  Forall (λ b, pattern_re b ≠ None) (backends t) →
  ∃ r, table_lookup_server_address pcre_exec t name n = Ok r.
Proof.
  intros Hbs. unfold table_lookup_server_address, lookup_backend.
  destruct name as [s|].
  - destruct (lookup_loop_compiled pcre_exec _ s n (-1, []) Hbs) as (r & ->). cbn. destruct (backend r); eauto.
  - destruct (lookup_loop_compiled pcre_exec _ [] 0 (-1, []) Hbs) as (r & ->). cbn. destruct (backend r); eauto.
Qed.

(** With such a table every lookup ends, and in nothing but a usable address. *)
Lemma lookup_fixed_routes inet_pton malloc {pcre} (pcre_exec : pcre → list Z → Z → Z * list Z)
    pcre_copy_substring l la (t : Table pcre) replacement name n :
  (∀ k, malloc k = true) → laddress l = Some la → address_wf la →
  (∀ a, fallback_address l = Some a → usable a) → fixed_routes t →
  yields (listener_lookup_server_address inet_pton malloc pcre_exec pcre_copy_substring
            l t replacement name n) (λ r, ∀ a, raddress r = Some a → usable a).
Proof.
  intros Hmalloc Hla Hwf Hfb Ht. unfold listener_lookup_server_address.
  destruct (table_lookup_Ok pcre_exec t name n) as (tr & Htr); [by eapply Forall_impl; [exact Ht|]; cbn; intros ? []|].
  rewrite Htr. outcome_simpl. destruct (raddress tr) as [e|] eqn:He; [|by eexists].
  destruct (table_lookup_in _ _ _ _ _ _ Htr He) as (b & Hb & Hbe).
  destruct (proj1 (Forall_forall _ _) Ht b Hb) as [_ Hbu]. destruct (Hbu e Hbe) as [[Hewf Hte] Hsmall].
  unfold address_is_pattern, address_is_wildcard, address_is.
  rewrite !bool_decide_false by (destruct Hte; congruence).
  destruct (lookup_plain_entry malloc l la tr e) as (a & r & Hr & Ha & _ & Hta & _ & _ & _ & Hawf); try done.
  exists r. split; [exact Hr|]. intros a' Ha'. rewrite Ha in Ha'. injection Ha' as <-.
  split; [done|]. by rewrite Hta.
Qed.

(** Names that [new_address] takes for a wildcard or a pattern. *)
Lemma wildcard_request_unusable inet_pton inet_ntop malloc {pcre}
    (pcre_exec : pcre → list Z → Z → Z * list Z) pcre_copy_substring l la (t : Table pcre)
    replacement s z tr e :
  InetText inet_pton inet_ntop → (∀ n, malloc n = true) → laddress l = Some la → address_wf la →
  table_lookup_server_address pcre_exec t (Some (s ++ 0 :: z)) (Zlen s) = Ok tr →
  raddress tr = Some e → type e = WILDCARD → (0 ∉ s) → (58 ∉ s) →
  s = bytes "*" ∨ 36 ∈ s →
  ∃ r a, listener_lookup_server_address inet_pton malloc pcre_exec pcre_copy_substring
           l t replacement (Some (s ++ 0 :: z)) (Zlen s) = Ok r ∧
         raddress r = Some a ∧ (type a = WILDCARD ∨ type a = PATTERN).
Proof.
  intros Htext Hmalloc Hla Hlawf Htr He Hte H0 H58 Hs. unfold listener_lookup_server_address.
  rewrite Htr. outcome_simpl. rewrite He. unfold address_is_pattern, address_is_wildcard, address_is.
  rewrite bool_decide_false, bool_decide_true by congruence.
  assert (c_string (s ++ 0 :: z) 0 = Ok s) as -> by (by apply (c_string_app [] s z)). outcome_simpl.
  assert (∃ na, new_address inet_pton malloc (Some s) = Ok (Some na) ∧
    (type na = WILDCARD ∨ type na = PATTERN)) as (na & -> & Hna).
  { unfold new_address. rewrite (fuel_plain inet_pton malloc);
      [|by eapply not_in6_no_colon|by apply not_unix_no_colon|by left].
    unfold new_address_plain, new_string_address. rewrite !Hmalloc.
    destruct (strchr s 36) as [i|] eqn:Hd; [eexists; split; [done|by right]|].
    apply strchr_None in Hd. destruct Hs as [->|Hs]; [|done]. eexists. split; [done|]. by left. }
  outcome_simpl. unfold from_request. unfold address_is_sockaddr, address_is.
  rewrite bool_decide_false by (destruct Hna; congruence).
  unfold address_port at 1. rewrite Hte. outcome_simpl. rewrite (port_of_wf l la) by done.
  assert (∀ p, ∃ a, address_set_port na p = Ok a ∧ type a = type na) as Hset.
  { intros p. unfold address_set_port. destruct Hna as [->| ->]; by eexists. }
  destruct (aport e =? 0); cbn [negb]; outcome_simpl.
  - destruct (Hset (port_value la)) as (a & -> & Ha). outcome_simpl. eexists _, a.
    split; [done|]. split; [done|]. by rewrite Ha.
  - destruct (Hset (aport e)) as (a & -> & Ha). outcome_simpl. eexists _, a.
    split; [done|]. split; [done|]. by rewrite Ha.
Qed.

(** * Properties *)

(** C26: the proxy never connects to a socket address a client names: when the lookup
    returns a socket address it comes from the configuration, as the fallback or as the
    address of a backend (with the port of the listener if it has none). *)
Theorem lookup_refuses_literals inet_pton malloc {pcre} (pcre_exec : pcre → list Z → Z → Z * list Z)
    pcre_copy_substring l (t : Table pcre) replacement name name_len r a :
  table_addresses_ok t →
  listener_lookup_server_address inet_pton malloc pcre_exec pcre_copy_substring
    l t replacement name name_len = Ok r →
  raddress r = Some a → type a = SOCKADDR → configured l t a.
Proof.
  intros Hok Hr Ha Hsa. unfold listener_lookup_server_address in Hr.
  apply outcome_bind_Ok in Hr as (tr & Htr & Hr).
  destruct (raddress tr) as [entry|] eqn:Hentry; [|injection Hr as <-; by left].
  destruct (table_lookup_in _ _ _ _ _ _ Htr Hentry) as (b & Hb & Hbe).
  destruct (Hok b entry Hb Hbe) as [Hwf Hsmall].
  assert (∀ na, from_request l tr entry na = Ok r → configured l t a) as Hfrom.
  { intros na Hna. destruct (from_request_Ok _ _ _ _ _ Hna) as [->|(x & x' & p & _ & Hx & Hp & ->)];
      [by left|]. injection Ha as <-. apply set_port_parts in Hp as (Ht & _). congruence. }
  destruct (address_is_pattern (Some entry)).
  { apply outcome_bind_Ok in Hr as ([ok rep] & _ & Hr). destruct (ok =? 0); [injection Hr as <-; by left|].
    apply outcome_bind_Ok in Hr as (s & _ & Hr). apply outcome_bind_Ok in Hr as (na & _ & Hr). by eapply Hfrom. }
  destruct (address_is_wildcard (Some entry)).
  { apply outcome_bind_Ok in Hr as (s & _ & Hr). apply outcome_bind_Ok in Hr as (na & _ & Hr). by eapply Hfrom. }
  apply outcome_bind_Ok in Hr as (p & _ & Hr). destruct (p =? 0).
  - rewrite copy_address_wf in Hr by done. destruct (malloc _); [|done]. cbn in Hr.
    apply outcome_bind_Ok in Hr as (port & _ & Hr). apply outcome_bind_Ok in Hr as (a' & Ha' & Hr).
    injection Hr as <-. injection Ha as <-. right. exists b, entry. split; [done|]. split; [done|].
    by eapply set_port_parts.
  - injection Hr as <-. rewrite Hentry in Ha. injection Ha as <-. right. exists b, entry. done.
Qed.


(** * Witnesses *)

Definition ex_listener (port : Z) : Listener :=
  mkListener (Some (ex_in port)) (Some (ex_in 8080)) None tls_protocol_ptr None None false 0 false 0
    false 1 3 true false (Some 1%positive) true.

(** Names that start with "www." go to a fixed address, all others to themselves. *)
Definition ex_routes : Table (list Z) :=
  mkTable None false 1
    [ mkBackend (Some (bytes "www.")) (Some (ex_in 0)) false (Some (bytes "www."));
      mkBackend (Some []) (Some (mkAddress WILDCARD 0 0 [])) false (Some []) ].

Lemma ex_routes_ok : table_addresses_ok ex_routes.
Proof.
  intros b e Hb He. repeat (apply elem_of_cons in Hb as [->|Hb]);
    [injection He as <-; split; [|done]..|by apply elem_of_nil in Hb]; [by apply ex_in_wf|by constructor].
Qed.

Definition ex_lookup (s : list Z) : outcome LookupResult :=
  listener_lookup_server_address fixed_pton (λ _, true) prefix_exec vector_copy
    (ex_listener 443) ex_routes (replicate 1024 0) (Some (s ++ [0])) (Zlen s).

Definition ex_result (port : Z) : LookupResult :=
  mkLookupResult (Some (ex_in port)) true false (0, []).

Lemma lookup_refuses_literals_witness : configured (ex_listener 443) ex_routes (ex_in 443).
Proof.
  apply (lookup_refuses_literals fixed_pton (λ _, true) prefix_exec vector_copy
    (ex_listener 443) ex_routes (replicate 1024 0) (Some (bytes "www.example" ++ [0])) 11 (ex_result 443)).
  - apply ex_routes_ok.
  - by vm_compute.
  - done.
  - done.
Defined.

