(* ===== verification/Logger.v ===== *)
(** Loggers (src/logger.c): destinations of log messages ("sinks") shared between loggers,
    both reference counted; the default logger; the text of a message. *)

From S2P Require Import Prelude CString RefCount.
From stdpp Require Import list gmap.

#[local] Open Scope Z_scope.

(** * Data *)

Definition LOG_EMERG : Z := 0.
Definition LOG_ALERT : Z := 1.
Definition LOG_CRIT : Z := 2.
Definition LOG_ERR : Z := 3.
Definition LOG_WARNING : Z := 4.
Definition LOG_NOTICE : Z := 5.
Definition LOG_INFO : Z := 6.
Definition LOG_DEBUG : Z := 7.

Inductive sink_type : Type := LOG_SINK_SYSLOG | LOG_SINK_STDERR | LOG_SINK_FILE.

#[export] Instance sink_type_eq_dec : EqDecision sink_type.
Proof. solve_decision. Defined.

(** A [FILE *] that is not NULL is a number. *)
Definition stderr : Z := 2.

Record LogSink := mkSink {
  stype            : sink_type;          (* type *)
  filepath         : option (list Z);
  sfd              : option Z;           (* fd *)
  sreference_count : Z                   (* reference_count *)
}.

Record Logger := mkLogger {
  sink               : option loc;
  priority           : Z;
  facility           : Z;
  logreference_count : Z                 (* reference_count *)
}.

#[export] Program Instance LogSink_refcounted : RefCounted LogSink := {|
  count := sreference_count;
  set_count n s := mkSink (stype s) (filepath s) (sfd s) n
|}.
Solve All Obligations with done.

#[export] Program Instance Logger_refcounted : RefCounted Logger := {|
  count := logreference_count;
  set_count n l := mkLogger (sink l) (priority l) (facility l) n
|}.
Solve All Obligations with done.

(** What loggers do to the outside. *)
Inductive log_event : Type :=
  | LogOpen                                  (* openlog *)
  | LogClose                                 (* closelog *)
  | LogFopen (path : list Z) (fd : Z)
  | LogReopen (path : option (list Z)) (fd : Z)       (* freopen *)
  | LogFlush (fd : option Z)
  | LogFclose (fd : Z)
  | LogSyslog (prio : Z) (text : list Z)     (* vsyslog *)
  | LogLine (fd : Z) (line : list Z)         (* fprintf *)
  | LogExit (status : Z).

(** The two stores and the static variables of the file: [sinks], [default_logger], the cache
    of [timestamp], the functions registered with [atexit]. *)
Record LogState := mkLog {
  loggers        : gmap loc Logger;
  sink_store     : gmap loc LogSink;
  sinks          : list loc;
  default_logger : option loc;
  when_cached    : Z;
  string_cached  : list Z;
  exit_handlers  : nat;
  log_trace      : list log_event
}.

Definition set_loggers (x : gmap loc Logger) (s : LogState) : LogState :=
  mkLog x (sink_store s) (sinks s) (default_logger s) (when_cached s) (string_cached s) (exit_handlers s) (log_trace s).
Definition set_sink_store (x : gmap loc LogSink) (s : LogState) : LogState :=
  mkLog (loggers s) x (sinks s) (default_logger s) (when_cached s) (string_cached s) (exit_handlers s) (log_trace s).
Definition set_sinks (x : list loc) (s : LogState) : LogState :=
  mkLog (loggers s) (sink_store s) x (default_logger s) (when_cached s) (string_cached s) (exit_handlers s) (log_trace s).
Definition set_default (x : option loc) (s : LogState) : LogState :=
  mkLog (loggers s) (sink_store s) (sinks s) x (when_cached s) (string_cached s) (exit_handlers s) (log_trace s).
Definition set_cache (w : Z) (x : list Z) (s : LogState) : LogState :=
  mkLog (loggers s) (sink_store s) (sinks s) (default_logger s) w x (exit_handlers s) (log_trace s).
Definition set_handlers (n : nat) (s : LogState) : LogState :=
  mkLog (loggers s) (sink_store s) (sinks s) (default_logger s) (when_cached s) (string_cached s) n (log_trace s).
Definition log_emit (e : log_event) (s : LogState) : LogState :=
  mkLog (loggers s) (sink_store s) (sinks s) (default_logger s) (when_cached s) (string_cached s) (exit_handlers s)
    (log_trace s ++ [e]).

Definition log_init : LogState := mkLog ∅ ∅ [] None 0 (replicate 32 0) 0 [].

(** What the system answers during one call. *)
Record log_env := mkLogEnv {
  lmalloc  : Z → bool;                (* malloc does not return NULL *)
  lstrdup  : list Z → bool;           (* strdup does not return NULL *)
  fopen    : list Z → option Z;
  freopen  : option (list Z) → bool;  (* on failure the stream is closed *)
  strerror : list Z;
  time     : Z;
  strftime : Z → list Z               (* what it leaves in the 32 bytes of the cache *)
}.

Section logger.
Context (e : log_env).
Local Abbreviation L := (ST LogState).

Definition emit_log (ev : log_event) : L unit := modify (log_emit ev).

Definition get_sink (x : loc) : L LogSink := gets sink_store ≫= λ h, lift (deref h x).
Definition put_sink (x : loc) (k : LogSink) : L unit := modify (λ s, set_sink_store (<[x := k]> (sink_store s)) s).
Definition get_logger (x : loc) : L Logger := gets loggers ≫= λ h, lift (deref h x).
Definition put_logger (x : loc) (l : Logger) : L unit := modify (λ s, set_loggers (<[x := l]> (loggers s)) s).
Definition free_sink_block (x : loc) : L unit := modify (λ s, set_sink_store (delete x (sink_store s)) s).
Definition free_logger_block (x : loc) : L unit := modify (λ s, set_loggers (delete x (loggers s)) s).

(** * Sinks *)

(** [SLIST_FOREACH] with an early return. *)
Fixpoint find_sink (p : LogSink → outcome bool) (l : list loc) : L (option loc) :=
  match l with
  | [] => mret None
  | x :: l' => k ← get_sink x; b ← lift (p k); if (b : bool) then mret (Some x) else find_sink p l'
  end.

Definition sizeof_Logger : Z := 24.
Definition sizeof_LogSink : Z := 40.

(** A new block, linked in front of the list. *)
Definition link_sink (k : LogSink) : L loc :=
  h ← gets sink_store;
  let x := fresh (dom h) in
  put_sink x k ≫= λ _,
  modify (λ s, set_sinks (x :: sinks s) s) ≫= λ _,
  mret x.

Definition log_sink_ref_get (x : option loc) : L unit :=
  match x with
  | None => mret ()
  | Some x => k ← get_sink x; put_sink x (set_count (sreference_count k + 1) k)
  end.

Definition free_sink (x : option loc) : L unit :=
  match x with
  | None => mret ()
  | Some x =>
      l ← gets sinks;
      l ← lift (slist_remove l x);
      modify (set_sinks l) ≫= λ _,
      k ← get_sink x;
      match stype k with
      | LOG_SINK_SYSLOG => emit_log LogClose
      | LOG_SINK_STDERR => emit_log (LogFlush (sfd k))
      | LOG_SINK_FILE => fd ← not_null (sfd k); emit_log (LogFclose fd)
      end ≫= λ _,
      free_sink_block x
  end.

Definition log_sink_ref_put (x : option loc) : L unit :=
  match x with
  | None => mret ()
  | Some x =>
      k ← get_sink x;
      lift (c_assert (0 <? sreference_count k)) ≫= λ _,
      let n := sreference_count k - 1 in
      put_sink x (set_count n k) ≫= λ _,
      if n =? 0 then free_sink (Some x) else mret ()
  end.

Definition obtain_stderr_sink : L (option loc) :=
  l ← gets sinks;
  found ← find_sink (λ k, Ok (bool_decide (stype k = LOG_SINK_STDERR))) l;
  match found with
  | Some x => mret (Some x)
  | None =>
      if lmalloc e sizeof_LogSink then
        x ← link_sink (mkSink LOG_SINK_STDERR None (Some stderr) 0); mret (Some x)
      else mret None
  end.

Definition obtain_syslog_sink : L (option loc) :=
  l ← gets sinks;
  found ← find_sink (λ k, Ok (bool_decide (stype k = LOG_SINK_SYSLOG))) l;
  match found with
  | Some x => mret (Some x)
  | None =>
      if lmalloc e sizeof_LogSink then
        emit_log LogOpen ≫= λ _,
        x ← link_sink (mkSink LOG_SINK_SYSLOG None None 0); mret (Some x)
      else mret None
  end.

(** * Messages *)

(** The destination has 1024 bytes. *)
Definition timestamp : L (list Z) :=
  w ← gets when_cached;
  when (negb (time e =? w)) (modify (set_cache (time e) (strftime e (time e)))) ≫= λ _,
  string ← gets string_cached;
  lift (strncpy string 0 1024).

(** [text] is what the format and its arguments print. *)
Definition vlog_msg (logger : option loc) (prio : Z) (text : list Z) : L unit :=
  lift (c_assert (non_null logger)) ≫= λ _,
  x ← not_null logger;
  l ← get_logger x;
  if priority l <? prio then mret () else
  kx ← not_null (sink l);
  k ← get_sink kx;
  if bool_decide (stype k = LOG_SINK_SYSLOG) then
    emit_log (LogSyslog (Z.lor (facility l) (priority l)) text)
  else
    match sfd k with
    | None => mret ()
    | Some fd =>
        buffer ← timestamp;
        stamp ← lift (c_string buffer 0);
        let len := Zlen stamp in
        buffer ← lift (store_range buffer len (snprintf (size_t (1024 - len)) text ++ [0]));
        buffer ← lift (store_range buffer 1023 [0]);
        line ← lift (c_string buffer 0);
        emit_log (LogLine fd (line ++ [LF]))
    end.

Definition log_msg := vlog_msg.

(** * Loggers *)

Definition logger_ref_get (x : option loc) : L unit :=
  match x with
  | None => mret ()
  | Some x => l ← get_logger x; put_logger x (set_count (logreference_count l + 1) l)
  end.

Definition free_logger (x : option loc) : L unit :=
  match x with
  | None => mret ()
  | Some x => l ← get_logger x; log_sink_ref_put (sink l) ≫= λ _, free_logger_block x
  end.

Definition logger_ref_put (x : option loc) : L unit :=
  match x with
  | None => mret ()
  | Some x =>
      l ← get_logger x;
      lift (c_assert (0 <? logreference_count l)) ≫= λ _,
      let n := logreference_count l - 1 in
      put_logger x (set_count n l) ≫= λ _,
      if n =? 0 then free_logger (Some x) else mret ()
  end.

(** The rest of a constructor, once the sink is known: [None] frees the logger again. *)
Definition link_logger (s : option loc) (fac : Z) : L (option loc) :=
  match s with
  | None => mret None
  | Some k =>
      h ← gets loggers;
      let x := fresh (dom h) in
      put_logger x (mkLogger (Some k) LOG_DEBUG fac 0) ≫= λ _,
      log_sink_ref_get (Some k) ≫= λ _,
      mret (Some x)
  end.

Definition init_default_logger : L unit :=
  d ← gets default_logger;
  match d with
  | Some _ => mret ()
  | None =>
      if negb (lmalloc e sizeof_Logger) then mret () else
      s ← obtain_stderr_sink;
      logger ← link_logger s 0;
      match logger with
      | None => mret ()
      | Some x =>
          modify (λ s, set_handlers (S (exit_handlers s)) s) ≫= λ _,
          logger_ref_get (Some x) ≫= λ _,
          modify (set_default (Some x))
      end
  end.

(** The common body of the functions that write to the default logger. *)
Definition log_default (prio : Z) (text : list Z) : L unit :=
  init_default_logger ≫= λ _,
  d ← gets default_logger;
  vlog_msg d prio text.

Definition err := log_default LOG_ERR.
Definition warn := log_default LOG_WARNING.
Definition notice := log_default LOG_NOTICE.
Definition info := log_default LOG_INFO.
Definition debug := log_default LOG_DEBUG.

Definition free_at_exit : L unit :=
  d ← gets default_logger;
  logger_ref_put d ≫= λ _,
  modify (set_default None).

(** [exit] runs the registered handlers. *)
Definition fatal (text : list Z) : L unit :=
  log_default LOG_CRIT text ≫= λ _,
  n ← gets exit_handlers;
  for_each (λ _, free_at_exit) (seq 0 n) ≫= λ _,
  emit_log (LogExit 1).

Definition facilities : list (list Z * Z) :=
  [(bytes "auth", 32); (bytes "cron", 72); (bytes "daemon", 24); (bytes "ftp", 88);
   (bytes "local0", 128); (bytes "local1", 136); (bytes "local2", 144); (bytes "local3", 152);
   (bytes "local4", 160); (bytes "local5", 168); (bytes "local6", 176); (bytes "local7", 184);
   (bytes "mail", 16); (bytes "news", 56); (bytes "user", 8); (bytes "uucp", 64)].

Definition LOG_USER : Z := 8.

Definition lookup_syslog_facility (name : list Z) : Z :=
  match List.find (λ f, strncasecmp0 f.1 name (length name)) facilities with
  | Some f => f.2
  | None => LOG_USER
  end.

Definition obtain_file_sink (path : option (list Z)) : L (option loc) :=
  match path with
  | None => mret None
  | Some path =>
      l ← gets sinks;
      found ← find_sink (λ k,
        if bool_decide (stype k = LOG_SINK_FILE) then
          match filepath k with None => Fault NullDereference | Some p => Ok (strcmp_eq p path) end
        else Ok false) l;
      match found with
      | Some x => mret (Some x)
      | None =>
          if negb (lmalloc e sizeof_LogSink) then mret None else
          match fopen e path with
          | None => err (bytes "Failed to open new log file: " ++ path) ≫= λ _, mret None
          | Some fd =>
              emit_log (LogFopen path fd) ≫= λ _,
              let dup := if lstrdup e path then Some path else None in
              x ← link_sink (mkSink LOG_SINK_FILE dup (Some fd) 0);
              mret (Some x)
          end
      end
  end.

Definition new_syslog_logger (fac : list Z) : L (option loc) :=
  if negb (lmalloc e sizeof_Logger) then mret None else
  s ← obtain_syslog_sink; link_logger s (lookup_syslog_facility fac).

Definition new_file_logger (path : option (list Z)) : L (option loc) :=
  if negb (lmalloc e sizeof_Logger) then mret None else
  s ← obtain_file_sink path; link_logger s 0.

Definition reopen_sink (x : loc) : L unit :=
  k ← get_sink x;
  match stype k with
  | LOG_SINK_SYSLOG => emit_log LogClose ≫= λ _, emit_log LogOpen
  | LOG_SINK_STDERR => mret ()
  | LOG_SINK_FILE =>
      fd ← not_null (sfd k);
      if freopen e (filepath k) then emit_log (LogReopen (filepath k) fd)
      else
        put_sink x (mkSink (stype k) (filepath k) None (sreference_count k)) ≫= λ _,
        err (bytes "failed to reopen log file " ++ default (bytes "(null)") (filepath k) ++ bytes ": " ++ strerror e)
  end.

(** [err] can only link a new sink in front, which this walk does not reach. *)
Definition reopen_loggers : L unit :=
  l ← gets sinks; for_each reopen_sink l.

Definition set_default_logger (new_logger : option loc) : L unit :=
  old ← gets default_logger;
  lift (c_assert (non_null new_logger)) ≫= λ _,
  logger_ref_get new_logger ≫= λ _,
  modify (set_default new_logger) ≫= λ _,
  logger_ref_put old.

Definition set_logger_priority (logger : option loc) (prio : Z) : L unit :=
  lift (c_assert (non_null logger)) ≫= λ _,
  lift (c_assert ((LOG_EMERG <=? prio) && (prio <=? LOG_DEBUG))) ≫= λ _,
  x ← not_null logger;
  l ← get_logger x;
  put_logger x (mkLogger (sink l) prio (facility l) (logreference_count l)).
End logger.

(** * The line of a message *)

Lemma strncpy_terminated m off n :
  0 ≤ off → 0 ∈ drop (Z.to_nat off) m →
  strncpy m off n = Ok (take n (until_nul (drop (Z.to_nat off) m)) ++
                        replicate (n - length (until_nul (drop (Z.to_nat off) m))) 0).
Proof.
  revert off. induction n as [|n IH]; intros off Hoff Hin; [done|]. cbn [strncpy].
  destruct (drop (Z.to_nat off) m) as [|c r] eqn:Hd; [by apply elem_of_nil in Hin|].
  assert (m !! Z.to_nat off = Some c) as Hc by by rewrite <- (Nat.add_0_r (Z.to_nat off)), <- lookup_drop, Hd.
  assert (load m off = Ok c) as -> by by apply load_lookup.
  assert (drop (Z.to_nat (off + 1)) m = r) as Hr.
  { replace (Z.to_nat (off + 1)) with (Z.to_nat off + 1)%nat by lia. by rewrite <- drop_drop, Hd. }
  outcome_simpl. cbn [until_nul]. destruct (Z.eqb_spec c 0) as [->|Hne]; [done|].
  apply elem_of_cons in Hin as [?|Hin]; [done|].
  rewrite IH; rewrite ?Hr; [done|lia|done].
Qed.

(** A date in the cache: 32 bytes with a terminated string. *)
Definition stamp_ok (string : list Z) : Prop := Zlen string = 32 ∧ 0 ∈ string.

(** The line that is written for a message: at most 1023 bytes of the date and the text. *)
Definition log_line (string text : list Z) : list Z := take 1023 (until_nul string ++ text) ++ [LF].

Lemma log_line_buffer string text :
  stamp_ok string → 0 ∉ text →
  (buffer ← strncpy string 0 1024;
   stamp ← c_string buffer 0;
   buffer ← store_range buffer (Zlen stamp) (snprintf (size_t (1024 - Zlen stamp)) text ++ [0]);
   buffer ← store_range buffer 1023 [0];
   line ← c_string buffer 0; Ok (line ++ [LF])) = Ok (log_line string text).
Proof.
  intros [Hlen Hin] Htext. set (d := until_nul string).
  assert (length d ≤ 32)%nat as Hd by (pose proof (until_nul_length string); unfold Zlen, d in *; lia).
  assert (0 ∉ d) as Hd0 by apply until_nul_free.
  rewrite strncpy_terminated by done. outcome_simpl. change (drop (Z.to_nat 0) string) with string.
  fold d. rewrite take_ge by lia.
  replace (1024 - length d)%nat with (S (1023 - length d)) by lia. cbn [replicate].
  rewrite c_string_0 by done. outcome_simpl. unfold snprintf, Zlen. nowrap.
  replace (Z.to_nat (1024 - Z.of_nat (length d) - 1)) with (1023 - length d)%nat by lia.
  set (t := take (1023 - length d) text).
  assert (length t ≤ 1023 - length d)%nat as Ht by (unfold t; rewrite length_take; lia).
  assert (0 ∉ d ++ t) as Hdt by (unfold t; intros [?|(? & ? & ?)%elem_of_take]%elem_of_app; [done|]; apply Htext; by eapply list_elem_of_lookup_2).
  rewrite store_range_Ok; [|lia|unfold Zlen; rewrite !length_app; cbn [length]; rewrite length_replicate; lia].
  outcome_simpl. unfold splice. rewrite Nat2Z.id, take_app_length, length_app. cbn [length].
  rewrite <- drop_drop, drop_app_length.
  replace (length t + 1)%nat with (S (length t)) by lia. cbn [drop]. rewrite drop_replicate.
  replace (d ++ (t ++ [0]) ++ replicate _ 0) with ((d ++ t) ++ replicate (1024 - length (d ++ t)) 0).
  2: { rewrite length_app. replace (1024 - (length d + length t))%nat
         with (S (1023 - length d - length t)) by lia. by rewrite <- !(assoc_L (++)). }
  set (k := length (d ++ t)). assert (k ≤ 1023)%nat as Hk by (unfold k; rewrite length_app; lia).
  rewrite store_range_Ok; [|lia|unfold Zlen; rewrite length_app, length_replicate; cbn [length]; lia].
  outcome_simpl. unfold splice. cbn [length]. rewrite take_app_ge by (fold k; lia). fold k.
  rewrite take_replicate, drop_ge by (rewrite length_app, length_replicate; fold k; lia).
  replace (1024 - k)%nat with (S (1023 - k)) by lia. replace (Z.to_nat 1023 - k)%nat with (1023 - k)%nat by lia.
  rewrite Nat.min_l by lia.
  rewrite app_nil_r, <- (assoc_L (++)), <- replicate_S_end.
  cbn [replicate]. rewrite c_string_0 by done. outcome_simpl. unfold log_line. fold d.
  by rewrite (take_app_ge d) by lia.
Qed.

(** The date that a message gets. *)
Definition stamp (e : log_env) (s : LogState) : list Z :=
  if time e =? when_cached s then string_cached s else strftime e (time e).

(** What a message does: nothing if it is less important than its logger wants, or if the
    file could not be reopened. *)
Definition logged (e : log_env) (l : Logger) (k : LogSink) (prio : Z) (text : list Z) (s : LogState) : LogState :=
  if priority l <? prio then s
  else match stype k, sfd k with
       | LOG_SINK_SYSLOG, _ => log_emit (LogSyslog (Z.lor (facility l) (priority l)) text) s
       | _, None => s
       | _, Some fd => log_emit (LogLine fd (log_line (stamp e s) text)) (set_cache (time e) (stamp e s) s)
       end.

Lemma set_cache_same s : set_cache (when_cached s) (string_cached s) s = s.
Proof. by destruct s. Qed.

Lemma timestamp_eq e s :
  timestamp e s = match strncpy (stamp e s) 0 1024 with
                  | Ok b => Ok (b, set_cache (time e) (stamp e s) s) | Fault f => Fault f end.
Proof.
  unfold timestamp, stamp. st_simpl. destruct (Z.eqb_spec (time e) (when_cached s)) as [->|]; cbn [negb]; st_simpl.
  - by rewrite set_cache_same.
  - done.
Qed.

Lemma vlog_msg_eq e s x l kx k prio text :
  loggers s !! x = Some l → sink l = Some kx → sink_store s !! kx = Some k →
  stamp_ok (stamp e s) → 0 ∉ text →
  vlog_msg e (Some x) prio text s = Ok ((), logged e l k prio text s).
Proof.
  intros Hl Hk Hs Hstamp Htext. pose proof (log_line_buffer _ _ Hstamp Htext) as Hline.
  unfold vlog_msg, logged, get_logger, get_sink, deref, not_null. st_simpl. cbn [non_null c_assert]. st_simpl.
  rewrite Hl. st_simpl. destruct (priority l <? prio); [done|]. rewrite Hk. st_simpl. rewrite Hs. st_simpl.
  assert (∀ fd, (buffer ← timestamp e; stamp ← lift (c_string buffer 0);
    buffer ← lift (store_range buffer (Zlen stamp) (snprintf (size_t (1024 - Zlen stamp)) text ++ [0]));
    buffer ← lift (store_range buffer 1023 [0]); line ← lift (c_string buffer 0);
    emit_log (LogLine fd (line ++ [LF]))) s =
    Ok ((), log_emit (LogLine fd (log_line (stamp e s) text)) (set_cache (time e) (stamp e s) s))) as Hfile.
  { intros fd. st_simpl. rewrite timestamp_eq. clear -Hline.
    revert Hline. destruct (strncpy (stamp e s) 0 1024) as [b|]; [|done]. outcome_simpl.
    destruct (c_string b 0) as [d|]; [|done]. outcome_simpl. st_simpl.
    destruct (store_range b _ _) as [b'|]; [|done]. outcome_simpl. st_simpl.
    destruct (store_range b' _ _) as [b2|]; [|done]. outcome_simpl. st_simpl.
    destruct (c_string b2 0) as [line|]; [|done]. outcome_simpl. st_simpl. by intros [= ->]. }
  destruct (stype k); [done| |]; rewrite bool_decide_false by done;
    (destruct (sfd k) as [fd|]; [apply Hfile|done]).
Qed.

(** * The references between loggers and sinks *)

Definition sink_refs (s : LogState) : list loc := holders (λ l, option_list (sink l)) (loggers s).

(** Two sinks with the same destination. *)
Definition same_dest (k k' : LogSink) : Prop := stype k = stype k' ∧ filepath k = filepath k'.

Definition sink_wf (k : LogSink) : Prop :=
  match stype k with
  | LOG_SINK_SYSLOG => filepath k = None
  | LOG_SINK_STDERR => filepath k = None ∧ sfd k = Some stderr
  | LOG_SINK_FILE => filepath k ≠ None ∧ sfd k ≠ None
  end.

(** [K] are the references to sinks that are counted and [R] the references to loggers that
    the other components hold. *)
Record log_inv (K R : list loc) (s : LogState) : Prop := {
  inv_loggers : counted (loggers s) (option_list (default_logger s) ++ R);
  inv_sinks : counted (sink_store s) K;
  inv_nodup : NoDup (sinks s);
  inv_linked x : x ∈ sinks s ↔ is_Some (sink_store s !! x);
  inv_wf x k : sink_store s !! x = Some k → sink_wf k;
  inv_logger x l : loggers s !! x = Some l →
    LOG_EMERG ≤ priority l ≤ LOG_DEBUG ∧ ∃ k, sink l = Some k ∧ is_Some (sink_store s !! k);
  inv_shared x y k k' :
    sink_store s !! x = Some k → sink_store s !! y = Some k' → same_dest k k' → x = y;
  inv_stamp : stamp_ok (string_cached s)
}.

(** Between operations every sink is used and counted by its loggers. *)
Definition log_ok (R : list loc) (s : LogState) : Prop :=
  log_inv (sink_refs s) R s ∧ ∀ x, x ∈ sinks s → x ∈ sink_refs s.

#[export] Instance log_inv_proper : Proper ((≡ₚ) ==> (≡ₚ) ==> eq ==> iff) log_inv.
Proof.
  assert (∀ K K' R R' s, K ≡ₚ K' → R ≡ₚ R' → log_inv K R s → log_inv K' R' s) as H.
  { intros K K' R R' s HK HR []. constructor; try done; by rewrite <- ?HK, <- ?HR. }
  intros K K' HK R R' HR s _ <-. split; apply H; done.
Qed.

#[export] Instance log_ok_proper : Proper ((≡ₚ) ==> eq ==> iff) log_ok.
Proof. intros R R' HR s _ <-. unfold log_ok. by rewrite HR. Qed.

Lemma log_init_ok : log_ok [] log_init.
Proof.
  split; [constructor|]; cbn [loggers sink_store sinks log_init].
  - split; [by intros ?? ?%lookup_empty_Some|by intros ? ?%elem_of_nil].
  - split; [by intros ?? ?%lookup_empty_Some|by intros ? ?%elem_of_nil].
  - constructor.
  - intros x. rewrite elem_of_nil, lookup_empty. split; [done|by intros []].
  - by intros ?? ?%lookup_empty_Some.
  - by intros ?? ?%lookup_empty_Some.
  - by intros ???? ?%lookup_empty_Some.
  - split; [done|]. apply (bool_decide_unpack _). by vm_compute.
  - by intros x ?%elem_of_nil.
Qed.

Lemma log_inv_frame K R s s' :
  loggers s' = loggers s → sink_store s' = sink_store s → sinks s' = sinks s →
  default_logger s' = default_logger s → stamp_ok (string_cached s') → log_inv K R s → log_inv K R s'.
Proof. intros H1 H2 H3 H4 H5 []. constructor; rewrite ?H1, ?H2, ?H3, ?H4; done. Qed.

Lemma log_ok_frame R s s' :
  loggers s' = loggers s → sink_store s' = sink_store s → sinks s' = sinks s →
  default_logger s' = default_logger s → stamp_ok (string_cached s') → log_ok R s → log_ok R s'.
Proof.
  intros H1 H2 H3 H4 H5 [Hi Hu]. assert (sink_refs s' = sink_refs s) as Hr by (unfold sink_refs; by rewrite H1).
  split; rewrite Hr, ?H3; [by eapply log_inv_frame|done].
Qed.

Lemma log_inv_emit K R ev s : log_inv K R s → log_inv K R (log_emit ev s).
Proof. intros Hi. apply (log_inv_frame _ _ s); [done..|apply Hi|done]. Qed.

Lemma logger_live R s x l : log_ok R s → loggers s !! x = Some l →
  ∃ kx k, sink l = Some kx ∧ sink_store s !! kx = Some k.
Proof. intros [Hi _] Hl. destruct (inv_logger _ _ _ Hi x l Hl) as (_ & kx & ? & k & ?). eauto. Qed.

(** Walking the list of sinks. *)
Lemma find_sink_spec p l s :
  (∀ x, x ∈ l → ∃ k b, sink_store s !! x = Some k ∧ p k = Ok b) →
  ∃ o, find_sink p l s = Ok (o, s) ∧
    match o with
    | Some x => x ∈ l ∧ ∃ k, sink_store s !! x = Some k ∧ p k = Ok true
    | None => ∀ x k, x ∈ l → sink_store s !! x = Some k → p k = Ok false
    end.
Proof.
  induction l as [|x l IH]; intros Hl; [exists None; split; [done|by intros ?? ?%elem_of_nil]|].
  cbn [find_sink]. unfold get_sink at 1, deref. destruct (Hl x) as (k & b & Hk & Hb); [left|].
  st_simpl. rewrite Hk. st_simpl. rewrite Hb. st_simpl. destruct b.
  - exists (Some x). split; [done|]. split; [left|]. eauto.
  - destruct IH as (o & -> & Ho); [intros y Hy; apply Hl; by right|]. exists o. split; [done|].
    destruct o as [y|].
    + destruct Ho. split; [by right|done].
    + intros y k' [->|Hy]%elem_of_cons Hk'; [congruence|by eapply Ho].
Qed.

(** A new sink for a destination that has none. *)
Lemma link_sink_spec K R k s :
  log_inv K R s → sreference_count k = 0 → sink_wf k →
  (∀ y k', sink_store s !! y = Some k' → ¬ same_dest k k') →
  ∃ x s', link_sink k s = Ok (x, s') ∧ log_inv K R s' ∧ loggers s' = loggers s ∧
    default_logger s' = default_logger s ∧ sinks s' = x :: sinks s ∧ sink_store s' !! x = Some k.
Proof.
  intros Hi Hk0 Hwf Hnew. unfold link_sink, put_sink. st_simpl.
  set (x := fresh (dom (sink_store s))).
  assert (sink_store s !! x = None) as Hx by (apply not_elem_of_dom, is_fresh).
  eexists x, _. split; [done|]. split; [|cbn; rewrite lookup_insert_eq; done]. constructor; cbn.
  - apply Hi.
  - apply counted_new; [apply Hi|done|done].
  - constructor; [|apply Hi]. rewrite (inv_linked _ _ _ Hi), Hx. by intros [].
  - intros y. rewrite elem_of_cons, (inv_linked _ _ _ Hi). destruct (decide (y = x)) as [->|].
    + rewrite lookup_insert_eq. split; [by eexists|by left].
    + rewrite lookup_insert_ne by done. naive_solver.
  - intros y k'. rewrite lookup_insert_Some. intros [[-> <-]|[_ Hy]]; [done|by eapply Hi].
  - intros y l Hl. destruct (inv_logger _ _ _ Hi y l Hl) as (? & kx & ? & ?). split; [done|]. exists kx.
    split; [done|]. rewrite lookup_insert_ne; [done|]. intros <-. rewrite Hx in *. by destruct H1.
  - intros y z k1 k2. rewrite !lookup_insert_Some. intros [[<- <-]|[? Hy]] [[<- <-]|[? Hz]] Hsame; try done.
    + by destruct (Hnew z k2).
    + destruct (Hnew y k1); [done|]. by destruct Hsame.
    + by eapply Hi.
  - apply Hi.
Qed.

(** The sink that a constructor has obtained need not be used yet. *)
Definition log_got (R : list loc) (x : loc) (s : LogState) : Prop :=
  log_inv (sink_refs s) R s ∧ is_Some (sink_store s !! x) ∧ ∀ y, y ∈ sinks s → y = x ∨ y ∈ sink_refs s.

Lemma log_ok_got R s x : log_ok R s → x ∈ sinks s → log_got R x s.
Proof. intros [Hi Hu] Hx. split; [done|]. split; [by apply (inv_linked _ _ _ Hi)|auto]. Qed.

Lemma link_sink_got R k s :
  log_ok R s → sreference_count k = 0 → sink_wf k →
  (∀ y k', sink_store s !! y = Some k' → ¬ same_dest k k') →
  ∃ x s', link_sink k s = Ok (x, s') ∧ log_got R x s' ∧ loggers s' = loggers s ∧ default_logger s' = default_logger s.
Proof.
  intros [Hi Hu] Hk Hwf Hnew.
  destruct (link_sink_spec _ R k s Hi Hk Hwf Hnew) as (x & s' & Heq & Hi' & Hl & Hd & Hs & Hx).
  assert (sink_refs s' = sink_refs s) as Hr by (unfold sink_refs; by rewrite Hl).
  exists x, s'. split_and!; try done. split_and!; rewrite ?Hr; [done|by eexists|].
  intros y. rewrite Hs, elem_of_cons. naive_solver.
Qed.

(** The loggers that exist stay, and so does the default logger if there is one. *)
Definition log_kept (s s' : LogState) : Prop :=
  (∀ x, is_Some (loggers s !! x) → is_Some (loggers s' !! x)) ∧
  (default_logger s ≠ None → default_logger s' = default_logger s).

Lemma log_kept_same s s' : loggers s' = loggers s → default_logger s' = default_logger s → log_kept s s'.
Proof. intros Hl Hd. split; by rewrite ?Hl, ?Hd. Qed.

Lemma log_kept_trans s1 s2 s3 : log_kept s1 s2 → log_kept s2 s3 → log_kept s1 s3.
Proof. intros [H1 H2] [H3 H4]. split; [by auto|]. intros Hd. rewrite H4; [by apply H2|]. by rewrite H2. Qed.

(** What the functions that obtain a sink promise. *)
Definition obtained (R : list loc) (s : LogState) (r : outcome (option loc * LogState)) : Prop :=
  ∃ o s', r = Ok (o, s') ∧ log_kept s s' ∧ match o with Some x => log_got R x s' | None => log_ok R s' end.

Lemma sinks_live K R s x : log_inv K R s → x ∈ sinks s → ∃ k, sink_store s !! x = Some k ∧ sink_wf k.
Proof. intros Hi [k Hk]%(inv_linked _ _ _ Hi). exists k. split; [done|by eapply inv_wf]. Qed.

(** [init_default_logger] also needs that the loggers stay as they are. *)
Lemma obtain_stderr_sink_spec e R s :
  log_ok R s →
  ∃ o s', obtain_stderr_sink e s = Ok (o, s') ∧ loggers s' = loggers s ∧ default_logger s' = default_logger s ∧
    match o with Some x => log_got R x s' | None => log_ok R s' ∧ lmalloc e sizeof_LogSink = false end.
Proof.
  intros Hok. unfold obtain_stderr_sink. st_simpl.
  destruct (find_sink_spec (λ k, Ok (bool_decide (stype k = LOG_SINK_STDERR))) (sinks s) s) as (o & Heq & Ho).
  { intros x Hx. destruct (sinks_live _ _ _ _ (proj1 Hok) Hx) as (k & Hk & _). eauto. }
  rewrite Heq. destruct o as [x|].
  { exists (Some x), s. st_simpl. split_and!; try done. apply log_ok_got; [done|apply Ho]. }
  destruct (lmalloc e sizeof_LogSink); [|by exists None, s].
  destruct (link_sink_got R (mkSink LOG_SINK_STDERR None (Some stderr) 0) s) as (x & s' & Hlink & Hgot & Hl & Hd); try done.
  { intros y k' Hk' [Ht _]. cbn in Ht. specialize (Ho y k'). rewrite bool_decide_true in Ho by done.
    discriminate Ho; [apply (inv_linked _ _ _ (proj1 Hok)); by eexists|done]. }
  exists (Some x), s'. st_simpl. rewrite Hlink. by st_simpl.
Qed.

Lemma obtain_syslog_sink_spec e R s : log_ok R s → obtained R s (obtain_syslog_sink e s).
Proof.
  intros Hok. unfold obtain_syslog_sink. st_simpl.
  destruct (find_sink_spec (λ k, Ok (bool_decide (stype k = LOG_SINK_SYSLOG))) (sinks s) s) as (o & Heq & Ho).
  { intros x Hx. destruct (sinks_live _ _ _ _ (proj1 Hok) Hx) as (k & Hk & _). eauto. }
  rewrite Heq. destruct o as [x|].
  { exists (Some x), s. st_simpl. split; [done|]. split; [by apply log_kept_same|]. apply log_ok_got; [done|apply Ho]. }
  destruct (lmalloc e sizeof_LogSink); [|exists None, s; split; [done|]; split; [by apply log_kept_same|done]].
  unfold emit_log. st_simpl.
  destruct (link_sink_got R (mkSink LOG_SINK_SYSLOG None None 0) (log_emit LogOpen s)) as (x & s' & Hlink & Hgot & Hl & Hd); try done.
  { apply (log_ok_frame _ s); [done..|apply Hok|done]. }
  { intros y k' Hk' [Ht _]. cbn in Ht, Hk'. specialize (Ho y k'). rewrite bool_decide_true in Ho by done.
    discriminate Ho; [apply (inv_linked _ _ _ (proj1 Hok)); by eexists|done]. }
  exists (Some x), s'. rewrite Hlink. st_simpl. split; [done|]. split; [by apply log_kept_same|done].
Qed.

(** * References to loggers *)

Lemma log_sink_ref_get_eq s x k :
  sink_store s !! x = Some k →
  log_sink_ref_get (Some x) s = Ok ((), set_sink_store (<[x := set_count (count k + 1) k]> (sink_store s)) s).
Proof. intros Hk. unfold log_sink_ref_get, get_sink, put_sink, deref. st_simpl. rewrite Hk. by st_simpl. Qed.

(** Only the count of a sink changes. *)
Lemma log_inv_sink_count K K' R s x k n :
  log_inv K R s → sink_store s !! x = Some k → counted (<[x := set_count n k]> (sink_store s)) K' →
  log_inv K' R (set_sink_store (<[x := set_count n k]> (sink_store s)) s).
Proof.
  intros Hi Hk Hc.
  assert (∀ z, is_Some (<[x := set_count n k]> (sink_store s) !! z) ↔ is_Some (sink_store s !! z)) as Hdom.
  { intros z. destruct (decide (z = x)) as [->|]; [rewrite lookup_insert_eq, Hk; split; by eexists|by rewrite lookup_insert_ne]. }
  assert (∀ z k', <[x := set_count n k]> (sink_store s) !! z = Some k' →
    ∃ k0, sink_store s !! z = Some k0 ∧ same_dest k0 k' ∧ sfd k0 = sfd k') as Hold.
  { intros z k'. rewrite lookup_insert_Some. intros [[-> <-]|[_ Hz]]; eexists; split; try done; by split. }
  constructor; cbn [loggers default_logger sink_store sinks string_cached set_sink_store]; try apply Hi; try done.
  - intros z. rewrite Hdom. apply Hi.
  - intros z k' (k0 & Hk0 & [Ht Hf] & Hfd)%Hold. pose proof (inv_wf _ _ _ Hi z k0 Hk0) as Hwf.
    unfold sink_wf in *. by rewrite <- Ht, <- Hf, <- Hfd.
  - intros z l Hl. destruct (inv_logger _ _ _ Hi z l Hl) as (? & kx & ? & ?). split; [done|]. exists kx.
    split; [done|by apply Hdom].
  - intros z1 z2 k1 k2 (k1' & H1 & [] & _)%Hold (k2' & H2 & [] & _)%Hold []. eapply (inv_shared _ _ _ Hi); [done..|].
    split; congruence.
Qed.

Lemma link_logger_spec R x fac s :
  log_got R x s →
  ∃ y s', link_logger (Some x) fac s = Ok (Some y, s') ∧ log_ok R s' ∧ default_logger s' = default_logger s ∧
    loggers s !! y = None ∧ loggers s' = <[y := mkLogger (Some x) LOG_DEBUG fac 0]> (loggers s).
Proof.
  intros (Hi & [k Hk] & Hu). unfold link_logger, put_logger. st_simpl.
  set (y := fresh (dom (loggers s))).
  assert (loggers s !! y = None) as Hy by (apply not_elem_of_dom, is_fresh).
  set (s1 := set_loggers _ _). rewrite (log_sink_ref_get_eq s1 x k Hk). st_simpl.
  eexists y, _. split; [done|]. split; [|done].
  set (s2 := set_sink_store _ _).
  assert (sink_refs s2 ≡ₚ x :: sink_refs s) as Hr.
  { unfold sink_refs, s2, s1. cbn [loggers set_sink_store set_loggers]. by rewrite holders_insert_new. }
  split.
  - rewrite Hr. apply (log_inv_sink_count (sink_refs s)); [|done|by apply counted_get; [apply Hi|]].
    constructor; try apply Hi; cbn [loggers default_logger s1 set_loggers].
    + apply counted_new; [apply Hi|done|done].
    + intros z l. rewrite lookup_insert_Some. intros [[<- <-]|[_ Hz]]; [|by apply (inv_logger _ _ _ Hi z)].
      split; [done|]. exists x. split; [done|]. by eexists.
  - intros z Hz. rewrite Hr. apply elem_of_cons. destruct (Hu z Hz); auto.
Qed.

Lemma slist_remove_spec l x :
  x ∈ l → NoDup l → ∃ l', slist_remove l x = Ok l' ∧ NoDup l' ∧ ∀ y, y ∈ l' ↔ y ∈ l ∧ y ≠ x.
Proof.
  induction l as [|z l IH]; intros Hx; [by apply elem_of_nil in Hx|]. intros [Hz Hnd]%NoDup_cons. cbn [slist_remove].
  case_bool_decide as Heq; [subst z|].
  - exists l. split; [done|]. split; [done|]. intros y. rewrite elem_of_cons. naive_solver.
  - apply elem_of_cons in Hx as [->|Hx]; [done|]. destruct (IH Hx Hnd) as (l' & -> & Hnd' & Hl'). outcome_simpl.
    exists (z :: l'). split; [done|]. split; [constructor; [by rewrite Hl'; naive_solver|done]|].
    intros y. rewrite !elem_of_cons, Hl'. naive_solver.
Qed.

Definition sink_closed (k : LogSink) : log_event :=
  match stype k with
  | LOG_SINK_SYSLOG => LogClose
  | LOG_SINK_STDERR => LogFlush (sfd k)
  | LOG_SINK_FILE => LogFclose (default 0 (sfd k))
  end.

Lemma free_sink_eq s x k l' :
  sink_store s !! x = Some k → sink_wf k → slist_remove (sinks s) x = Ok l' →
  free_sink (Some x) s =
    Ok ((), set_sink_store (delete x (sink_store s)) (log_emit (sink_closed k) (set_sinks l' s))).
Proof.
  intros Hk Hwf Hl. unfold free_sink, free_sink_block, get_sink, deref, emit_log, not_null, sink_closed. st_simpl.
  rewrite Hl. st_simpl. cbn [sink_store set_sinks]. rewrite Hk. st_simpl.
  unfold sink_wf in Hwf. destruct (stype k); st_simpl; [done|done|].
  destruct Hwf as [_ Hfd]. destruct (sfd k); [by st_simpl|done].
Qed.

(** One reference to a sink less. *)
Lemma log_sink_ref_put_spec K R x s :
  log_inv (x :: K) R s → (∀ y l k, loggers s !! y = Some l → sink l = Some k → k ∈ K) →
  ∃ s', log_sink_ref_put (Some x) s = Ok ((), s') ∧ log_inv K R s' ∧
    loggers s' = loggers s ∧ default_logger s' = default_logger s ∧
    ((∀ y, y ∈ sinks s → y ∈ x :: K) → ∀ y, y ∈ sinks s' → y ∈ K).
Proof.
  intros Hi HK. destruct (counted_put_pos _ _ _ (inv_sinks _ _ _ Hi)) as (k & Hk & Hpos).
  change (count k) with (sreference_count k) in Hpos.
  unfold log_sink_ref_put, get_sink, put_sink, deref. st_simpl. rewrite Hk. st_simpl. cassert. st_simpl.
  destruct (Z.eqb_spec (sreference_count k - 1) 0) as [H1|H1].
  - destruct (slist_remove_spec (sinks s) x) as (l' & Hrem & Hnd & Hl'); [|apply Hi|].
    { apply (inv_linked _ _ _ Hi). by eexists. }
    erewrite free_sink_eq; [|cbn; by rewrite lookup_insert_eq|apply (inv_wf _ _ _ Hi x k Hk)|done].
    eexists. split; [done|]. split; [|split_and!; [done|done|]].
    + constructor; cbn; rewrite ?delete_insert_eq.
      * apply Hi.
      * eapply counted_put_last; [apply Hi|done|]. cbn. lia.
      * done.
      * intros y. rewrite Hl', (inv_linked _ _ _ Hi), lookup_delete_is_Some. naive_solver.
      * intros y k'. rewrite lookup_delete_Some. intros [_ Hy]. by eapply Hi.
      * intros y l Hl. destruct (inv_logger _ _ _ Hi y l Hl) as (? & kx & Hkx & Hs). split; [done|]. exists kx.
        split; [done|]. rewrite lookup_delete_is_Some. split; [|done]. intros <-.
        assert (x ∈ K) as Hin%occurrences_pos by (by eapply HK).
        pose proof (counted_count _ _ (inv_sinks _ _ _ Hi) x k Hk) as Hc. cbn in Hc.
        rewrite occurrences_cons, decide_True in Hc by done. lia.
      * intros y z k1 k2. rewrite !lookup_delete_Some. intros [_ ?] [_ ?]. by eapply Hi.
      * apply Hi.
    + intros Hu y [Hy Hne]%Hl'. by apply Hu, elem_of_cons in Hy as [?|?].
  - st_simpl. eexists. split; [done|]. split; [|split_and!; [done|done|]].
    + apply (log_inv_sink_count (x :: K)); [done|done|].
      change (sreference_count k) with (count k) in *. apply counted_put; [apply Hi|done|lia].
    + intros Hu y Hy. cbn in Hy. apply Hu, elem_of_cons in Hy as [->|?]; [|done].
      apply occurrences_pos. pose proof (counted_count _ _ (inv_sinks _ _ _ Hi) x k Hk) as Hc. cbn in Hc.
      rewrite occurrences_cons, decide_True in Hc by done. lia.
Qed.

(** Only the count or the priority of a logger changes; the references to it may too. *)
Lemma log_ok_logger R R' s x l l' d :
  log_ok R s → loggers s !! x = Some l → sink l' = sink l → LOG_EMERG ≤ priority l' ≤ LOG_DEBUG →
  counted (<[x := l']> (loggers s)) (option_list d ++ R') →
  log_ok R' (set_default d (set_loggers (<[x := l']> (loggers s)) s)).
Proof.
  intros [Hi Hu] Hl Hsink Hprio Hc. set (s' := set_default _ _).
  assert (sink_refs s' ≡ₚ sink_refs s) as Hr by (apply (holders_same _ _ x l); [done|by rewrite Hsink]).
  split; [|by setoid_rewrite Hr]. rewrite Hr. constructor; try apply Hi; [done|].
  intros y ly. cbn. rewrite lookup_insert_Some. intros [[-> <-]|[_ Hy]]; [|by apply (inv_logger _ _ _ Hi y)].
  split; [done|]. rewrite Hsink. by apply (inv_logger _ _ _ Hi y).
Qed.

Lemma set_default_same s : set_default (default_logger s) s = s.
Proof. by destruct s. Qed.

Lemma logger_ref_get_spec R s x l :
  log_ok R s → loggers s !! x = Some l →
  ∃ s', logger_ref_get (Some x) s = Ok ((), s') ∧ log_ok (x :: R) s' ∧ default_logger s' = default_logger s.
Proof.
  intros Hok Hl. unfold logger_ref_get, get_logger, put_logger, deref. st_simpl. rewrite Hl. st_simpl.
  eexists. split; [done|]. split; [|done]. set (s' := set_loggers _ _).
  rewrite <- (set_default_same s'). apply (log_ok_logger R _ s x l); [done|done|done| |].
  - apply (inv_logger _ _ _ (proj1 Hok) x l Hl).
  - change (logreference_count l) with (count l). rewrite <- Permutation_middle.
    apply counted_get; [apply Hok|done].
Qed.

(** Loggers and sinks do not depend on each other while a reference to a sink is put back. *)
Lemma log_sink_ref_put_loggers x m s :
  log_sink_ref_put x (set_loggers m s) =
    match log_sink_ref_put x s with Ok (u, s') => Ok (u, set_loggers m s') | Fault f => Fault f end.
Proof.
  destruct x as [x|]; [|done].
  unfold log_sink_ref_put, free_sink, free_sink_block, get_sink, put_sink, deref, emit_log, not_null. st_simpl.
  cbn [sink_store set_loggers]. destruct (sink_store s !! x) as [k|]; [|done]. st_simpl.
  destruct (c_assert _) as [[]|]; [|done]. st_simpl. destruct (_ =? 0); [|done]. st_simpl.
  cbn [sinks set_sink_store set_loggers]. destruct (slist_remove (sinks s) x) as [l|]; [|done]. st_simpl.
  cbn [sink_store set_sinks set_sink_store set_loggers]. rewrite lookup_insert_eq. st_simpl. cbn.
  destruct (stype k); st_simpl; [done|done|]. by destruct (sfd k).
Qed.

Lemma logger_ref_put_spec R s x :
  log_ok (x :: R) s →
  ∃ s', logger_ref_put (Some x) s = Ok ((), s') ∧ log_ok R s' ∧ default_logger s' = default_logger s ∧
    ∀ y, y ≠ x → loggers s' !! y = loggers s !! y.
Proof.
  intros [Hi Hu].
  assert (counted (loggers s) (x :: option_list (default_logger s) ++ R)) as Hc.
  { rewrite Permutation_middle. apply Hi. }
  destruct (counted_put_pos _ _ _ Hc) as (l & Hl & Hpos). cbn in Hpos.
  destruct (inv_logger _ _ _ Hi x l Hl) as (Hprio & k & Hk & _).
  unfold logger_ref_put, get_logger, put_logger, deref. st_simpl. rewrite Hl. st_simpl. cassert. st_simpl.
  set (s1 := set_loggers _ s).
  destruct (Z.eqb_spec (logreference_count l - 1) 0) as [H1|H1].
  - unfold free_logger, get_logger, free_logger_block, deref. st_simpl. unfold s1 at 1. cbn [loggers set_loggers].
    rewrite lookup_insert_eq. st_simpl. cbn [sink set_count Logger_refcounted]. rewrite Hk.
    set (m := delete x (loggers s)). set (s2 := set_loggers m s).
    assert (sink_refs s ≡ₚ k :: sink_refs s2) as Hr.
    { unfold sink_refs. cbn [s2 loggers set_loggers]. rewrite (holders_delete _ _ x l Hl). by rewrite Hk. }
    destruct (log_sink_ref_put_spec (sink_refs s2) R k s2) as (s' & Hput & Hi' & Hl' & Hd' & Hu').
    + rewrite <- Hr. constructor; try apply Hi; cbn [s2 loggers set_loggers default_logger].
      * eapply counted_put_last; [done|done|]. cbn. lia.
      * intros y ly. unfold m. rewrite lookup_delete_Some. intros [_ Hy]. by apply (inv_logger _ _ _ Hi y).
    + intros y ly ky Hy Hky. apply elem_of_holders. exists y, ly. split; [done|]. rewrite Hky. apply list_elem_of_singleton. done.
    + assert (log_sink_ref_put (Some k) s1 = Ok ((), set_loggers (loggers s1) s')) as ->.
      { replace s1 with (set_loggers (loggers s1) s2) by by destruct s.
        rewrite log_sink_ref_put_loggers, Hput. done. }
      st_simpl. eexists. split; [done|]. cbn [loggers set_loggers].
      replace (set_loggers (delete x (loggers s1)) (set_loggers (loggers s1) s')) with s'.
      2: { unfold s1. cbn [loggers set_loggers]. rewrite delete_insert_eq. fold m.
           change m with (loggers s2). rewrite <- Hl'. by destruct s'. }
      split; [|split; [done|]]; [|intros y Hy; cbn; by rewrite delete_insert_eq, lookup_delete_ne]. split.
      * unfold sink_refs at 1. rewrite Hl'. exact Hi'.
      * unfold sink_refs. rewrite Hl'. apply Hu'. intros y Hy. rewrite <- Hr. by apply Hu.
  - st_simpl. eexists. split; [done|].
    split; [|split; [done|]]; [|intros y Hy; cbn; by apply lookup_insert_ne]. rewrite <- (set_default_same s1).
    apply (log_ok_logger (x :: R) _ s x l); [done|done|done|done|].
    change (logreference_count l) with (count l) in *. apply counted_put; [done|done|lia].
Qed.

(** * The default logger *)

(** The system calls that must not fail for the loggers to stay usable. *)
Record log_env_ok (e : log_env) : Prop := {
  env_stamp t : stamp_ok (strftime e t);
  env_strdup p : lstrdup e p = true;
  env_freopen p : freopen e p = true
}.

(** There is a default logger, or memory for one. *)
Definition can_log (e : log_env) (s : LogState) : Prop :=
  default_logger s ≠ None ∨ (lmalloc e sizeof_Logger = true ∧ lmalloc e sizeof_LogSink = true).

(** What an operation promises that may log. *)
Definition log_steps (R : list loc) (s s' : LogState) : Prop := log_ok R s' ∧ log_kept s s'.

Lemma log_steps_refl R s : log_ok R s → log_steps R s s.
Proof. intros Hok. split; [done|]. by apply log_kept_same. Qed.

Lemma log_steps_trans R s1 s2 s3 : log_steps R s1 s2 → log_steps R s2 s3 → log_steps R s1 s3.
Proof. intros [_ H1] [? H2]. split; [done|by eapply log_kept_trans]. Qed.

Lemma can_log_steps e R s s' : can_log e s → log_steps R s s' → can_log e s'.
Proof. intros [Hd|Hm] (_ & _ & Hd'); [left; by rewrite Hd'|by right]. Qed.

Lemma vlog_msg_spec e R s x prio text :
  log_env_ok e → log_ok R s → is_Some (loggers s !! x) → 0 ∉ text →
  ∃ s', vlog_msg e (Some x) prio text s = Ok ((), s') ∧ log_steps R s s'.
Proof.
  intros He Hok [l Hl] Ht. destruct (logger_live R s x l) as (kx & k & Hkx & Hk); [done..|].
  assert (stamp_ok (stamp e s)) as Hst.
  { unfold stamp. destruct (_ =? _); [apply Hok|apply He]. }
  exists (logged e l k prio text s). split; [by eapply vlog_msg_eq|].
  assert (∀ ev, log_steps R s (log_emit ev s)) as H1.
  { intros ev. split; [|by apply log_kept_same]. apply (log_ok_frame _ s); [done..|apply Hok|done]. }
  assert (∀ ev, log_steps R s (log_emit ev (set_cache (time e) (stamp e s) s))) as H2.
  { intros ev. split; [|by apply log_kept_same]. apply (log_ok_frame _ s); done. }
  unfold logged. destruct (_ <? _); [by apply log_steps_refl|].
  destruct (stype k), (sfd k); by auto using log_steps_refl.
Qed.

Lemma init_default_logger_spec e R s :
  log_ok R s → can_log e s →
  ∃ s', init_default_logger e s = Ok ((), s') ∧ log_steps R s s' ∧ default_logger s' ≠ None.
Proof.
  intros Hok Hcan. unfold init_default_logger. st_simpl. destruct (default_logger s) as [d|] eqn:Hd.
  { exists s. st_simpl. split; [done|]. split; [by apply log_steps_refl|by rewrite Hd]. }
  destruct Hcan as [?|[Hm1 Hm2]]; [done|]. rewrite Hm1. cbn [negb]. st_simpl.
  destruct (obtain_stderr_sink_spec e R s Hok) as (o & s1 & -> & Hl1 & Hd1 & Ho).
  destruct o as [x|]; [|destruct Ho; congruence].
  destruct (link_logger_spec R x 0 s1 Ho) as (y & s2 & Heq & Hok2 & Hd2 & Hy & Hl2).
  st_simpl. rewrite Heq. st_simpl. set (s3 := set_handlers _ s2).
  assert (log_ok R s3) as Hok3 by (apply (log_ok_frame _ s2); [done..|apply Hok2|done]).
  assert (loggers s3 !! y = Some (mkLogger (Some x) LOG_DEBUG 0 0)) as Hy3.
  { cbn. by rewrite Hl2, lookup_insert_eq. }
  unfold logger_ref_get, get_logger, put_logger, deref. st_simpl. rewrite Hy3. st_simpl.
  eexists. split; [done|]. split; [|done]. split; [|split].
  - eapply log_ok_logger; [done|done|done|done|]. cbn. assert (default_logger s3 = None) as Hd3.
    { cbn. by rewrite Hd2, Hd1. }
    pose proof (counted_get _ _ _ _ (inv_loggers _ _ _ (proj1 Hok3)) Hy3) as Hc. by rewrite Hd3 in Hc.
  - intros z Hz. cbn. rewrite Hl2, Hl1. destruct (decide (z = y)) as [->|]; [rewrite lookup_insert_eq; by eexists|].
    by rewrite !lookup_insert_ne.
  - by rewrite Hd.
Qed.

Lemma log_default_spec e R s prio text :
  log_env_ok e → log_ok R s → can_log e s → 0 ∉ text →
  ∃ s', log_default e prio text s = Ok ((), s') ∧ log_steps R s s'.
Proof.
  intros He Hok Hcan Ht. unfold log_default. st_simpl.
  destruct (init_default_logger_spec e R s) as (s1 & -> & Hs1 & Hd); [done..|]. st_simpl.
  destruct (default_logger s1) as [x|] eqn:Hx; [|done].
  assert (is_Some (loggers s1 !! x)) as Hlive.
  { destruct Hs1 as ([Hi _] & _). apply (inv_loggers _ _ _ Hi). rewrite Hx. left. }
  destruct (vlog_msg_spec e R s1 x prio text) as (s2 & -> & Hs2); [done|by destruct Hs1|done..|].
  exists s2. split; [done|]. by eapply log_steps_trans.
Qed.

(** * The operations keep the invariant *)

Lemma obtain_file_sink_spec e R s path :
  log_env_ok e → log_ok R s → can_log e s → 0 ∉ default [] path → obtained R s (obtain_file_sink e path s).
Proof.
  intros He Hok Hcan Hpath. destruct path as [path|]; [|by exists None, s]. cbn [obtain_file_sink default]. st_simpl.
  match goal with |- context [find_sink ?p _] => destruct (find_sink_spec p (sinks s) s) as (o & Heq & Ho) end.
  { intros x Hx. destruct (sinks_live _ _ _ _ (proj1 Hok) Hx) as (k & Hk & Hwf). exists k. unfold sink_wf in Hwf.
    case_bool_decide as Ht; [rewrite Ht in Hwf|by eauto]. destruct (filepath k); [by eauto|by destruct Hwf]. }
  rewrite Heq. st_simpl. destruct o as [x|].
  { exists (Some x), s. st_simpl. split; [done|]. split; [by apply log_kept_same|]. apply log_ok_got; [done|apply Ho]. }
  destruct (lmalloc e sizeof_LogSink); cbn [negb]; [|exists None, s; split; [done|]; split; [by apply log_kept_same|done]].
  destruct (fopen e path) as [fd|].
  - unfold emit_log. st_simpl. rewrite (env_strdup _ He).
    destruct (link_sink_got R (mkSink LOG_SINK_FILE (Some path) (Some fd) 0) (log_emit (LogFopen path fd) s))
      as (x & s' & -> & Hgot & Hl & Hd); try done.
    { apply (log_ok_frame _ s); [done..|apply Hok|done]. }
    { intros y k' Hk' [Ht Hf]. cbn in Ht, Hf, Hk'. specialize (Ho y k'). rewrite bool_decide_true in Ho by done.
      rewrite <- Hf in Ho. unfold strcmp_eq in Ho. rewrite bool_decide_true in Ho by done.
      discriminate Ho; [apply (inv_linked _ _ _ (proj1 Hok)); by eexists|done]. }
    st_simpl. exists (Some x), s'. split; [done|]. split; [by apply log_kept_same|done].
  - destruct (log_default_spec e R s LOG_ERR (bytes "Failed to open new log file: " ++ path)) as (s' & Herr & Hok' & Hk);
      [done..| |].
    { intros [Hin|?]%elem_of_app; [|done]. revert Hin. apply (bool_decide_unpack _). by vm_compute. }
    unfold err. st_simpl. rewrite Herr. st_simpl. by exists None, s'.
Qed.

(** What the constructors promise: a new logger without references, or NULL. *)
Definition constructed (R : list loc) (s : LogState) (r : outcome (option loc * LogState)) : Prop :=
  ∃ o s', r = Ok (o, s') ∧ log_steps R s s' ∧
    ∀ x, o = Some x → is_Some (loggers s' !! x) ∧ x ∉ R.

Lemma link_obtained R s m fac :
  obtained R s (m s) → constructed R s ((m ≫= λ x, link_logger x fac) s).
Proof.
  intros (o & s1 & Heq & Hk & Ho). st_simpl. rewrite Heq. destruct o as [x|]; [|by exists None, s1].
  destruct (link_logger_spec R x fac s1 Ho) as (y & s' & -> & Hok & Hd & Hy & Hl).
  exists (Some y), s'. split; [done|]. split.
  - split; [done|]. eapply log_kept_trans; [done|]. split; [|done]. intros z Hz. rewrite Hl.
    rewrite lookup_insert_ne; [done|]. intros ->. rewrite Hy in Hz. by destruct Hz.
  - intros ? [= <-]. assert (loggers s' !! y = Some (mkLogger (Some x) LOG_DEBUG fac 0)) as Hys
      by by rewrite Hl, lookup_insert_eq.
    split; [by eexists|]. intros Hin%occurrences_pos. pose proof (counted_count _ _ (inv_loggers _ _ _ (proj1 Hok)) y _ Hys) as Hc.
    rewrite occurrences_app in Hc. cbn in Hc. pose proof (occurrences_nonneg y (option_list (default_logger s'))). lia.
Qed.

Lemma constructed_null R s : log_ok R s → constructed R s (Ok (None, s)).
Proof. intros Hok. exists None, s. split; [done|]. split; [by apply log_steps_refl|done]. Qed.

Lemma new_syslog_logger_spec e R s fac : log_ok R s → constructed R s (new_syslog_logger e fac s).
Proof.
  intros Hok. unfold new_syslog_logger. destruct (lmalloc e sizeof_Logger); [|by apply constructed_null].
  by apply link_obtained, obtain_syslog_sink_spec.
Qed.

Lemma new_file_logger_spec e R s path :
  log_env_ok e → log_ok R s → can_log e s → 0 ∉ default [] path → constructed R s (new_file_logger e path s).
Proof.
  intros He Hok Hcan Hp. unfold new_file_logger. destruct (lmalloc e sizeof_Logger); [|by apply constructed_null].
  by apply link_obtained, obtain_file_sink_spec.
Qed.

Lemma reopen_sink_spec e R s x :
  log_env_ok e → log_ok R s → x ∈ sinks s →
  ∃ s', reopen_sink e x s = Ok ((), s') ∧ log_ok R s' ∧ sinks s' = sinks s ∧ default_logger s' = default_logger s.
Proof.
  intros He Hok Hx. destruct (sinks_live _ _ _ _ (proj1 Hok) Hx) as (k & Hk & Hwf).
  unfold reopen_sink, get_sink, deref, emit_log, not_null. st_simpl. rewrite Hk. st_simpl.
  assert (∀ ev s, log_ok R s → log_ok R (log_emit ev s)) as Hemit.
  { intros ev s0 Hok0. apply (log_ok_frame _ s0); [done..|apply Hok0|done]. }
  unfold sink_wf in Hwf. destruct (stype k); st_simpl.
  - eexists. split; [done|]. split; [by do 2 apply Hemit|done].
  - by exists s.
  - destruct Hwf as [_ Hfd]. destruct (sfd k) as [fd|]; [|done]. st_simpl. rewrite (env_freopen _ He). st_simpl.
    eexists. split; [done|]. split; [by apply Hemit|done].
Qed.

Lemma reopen_loggers_spec e R s :
  log_env_ok e → log_ok R s →
  ∃ s', reopen_loggers e s = Ok ((), s') ∧ log_ok R s' ∧ default_logger s' = default_logger s.
Proof.
  intros He Hok. unfold reopen_loggers. st_simpl.
  destruct (triple_for_each (λ s', log_ok R s' ∧ sinks s' = sinks s ∧ default_logger s' = default_logger s) (reopen_sink e) (sinks s)) with (s := s)
    as ([[] s'] & -> & Hok' & _ & Hd'); [|done|by exists s'].
  intros x Hx s1 (Hok1 & Hs1 & Hd1).
  destruct (reopen_sink_spec e R s1 x) as (s2 & -> & Hok2 & Hs2 & Hd2); [done|done|by rewrite Hs1|].
  exists ((), s2). split; [done|]. split; [done|]. cbn. split; congruence.
Qed.

Lemma set_default_logger_spec R s x :
  log_ok R s → is_Some (loggers s !! x) →
  ∃ s', set_default_logger (Some x) s = Ok ((), s') ∧ log_ok R s' ∧ default_logger s' = Some x.
Proof.
  intros Hok [l Hl]. unfold set_default_logger. st_simpl. cbn [non_null c_assert]. st_simpl.
  destruct (logger_ref_get_spec R s x l Hok Hl) as (s1 & -> & Hok1 & Hd1). st_simpl.
  assert (log_ok (option_list (default_logger s) ++ R) (set_default (Some x) s1)) as Hok2.
  { destruct Hok1 as [Hi Hu]. split; [|done]. constructor; try apply Hi. cbn [loggers default_logger set_default option_list].
    pose proof (inv_loggers _ _ _ Hi) as Hc. rewrite Hd1, <- Permutation_middle in Hc. exact Hc. }
  destruct (default_logger s) as [d|]; [|by eexists].
  destruct (logger_ref_put_spec R _ d Hok2) as (s' & -> & Hok' & Hd' & _). by exists s'.
Qed.

Lemma set_logger_priority_spec R s x prio :
  log_ok R s → is_Some (loggers s !! x) → LOG_EMERG ≤ prio ≤ LOG_DEBUG →
  ∃ s', set_logger_priority (Some x) prio s = Ok ((), s') ∧ log_steps R s s'.
Proof.
  intros Hok [l Hl] Hp. unfold set_logger_priority, not_null, get_logger, put_logger, deref. st_simpl.
  cbn [non_null c_assert]. st_simpl. unfold LOG_EMERG, LOG_DEBUG in *. cassert. st_simpl. rewrite Hl. st_simpl.
  eexists. split; [done|]. set (s' := set_loggers _ s). split; [|split; [|done]].
  - rewrite <- (set_default_same s'). apply (log_ok_logger R R s x l); [done..|].
    apply (counted_insert _ _ _ l); [apply Hok|done|done].
  - intros y Hy. cbn. destruct (decide (y = x)) as [->|]; [rewrite lookup_insert_eq; by eexists|by rewrite lookup_insert_ne].
Qed.

Lemma log_sink_ref_put_default x d s :
  log_sink_ref_put x (set_default d s) =
    match log_sink_ref_put x s with Ok (u, s') => Ok (u, set_default d s') | Fault f => Fault f end.
Proof.
  destruct x as [x|]; [|done].
  unfold log_sink_ref_put, free_sink, free_sink_block, get_sink, put_sink, deref, emit_log, not_null. st_simpl.
  cbn [sink_store set_default]. destruct (sink_store s !! x) as [k|]; [|done]. st_simpl.
  destruct (c_assert _) as [[]|]; [|done]. st_simpl. destruct (_ =? 0); [|done]. st_simpl.
  cbn [sinks set_sink_store set_default]. destruct (slist_remove (sinks s) x) as [l|]; [|done]. st_simpl.
  cbn [sink_store set_sinks set_sink_store set_default]. rewrite lookup_insert_eq. st_simpl. cbn.
  destruct (stype k); st_simpl; [done|done|]. by destruct (sfd k).
Qed.

Lemma logger_ref_put_default x d s :
  logger_ref_put x (set_default d s) =
    match logger_ref_put x s with Ok (u, s') => Ok (u, set_default d s') | Fault f => Fault f end.
Proof.
  destruct x as [x|]; [|done].
  unfold logger_ref_put, free_logger, free_logger_block, get_logger, put_logger, deref. st_simpl.
  cbn [loggers set_default]. destruct (loggers s !! x) as [l|]; [|done]. st_simpl.
  destruct (c_assert _) as [[]|]; [|done]. st_simpl. destruct (_ =? 0); [|done]. st_simpl.
  cbn [loggers set_loggers set_default]. rewrite lookup_insert_eq. st_simpl.
  change (set_loggers ?m (set_default d s)) with (set_default d (set_loggers m s)). rewrite log_sink_ref_put_default.
  by destruct (log_sink_ref_put _ _) as [[[] s']|].
Qed.

Lemma logger_ref_put_keeps o s u s' : logger_ref_put o s = Ok (u, s') → default_logger s' = default_logger s.
Proof.
  rewrite <- (set_default_same s) at 1. rewrite logger_ref_put_default.
  destruct (logger_ref_put o s) as [[[] s1]|]; [|done]. by intros [= <- <-].
Qed.

Lemma logger_ref_get_keeps o s u s' : logger_ref_get o s = Ok (u, s') → default_logger s' = default_logger s.
Proof.
  destruct o as [x|]; [|by intros [= <- <-]]. unfold logger_ref_get, get_logger, put_logger. st_simpl.
  destruct (deref (loggers s) x); st_simpl; [|done]. by intros [= <- <-].
Qed.

Lemma free_at_exit_spec R s :
  log_ok R s → ∃ s', free_at_exit s = Ok ((), s') ∧ log_ok R s' ∧ default_logger s' = None.
Proof.
  intros Hok. unfold free_at_exit. st_simpl. set (s0 := set_default None s).
  assert (log_ok (option_list (default_logger s) ++ R) s0) as Hok0.
  { destruct Hok as [Hi Hu]. split; [|done]. constructor; try apply Hi. }
  assert (logger_ref_put (default_logger s) s = logger_ref_put (default_logger s) (set_default (default_logger s) s0))
    as -> by by destruct s.
  rewrite logger_ref_put_default. destruct (default_logger s) as [d|].
  - destruct (logger_ref_put_spec R s0 d Hok0) as (s' & -> & Hok' & Hd' & _). st_simpl. eexists. split; [done|].
    replace (set_default None (set_default _ s')) with s' by (rewrite <- (set_default_same s'), Hd'; by destruct s').
    by rewrite Hd'.
  - cbn [logger_ref_put]. st_simpl. eexists. split; [done|]. by destruct s.
Qed.

Lemma fatal_spec e R s text :
  log_env_ok e → log_ok R s → can_log e s → 0 ∉ text → ∃ s', fatal e text s = Ok ((), s') ∧ log_ok R s'.
Proof.
  intros He Hok Hcan Ht. unfold fatal. st_simpl.
  destruct (log_default_spec e R s LOG_CRIT text) as (s1 & -> & Hok1 & _); [done..|]. st_simpl.
  destruct (triple_for_each (log_ok R) (λ _ : nat, free_at_exit) (seq 0 (exit_handlers s1))) with (s := s1)
    as ([[] s2] & -> & Hok2); [|done|].
  { intros _ _ s3 Hok3. destruct (free_at_exit_spec R s3 Hok3) as (s4 & -> & Hok4 & _). by exists ((), s4). }
  st_simpl. unfold emit_log. st_simpl. eexists. split; [done|].
  apply (log_ok_frame _ s2); [done..|apply Hok2|done].
Qed.

(** * Sequences of operations *)

Inductive log_op : Type :=
  | NewSyslogLogger (fac : list Z)
  | NewFileLogger (path : option (list Z))
  | ReopenLoggers
  | SetDefaultLogger (x : loc)
  | SetLoggerPriority (x : loc) (prio : Z)
  | LoggerRefGet (x : option loc)
  | LoggerRefPut (x : option loc)
  | LogMsg (x : loc) (prio : Z) (text : list Z)
  | LogDefault (prio : Z) (text : list Z)
  | Fatal (text : list Z).

Definition run_op (e : log_env) (op : log_op) : ST LogState unit :=
  match op with
  | NewSyslogLogger fac => new_syslog_logger e fac ≫= λ _, mret ()
  | NewFileLogger path => new_file_logger e path ≫= λ _, mret ()
  | ReopenLoggers => reopen_loggers e
  | SetDefaultLogger x => set_default_logger (Some x)
  | SetLoggerPriority x prio => set_logger_priority (Some x) prio
  | LoggerRefGet x => logger_ref_get x
  | LoggerRefPut x => logger_ref_put x
  | LogMsg x prio text => log_msg e (Some x) prio text
  | LogDefault prio text => log_default e prio text
  | Fatal text => fatal e text
  end.

(** What the callers keep to: they use loggers that exist, give back references that they
    hold, and write text without NULs. *)
Definition allowed (e : log_env) (R : list loc) (s : LogState) (op : log_op) (R' : list loc) : Prop :=
  match op with
  | NewSyslogLogger _ => R' = R
  | NewFileLogger path => R' = R ∧ can_log e s ∧ 0 ∉ default [] path
  | ReopenLoggers => R' = R
  | SetDefaultLogger x => R' = R ∧ is_Some (loggers s !! x)
  | SetLoggerPriority x prio => R' = R ∧ is_Some (loggers s !! x) ∧ LOG_EMERG ≤ prio ≤ LOG_DEBUG
  | LoggerRefGet x => R' = option_list x ++ R ∧ ∀ y, x = Some y → is_Some (loggers s !! y)
  | LoggerRefPut x => R ≡ₚ option_list x ++ R'
  | LogMsg x _ text => R' = R ∧ is_Some (loggers s !! x) ∧ 0 ∉ text
  | LogDefault _ text | Fatal text => R' = R ∧ can_log e s ∧ 0 ∉ text
  end.

Inductive log_reach : list loc → LogState → Prop :=
  | reach_init : log_reach [] log_init
  | reach_step R s e op R' s' :
      log_reach R s → log_env_ok e → allowed e R s op R' → run_op e op s = Ok ((), s') → log_reach R' s'.

Lemma run_op_ok e R s op R' :
  log_env_ok e → log_ok R s → allowed e R s op R' → ∃ s', run_op e op s = Ok ((), s') ∧ log_ok R' s'.
Proof.
  intros He Hok Hop. destruct op; cbn [run_op allowed] in *.
  - subst R'. destruct (new_syslog_logger_spec e R s fac Hok) as (o & s' & Heq & [Hok' _] & _).
    st_simpl. rewrite Heq. by exists s'.
  - destruct Hop as (-> & Hcan & Hp).
    destruct (new_file_logger_spec e R s path) as (o & s' & Heq & [Hok' _] & _); [done..|].
    st_simpl. rewrite Heq. by exists s'.
  - subst R'. destruct (reopen_loggers_spec e R s) as (s' & ? & ? & _); [done..|]. by exists s'.
  - destruct Hop as [-> Hx]. destruct (set_default_logger_spec R s x) as (s' & ? & ? & _); [done..|]. by exists s'.
  - destruct Hop as (-> & Hx & Hp). destruct (set_logger_priority_spec R s x prio) as (s' & ? & ? & _); [done..|].
    by exists s'.
  - destruct Hop as [-> Hx]. destruct x as [x|]; [|by exists s]. destruct (Hx x eq_refl) as [l Hl].
    destruct (logger_ref_get_spec R s x l Hok Hl) as (s' & ? & ? & _). by exists s'.
  - rewrite Hop in Hok. destruct x as [x|]; [|by exists s].
    destruct (logger_ref_put_spec R' s x Hok) as (s' & ? & ? & _). by exists s'.
  - destruct Hop as (-> & Hx & Ht). destruct (vlog_msg_spec e R s x prio text) as (s' & ? & ? & _); [done..|].
    by exists s'.
  - destruct Hop as (-> & Hx & Ht). destruct (log_default_spec e R s prio text) as (s' & ? & ? & _); [done..|].
    by exists s'.
  - destruct Hop as (-> & Hx & Ht). by apply fatal_spec.
Qed.

Lemma log_reach_ok R s : log_reach R s → log_ok R s.
Proof.
  induction 1 as [|R s e op R' s' _ IH He Hop Heq]; [apply log_init_ok|].
  destruct (run_op_ok e R s op R' He IH Hop) as (s'' & Heq' & Hok). congruence.
Qed.

(** * Properties *)


(** C28: a message that is at most as detailed as its logger wants is written once: to a
    file as one line of the date and the text, cut to the 1023 bytes the buffer holds,
    without any access outside the buffer; to syslog with the level of the logger; a more
    detailed one is dropped. *)
Theorem vlog_msg_writes e R s x l kx k prio text :
  log_ok R s → (∀ t, stamp_ok (strftime e t)) → 0 ∉ text →
  loggers s !! x = Some l → sink l = Some kx → sink_store s !! kx = Some k →
  ∃ s', vlog_msg e (Some x) prio text s = Ok ((), s') ∧
    log_trace s' = log_trace s ++
      (if priority l <? prio then []
       else match stype k, sfd k with
            | LOG_SINK_SYSLOG, _ => [LogSyslog (Z.lor (facility l) (priority l)) text]
            | _, None => []
            | _, Some fd => [LogLine fd (take 1023 (until_nul (stamp e s) ++ text) ++ [LF])]
            end).
Proof.
  intros Hok He Ht Hl Hkx Hk. exists (logged e l k prio text s). split.
  - eapply vlog_msg_eq; [done..| |done]. unfold stamp. destruct (_ =? _); [apply Hok|apply He].
  - unfold logged. destruct (_ <? _); [by rewrite app_nil_r|].
    destruct (stype k), (sfd k); rewrite ?app_nil_r; done.
Qed.

(** After a failed freopen the sink has no stream: the message about it is lost if it goes
    to that file, the next reopening passes NULL to freopen, and freeing the sink passes
    NULL to fclose. *)
Theorem failed_reopen_crashes e R s x k d :
  log_ok R s → default_logger s = Some d → (∀ t, stamp_ok (strftime e t)) →
  sink_store s !! x = Some k → stype k = LOG_SINK_FILE → freopen e (filepath k) = false →
  0 ∉ strerror e → 0 ∉ default [] (filepath k) →
  ∃ s', reopen_sink e x s = Ok ((), s') ∧
        (∀ e', reopen_sink e' x s' = Fault NullDereference) ∧
        free_sink (Some x) s' = Fault NullDereference.
Proof.
  intros Hok Hd He Hk Hty Hre Herr Hpath. pose proof (inv_wf _ _ _ (proj1 Hok) x k Hk) as Hwf.
  unfold sink_wf in Hwf. rewrite Hty in Hwf. destruct Hwf as [Hp Hfd].
  destruct (filepath k) as [p|] eqn:Hfp; [|done]. destruct (sfd k) as [fd|] eqn:Hsfd; [|done].
  assert (is_Some (loggers s !! d)) as [l Hl].
  { apply (inv_loggers _ _ _ (proj1 Hok)). rewrite Hd. left. }
  destruct (logger_live R s d l Hok Hl) as (kx & k' & Hkx & Hk').
  unfold reopen_sink at 1, get_sink, put_sink, deref, not_null. st_simpl. rewrite Hk. st_simpl. rewrite Hty, Hsfd.
  st_simpl. rewrite Hfp, Hre. st_simpl. set (s1 := set_sink_store _ s).
  unfold err, log_default, init_default_logger. st_simpl. cbn [default_logger s1 set_sink_store]. rewrite Hd. st_simpl.
  cbn [default_logger s1 set_sink_store]. rewrite Hd.
  assert (∃ k1, sink_store s1 !! kx = Some k1) as [k1 Hk1].
  { cbn. destruct (decide (kx = x)) as [->|]; [rewrite lookup_insert_eq|rewrite lookup_insert_ne by done]; eauto. }
  erewrite (vlog_msg_eq e s1 d l kx k1); [|done|done|done| |].
  2: { unfold stamp. destruct (_ =? _); [apply Hok|apply He]. }
  2: { rewrite !not_elem_of_app. split_and!; [|done| |done]; apply (bool_decide_unpack _); by vm_compute. }
  eexists. split; [done|]. set (s2 := logged _ _ _ _ _ _).
  assert (sink_store s2 = sink_store s1) as Hs2.
  { unfold s2, logged. destruct (_ <? _); [done|]. by destruct (stype k1), (sfd k1). }
  assert (sinks s2 = sinks s) as Hl2.
  { unfold s2, logged. destruct (_ <? _); [done|]. by destruct (stype k1), (sfd k1). }
  split.
  - intros e'. unfold reopen_sink, get_sink, deref, not_null. st_simpl. rewrite Hs2. cbn.
    rewrite lookup_insert_eq. st_simpl. cbn. rewrite ?Hty. by st_simpl.
  - unfold free_sink, get_sink, deref, not_null. st_simpl. rewrite Hl2.
    destruct (slist_remove_spec (sinks s) x) as (l' & -> & _); [|apply Hok|].
    { apply (inv_linked _ _ _ (proj1 Hok)). by eexists. }
    st_simpl. cbn [sink_store set_sinks]. rewrite Hs2. cbn. rewrite lookup_insert_eq. st_simpl. cbn. rewrite ?Hty.
    by st_simpl.
Qed.

(** * Witnesses *)

Definition ex_date : list Z := bytes "2024-01-01 00:00:00 " ++ replicate 12 0.
Definition ex_log_env (ok : bool) : log_env :=
  mkLogEnv (λ _, true) (λ _, true) (λ _, Some 5) (λ _, ok) (bytes "No such file") 1 (λ _, ex_date).

Lemma ex_stamp : ∀ t, stamp_ok (strftime (ex_log_env true) t).
Proof. intros t. split; [done|]. apply (bool_decide_unpack _). by vm_compute. Qed.

Lemma ex_log_env_ok : log_env_ok (ex_log_env true).
Proof. constructor; [apply ex_stamp|done|done]. Qed.

Definition ex_path : list Z := bytes "/var/log/sniproxy.log".

(** The state after a message to the default logger and a new file logger, to which a
    reference is taken. *)
Definition ex_ops : list log_op :=
  [LogDefault LOG_NOTICE (bytes "started"); NewFileLogger (Some ex_path); LoggerRefGet (Some 2%positive)].
Definition ex_log (n : nat) : LogState :=
  foldl (λ s op, match run_op (ex_log_env true) op s with Ok (_, s') => s' | Fault _ => s end) log_init (take n ex_ops).

Lemma ex_reach : log_reach [2%positive] (ex_log 3).
Proof.
  assert (log_reach [] (ex_log 1)) as H1.
  { eapply (reach_step [] log_init _ (LogDefault LOG_NOTICE (bytes "started"))); [constructor|apply ex_log_env_ok| |by vm_compute].
    split_and!; [done|by right|no_nul]. }
  assert (log_reach [] (ex_log 2)) as H2.
  { eapply (reach_step [] (ex_log 1) _ (NewFileLogger (Some ex_path))); [done|apply ex_log_env_ok| |by vm_compute].
    split_and!; [done|by right|no_nul]. }
  eapply (reach_step [] (ex_log 2) _ (LoggerRefGet (Some 2%positive))); [done|apply ex_log_env_ok| |by vm_compute].
  split; [done|]. intros ? [= <-]. by eexists.
Qed.

Lemma ex_log_ok : log_ok [2%positive] (ex_log 3).
Proof. apply log_reach_ok, ex_reach. Qed.


Lemma vlog_msg_writes_witness :
  ∃ s', vlog_msg (ex_log_env true) (Some 2%positive) LOG_INFO (bytes "hello") (ex_log 3) = Ok ((), s') ∧
    log_trace s' = log_trace (ex_log 3) ++ [LogLine 5 (bytes "2024-01-01 00:00:00 hello" ++ [LF])].
Proof.
  apply (vlog_msg_writes (ex_log_env true) [2%positive] (ex_log 3) 2%positive
    (mkLogger (Some 2%positive) LOG_DEBUG 0 1) 2%positive (mkSink LOG_SINK_FILE (Some ex_path) (Some 5) 1));
    [apply ex_log_ok|apply ex_stamp|no_nul|by vm_compute..].
Defined.

Lemma failed_reopen_crashes_witness :
  ∃ s', reopen_sink (ex_log_env false) 2%positive (ex_log 3) = Ok ((), s') ∧
        (∀ e', reopen_sink e' 2%positive s' = Fault NullDereference) ∧
        free_sink (Some 2%positive) s' = Fault NullDereference.
Proof.
  apply (failed_reopen_crashes (ex_log_env false) [2%positive] (ex_log 3) 2%positive
    (mkSink LOG_SINK_FILE (Some ex_path) (Some 5) 1) 1%positive);
    [apply ex_log_ok|by vm_compute|apply ex_stamp|by vm_compute..|done|done|no_nul|no_nul].
Defined.
