(* ===== verification/ListenerReload.v ===== *)
(** The life of a listener (src/listener.c): opening its socket, suspending it, replacing its
    configuration when the configuration file is reloaded, and freeing it with the last
    reference.  Listeners, tables and loggers refer to each other, so the operations here
    are on a state that holds all three stores. *)

From S2P Require Import Prelude CString Protocol RefCount Tls Http Address Backend Table Listener Logger.
From stdpp Require Import list gmap sorting.

#[local] Open Scope Z_scope.

(** * Data *)

(** What listeners do to the outside. *)
Inductive sock_event : Type :=
  | SockOpen (fd : Z)                     (* socket, or a socket from the binder *)
  | SockBind (fd : Z) (addr : list Z)
  | SockListen (fd : Z)
  | SockClose (fd : Z)
  | SockLog (prio : Z) (text : list Z).   (* a message *)

Record world (pcre : Type) := mkWorld {
  wtables    : gmap loc (Table pcre);
  wlisteners : gmap loc Listener;
  wlog       : LogState;
  wsock      : list sock_event
}.
Arguments mkWorld {pcre} _ _ _ _.
Arguments wtables {pcre} _.
Arguments wlisteners {pcre} _.
Arguments wlog {pcre} _.
Arguments wsock {pcre} _.

Definition set_wtables {pcre} (x : gmap loc (Table pcre)) (w : world pcre) : world pcre :=
  mkWorld x (wlisteners w) (wlog w) (wsock w).
Definition set_wlisteners {pcre} (x : gmap loc Listener) (w : world pcre) : world pcre :=
  mkWorld (wtables w) x (wlog w) (wsock w).
Definition set_wlog {pcre} (x : LogState) (w : world pcre) : world pcre :=
  mkWorld (wtables w) (wlisteners w) x (wsock w).
Definition sock_emit {pcre} (e : sock_event) (w : world pcre) : world pcre :=
  mkWorld (wtables w) (wlisteners w) (wlog w) (wsock w ++ [e]).

(** Fields of a listener that change at run time. *)
Definition set_ltable (t : option loc) (l : Listener) : Listener :=
  mkListener (laddress l) (fallback_address l) (source_address l) (protocol l) (table_name l) (access_log l)
    (log_bad_requests l) (reuseport l) (transparent_proxy l) (ipv6_v6only l)
    (fallback_use_proxy_header l) (lreference_count l) (watcher_fd l) (watcher_active l)
    (backoff_active l) t (accept_cb l).
Definition set_watch (fd : Z) (active backoff : bool) (l : Listener) : Listener :=
  mkListener (laddress l) (fallback_address l) (source_address l) (protocol l) (table_name l) (access_log l)
    (log_bad_requests l) (reuseport l) (transparent_proxy l) (ipv6_v6only l)
    (fallback_use_proxy_header l) (lreference_count l) fd active backoff (ltable l) (accept_cb l).
Definition set_access_log (a : option loc) (l : Listener) : Listener :=
  mkListener (laddress l) (fallback_address l) (source_address l) (protocol l) (table_name l) a
    (log_bad_requests l) (reuseport l) (transparent_proxy l) (ipv6_v6only l)
    (fallback_use_proxy_header l) (lreference_count l) (watcher_fd l) (watcher_active l)
    (backoff_active l) (ltable l) (accept_cb l).

#[export] Program Instance Listener_refcounted : RefCounted Listener := {|
  count := lreference_count;
  set_count := set_lrefs
|}.
Solve All Obligations with done.

#[export] Program Instance Table_refcounted {pcre} : RefCounted (Table pcre) := {|
  count := reference_count;
  set_count := set_refs
|}.
Solve All Obligations with done.

(** What the system answers while the sockets of listeners are opened. *)
Record sock_env := mkSockEnv {
  lsocket     : loc → Z → Z;          (* socket, of an address family *)
  lsetsockopt : loc → Z → Z;          (* setsockopt, of an option *)
  lbind       : loc → Z * Z;          (* bind: result and errno *)
  lbinder     : loc → Z;              (* bind_socket of binder.c *)
  llisten     : loc → Z;
  lerrno      : loc → Z;              (* errno after a failed socket, setsockopt or listen *)
  lstrerror   : Z → list Z            (* strerror *)
}.

Definition SO_REUSEADDR : Z := 2.
Definition SO_KEEPALIVE : Z := 9.
Definition SO_REUSEPORT : Z := 15.
Definition IPV6_V6ONLY : Z := 26.
Definition EACCES : Z := 13.
Definition ENFILE : Z := 23.
Definition EMFILE : Z := 24.
Definition ENOSYS : Z := 38.

Section reload.
Context {pcre : Type} (pcre_compile : list Z → option pcre).
(** The socket options the platform has. *)
Context (have_reuseport have_v6only : bool) (inet_ntop : Z → list Z → list Z).
Local Abbreviation W := (ST (world pcre)).

Definition on_tables (f : gmap loc (Table pcre) → outcome (gmap loc (Table pcre))) : W unit :=
  zoom wtables set_wtables (λ h, h' ← f h; Ok ((), h')).
Definition on_listeners {A} (f : gmap loc Listener → outcome (A * gmap loc Listener)) : W A :=
  zoom wlisteners set_wlisteners f.
Definition on_log {A} (m : ST LogState A) : W A := zoom wlog set_wlog m.

Definition get_listener (x : loc) : W Listener := h ← gets wlisteners; lift (deref h x).
Definition set_listener (x : loc) (f : Listener → Listener) : W unit :=
  h ← gets wlisteners;
  l ← lift (deref h x);
  modify (set_wlisteners (<[x := f l]> h)).
Definition emit_sock (e : sock_event) : W unit := modify (sock_emit e).

(** * Messages

    What [listener.c] says is recorded among the events of the sockets, in its place, and written
    by [with_messages] when the operation has ended.  Meanwhile only references to access logs
    are given back or taken, and the default logger has its own references. *)

Definition sock_say (prio : Z) (text : list Z) : W unit := emit_sock (SockLog prio text).

(** [display_address] into a buffer of [ADDRESS_BUFFER_SIZE], printed with [%s]. *)
Definition show_address (a : option Address) : outcome (list Z) :=
  d ← display_address inet_ntop a ADDRESS_BUFFER_SIZE; Ok (default (bytes "(null)") d).

(** The text of a message is a C string. *)
Fixpoint write_messages (ge : log_env) (evs : list sock_event) : W unit :=
  match evs with
  | [] => mret ()
  | SockLog prio text :: evs' => on_log (log_default ge prio (until_nul text)) ≫= λ _, write_messages ge evs'
  | _ :: evs' => write_messages ge evs'
  end.

Definition with_messages (ge : log_env) {A} (m : W A) : W A :=
  before ← gets wsock;
  a ← m;
  after ← gets wsock;
  write_messages ge (drop (length before) after) ≫= λ _,
  mret a.

(** * Opening the socket *)

(** One [setsockopt] of [init_listener]; [-ENOSYS] where the platform lacks the option.  A
    failure closes the socket; [None] goes on. *)
Definition set_option (e : sock_env) (x : loc) (fd option : Z) (text : string) (have wanted : bool)
    : W (Datatypes.option Z) :=
  if negb wanted then mret None else
  let result := if have then lsetsockopt e x option else - ENOSYS in
  if result <? 0 then
    sock_say LOG_ERR (bytes "setsockopt " ++ bytes text ++ bytes " failed: " ++ lstrerror e (lerrno e x)) ≫= λ _,
    emit_sock (SockClose fd) ≫= λ _, mret (Some result)
  else mret None.

(** The socket bound to the address: the system call, or else the binder. *)
Definition bind_listener (e : sock_env) (x : loc) (l : Listener) (fd : Z) (sa : list Z) : W (Z + Z) :=
  emit_sock (SockBind fd sa) ≫= λ _,
  let '(result, errno) := lbind e x in
  if (result <? 0) && (errno =? EACCES) then
    emit_sock (SockClose fd) ≫= λ _,
    let fd := lbinder e x in
    if fd <? 0 then
      address ← lift (show_address (laddress l));
      sock_say LOG_ERR (bytes "binder failed to bind to " ++ address) ≫= λ _,
      mret (inl fd)
    else emit_sock (SockOpen fd) ≫= λ _, mret (inr fd)
  else if result <? 0 then
    address ← lift (show_address (laddress l));
    sock_say LOG_ERR (bytes "bind " ++ address ++ bytes " failed: " ++ lstrerror e errno) ≫= λ _,
    emit_sock (SockClose fd) ≫= λ _, mret (inl result)
  else mret (inr fd).

(** The part of [init_listener] after the table and the fallback address are set. *)
Definition open_listener (e : sock_env) (x : loc) (l : Listener) (sa : list Z) : W Z :=
  family ← lift (sa_family sa);
  let sockfd := lsocket e x family in
  if sockfd <? 0 then sock_say LOG_ERR (bytes "socket failed: " ++ lstrerror e (lerrno e x)) ≫= λ _, mret sockfd else
  emit_sock (SockOpen sockfd) ≫= λ _,
  r ← set_option e x sockfd SO_REUSEADDR "SO_REUSEADDR" true true;
  if r is Some result then mret result else
  r ← set_option e x sockfd SO_KEEPALIVE "SO_KEEPALIVE" true true;
  if r is Some result then mret result else
  r ← set_option e x sockfd SO_REUSEPORT "SO_REUSEPORT" have_reuseport (reuseport l =? 1);
  if r is Some result then mret result else
  r ← set_option e x sockfd IPV6_V6ONLY "IPV6_V6ONLY" have_v6only ((ipv6_v6only l =? 1) && (family =? AF_INET6));
  if r is Some result then mret result else
  b ← bind_listener e x l sockfd sa;
  match b with
  | inl result => mret result
  | inr sockfd =>
      emit_sock (SockListen sockfd) ≫= λ _,
      let result := llisten e x in
      if result <? 0 then
        sock_say LOG_ERR (bytes "listen failed: " ++ lstrerror e (lerrno e x)) ≫= λ _,
        emit_sock (SockClose sockfd) ≫= λ _, mret result
      else
        set_listener x (λ l, set_watch sockfd true (backoff_active l) l) ≫= λ _,
        mret sockfd
  end.

(** [address_sa(listener->address)]: NULL is dereferenced for its family. *)
Definition listener_sa (l : Listener) : outcome (list Z) :=
  match laddress l with
  | None => Fault NullDereference
  | Some a => match address_sa a with None => Fault NullDereference | Some sa => Ok sa end
  end.

(** A fallback address without a port gets the port of the listener. *)
Definition inherit_port (l : Listener) : outcome Listener :=
  match fallback_address l with
  | None => Ok l
  | Some f =>
      p ← address_port f;
      if p =? 0 then
        port ← port_of (laddress l);
        f ← address_set_port f port;
        Ok (set_fallback (Some f) (fallback_use_proxy_header l) l)
      else Ok l
  end.

Definition init_listener (e : sock_env) (x : loc) (tables : list loc) : W Z :=
  l ← get_listener x;
  h ← gets wtables;
  table ← lift (table_lookup h tables (table_name l));
  match table with
  | None =>
      sock_say LOG_ERR (bytes "Table " ++ [34] ++ default (bytes "(null)") (table_name l) ++ [34] ++ bytes " not defined") ≫= λ _,
      mret (-1)
  | Some t =>
      on_tables (λ h, init_table pcre_compile h t) ≫= λ _,
      on_tables (λ h, table_ref_get h t) ≫= λ _,
      set_listener x (set_ltable (Some t)) ≫= λ _,
      l ← get_listener x;
      l ← lift (inherit_port l);
      set_listener x (λ _, l) ≫= λ _,
      sa ← lift (listener_sa l);
      open_listener e x l sa
  end.

(** [true] when a listener could not be initialised, which ends the program. *)
Fixpoint init_listeners (e : sock_env) (listeners : list loc) (tables : list loc) : W bool :=
  match listeners with
  | [] => mret false
  | x :: listeners' =>
      r ← init_listener e x tables;
      if r <? 0 then
        l ← get_listener x;
        address ← lift (show_address (laddress l));
        sock_say LOG_ERR (bytes "Failed to initialize listener " ++ address) ≫= λ _,
        mret true
      else init_listeners e listeners' tables
  end.

(** * Closing and freeing *)

Definition close_listener (x : loc) : W unit :=
  set_listener x (λ l, set_watch (watcher_fd l) (watcher_active l) false l) ≫= λ _,
  l ← get_listener x;
  if 0 <=? watcher_fd l then
    emit_sock (SockClose (watcher_fd l)) ≫= λ _,
    set_listener x (λ l, set_watch (-1) false (backoff_active l) l)
  else mret ().

Definition free_listener (x : option loc) : W unit :=
  match x with
  | None => mret ()
  | Some x =>
      l ← get_listener x;
      on_tables (λ h, table_ref_put h (ltable l)) ≫= λ _,
      on_log (logger_ref_put (access_log l)) ≫= λ _,
      modify (λ w, set_wlisteners (delete x (wlisteners w)) w)
  end.

Definition listener_ref_put (x : option loc) : W unit :=
  match x with
  | None => mret ()
  | Some x =>
      l ← get_listener x;
      lift (c_assert (0 <? lreference_count l)) ≫= λ _,
      let n := lreference_count l - 1 in
      set_listener x (set_lrefs n) ≫= λ _,
      if n =? 0 then free_listener (Some x) else mret ()
  end.

Definition remove_listener (listeners : list loc) (x : loc) : W (list loc) :=
  close_listener x ≫= λ _,
  listeners ← lift (slist_remove listeners x);
  listener_ref_put (Some x) ≫= λ _,
  mret listeners.

(** The loop removes the first listener until there is none. *)
Fixpoint free_listeners (listeners : list loc) : W unit :=
  match listeners with
  | [] => mret ()
  | x :: listeners' =>
      close_listener x ≫= λ _, listener_ref_put (Some x) ≫= λ _, free_listeners listeners'
  end.

(** * Reloading *)

Definition move_config (existing new : Listener) : Listener :=
  mkListener (laddress existing) (fallback_address new) (source_address new) (protocol new) (table_name new)
    (access_log new) (log_bad_requests new) (reuseport existing) (transparent_proxy existing) (ipv6_v6only existing)
    (fallback_use_proxy_header existing) (lreference_count existing) (watcher_fd existing) (watcher_active existing)
    (backoff_active existing) (ltable existing) (accept_cb existing).
Definition moved_config (new : Listener) : Listener :=
  mkListener (laddress new) None None (protocol new) None (access_log new) (log_bad_requests new) (reuseport new)
    (transparent_proxy new) (ipv6_v6only new) (fallback_use_proxy_header new) (lreference_count new) (watcher_fd new)
    (watcher_active new) (backoff_active new) (ltable new) (accept_cb new).

Definition listener_update (existing new : loc) (tables : list loc) : W unit :=
  le ← get_listener existing;
  ln ← get_listener new;
  lift (c_assert (address_compare (laddress le) (laddress ln) =? 0)) ≫= λ _,
  on_log (logger_ref_put (access_log le)) ≫= λ _,
  on_log (logger_ref_get (access_log ln)) ≫= λ _,
  set_listener existing (λ le, move_config le ln) ≫= λ _,
  set_listener new moved_config ≫= λ _,
  h ← gets wtables;
  new_table ← lift (table_lookup h tables (table_name ln));
  match new_table with
  | None => mret ()
  | Some t =>
      on_tables (λ h, init_table pcre_compile h t) ≫= λ _,
      on_tables (λ h, table_ref_put h (ltable le)) ≫= λ _,
      on_tables (λ h, table_ref_get h t) ≫= λ _,
      set_listener existing (set_ltable (Some t)) ≫= λ _,
      on_tables (λ h, table_ref_put h (ltable ln)) ≫= λ _,
      set_listener new (set_ltable None)
  end.

(** [SLIST_NEXT]. *)
Fixpoint next_of (l : list loc) (x : loc) : option loc :=
  match l with
  | [] => None
  | y :: l' => if bool_decide (y = x) then head l' else next_of l' x
  end.

Definition compare_iters (e n : option loc) : W Z :=
  match e, n with
  | None, _ => mret 1
  | _, None => mret (-1)
  | Some e, Some n =>
      le ← get_listener e; ln ← get_listener n; mret (address_compare (laddress le) (laddress ln))
  end.

(** [notice("Listener %s ...")]. *)
Definition announce (x : loc) (what : string) : W unit :=
  l ← get_listener x;
  address ← lift (show_address (laddress l));
  sock_say LOG_NOTICE (bytes "Listener " ++ address ++ bytes what).

(** The loop of [listeners_reload] over the two lists and the two iterators. *)
Fixpoint reload_iters (fuel : nat) (e : sock_env) (existing new tables : list loc)
    (iter_existing iter_new : option loc) : W (list loc * list loc) :=
  match iter_existing, iter_new with
  | None, None => mret (existing, new)
  | _, _ =>
      match fuel with
      | O => raise OutOfFuel
      | S fuel =>
          compare_result ← compare_iters iter_existing iter_new;
          if 0 <? compare_result then
            new_listener ← not_null iter_new;
            let iter_new := next_of new new_listener in
            announce new_listener " added." ≫= λ _,
            new ← lift (slist_remove new new_listener);
            existing ← on_listeners (λ h, '(h, l) ← add_listener h existing new_listener; Ok (l, h));
            init_listener e new_listener tables ≫= λ _,
            listener_ref_put (Some new_listener) ≫= λ _,
            reload_iters fuel e existing new tables iter_existing iter_new
          else if compare_result =? 0 then
            ie ← not_null iter_existing;
            i ← not_null iter_new;
            announce ie " updated." ≫= λ _,
            listener_update ie i tables ≫= λ _,
            reload_iters fuel e existing new tables (next_of existing ie) (next_of new i)
          else
            removed_listener ← not_null iter_existing;
            let iter_existing := next_of existing removed_listener in
            announce removed_listener " removed." ≫= λ _,
            existing ← remove_listener existing removed_listener;
            reload_iters fuel e existing new tables iter_existing iter_new
      end
  end.

Definition listeners_reload (e : sock_env) (existing new tables : list loc) : W (list loc * list loc) :=
  reload_iters (length existing + length new) e existing new tables (head existing) (head new).

(** * Callbacks of the event loop *)

(** [result] and [errno] are what the accept callback of the listener leaves. *)
Definition listener_accept_cb (x : loc) (revents result errno : Z) : W unit :=
  when (negb (Z.land revents 1 =? 0) && (result =? 0) && ((errno =? EMFILE) || (errno =? ENFILE)))
    (l ← get_listener x;
     address ← lift (show_address (laddress l));
     sock_say LOG_ERR (bytes "File descriptor limit reached! Suspending accepting new connections on " ++ address ++
                  bytes " for 2 seconds") ≫= λ _,
     set_listener x (λ l, set_watch (watcher_fd l) false true l)).

Definition EV_TIMER : Z := 256.

Definition backoff_timer_cb (x : loc) (revents : Z) : W unit :=
  when (negb (Z.land revents EV_TIMER =? 0))
    (set_listener x (λ l, set_watch (watcher_fd l) true false l)).
End reload.

(** * Output *)

Definition print_listener_config (inet_ntop : Z → list Z → list Z) (l : Listener) : outcome (list Z) :=
  address ← show_address inet_ntop (laddress l);
  fallback ← match fallback_address l with
             | None => Ok []
             | Some f =>
                 d ← show_address inet_ntop (Some f);
                 Ok ([9] ++ bytes "fallback " ++ d ++
                     (if fallback_use_proxy_header l then bytes " proxy" else []) ++ [LF])
             end;
  source ← match source_address l with
           | None => Ok []
           | Some a => d ← show_address inet_ntop (Some a); Ok ([9] ++ bytes "source " ++ d ++ [LF])
           end;
  Ok (bytes "listener " ++ address ++ bytes " {" ++ [LF] ++
      [9] ++ bytes "protocol " ++ bytes (name (protocol_of (protocol l))) ++ [LF] ++
      match table_name l with None => [] | Some n => [9] ++ bytes "table " ++ n ++ [LF] end ++
      fallback ++ source ++
      (if negb (reuseport l =? 0) then [9] ++ bytes "reuseport on" ++ [LF] else []) ++
      bytes "}" ++ [LF; LF]).

(** * Tables and loggers through their counts *)

Section counted_tables.
Context {pcre : Type} (pcre_compile : list Z → option pcre).
Implicit Types h : gmap loc (Table pcre).

(** An entry as the configuration leaves it: it has a pattern to compile, and its address is
    well formed and small. *)
Definition backend_ok (b : Backend pcre) : Prop :=
  pattern b ≠ None ∧ ∀ a, address b = Some a → address_wf a ∧ Zlen (adata a) < 2 ^ 32.

Definition backends_ok h : Prop := ∀ x t, h !! x = Some t → Forall backend_ok (backends t).

Lemma backend_ok_pattern bs : Forall backend_ok bs → Forall (λ b, pattern b ≠ None) bs.
Proof. intros H. eapply Forall_impl; [exact H|]. by intros b []. Qed.

Lemma backends_insert h x t :
  backends_ok h → Forall backend_ok (backends t) → backends_ok (<[x := t]> h).
Proof. intros Hp Ht y t'. rewrite lookup_insert_Some. intros [[_ <-]|[_ Hy]]; [done|by eapply Hp]. Qed.

Lemma table_ref_put_counted h o R :
  counted h (option_list o ++ R) → backends_ok h →
  ∃ h', table_ref_put h o = Ok h' ∧ counted h' R ∧ backends_ok h'.
Proof.
  intros Hc Hp. destruct o as [x|]; [|by exists h]. cbn [option_list app] in Hc.
  destruct (counted_put_pos _ _ _ Hc) as (t & Ht & Hpos). unfold table_ref_put, deref. rewrite Ht. outcome_simpl.
  cbn in Hpos. cassert. outcome_simpl.
  destruct (Z.eqb_spec (reference_count t - 1) 0).
  - eexists. split; [done|]. unfold free_table. rewrite delete_insert_eq. split.
    + eapply counted_put_last; [done|done|]. cbn. lia.
    + intros y t'. rewrite lookup_delete_Some. intros [_ Hy]. by eapply Hp.
  - eexists. split; [done|]. split.
    + refine (counted_put h R x t Hc Ht _). cbn. lia.
    + apply backends_insert; [done|exact (Hp x t Ht)].
Qed.

Lemma table_ref_get_counted h x R :
  counted h R → backends_ok h → is_Some (h !! x) →
  ∃ h', table_ref_get h x = Ok h' ∧ counted h' (x :: R) ∧ backends_ok h'.
Proof.
  intros Hc Hp [t Ht]. unfold table_ref_get, deref. rewrite Ht. outcome_simpl. eexists. split; [done|]. split.
  - exact (counted_get h R x t Hc Ht).
  - apply backends_insert; [done|exact (Hp x t Ht)].
Qed.

Lemma init_backends_keep bs bs' :
  Forall backend_ok bs → init_backends pcre_compile bs = Ok bs' → Forall backend_ok bs'.
Proof.
  intros Hbs. revert bs'. induction Hbs as [|b bs Hb Hbs IH]; cbn [init_backends]; intros bs'; [by intros [= <-]|].
  intros ([c b1] & H1 & H2)%outcome_bind_Ok. apply outcome_bind_Ok in H2 as (bs1 & H2 & [= <-]).
  constructor; [|by apply IH]. unfold init_backend in H1. destruct (pattern_re b); [by simplify_eq|].
  destruct Hb as [Hp Ha]. destruct (pattern b) as [p|] eqn:Hpb; [|done].
  destruct (pcre_compile p); simplify_eq; split; cbn; congruence || done.
Qed.

Lemma init_table_counted h x R :
  counted h R → backends_ok h → is_Some (h !! x) →
  ∃ h', init_table pcre_compile h x = Ok h' ∧ counted h' R ∧ backends_ok h' ∧
        (∀ y, is_Some (h !! y) → is_Some (h' !! y)).
Proof.
  intros Hc Hp [t Ht]. unfold init_table, deref. rewrite Ht. outcome_simpl.
  destruct (init_backends_Ok pcre_compile (backends t)) as [bs Hbs]; [by apply backend_ok_pattern, (Hp x)|]. rewrite Hbs. outcome_simpl.
  eexists. split; [done|]. split_and!.
  - by apply (counted_insert _ _ _ t).
  - apply backends_insert; [done|]. eapply init_backends_keep; [|done]. by apply (Hp x).
  - intros y Hy. destruct (decide (y = x)) as [->|]; [rewrite lookup_insert_eq; by eexists|by rewrite lookup_insert_ne].
Qed.

Lemma table_lookup_counted h R tables n :
  counted h R → (∀ x, x ∈ tables → x ∈ R) →
  ∃ o, table_lookup h tables n = Ok o ∧ ∀ x, o = Some x → x ∈ tables.
Proof.
  intros Hc. induction tables as [|x tables IH]; intros Ht; [by exists None|]. cbn [table_lookup].
  destruct (counted_live _ _ Hc x) as [t Hx]; [apply Ht; left|]. unfold deref. rewrite Hx. outcome_simpl.
  destruct (same_name (tname t) n); [exists (Some x); split; [done|]; intros ? [= <-]; left|].
  destruct IH as (o & -> & Ho); [intros; apply Ht; by right|]. exists o. split; [done|]. intros y Hy. right. by apply Ho.
Qed.
End counted_tables.

Lemma logger_ref_put_counted R s o :
  log_ok (option_list o ++ R) s → ∃ s', logger_ref_put o s = Ok ((), s') ∧ log_ok R s'.
Proof.
  destruct o as [x|]; [|by exists s]. intros Hok. destruct (logger_ref_put_spec R s x Hok) as (s' & ? & ? & _). by exists s'.
Qed.

Lemma log_ok_live R s x : log_ok R s → x ∈ R → is_Some (loggers s !! x).
Proof. intros [Hi _] Hx. apply (inv_loggers _ _ _ Hi), elem_of_app. by right. Qed.

Lemma logger_ref_get_counted R s o :
  log_ok R s → (∀ x, o = Some x → x ∈ R) → ∃ s', logger_ref_get o s = Ok ((), s') ∧ log_ok (option_list o ++ R) s'.
Proof.
  intros Hok Ho. destruct o as [x|]; [|by exists s]. destruct (log_ok_live R s x Hok (Ho x eq_refl)) as [l Hl].
  destruct (logger_ref_get_spec R s x l Hok Hl) as (s' & ? & ? & _). by exists s'.
Qed.

(** * The invariant of the three stores *)

Definition table_refs {pcre} (w : world pcre) : list loc := holders (λ l, option_list (ltable l)) (wlisteners w).
Definition log_refs {pcre} (w : world pcre) : list loc := holders (λ l, option_list (access_log l)) (wlisteners w).

(** A listener waits for connections, or for the end of its back-off. *)
Definition watched (l : Listener) : bool := watcher_active l || backoff_active l.

(** A listener of a configuration: its address and its source address are socket addresses,
    its fallback address a socket address or a host name, and its watchers are started only
    with a socket. *)
Record listener_wf (l : Listener) : Prop := {
  wf_address : ∃ a, laddress l = Some a ∧ address_wf a ∧ type a = SOCKADDR;
  wf_fallback f : fallback_address l = Some f → address_wf f ∧ (type f = SOCKADDR ∨ type f = HOSTNAME);
  wf_source a : source_address l = Some a → address_wf a ∧ type a = SOCKADDR;
  wf_watcher : watched l = true → 0 ≤ watcher_fd l
}.

(** [T] are the references to tables, [Ls] to listeners and [G] to loggers that are held
    from outside the stores: by the lists of a configuration and by connections. *)
Record world_counted {pcre} (T Ls G : list loc) (w : world pcre) : Prop := {
  ok_tables : counted (wtables w) (T ++ table_refs w);
  ok_backends : backends_ok (wtables w);
  ok_listeners : counted (wlisteners w) Ls;
  ok_log : log_ok (G ++ log_refs w) (wlog w)
}.

(** A listener that is still being configured has no reference. *)
Record world_ok {pcre} (T Ls G : list loc) (w : world pcre) : Prop := {
  ok_counted : world_counted T Ls G w;
  ok_wf x l : wlisteners w !! x = Some l → 0 < lreference_count l → listener_wf l
}.
Coercion ok_counted : world_ok >-> world_counted.

#[export] Instance world_counted_proper {pcre} :
  Proper ((≡ₚ) ==> (≡ₚ) ==> (≡ₚ) ==> eq ==> iff) (@world_counted pcre).
Proof.
  assert (∀ T T' Ls Ls' G G' (w : world pcre), T ≡ₚ T' → Ls ≡ₚ Ls' → G ≡ₚ G' →
    world_counted T Ls G w → world_counted T' Ls' G' w) as H.
  { intros ?????? w HT HL HG []. constructor; try done; by rewrite <- ?HT, <- ?HL, <- ?HG. }
  intros ?? H1 ?? H2 ?? H3 w _ <-. split; apply H; done.
Qed.

#[export] Instance world_ok_proper {pcre} :
  Proper ((≡ₚ) ==> (≡ₚ) ==> (≡ₚ) ==> eq ==> iff) (@world_ok pcre).
Proof.
  intros ?? H1 ?? H2 ?? H3 w _ <-. split; intros [Hc Hwf]; (split; [|done]);
    (eapply world_counted_proper; [| | | |exact Hc]; done).
Qed.

(** A listener with a reference from outside is well formed. *)
Lemma listener_held {pcre} T Ls G (w : world pcre) x :
  world_counted T Ls G w → x ∈ Ls → ∃ l, wlisteners w !! x = Some l ∧ 0 < lreference_count l.
Proof.
  intros Hw Hx. destruct (counted_live _ _ (ok_listeners _ _ _ _ Hw) x Hx) as [l Hl]. exists l. split; [done|].
  change (lreference_count l) with (count l). rewrite (counted_count _ _ (ok_listeners _ _ _ _ Hw) x l Hl).
  by apply occurrences_pos.
Qed.

Lemma listener_held_pos {pcre} T Ls G (w : world pcre) x l :
  world_counted T Ls G w → x ∈ Ls → wlisteners w !! x = Some l → 0 < lreference_count l.
Proof. intros Hw Hx Hl. destruct (listener_held _ _ _ _ x Hw Hx) as (l' & Hl' & ?). by simplify_eq. Qed.

Section operations.
Context {pcre : Type} (pcre_compile : list Z → option pcre) (have_reuseport have_v6only : bool)
  (inet_ntop : Z → list Z → list Z).
Implicit Types w : world pcre.

Lemma on_tables_eq f w :
  on_tables f w = match f (wtables w) with Ok h => Ok ((), set_wtables h w) | Fault e => Fault e end.
Proof. unfold on_tables, zoom. destruct (f (wtables w)); done. Qed.

Lemma on_log_eq {A} (m : ST LogState A) w :
  on_log m w = match m (wlog w) with Ok (a, s) => Ok (a, set_wlog s w) | Fault e => Fault e end.
Proof. unfold on_log, zoom. by destruct (m (wlog w)) as [[]|]. Qed.

Lemma get_listener_eq w x l : wlisteners w !! x = Some l → get_listener x w = Ok (l, w).
Proof. intros Hl. unfold get_listener, deref. st_simpl. rewrite Hl. by st_simpl. Qed.

Lemma set_listener_eq w x l f :
  wlisteners w !! x = Some l → set_listener x f w = Ok ((), set_wlisteners (<[x := f l]> (wlisteners w)) w).
Proof. intros Hl. unfold set_listener, deref. st_simpl. rewrite Hl. by st_simpl. Qed.

(** A change of a listener that keeps its references and its count. *)
Lemma world_counted_update T Ls G w x l l' :
  world_counted T Ls G w → wlisteners w !! x = Some l →
  ltable l' = ltable l → access_log l' = access_log l → lreference_count l' = lreference_count l →
  world_counted T Ls G (set_wlisteners (<[x := l']> (wlisteners w)) w).
Proof.
  intros [] Hl Ht Ha Hc. constructor; cbn [wtables wlisteners wlog set_wlisteners].
  - unfold table_refs. cbn. rewrite (holders_same _ _ x l) by (done || by rewrite Ht). done.
  - done.
  - by apply (counted_insert _ _ _ l).
  - unfold log_refs. cbn. rewrite (holders_same _ _ x l) by (done || by rewrite Ha). done.
Qed.

Lemma wf_insert (m : gmap loc Listener) x l' :
  (∀ y l, m !! y = Some l → 0 < lreference_count l → listener_wf l) → (0 < lreference_count l' → listener_wf l') →
  ∀ y l, <[x := l']> m !! y = Some l → 0 < lreference_count l → listener_wf l.
Proof. intros Hm Hl' y l. rewrite lookup_insert_Some. intros [[_ <-]|[_ Hy]]; [done|by eapply Hm]. Qed.

Lemma world_ok_update T Ls G w x l l' :
  world_ok T Ls G w → wlisteners w !! x = Some l →
  ltable l' = ltable l → access_log l' = access_log l → lreference_count l' = lreference_count l → listener_wf l' →
  world_ok T Ls G (set_wlisteners (<[x := l']> (wlisteners w)) w).
Proof.
  intros Hw Hl Ht Ha Hc Hwf. split; [apply (world_counted_update _ _ _ _ _ l); [apply Hw|done..]|]. cbn. by apply wf_insert; [apply Hw|].
Qed.

(** One more reference. *)
Lemma world_counted_get T Ls G w x l :
  world_counted T Ls G w → wlisteners w !! x = Some l →
  world_counted T (x :: Ls) G (set_wlisteners (<[x := set_lrefs (lreference_count l + 1) l]> (wlisteners w)) w).
Proof.
  intros [] Hl. constructor; cbn.
  - unfold table_refs. cbn. by rewrite (holders_same _ _ x l).
  - done.
  - exact (counted_get _ _ x l ok_listeners0 Hl).
  - unfold log_refs. cbn. by rewrite (holders_same _ _ x l).
Qed.

Lemma world_ok_get T Ls G w x l :
  world_ok T Ls G w → wlisteners w !! x = Some l → listener_wf l →
  world_ok T (x :: Ls) G (set_wlisteners (<[x := set_lrefs (lreference_count l + 1) l]> (wlisteners w)) w).
Proof.
  intros Hw Hl []. split; [by apply world_counted_get; [apply Hw|]|]. cbn. apply wf_insert; [apply Hw|]. by constructor.
Qed.

Lemma world_ok_sock T Ls G w evs : world_ok T Ls G w → world_ok T Ls G (mkWorld (wtables w) (wlisteners w) (wlog w) evs).
Proof. intros [[] ?]. split; [by constructor|done]. Qed.

Lemma world_ok_same T Ls G w w' :
  wtables w' = wtables w → wlisteners w' = wlisteners w → wlog w' = wlog w → world_ok T Ls G w → world_ok T Ls G w'.
Proof. destruct w, w'. cbn. intros -> -> -> [[] ?]. split; [by constructor|done]. Qed.

(** ** Messages *)

Lemma world_ok_log T Ls G w g : world_ok T Ls G w → log_ok (G ++ log_refs w) g → world_ok T Ls G (set_wlog g w).
Proof. intros [[] ?] Hg. split; [by constructor|done]. Qed.

Lemma write_messages_spec ge T Ls G evs w :
  log_env_ok ge → world_ok T Ls G w → can_log ge (wlog w) →
  ∃ g, write_messages ge evs w = Ok ((), set_wlog g w) ∧ world_ok T Ls G (set_wlog g w) ∧
    log_steps (G ++ log_refs w) (wlog w) g.
Proof.
  intros Hge Hw. revert w Hw. induction evs as [|ev evs IH]; intros w Hw Hcan.
  { exists (wlog w). split; [by destruct w|]. split; [by destruct w|]. exact (log_steps_refl _ _ (ok_log _ _ _ _ Hw)). }
  destruct ev; try by apply IH. cbn [write_messages]. rewrite bind_eq, on_log_eq.
  destruct (log_default_spec ge _ (wlog w) prio (until_nul text) Hge (ok_log _ _ _ _ Hw) Hcan) as (g & -> & Hg);
    [apply until_nul_free|].
  destruct (IH (set_wlog g w)) as (g' & Heq & Hw' & Hg'); [by apply world_ok_log; [|apply Hg]|by eapply can_log_steps|].
  exists g'. split_and!; [exact Heq|exact Hw'|by eapply log_steps_trans].
Qed.

Lemma with_messages_spec {A} ge T Ls G (m : ST (world pcre) A) w a w' :
  log_env_ok ge → m w = Ok (a, w') → world_ok T Ls G w' → can_log ge (wlog w') →
  ∃ g, with_messages ge m w = Ok (a, set_wlog g w') ∧ world_ok T Ls G (set_wlog g w') ∧
    log_steps (G ++ log_refs w') (wlog w') g.
Proof.
  intros Hge Hm Hw Hcan. unfold with_messages. st_simpl. rewrite Hm. st_simpl.
  destruct (write_messages_spec ge T Ls G (drop (length (wsock w)) (wsock w')) w' Hge Hw Hcan) as (g & -> & Hg).
  by exists g.
Qed.

Lemma wf_watch l fd active backoff :
  listener_wf l → (active || backoff = true → 0 ≤ fd) → listener_wf (set_watch fd active backoff l).
Proof. intros [] Hfd. by constructor. Qed.

(** * Closing and freeing *)

Definition closed_listener (l : Listener) : Listener :=
  if 0 <=? watcher_fd l then set_watch (-1) false false l
  else set_watch (watcher_fd l) (watcher_active l) false l.

Lemma close_listener_spec T Ls G w x l :
  world_ok T Ls G w → wlisteners w !! x = Some l → 0 < lreference_count l →
  ∃ w', close_listener x w = Ok ((), w') ∧ world_ok T Ls G w' ∧
    wlisteners w' = <[x := closed_listener l]> (wlisteners w) ∧
    wsock w' = wsock w ++ (if 0 <=? watcher_fd l then [SockClose (watcher_fd l)] else []).
Proof.
  intros Hw Hl Hpos. pose proof (ok_wf _ _ _ _ Hw x l Hl Hpos) as Hwf. unfold close_listener, closed_listener. st_simpl.
  rewrite (set_listener_eq _ _ _ _ Hl). st_simpl.
  erewrite get_listener_eq by (cbn; by rewrite lookup_insert_eq). st_simpl. cbn [watcher_fd set_watch].
  destruct (Z.leb_spec 0 (watcher_fd l)).
  - unfold emit_sock. st_simpl.
    erewrite set_listener_eq by (cbn; by rewrite lookup_insert_eq). eexists. split; [done|]. cbn. rewrite insert_insert_eq.
    split; [|done]. apply (world_ok_sock T Ls G (set_wlisteners _ w)).
    eapply world_ok_update; [done|done|done|done|done|]. apply wf_watch; [|done]. apply wf_watch; [done|intros; by apply (wf_watcher _ Hwf), orb_true_iff; left; rewrite orb_false_r in *].
  - st_simpl. eexists. split; [done|]. cbn. rewrite app_nil_r. split; [|done].
    eapply world_ok_update; [done|done|done|done|done|]. apply wf_watch; [done|intros; by apply (wf_watcher _ Hwf), orb_true_iff; left; rewrite orb_false_r in *].
Qed.

Lemma closed_listener_closed l :
  listener_wf l → watcher_fd (closed_listener l) < 0 ∧ watcher_active (closed_listener l) = false ∧
    backoff_active (closed_listener l) = false.
Proof.
  intros [_ _ _ Hact]. unfold closed_listener. destruct (Z.leb_spec 0 (watcher_fd l)); cbn; [done|].
  unfold watched in Hact. destruct (watcher_active l); [|done]. specialize (Hact eq_refl). lia.
Qed.

(** The last reference frees the listener and gives back its table and its log. *)
Lemma listener_ref_put_counted T Ls G w x :
  world_counted T (x :: Ls) G w →
  ∃ l w', wlisteners w !! x = Some l ∧ 0 < lreference_count l ∧
    listener_ref_put (Some x) w = Ok ((), w') ∧ world_counted T Ls G w' ∧
    (∀ y, y ≠ x → wlisteners w' !! y = wlisteners w !! y) ∧
    wlisteners w' !! x = (if lreference_count l =? 1 then None else Some (set_lrefs (lreference_count l - 1) l)) ∧
    wsock w' = wsock w.
Proof.
  intros Hw. destruct (counted_put_pos _ _ _ (ok_listeners _ _ _ _ Hw)) as (l & Hl & Hpos). cbn in Hpos. exists l.
  unfold listener_ref_put. st_simpl. rewrite (get_listener_eq _ _ _ Hl). st_simpl. cassert. st_simpl.
  rewrite (set_listener_eq _ _ _ _ Hl). st_simpl. set (w1 := set_wlisteners _ w).
  destruct (Z.eqb_spec (lreference_count l - 1) 0) as [H1|H1].
  - unfold free_listener. st_simpl. rewrite (get_listener_eq _ _ (set_lrefs (lreference_count l - 1) l))
      by (cbn; by rewrite lookup_insert_eq).
    st_simpl. cbn [ltable access_log set_lrefs]. set (m := delete x (wlisteners w)).
    assert (table_refs w ≡ₚ option_list (ltable l) ++ holders (λ l, option_list (ltable l)) m) as Ht
      by exact (holders_delete _ _ _ _ Hl).
    assert (log_refs w ≡ₚ option_list (access_log l) ++ holders (λ l, option_list (access_log l)) m) as Hg
      by exact (holders_delete _ _ _ _ Hl).
    destruct (table_ref_put_counted (wtables w) (ltable l) (T ++ holders (λ l, option_list (ltable l)) m))
      as (h' & Hput & Hch & Hp'); [|apply Hw|].
    { pose proof (ok_tables _ _ _ _ Hw) as Hc. rewrite Ht in Hc. by rewrite Permutation_app_swap_app in Hc. }
    rewrite on_tables_eq. cbn [w1 wtables set_wlisteners]. rewrite Hput. st_simpl.
    destruct (logger_ref_put_counted (G ++ holders (λ l, option_list (access_log l)) m) (wlog w) (access_log l))
      as (s' & Hlput & Hlog').
    { pose proof (ok_log _ _ _ _ Hw) as Hc. rewrite Hg in Hc. by rewrite Permutation_app_swap_app in Hc. }
    rewrite on_log_eq. cbn [w1 wlog set_wlisteners set_wtables]. rewrite Hlput. st_simpl.
    eexists. split; [done|]. split; [done|]. split; [done|]. cbn. rewrite delete_insert_eq. fold m.
    rewrite (proj2 (Z.eqb_eq _ 1)) by lia. split_and!; [|by intros; apply lookup_delete_ne|by apply lookup_delete_eq|done].
    constructor; cbn; [done|done| |done]. eapply counted_put_last; [apply Hw|done|]. cbn. lia.
  - st_simpl. eexists. split; [done|]. split; [done|]. split; [done|]. rewrite (proj2 (Z.eqb_neq _ 1)) by lia. cbn.
    split_and!; [|by intros; apply lookup_insert_ne|by apply lookup_insert_eq|done].
    constructor; cbn.
    + unfold table_refs. cbn. rewrite (holders_same _ _ x l) by done. apply Hw.
    + apply Hw.
    + refine (counted_put _ Ls x l (ok_listeners _ _ _ _ Hw) Hl _). cbn. lia.
    + unfold log_refs. cbn. rewrite (holders_same _ _ x l) by done. apply Hw.
Qed.

Lemma listener_ref_put_spec T Ls G w x :
  world_ok T (x :: Ls) G w →
  ∃ l w', wlisteners w !! x = Some l ∧ listener_ref_put (Some x) w = Ok ((), w') ∧ world_ok T Ls G w' ∧
    (∀ y, y ≠ x → wlisteners w' !! y = wlisteners w !! y) ∧
    wlisteners w' !! x = (if lreference_count l =? 1 then None else Some (set_lrefs (lreference_count l - 1) l)) ∧
    wsock w' = wsock w.
Proof.
  intros Hw. destruct (listener_ref_put_counted T Ls G w x Hw) as (l & w' & Hl & Hpos & Hput & Hw' & Hsame & Hx & Hs).
  exists l, w'. split_and!; try done. split; [done|]. intros y ly Hy Hly. destruct (decide (y = x)) as [->|Hne].
  - rewrite Hx in Hy. destruct (_ =? 1); [done|]. injection Hy as <-. pose proof (ok_wf _ _ _ _ Hw x l Hl Hpos) as []. by constructor.
  - rewrite Hsame in Hy by done. by apply (ok_wf _ _ _ _ Hw y).
Qed.

(** * Opening *)

(** The sockets that are open after a sequence of events. *)
Definition open_after (fds : list Z) (e : sock_event) : list Z :=
  match e with
  | SockOpen fd => fd :: fds
  | SockClose fd => filter (.≠ fd) fds
  | _ => fds
  end.
Definition open_fds (evs : list sock_event) : list Z := foldl open_after [] evs.

Lemma open_fds_snoc evs e : open_fds (evs ++ [e]) = open_after (open_fds evs) e.
Proof. unfold open_fds. by rewrite foldl_app. Qed.

(** The events [evs] and a new state of the listener [x], nothing else. *)
Definition opened w x (r : Z) w' : Prop :=
  ∃ evs, wtables w' = wtables w ∧ wlog w' = wlog w ∧ wsock w' = wsock w ++ evs ∧
    if r <? 0 then open_fds evs = [] ∧ wlisteners w' = wlisteners w
    else open_fds evs = [r] ∧ ∃ l, wlisteners w !! x = Some l ∧
         wlisteners w' = <[x := set_watch r true (backoff_active l) l]> (wlisteners w).

(** In the middle of [open_listener]: the socket [fd] is open. *)
Definition opening w fd w' : Prop :=
  ∃ evs, wtables w' = wtables w ∧ wlog w' = wlog w ∧ wlisteners w' = wlisteners w ∧
    wsock w' = wsock w ++ evs ∧ open_fds evs = [fd].

Lemma opening_close w x fd w' r : opening w fd w' → r < 0 → opened w x r (sock_emit (SockClose fd) w').
Proof.
  intros (evs & H1 & H2 & H3 & H4 & H5) Hr. exists (evs ++ [SockClose fd]). cbn. rewrite H4, (assoc_L (++)).
  rewrite (proj2 (Z.ltb_lt r 0)) by done. rewrite open_fds_snoc, H5. cbn [open_after].
  rewrite filter_cons, decide_False by auto. done.
Qed.

Lemma opening_emit w fd w' e : opening w fd w' → (∀ fds, open_after fds e = fds) → opening w fd (sock_emit e w').
Proof.
  intros (evs & H1 & H2 & H3 & H4 & H5) He. exists (evs ++ [e]). cbn. rewrite H4, (assoc_L (++)), open_fds_snoc, He. done.
Qed.

Lemma opened_log w x r w' prio text : opened w x r w' → r < 0 → opened w x r (sock_emit (SockLog prio text) w').
Proof.
  intros (evs & H1 & H2 & H3 & H4) Hr. exists (evs ++ [SockLog prio text]). cbn. rewrite H3, (assoc_L (++)).
  rewrite (proj2 (Z.ltb_lt r 0)) in * by done. by rewrite open_fds_snoc.
Qed.

Lemma show_address_Ok a : (∀ x, a = Some x → address_wf x) → ∃ text, show_address inet_ntop a = Ok text.
Proof.
  intros Ha. unfold show_address. destruct a as [x|]; [|by eexists].
  destruct (display_address_Ok inet_ntop x ADDRESS_BUFFER_SIZE (Ha x eq_refl)) as (t & ->). by eexists.
Qed.

Lemma set_option_spec e w x fd opt text have wanted w1 :
  opening w fd w1 →
  ∃ o w2, set_option e x fd opt text have wanted w1 = Ok (o, w2) ∧
    match o with None => w2 = w1 | Some r => opened w x r w2 end.
Proof.
  intros Ho. unfold set_option. destruct wanted; cbn [negb]; [|by exists None, w1].
  set (r := if have then _ else _). destruct (Z.ltb_spec r 0).
  - unfold sock_say, emit_sock. st_simpl. eexists (Some r), _. split; [done|]. apply opening_close; [by apply opening_emit|done].
  - by exists None, w1.
Qed.

Lemma bind_listener_spec e w x l fd sa w1 :
  opening w fd w1 → 0 ≤ fd → (∀ a, laddress l = Some a → address_wf a) →
  ∃ o w2, bind_listener inet_ntop e x l fd sa w1 = Ok (o, w2) ∧
    match o with inl r => opened w x r w2 | inr fd' => opening w fd' w2 ∧ 0 ≤ fd' end.
Proof.
  intros Ho Hfd Ha. destruct (show_address_Ok _ Ha) as (text & Htext).
  unfold bind_listener, sock_say, emit_sock. st_simpl. destruct (lbind e x) as [result errno].
  assert (opening w fd (sock_emit (SockBind fd sa) w1)) as Ho2 by by apply opening_emit.
  destruct (Z.ltb_spec result 0) as [Hr|Hr]; cbn [andb]; [destruct (errno =? EACCES)|]; st_simpl.
  - destruct (Z.ltb_spec (lbinder e x) 0) as [Hb|Hb]; st_simpl.
    + rewrite Htext. st_simpl. eexists (inl _), _. split; [done|]. apply opened_log; [by apply opening_close|done].
    + eexists (inr _), _. split; [done|]. split; [|done].
      pose proof (opening_close w x fd _ (-1) Ho2 ltac:(lia)) as (evs & H1 & H2 & H3 & H4 & H5).
      exists (evs ++ [SockOpen (lbinder e x)]). cbn in *. rewrite open_fds_snoc, H4. by rewrite H3, (assoc_L (++)).
  - rewrite Htext. st_simpl. eexists (inl _), _. split; [done|]. apply opening_close; [by apply opening_emit|done].
  - by eexists (inr _), _.
Qed.

Lemma open_listener_spec e w x l l0 sa f :
  sa_family sa = Ok f → wlisteners w !! x = Some l0 → (∀ a, laddress l = Some a → address_wf a) →
  ∃ r w', open_listener have_reuseport have_v6only inet_ntop e x l sa w = Ok (r, w') ∧ opened w x r w'.
Proof.
  intros Hf Hx Ha. unfold open_listener. st_simpl. rewrite Hf. st_simpl.
  destruct (Z.ltb_spec (lsocket e x f) 0) as [Hs|Hs].
  { unfold sock_say, emit_sock. st_simpl. eexists (lsocket e x f), _. split; [done|]. apply opened_log; [|done].
    exists []. rewrite app_nil_r. by rewrite (proj2 (Z.ltb_lt _ 0)). }
  unfold sock_say, emit_sock. st_simpl. set (fd := lsocket e x f) in *. set (w1 := sock_emit (SockOpen fd) w).
  assert (opening w fd w1) as H1 by by exists [SockOpen fd].
  do 4 (match goal with |- context [set_option e x fd ?o ?s ?h ?b w1] =>
    destruct (set_option_spec e w x fd o s h b w1 H1) as ([r|] & w2 & -> & H2);
      st_simpl; [by exists r, w2|subst w2] end).
  destruct (bind_listener_spec e w x l fd sa w1 H1 Hs Ha) as ([r|fd'] & w2 & -> & H2); st_simpl; [by exists r, w2|].
  destruct H2 as [H2 Hfd].
  assert (opening w fd' (sock_emit (SockListen fd') w2)) as H3 by by apply opening_emit.
  destruct (Z.ltb_spec (llisten e x) 0); st_simpl.
  - eexists (llisten e x), _. split; [done|]. apply opening_close; [by apply opening_emit|done].
  - destruct H3 as (evs & E1 & E2 & E3 & E4 & E5). rewrite (set_listener_eq _ _ l0) by by rewrite E3.
    st_simpl. eexists fd', _. split; [done|]. exists evs. cbn [wtables wlog wsock wlisteners set_wlisteners].
    rewrite E1, E2, E4, (proj2 (Z.ltb_ge fd' 0)) by done. split_and!; try done. exists l0. by rewrite E3.
Qed.

(** Only the table, the port of the fallback address and the watcher of a listener. *)
Definition init_from (l l' : Listener) : Prop :=
  laddress l' = laddress l ∧ access_log l' = access_log l ∧ lreference_count l' = lreference_count l ∧
  table_name l' = table_name l ∧ protocol l' = protocol l.

Lemma init_from_refl l : init_from l l.
Proof. unfold init_from. auto. Qed.

Lemma inherit_port_spec l :
  listener_wf l → ∃ l', inherit_port l = Ok l' ∧ listener_wf l' ∧ init_from l l' ∧ ltable l' = ltable l ∧
    watched l' = watched l.
Proof.
  intros Hwf. unfold inherit_port. destruct (fallback_address l) as [f|] eqn:Hf.
  2: { exists l. auto using init_from_refl. }
  destruct (wf_fallback _ Hwf f Hf) as [Hfwf Hty]. rewrite address_port_wf by done. outcome_simpl.
  destruct (_ =? 0); [|exists l; auto using init_from_refl].
  destruct (wf_address _ Hwf) as (a & Ha & Hawf & Hat). unfold port_of. rewrite Ha, address_port_wf by done. outcome_simpl.
  destruct (address_set_port_wf f (if is_unix a then 0 else aport a)) as (d & Heq & Hd & _ & _ & _); [done| |].
  { destruct (is_unix a); [by split|]. by destruct Hawf. }
  rewrite Heq. outcome_simpl. eexists. split; [done|]. split_and!; try done.
  destruct Hwf. constructor; [done| |done|done]. intros f'. cbn. intros [= <-]. by split.
Qed.

(** The listener takes a reference to its table. *)
Lemma world_ok_set_table T Ls G w x l t h :
  world_ok T Ls G w → wlisteners w !! x = Some l → 0 < lreference_count l → ltable l = None →
  counted h (t :: T ++ table_refs w) → backends_ok h →
  world_ok T Ls G (set_wlisteners (<[x := set_ltable (Some t) l]> (wlisteners w)) (set_wtables h w)).
Proof.
  intros Hw Hl Hpos Hnone Hc Hp. split; [constructor; cbn; [|done| |]|cbn].
  - unfold table_refs in *. cbn. rewrite holders_insert.
    rewrite (holders_delete _ _ x l Hl), Hnone in Hc. cbn in *. by rewrite <- Permutation_middle.
  - apply (counted_insert _ _ _ l); [apply Hw|done|done].
  - unfold log_refs. cbn. rewrite (holders_same _ _ x l) by done. apply Hw.
  - apply wf_insert; [apply Hw|]. pose proof (ok_wf _ _ _ _ Hw x l Hl Hpos) as []. by constructor.
Qed.

Lemma wf_laddress l : listener_wf l → ∀ a, laddress l = Some a → address_wf a.
Proof. intros Hwf. by destruct (wf_address _ Hwf) as (a & -> & ? & _); intros ? [= <-]. Qed.

Lemma listener_sa_wf l : listener_wf l → ∃ sa f, listener_sa l = Ok sa ∧ sa_family sa = Ok f.
Proof.
  intros Hwf. destruct (wf_address _ Hwf) as (a & Ha & Hawf & Ht). unfold listener_sa, address_sa. rewrite Ha, Ht.
  exists (adata a). destruct Hawf; try done; by eexists.
Qed.

Lemma init_listener_spec e T Ls G w x l tables :
  world_ok T Ls G w → wlisteners w !! x = Some l → 0 < lreference_count l → ltable l = None →
  (∀ t, t ∈ tables → t ∈ T) →
  ∃ r w' l' evs, init_listener pcre_compile have_reuseport have_v6only inet_ntop e x tables w = Ok (r, w') ∧
    world_ok T Ls G w' ∧ wlisteners w' = <[x := l']> (wlisteners w) ∧ init_from l l' ∧
    wsock w' = wsock w ++ evs ∧ open_fds evs = (if r <? 0 then [] else [r]) ∧
    (0 ≤ r → watcher_fd l' = r ∧ watcher_active l' = true ∧ ∃ t, ltable l' = Some t ∧ t ∈ tables) ∧
    (r < 0 → watched l' = watched l).
Proof.
  intros Hw Hl Hpos Hnone Htab. unfold init_listener. st_simpl. rewrite (get_listener_eq _ _ _ Hl). st_simpl.
  destruct (table_lookup_counted (wtables w) (T ++ table_refs w) tables (table_name l)) as (o & Hlook & Ho);
    [apply Hw|intros; apply elem_of_app; left; auto|].
  rewrite Hlook. st_simpl. destruct o as [t|].
  2: { unfold sock_say, emit_sock. st_simpl. eexists (-1), _, l, [_]. split; [done|]. cbn. rewrite insert_id by done.
       split_and!; auto using init_from_refl; [by apply world_ok_sock|lia]. }
  assert (t ∈ tables) as Ht by auto.
  destruct (init_table_counted pcre_compile (wtables w) t (T ++ table_refs w)) as (h1 & Hi1 & Hc1 & Hp1 & Hs1);
    [apply Hw..|apply (ok_tables _ _ _ _ Hw), elem_of_app; auto|].
  st_simpl. rewrite on_tables_eq, Hi1. st_simpl.
  destruct (table_ref_get_counted h1 t (T ++ table_refs w)) as (h2 & Hi2 & Hc2 & Hp2); [done|done| |].
  { apply Hs1, (ok_tables _ _ _ _ Hw), elem_of_app. auto. }
  rewrite on_tables_eq. cbn [wtables set_wtables]. rewrite Hi2. st_simpl.
  rewrite (set_listener_eq _ _ l) by done. st_simpl.
  pose proof (world_ok_set_table T Ls G w x l t h2 Hw Hl Hpos Hnone Hc2 Hp2) as Hw3. cbn in Hw3.
  set (l3 := set_ltable (Some t) l) in *.
  change (set_wlisteners (<[x := l3]> _) _) with (set_wlisteners (<[x := l3]> (wlisteners w)) (set_wtables h2 w)).
  set (w3 := set_wlisteners _ _) in *. assert (wlisteners w3 !! x = Some l3) as Hl3 by (cbn; by rewrite lookup_insert_eq).
  rewrite (get_listener_eq _ _ _ Hl3). st_simpl.
  destruct (inherit_port_spec l3) as (l4 & Hi4 & Hwf4 & (Ha4 & Hg4 & Hr4 & Hn4 & Hpr4) & Ht4 & Hac4); [by apply (ok_wf _ _ _ _ Hw3 x)|].
  rewrite Hi4. st_simpl. rewrite (set_listener_eq _ _ _ _ Hl3). st_simpl.
  destruct (listener_sa_wf l4 Hwf4) as (sa & f & Hsa & Hf). rewrite Hsa. st_simpl.
  pose proof (world_ok_update T Ls G w3 x l3 l4 Hw3 Hl3 Ht4 Hg4 Hr4 Hwf4) as Hw4. set (w4 := set_wlisteners _ w3) in *.
  assert (wlisteners w4 = <[x := l4]> (wlisteners w)) as Hlw4 by (cbn; by rewrite insert_insert_eq).
  destruct (open_listener_spec e w4 x l4 l4 sa f Hf) as (r & w5 & -> & evs & H1 & H2 & H3 & H4);
    [by rewrite Hlw4, lookup_insert_eq|by apply wf_laddress|].
  assert (init_from l l4) as Hfrom by by unfold init_from.
  destruct (Z.ltb_spec r 0) as [Hr|Hr]; destruct H4 as [H4 H5].
  - exists r, w5, l4, evs. rewrite (proj2 (Z.ltb_lt r 0)) by done. split_and!; try done; [| |lia].
    + by apply (world_ok_same _ _ _ w4).
    + by rewrite H5.
  - destruct H5 as (l5 & Hl5 & H5). rewrite Hlw4, lookup_insert_eq in Hl5. injection Hl5 as <-.
    exists r, w5, (set_watch r true (backoff_active l4) l4), evs. rewrite (proj2 (Z.ltb_ge r 0)) by done.
    split_and!; try done.
    + assert (wlisteners w4 !! x = Some l4) as Hl4 by by rewrite Hlw4, lookup_insert_eq.
      apply (world_ok_same _ _ _ (set_wlisteners (<[x := set_watch r true (backoff_active l4) l4]> (wlisteners w4)) w4));
        [done..|].
      apply (world_ok_update _ _ _ _ _ l4 _ Hw4 Hl4); [done..|by apply wf_watch].
    + by rewrite H5, Hlw4, insert_insert_eq.
    + intros _. split_and!; [done|done|]. exists t. split; [exact Ht4|done].
    + lia.
Qed.

(** * Updating *)

(** A listener that accepts connections has a table. *)
Definition tabled (l : Listener) : Prop := watched l = true → ltable l ≠ None.

(** The two listeners after an update; [t] is the new table of the existing one. *)
Definition updated_listeners (m : gmap loc Listener) (x y : loc) (le ln : Listener) (t : option loc) : gmap loc Listener :=
  <[y := moved_config ln]> (<[x := set_ltable t (move_config le ln)]> m).

Lemma updated_listeners_holders (f : Listener → list loc) m x y le ln t :
  m !! x = Some le → m !! y = Some ln → x ≠ y → f (moved_config ln) = f ln →
  holders f (updated_listeners m x y le ln t) ≡ₚ f (set_ltable t (move_config le ln)) ++ holders f (delete x m).
Proof.
  intros Hx Hy Hne Hf. unfold updated_listeners. rewrite (holders_same _ _ y ln); [|by rewrite lookup_insert_ne|done].
  apply holders_insert.
Qed.

Lemma updated_listeners_ok T Ls G w x y le ln t (h : gmap loc (Table pcre)) s :
  world_ok T Ls G w → wlisteners w !! x = Some le → wlisteners w !! y = Some ln → x ≠ y →
  0 < lreference_count le → 0 < lreference_count ln →
  counted h (option_list t ++ T ++ holders (λ l, option_list (ltable l)) (delete x (wlisteners w))) → backends_ok h →
  log_ok (option_list (access_log ln) ++ G ++ holders (λ l, option_list (access_log l)) (delete x (wlisteners w))) s →
  world_ok T Ls G (mkWorld h (updated_listeners (wlisteners w) x y le ln t) s (wsock w)).
Proof.
  intros Hw Hx Hy Hne Hxp Hyp Hh Hp Hs. split; [constructor|]; cbn [wtables wlisteners wlog].
  - unfold table_refs. cbn [wlisteners]. rewrite updated_listeners_holders by done. cbn [ltable set_ltable].
    by rewrite Permutation_app_swap_app.
  - done.
  - unfold updated_listeners. apply (counted_insert _ _ _ ln); [|by rewrite lookup_insert_ne|done].
    apply (counted_insert _ _ _ le); [apply Hw|done|done].
  - unfold log_refs. cbn [wlisteners]. rewrite updated_listeners_holders by done. cbn [access_log set_ltable move_config].
    by rewrite Permutation_app_swap_app.
  - pose proof (ok_wf _ _ _ _ Hw x le Hx Hxp) as []. pose proof (ok_wf _ _ _ _ Hw y ln Hy Hyp) as [].
    unfold updated_listeners. apply wf_insert; [apply wf_insert; [apply Hw|]|]; by constructor.
Qed.

Lemma listener_update_spec T Ls G w x y le ln tables :
  world_ok T Ls G w → wlisteners w !! x = Some le → wlisteners w !! y = Some ln → x ≠ y →
  0 < lreference_count le → 0 < lreference_count ln → ltable ln = None →
  address_compare (laddress le) (laddress ln) = 0 → (∀ t, t ∈ tables → t ∈ T) →
  ∃ w' t, listener_update pcre_compile x y tables w = Ok ((), w') ∧ world_ok T Ls G w' ∧
    wlisteners w' = updated_listeners (wlisteners w) x y le ln t ∧ (ltable le ≠ None → t ≠ None) ∧ wsock w' = wsock w.
Proof.
  intros Hw Hx Hy Hne Hxp Hyp Hnone Hcmp Htab. unfold listener_update. st_simpl.
  rewrite (get_listener_eq _ _ _ Hx). st_simpl. rewrite (get_listener_eq _ _ _ Hy). st_simpl. cassert. st_simpl.
  set (m := delete x (wlisteners w)).
  set (LT := holders (λ l, option_list (ltable l)) m). set (LG := holders (λ l, option_list (access_log l)) m).
  assert (table_refs w ≡ₚ option_list (ltable le) ++ LT) as HT by exact (holders_delete _ _ _ _ Hx).
  assert (log_refs w ≡ₚ option_list (access_log le) ++ LG) as HG by exact (holders_delete _ _ _ _ Hx).
  destruct (logger_ref_put_counted (G ++ LG) (wlog w) (access_log le)) as (s1 & Hs1 & Hok1).
  { pose proof (ok_log _ _ _ _ Hw) as Hc. rewrite HG in Hc. by rewrite Permutation_app_swap_app in Hc. }
  rewrite on_log_eq, Hs1. st_simpl.
  destruct (logger_ref_get_counted (G ++ LG) s1 (access_log ln)) as (s2 & Hs2 & Hok2); [done| |].
  { intros z Hz. apply elem_of_app. right. apply elem_of_holders. exists y, ln.
    unfold m. rewrite lookup_delete_ne by done. split; [done|]. rewrite Hz. by apply list_elem_of_singleton. }
  rewrite on_log_eq. cbn [wlog set_wlog]. rewrite Hs2. st_simpl.
  rewrite (set_listener_eq _ x le) by done. st_simpl.
  rewrite (set_listener_eq _ y ln) by (cbn; by rewrite lookup_insert_ne). st_simpl. cbn [wlisteners set_wlisteners wtables set_wlog].
  destruct (table_lookup_counted (wtables w) (T ++ table_refs w) tables (table_name ln)) as (o & Hlook & Ho);
    [apply Hw|intros; apply elem_of_app; left; auto|].
  rewrite Hlook. st_simpl. destruct o as [t|].
  2: { eexists _, (ltable le). split; [done|]. split; [|by split_and!]. refine (updated_listeners_ok T Ls G w x y le ln (ltable le) (wtables w) s2 Hw Hx Hy Hne Hxp Hyp _ (ok_backends _ _ _ _ Hw) Hok2).
       pose proof (ok_tables _ _ _ _ Hw) as Hc. rewrite HT in Hc. by rewrite Permutation_app_swap_app in Hc. }
  assert (t ∈ tables) as Ht by auto. st_simpl.
  destruct (init_table_counted pcre_compile (wtables w) t (T ++ table_refs w)) as (h1 & Hi1 & Hc1 & Hp1 & _);
    [apply Hw..|apply (ok_tables _ _ _ _ Hw), elem_of_app; auto|].
  rewrite on_tables_eq. cbn [wtables set_wlisteners set_wlog]. rewrite Hi1. st_simpl.
  destruct (table_ref_put_counted h1 (ltable le) (T ++ LT)) as (h2 & Hi2 & Hc2 & Hp2); [|done|].
  { rewrite HT in Hc1. by rewrite Permutation_app_swap_app in Hc1. }
  rewrite on_tables_eq. cbn [wtables set_wtables]. rewrite Hi2. st_simpl.
  destruct (table_ref_get_counted h2 t (T ++ LT)) as (h3 & Hi3 & Hc3 & Hp3); [done|done|apply Hc2, elem_of_app; auto|].
  rewrite on_tables_eq. cbn [wtables set_wtables]. rewrite Hi3. st_simpl.
  rewrite (set_listener_eq _ x (move_config le ln)) by (cbn; by rewrite lookup_insert_ne, lookup_insert_eq). st_simpl.
  rewrite on_tables_eq, Hnone. cbn [table_ref_put]. st_simpl.
  rewrite (set_listener_eq _ y (moved_config ln)) by (cbn; by rewrite lookup_insert_ne, lookup_insert_eq).
  eexists _, (Some t). split; [done|]. cbn [wlisteners wsock set_wlisteners set_wtables set_wlog].
  assert (<[y:=set_ltable None (moved_config ln)]> (<[x:=set_ltable (Some t) (move_config le ln)]>
    (<[y:=moved_config ln]> (<[x:=move_config le ln]> (wlisteners w)))) =
    updated_listeners (wlisteners w) x y le ln (Some t)) as ->.
  { unfold updated_listeners. rewrite (insert_insert_ne _ x y) by done. rewrite !insert_insert_eq.
    f_equal. destruct ln. cbn in *. by subst. }
  split; [|by split_and!]. by apply (updated_listeners_ok T Ls G w x y le ln (Some t) h3 s2).
Qed.
End operations.

(** * The merge of two lists *)

Lemma next_of_mid pre x suf : x ∉ pre → next_of (pre ++ x :: suf) x = head suf.
Proof.
  induction pre as [|y pre IH]; cbn [next_of app]; [by rewrite bool_decide_true|].
  intros [Hy Hpre]%not_elem_of_cons. rewrite bool_decide_false by congruence. by apply IH.
Qed.

Lemma slist_remove_mid pre x suf : x ∉ pre → slist_remove (pre ++ x :: suf) x = Ok (pre ++ suf).
Proof.
  induction pre as [|y pre IH]; cbn [slist_remove app]; [by rewrite bool_decide_true|].
  intros [Hy Hpre]%not_elem_of_cons. rewrite bool_decide_false by congruence. by rewrite IH.
Qed.

Section merge.
Context (addr : loc → Address).

(** [x] comes before the first listener that is greater. *)
Definition before_all (x : loc) (suf : list loc) : Prop :=
  ∀ y, head suf = Some y → address_order (addr x) (addr y) < 0.

Lemma insert_after_at h x iter pre suf :
  has_addr h addr x → Forall (has_addr h addr) (pre ++ suf) →
  (∀ y, y ∈ pre → addr_le addr y x) → before_all x suf →
  insert_after h (Some (addr x)) x iter (pre ++ suf) = Ok (iter :: pre ++ x :: suf).
Proof.
  intros Hx. revert iter. induction pre as [|y pre IH]; intros iter Hall Hpre Hsuf; cbn [app].
  - destruct suf as [|z suf]; [done|]. cbn [insert_after]. apply Forall_cons in Hall as [Hz _].
    pose proof Hz as [_ (l & Hl & Ha)]. unfold deref. rewrite Hl. outcome_simpl. rewrite Ha, (has_addr_compare h addr) by done.
    rewrite (proj2 (Z.ltb_lt _ 0)) by (by apply Hsuf). done.
  - cbn [insert_after]. apply Forall_cons in Hall as [Hy Hall]. pose proof Hy as [_ (l & Hl & Ha)].
    unfold deref. rewrite Hl. outcome_simpl. rewrite Ha, (has_addr_compare h addr) by done.
    assert (addr_le addr y x) as Hle by (apply Hpre; left). unfold addr_le in Hle. rewrite address_order_opp in Hle.
    rewrite (proj2 (Z.ltb_ge _ 0)) by lia. rewrite IH; [done|done| |done]. intros z Hz. apply Hpre. by right.
Qed.

Lemma add_listener_at h pre suf x l :
  h !! x = Some l → Forall (has_addr h addr) (x :: pre ++ suf) →
  (∀ y, y ∈ pre → addr_le addr y x) → before_all x suf →
  add_listener h (pre ++ suf) x = Ok (<[x := set_lrefs (lreference_count l + 1) l]> h, pre ++ x :: suf).
Proof.
  intros Hl Hall Hpre Hsuf. apply Forall_cons in Hall as [Hx Hall].
  pose proof Hx as [_ (l' & Hl' & Ha)]. simplify_eq. unfold add_listener, listener_ref_get, deref. rewrite Hl. outcome_simpl.
  rewrite Ha. outcome_simpl. set (h' := <[x := _]> h).
  assert (∀ y, has_addr h addr y → has_addr h' addr y) as Hh' by (intros; by apply has_addr_refs).
  assert (Forall (has_addr h' addr) (pre ++ suf)) as Hall' by (eapply Forall_impl; [done|auto]).
  destruct pre as [|y pre]; cbn [app].
  - destruct suf as [|z suf]; [done|]. apply Forall_cons in Hall' as [Hz _]. pose proof Hz as [_ (lz & Hlz & Haz)].
    rewrite Hlz. outcome_simpl. rewrite Haz, (has_addr_compare h' addr) by auto.
    by rewrite (proj2 (Z.ltb_lt _ 0)) by (by apply Hsuf).
  - cbn [app] in Hall'. apply Forall_cons in Hall' as [Hy Hall']. pose proof Hy as [_ (ly & Hly & Hay)].
    rewrite Hly. outcome_simpl. rewrite Hay, (has_addr_compare h' addr) by auto.
    assert (addr_le addr y x) as Hle by (apply Hpre; left). unfold addr_le in Hle. rewrite address_order_opp in Hle.
    rewrite (proj2 (Z.ltb_ge _ 0)) by lia. rewrite insert_after_at; [done|auto|done| |done].
    intros z Hz. apply Hpre. by right.
Qed.

Lemma address_order_le_trans a b c : address_order a b ≤ 0 → address_order b c ≤ 0 → address_order a c ≤ 0.
Proof.
  assert (∀ a b, address_order a b = 0 → type_rank (type a) = type_rank (type b) ∧ key a = key b ∧ aport a = aport b) as H0.
  { intros a' b'. unfold address_order, then_by.
    destruct (Z.eqb_spec (cmp (type_rank (type a')) (type_rank (type b'))) 0) as [->%cmp_0|]; [|done].
    destruct (Z.eqb_spec (lex (key a') (key b')) 0) as [->%lex_0|]; [|done]. by intros ->%cmp_0. }
  intros Hab Hbc. destruct (Z.eq_dec (address_order a b) 0) as [(E1 & E2 & E3)%H0|].
  { unfold address_order in *. by rewrite E1, E2, E3. }
  destruct (Z.eq_dec (address_order b c) 0) as [(E1 & E2 & E3)%H0|].
  { unfold address_order in *. by rewrite <- E1, <- E2, <- E3. }
  pose proof (address_order_trans a b c). lia.
Qed.

#[local] Instance addr_le_trans : Transitive (addr_le addr).
Proof. intros x y z. unfold addr_le. apply address_order_le_trans. Qed.

Context {pcre : Type} (pcre_compile : list Z → option pcre) (have_reuseport have_v6only : bool)
  (inet_ntop : Z → list Z → list Z).
Implicit Types w : world pcre.

(** One listener of the reloaded list and the new listener it stands for: the new one itself,
    now initialised, or an old one of the same address with the configuration of the new. *)
Definition entry w w' (old new : list loc) (r n : loc) : Prop :=
  n ∈ new ∧
  ((r = n ∧ ∃ ln l', wlisteners w !! n = Some ln ∧ wlisteners w' !! n = Some l' ∧ init_from ln l') ∨
   (r ∈ old ∧ addr r = addr n ∧ ∃ le ln t, wlisteners w !! r = Some le ∧ wlisteners w !! n = Some ln ∧
      wlisteners w' !! r = Some (set_ltable t (move_config le ln)))).

Lemma entry_weaken w w1 w' old new old1 new1 r n :
  (∀ y, y ∈ old1 ∨ y ∈ new1 → wlisteners w1 !! y = wlisteners w !! y) →
  (∀ y, y ∈ old1 → y ∈ old) → (∀ y, y ∈ new1 → y ∈ new) →
  entry w1 w' old1 new1 r n → entry w w' old new r n.
Proof.
  intros Hw Ho Hn [Hin [(-> & ln & l' & H1 & H2)|(Hr & Ha & le & ln & t & H1 & H2 & H3)]]; (split; [by auto|]).
  - left. split; [done|]. exists ln, l'. by rewrite <- (Hw n) by auto.
  - right. split_and!; [auto|done|]. exists le, ln, t. rewrite <- !(Hw _) by auto. done.
Qed.

(** A listener that was removed: freed, or closed for the connections that still use it. *)
Definition removed w' (x : loc) : Prop :=
  ∀ l, wlisteners w' !! x = Some l →
    watcher_fd l < 0 ∧ watcher_active l = false ∧ backoff_active l = false ∧ 0 < lreference_count l.

(** Where the two iterators stand: [hd] has been merged, [re] and [rn] are left. *)
Record merging (T C G tables hd re kept rn : list loc) w : Prop := {
  mg_world : world_ok T ((hd ++ re) ++ (kept ++ rn) ++ C) G w;
  mg_nodup : NoDup ((hd ++ re) ++ kept ++ rn);
  mg_addr x : x ∈ (hd ++ re) ++ rn → has_addr (wlisteners w) addr x;
  mg_table n l : n ∈ rn → wlisteners w !! n = Some l → ltable l = None;
  mg_sorted : StronglySorted (addr_le addr) rn;
  mg_le d n : d ∈ hd → n ∈ rn → addr_le addr d n;
  mg_tables t : t ∈ tables → t ∈ T
}.

(** What remains true of a listener that an operation does not change, or changes without its
    address. *)
Lemma has_addr_same w w' x l l' :
  wlisteners w !! x = Some l → wlisteners w' !! x = Some l' → laddress l' = laddress l →
  has_addr (wlisteners w) addr x → has_addr (wlisteners w') addr x.
Proof. intros Hl Hl' Ha [Hwf (k & Hk & Hka)]. split; [done|]. exists l'. simplify_eq. split; congruence. Qed.

Lemma has_addr_frame w w' x :
  wlisteners w' !! x = wlisteners w !! x → has_addr (wlisteners w) addr x → has_addr (wlisteners w') addr x.
Proof. intros Hx [Hwf (k & Hk & Hka)]. split; [done|]. exists k. by rewrite Hx. Qed.

Lemma merging_live T C G tables hd re kept rn w x :
  merging T C G tables hd re kept rn w → x ∈ (hd ++ re) ++ rn → ∃ l, wlisteners w !! x = Some l ∧ laddress l = Some (addr x).
Proof. intros Hm Hx. destruct (mg_addr _ _ _ _ _ _ _ _ _ Hm x Hx) as [_ Hl]. done. Qed.

Lemma announce_run T C G tables hd re kept rn w x what :
  merging T C G tables hd re kept rn w → x ∈ (hd ++ re) ++ rn →
  ∃ text, let w' := sock_emit (SockLog LOG_NOTICE text) w in
    announce inet_ntop x what w = Ok ((), w') ∧ merging T C G tables hd re kept rn w'.
Proof.
  intros Hm Hx. destruct (mg_addr _ _ _ _ _ _ _ _ _ Hm x Hx) as [Hwf (l & Hl & Ha)].
  destruct (show_address_Ok inet_ntop (laddress l)) as (text & Htext); [intros a Hs; by simplify_eq|].
  unfold announce. rewrite bind_eq, (get_listener_eq _ _ _ Hl). st_simpl. rewrite Htext. st_simpl.
  eexists. split; [done|]. destruct Hm. constructor; try done. by apply world_ok_sock.
Qed.

Lemma step_add e T C G tables hd re kept n rn w :
  merging T C G tables hd re kept (n :: rn) w → before_all n re →
  ∃ w', (∀ A (k : list loc → list loc → ST (world pcre) A),
      (new ← lift (slist_remove (kept ++ n :: rn) n);
       existing ← on_listeners (λ h, '(h, l) ← add_listener h (hd ++ re) n; Ok (l, h));
       init_listener pcre_compile have_reuseport have_v6only inet_ntop e n tables ≫= λ _,
       listener_ref_put (Some n) ≫= λ _, k existing new) w = k (hd ++ n :: re) (kept ++ rn) w') ∧
    merging T C G tables (hd ++ [n]) re kept rn w' ∧
    (∀ y, y ≠ n → wlisteners w' !! y = wlisteners w !! y) ∧
    ∃ ln l', wlisteners w !! n = Some ln ∧ wlisteners w' !! n = Some l' ∧ init_from ln l' ∧
      (watched ln = false → tabled l').
Proof.
  intros Hm Hbefore. destruct (merging_live _ _ _ _ _ _ _ _ _ n Hm) as (ln & Hln & Han); [set_solver|].
  pose proof (mg_world _ _ _ _ _ _ _ _ _ Hm) as Hw. pose proof (mg_nodup _ _ _ _ _ _ _ _ _ Hm) as Hnd.
  assert (n ∉ hd ∧ n ∉ re ∧ n ∉ kept ∧ n ∉ rn) as (Hn1 & Hn2 & Hn3 & Hn4).
  { assert ((hd ++ re) ++ kept ++ n :: rn ≡ₚ n :: (hd ++ re) ++ kept ++ rn) as Hp by solve_Permutation.
    rewrite Hp in Hnd. apply NoDup_cons in Hnd as [Hnd _]. set_solver. }
  assert (0 < lreference_count ln) as Hpos by (apply (listener_held_pos _ _ _ _ n ln Hw); [set_solver|done]).
  set (l1 := set_lrefs (lreference_count ln + 1) ln). set (w1 := set_wlisteners (<[n := l1]> (wlisteners w)) w).
  assert (add_listener (wlisteners w) (hd ++ re) n = Ok (wlisteners w1, hd ++ n :: re)) as Hadd.
  { apply (add_listener_at (wlisteners w) hd re n ln Hln); [|by intros; apply (mg_le _ _ _ _ _ _ _ _ _ Hm); [|left]|done].
    apply Forall_forall. intros y Hy. apply (mg_addr _ _ _ _ _ _ _ _ _ Hm). set_solver. }
  assert (world_ok T (n :: ((hd ++ re) ++ (kept ++ n :: rn) ++ C)) G w1) as Hw1.
  { apply world_ok_get; [done|done|]. by apply (ok_wf _ _ _ _ Hw n). }
  assert (wlisteners w1 !! n = Some l1) as Hl1 by apply lookup_insert_eq.
  destruct (init_listener_spec pcre_compile have_reuseport have_v6only inet_ntop e T _ G w1 n l1 tables Hw1 Hl1)
    as (r & w2 & l2 & evs & Hinit & Hw2 & Hl2 & (F1 & F2 & F3 & F4 & F5) & _ & _ & Hr & Hr').
  { cbn. lia. }
  { cbn. apply (mg_table _ _ _ _ _ _ _ _ _ Hm n); [left|done]. }
  { apply Hm. }
  assert (wlisteners w2 !! n = Some l2) as Hn2' by by rewrite Hl2, lookup_insert_eq.
  destruct (listener_ref_put_spec T ((hd ++ re) ++ (kept ++ n :: rn) ++ C) G w2 n Hw2)
    as (l2' & w3 & Hl2' & Hput & Hw3 & Hframe & Hn3' & _). simplify_eq.
  rewrite F3 in Hn3'. cbn in Hn3'. rewrite (proj2 (Z.eqb_neq _ 1)) in Hn3' by lia.
  assert (∀ y, y ≠ n → wlisteners w3 !! y = wlisteners w !! y) as Hsame.
  { intros y Hy. rewrite Hframe, Hl2 by done. cbn. by rewrite !lookup_insert_ne. }
  exists w3. split_and!; [| |done|].
  - intros A k. st_simpl. rewrite slist_remove_mid by done. st_simpl. unfold on_listeners at 1, zoom. rewrite Hadd.
    outcome_simpl. change (set_wlisteners (wlisteners w1) w) with w1. st_simpl. rewrite Hinit. st_simpl.
    rewrite Hput. done.
  - constructor.
    + eapply world_ok_proper; [done| |done|done|exact Hw3]. solve_Permutation.
    + eapply NoDup_Permutation_proper; [|exact Hnd]. solve_Permutation.
    + intros y Hy. destruct (decide (y = n)) as [->|].
      * eapply has_addr_same; [exact Hln|exact Hn3'|done|]. apply (mg_addr _ _ _ _ _ _ _ _ _ Hm). set_solver.
      * apply (has_addr_frame w); [by apply Hsame|]. apply (mg_addr _ _ _ _ _ _ _ _ _ Hm). set_solver.
    + intros y l Hy. assert (y ≠ n) as Hne by (intros ->; done). rewrite Hsame by done.
      apply (mg_table _ _ _ _ _ _ _ _ _ Hm). by right.
    + by pose proof (mg_sorted _ _ _ _ _ _ _ _ _ Hm) as [? _]%StronglySorted_inv.
    + intros d y [Hd| ->%list_elem_of_singleton]%elem_of_app Hy; [apply (mg_le _ _ _ _ _ _ _ _ _ Hm); [done|by right]|].
      pose proof (mg_sorted _ _ _ _ _ _ _ _ _ Hm) as [_ Hall]%StronglySorted_inv. by eapply Forall_forall in Hall.
    + apply Hm.
  - eexists ln, _. split; [done|]. split; [done|]. unfold init_from. cbn. rewrite F1, F2, F4, F5.
    split; [split_and!; try done; lia|]. intros Hina. cbn. destruct (Z.leb_spec 0 r) as [Hpr|Hpr].
    + destruct (Hr Hpr) as (_ & _ & t & Ht & _). intros _. cbn. congruence.
    + intros Hact. change (watched l2 = true) in Hact. rewrite (Hr' Hpr) in Hact. change (watched l1) with (watched ln) in Hact. congruence.
Qed.

Lemma step_update T C G tables hd x re kept n rn w :
  merging T C G tables hd (x :: re) kept (n :: rn) w → addr x = addr n →
  ∃ w' le ln t, listener_update pcre_compile x n tables w = Ok ((), w') ∧
    merging T C G tables (hd ++ [x]) re (kept ++ [n]) rn w' ∧
    (∀ y, y ≠ x → y ≠ n → wlisteners w' !! y = wlisteners w !! y) ∧
    wlisteners w !! x = Some le ∧ wlisteners w !! n = Some ln ∧
    wlisteners w' !! x = Some (set_ltable t (move_config le ln)) ∧ (ltable le ≠ None → t ≠ None).
Proof.
  intros Hm Haddr. destruct (merging_live _ _ _ _ _ _ _ _ _ n Hm) as (ln & Hln & Han); [set_solver|].
  destruct (merging_live _ _ _ _ _ _ _ _ _ x Hm) as (le & Hle & Hae); [set_solver|].
  pose proof (mg_nodup _ _ _ _ _ _ _ _ _ Hm) as Hnd.
  assert (x ≠ n ∧ x ∉ rn ∧ n ∉ rn ∧ n ∉ hd ∧ n ∉ re) as (Hne & Hx1 & Hn1 & Hn2 & Hn3).
  { assert ((hd ++ x :: re) ++ kept ++ n :: rn ≡ₚ x :: n :: (hd ++ re) ++ kept ++ rn) as Hp by solve_Permutation.
    rewrite Hp in Hnd. apply NoDup_cons in Hnd as [Hx Hnd]. apply NoDup_cons in Hnd as [Hn _]. set_solver. }
  destruct (listener_update_spec pcre_compile T _ G w x n le ln tables (mg_world _ _ _ _ _ _ _ _ _ Hm) Hle Hln Hne)
    as (w' & t & Heq & Hw' & Hl' & Htt & _).
  { apply (listener_held_pos _ _ _ _ x le (mg_world _ _ _ _ _ _ _ _ _ Hm)); [set_solver|done]. }
  { apply (listener_held_pos _ _ _ _ n ln (mg_world _ _ _ _ _ _ _ _ _ Hm)); [set_solver|done]. }
  { by apply (mg_table _ _ _ _ _ _ _ _ _ Hm n); [left|]. }
  { destruct (mg_addr _ _ _ _ _ _ _ _ _ Hm x) as [Hwf _]; [set_solver|]. rewrite Hae, Han, address_compare_eq by (rewrite <- ?Haddr; done).
    rewrite Haddr in *. by apply address_order_0. }
  { apply Hm. }
  assert (∀ y, y ≠ x → y ≠ n → wlisteners w' !! y = wlisteners w !! y) as Hsame.
  { intros y Hyx Hyn. rewrite Hl'. unfold updated_listeners. by rewrite !lookup_insert_ne. }
  assert (wlisteners w' !! x = Some (set_ltable t (move_config le ln))) as Hx'.
  { rewrite Hl'. unfold updated_listeners. by rewrite lookup_insert_ne, lookup_insert_eq. }
  exists w', le, ln, t. split_and!; try done. constructor.
  - eapply world_ok_proper; [done| |done|done|exact Hw']. solve_Permutation.
  - eapply NoDup_Permutation_proper; [|exact Hnd]. solve_Permutation.
  - intros y Hy. destruct (decide (y = x)) as [->|].
    + eapply has_addr_same; [exact Hle|exact Hx'|done|]. apply (mg_addr _ _ _ _ _ _ _ _ _ Hm). set_solver.
    + assert (y ≠ n) as Hyn by (intros ->; set_solver).
      apply (has_addr_frame w); [by apply Hsame|]. apply (mg_addr _ _ _ _ _ _ _ _ _ Hm). set_solver.
  - intros y l Hy. rewrite Hsame by (intros ->; done). apply (mg_table _ _ _ _ _ _ _ _ _ Hm). by right.
  - by pose proof (mg_sorted _ _ _ _ _ _ _ _ _ Hm) as [? _]%StronglySorted_inv.
  - intros d y [Hd| ->%list_elem_of_singleton]%elem_of_app Hy; [apply (mg_le _ _ _ _ _ _ _ _ _ Hm); [done|by right]|].
    unfold addr_le. rewrite Haddr.
    pose proof (mg_sorted _ _ _ _ _ _ _ _ _ Hm) as [_ Hall]%StronglySorted_inv. by eapply Forall_forall in Hall.
  - apply Hm.
Qed.

Lemma remove_listener_spec T Ls G w pre x suf l :
  world_ok T (x :: Ls) G w → wlisteners w !! x = Some l → x ∉ pre →
  ∃ w', remove_listener (pre ++ x :: suf) x w = Ok (pre ++ suf, w') ∧ world_ok T Ls G w' ∧
    (∀ y, y ≠ x → wlisteners w' !! y = wlisteners w !! y) ∧ removed w' x ∧
    (∀ l', wlisteners w' !! x = Some l' → ltable l' = ltable l).
Proof.
  intros Hw Hl Hpre. unfold remove_listener. st_simpl.
  assert (0 < lreference_count l) as Hpos by (apply (listener_held_pos _ _ _ _ x l Hw); [left|done]).
  destruct (close_listener_spec T (x :: Ls) G w x l Hw Hl Hpos) as (w1 & -> & Hw1 & Hl1 & _). st_simpl.
  rewrite slist_remove_mid by done. st_simpl.
  destruct (listener_ref_put_spec T Ls G w1 x Hw1) as (l1 & w2 & Hx1 & -> & Hw2 & Hframe & Hx2 & _). st_simpl.
  exists w2. split; [done|]. split; [done|]. split.
  { intros y Hy. rewrite Hframe, Hl1 by done. by rewrite lookup_insert_ne. }
  rewrite Hl1, lookup_insert_eq in Hx1. injection Hx1 as <-.
  pose proof (closed_listener_closed l (ok_wf _ _ _ _ Hw x l Hl Hpos)) as Hcl.
  assert (lreference_count (closed_listener l) = lreference_count l) as Hrc by (unfold closed_listener; by destruct (0 <=? _)).
  assert (ltable (closed_listener l) = ltable l) as Htc by (unfold closed_listener; by destruct (0 <=? _)).
  split; intros l'; rewrite Hx2, Hrc; (destruct (Z.eqb_spec (lreference_count l) 1); [done|]); intros [= <-]; [|done].
  destruct Hcl as (? & ? & ?). split_and!; try done. cbn. lia.
Qed.

Lemma step_remove T C G tables hd x re kept rn w :
  merging T C G tables hd (x :: re) kept rn w →
  ∃ w', remove_listener (hd ++ x :: re) x w = Ok (hd ++ re, w') ∧ merging T C G tables hd re kept rn w' ∧
    (∀ y, y ≠ x → wlisteners w' !! y = wlisteners w !! y) ∧ removed w' x ∧
    (∀ l l', wlisteners w !! x = Some l → wlisteners w' !! x = Some l' → ltable l' = ltable l).
Proof.
  intros Hm. destruct (merging_live _ _ _ _ _ _ _ _ _ x Hm) as (l & Hl & _); [set_solver|].
  pose proof (mg_nodup _ _ _ _ _ _ _ _ _ Hm) as Hnd.
  assert ((hd ++ x :: re) ++ kept ++ rn ≡ₚ x :: (hd ++ re) ++ kept ++ rn) as Hp by solve_Permutation.
  rewrite Hp in Hnd. apply NoDup_cons in Hnd as [Hx Hnd].
  destruct (remove_listener_spec T ((hd ++ re) ++ (kept ++ rn) ++ C) G w hd x re l)
    as (w' & Heq & Hw' & Hsame & Hrem & Htab); [|done|set_solver|].
  { eapply world_ok_proper; [done| |done|done|apply Hm]. solve_Permutation. }
  exists w'. split_and!; [done| |done|done|intros l0 l' Hl0; simplify_eq; by apply Htab]. constructor; try done; try apply Hm.
  - intros y Hy. apply (has_addr_frame w); [apply Hsame; intros ->; set_solver|].
    apply (mg_addr _ _ _ _ _ _ _ _ _ Hm). set_solver.
  - intros y ly Hy. rewrite Hsame by (intros ->; set_solver). by apply (mg_table _ _ _ _ _ _ _ _ _ Hm).
Qed.

(** The order of the two iterators. *)
Lemma compare_iters_spec T C G tables hd re kept rn w :
  merging T C G tables hd re kept rn w → (re ≠ [] ∨ rn ≠ []) →
  ∃ c, compare_iters (head re) (head rn) w = Ok (c, w) ∧
    match re, rn with
    | [], _ => c = 1
    | _, [] => c = -1
    | x :: _, n :: _ => c = address_order (addr x) (addr n)
    end.
Proof.
  intros Hm Hne. destruct re as [|x re]; [by exists 1|]. destruct rn as [|n rn]; [by exists (-1)|].
  cbn [head compare_iters]. st_simpl.
  destruct (merging_live _ _ _ _ _ _ _ _ _ n Hm) as (ln & Hln & Han); [set_solver|].
  destruct (merging_live _ _ _ _ _ _ _ _ _ x Hm) as (le & Hle & Hae); [set_solver|].
  rewrite (get_listener_eq _ _ _ Hle). st_simpl. rewrite (get_listener_eq _ _ _ Hln). st_simpl.
  eexists. split; [done|]. rewrite Hae, Han. apply address_compare_eq; apply (mg_addr _ _ _ _ _ _ _ _ _ Hm); set_solver.
Qed.

Definition addr_lt (x y : loc) : Prop := address_order (addr x) (addr y) < 0.

(** What the loop leaves, from a state in which [re] and [rn] are still to be merged. *)
Record merged (T C G hd re kept rn : list loc) w res kept' w' : Prop := {
  md_world : world_ok T ((hd ++ res) ++ (kept ++ kept') ++ C) G w';
  md_entries : Forall2 (entry w w' re rn) res rn;
  md_frame y : y ∉ re → y ∉ rn → wlisteners w' !! y = wlisteners w !! y;
  md_removed x : x ∈ re → x ∉ res → removed w' x;
  md_tables x l l' : x ∉ rn → wlisteners w !! x = Some l → wlisteners w' !! x = Some l' → ltable l ≠ None → ltable l' ≠ None;
  md_started n l l' : n ∈ rn → n ∈ res → wlisteners w !! n = Some l → wlisteners w' !! n = Some l' →
    watched l = false → tabled l';
  md_kept x : x ∈ kept' → x ∈ rn;
  md_nodup : NoDup (res ++ kept');
  md_reused : StronglySorted addr_lt re → StronglySorted addr_lt rn →
    ∀ x n, x ∈ re → n ∈ rn → addr x = addr n → x ∈ res
}.

Lemma entries_from w w' re rn res ns x : Forall2 (entry w w' re rn) res ns → x ∈ res → x ∈ re ∨ x ∈ rn.
Proof.
  intros Hall (i & Hi)%list_elem_of_lookup.
  destruct (Forall2_lookup_l _ _ _ _ _ Hall Hi) as (n & _ & Hn & [(-> & _)|(? & _)]); [by right|by left].
Qed.

Lemma addr_lt_irrefl a b : a = b → address_order a b < 0 → False.
Proof. intros -> H. pose proof (address_order_opp b b). lia. Qed.

Lemma merged_add T C G hd re kept n rn w w1 w' res kept' :
  merged T C G (hd ++ [n]) re kept rn w1 res kept' w' → before_all n re →
  n ∉ re → n ∉ rn → (∀ y, y ≠ n → wlisteners w1 !! y = wlisteners w !! y) →
  (∃ ln l', wlisteners w !! n = Some ln ∧ wlisteners w1 !! n = Some l' ∧ init_from ln l' ∧
     (watched ln = false → tabled l')) →
  merged T C G hd re kept (n :: rn) w (n :: res) kept' w'.
Proof.
  intros Hd Hbefore Hn1 Hn2 Hsame (ln & l' & H1 & H2 & H3 & H4). constructor.
  - pose proof (md_world _ _ _ _ _ _ _ _ _ _ _ Hd) as Hw. by rewrite <- (assoc_L (++) hd) in Hw.
  - constructor.
    + split; [left|]. left. split; [done|]. exists ln, l'. by rewrite (md_frame _ _ _ _ _ _ _ _ _ _ _ Hd).
    + eapply Forall2_impl; [apply Hd|]. intros r y. apply entry_weaken; [|done|by right].
      intros z Hz. apply Hsame. intros ->. by destruct Hz.
  - intros y Hy [Hyn Hyr]%not_elem_of_cons. rewrite (md_frame _ _ _ _ _ _ _ _ _ _ _ Hd) by done. by apply Hsame.
  - intros x Hx [_ Hr]%not_elem_of_cons. by apply (md_removed _ _ _ _ _ _ _ _ _ _ _ Hd).
  - intros x l k [Hxn Hx]%not_elem_of_cons Hl. rewrite <- Hsame in Hl by done. by apply (md_tables _ _ _ _ _ _ _ _ _ _ _ Hd x l k).
  - intros x l k Hx Hr Hl Hk. destruct (decide (x = n)) as [->|Hne].
    + rewrite (md_frame _ _ _ _ _ _ _ _ _ _ _ Hd) in Hk by done. simplify_eq. done.
    + apply elem_of_cons in Hx as [?|Hx], Hr as [?|Hr]; [done..|]. rewrite <- Hsame in Hl by done.
      by apply (md_started _ _ _ _ _ _ _ _ _ _ _ Hd x l k).
  - intros x Hx. right. by apply (md_kept _ _ _ _ _ _ _ _ _ _ _ Hd).
  - constructor; [|apply Hd]. rewrite elem_of_app.
    intros [[?|?]%(entries_from _ _ _ _ _ _ _ (md_entries _ _ _ _ _ _ _ _ _ _ _ Hd))|?%(md_kept _ _ _ _ _ _ _ _ _ _ _ Hd)]; done.
  - intros Hs1 Hs2 x y Hx [->|Hy]%elem_of_cons Ha.
    + destruct re as [|z re]; [by apply elem_of_nil in Hx|]. pose proof (Hbefore z eq_refl) as Hz. exfalso.
      apply StronglySorted_inv in Hs1 as [_ Hall]. apply elem_of_cons in Hx as [->|Hx].
      * by apply (addr_lt_irrefl (addr n) (addr z)).
      * apply (addr_lt_irrefl (addr n) (addr x)); [done|]. eapply address_order_trans; [exact Hz|].
        eapply Forall_forall in Hall; [exact Hall|done].
    + right. apply StronglySorted_inv in Hs2 as [Hs2 _]. by eapply (md_reused _ _ _ _ _ _ _ _ _ _ _ Hd).
Qed.

Lemma merged_update T C G hd x re kept n rn w w1 w' res kept' le ln t :
  merged T C G (hd ++ [x]) re (kept ++ [n]) rn w1 res kept' w' → addr x = addr n →
  x ≠ n → x ∉ re → x ∉ rn → n ∉ re → n ∉ rn →
  (∀ y, y ≠ x → y ≠ n → wlisteners w1 !! y = wlisteners w !! y) →
  wlisteners w !! x = Some le → wlisteners w !! n = Some ln →
  wlisteners w1 !! x = Some (set_ltable t (move_config le ln)) → (ltable le ≠ None → t ≠ None) →
  merged T C G hd (x :: re) kept (n :: rn) w (x :: res) (n :: kept') w'.
Proof.
  intros Hd Ha Hne Hx1 Hx2 Hn1 Hn2 Hsame H1 H2 H3 H4. constructor.
  - pose proof (md_world _ _ _ _ _ _ _ _ _ _ _ Hd) as Hw. by rewrite <- (assoc_L (++) hd), <- (assoc_L (++) kept) in Hw.
  - constructor.
    + split; [left|]. right. split; [left|]. split; [done|]. exists le, ln, t. by rewrite (md_frame _ _ _ _ _ _ _ _ _ _ _ Hd).
    + eapply Forall2_impl; [apply Hd|]. intros r y. apply entry_weaken; [|by right|by right].
      intros z Hz. apply Hsame; intros ->; by destruct Hz.
  - intros y [Hyx Hyre]%not_elem_of_cons [Hyn Hyr]%not_elem_of_cons.
    rewrite (md_frame _ _ _ _ _ _ _ _ _ _ _ Hd) by done. by apply Hsame.
  - intros y [->|Hy]%elem_of_cons [Hyx Hr]%not_elem_of_cons; [done|]. by apply (md_removed _ _ _ _ _ _ _ _ _ _ _ Hd).
  - intros y l k [Hyn Hy]%not_elem_of_cons Hl Hk Hlt. destruct (decide (y = x)) as [->|Hyx].
    + simplify_eq. by apply (md_tables _ _ _ _ _ _ _ _ _ _ _ Hd x _ k Hy H3 Hk), H4.
    + rewrite <- Hsame in Hl by done. by apply (md_tables _ _ _ _ _ _ _ _ _ _ _ Hd y l k).
  - intros y l k Hy Hr Hl Hk. assert (y ≠ n) as Hyn.
    { intros ->. apply elem_of_cons in Hr as [?|Hr]; [done|].
      by destruct (entries_from _ _ _ _ _ _ _ (md_entries _ _ _ _ _ _ _ _ _ _ _ Hd) Hr). }
    apply elem_of_cons in Hy as [?|Hy]; [done|]. assert (y ≠ x) as Hyx by (intros ->; done).
    apply elem_of_cons in Hr as [?|Hr]; [done|]. rewrite <- Hsame in Hl by done.
    by apply (md_started _ _ _ _ _ _ _ _ _ _ _ Hd y l k).
  - intros y [->|Hy]%elem_of_cons; [left|]. right. by apply (md_kept _ _ _ _ _ _ _ _ _ _ _ Hd).
  - assert (∀ y, y ∉ re → y ∉ rn → y ∉ res ++ kept') as Hout.
    { intros y Hy1 Hy2. rewrite elem_of_app.
      intros [[?|?]%(entries_from _ _ _ _ _ _ _ (md_entries _ _ _ _ _ _ _ _ _ _ _ Hd))|?%(md_kept _ _ _ _ _ _ _ _ _ _ _ Hd)]; done. }
    assert ((x :: res) ++ n :: kept' ≡ₚ x :: n :: res ++ kept') as -> by solve_Permutation.
    pose proof (Hout x Hx1 Hx2). pose proof (Hout n Hn1 Hn2). constructor; [set_solver|]. constructor; [done|apply Hd].
  - intros [Hs1 Hall1]%StronglySorted_inv [Hs2 Hall2]%StronglySorted_inv y z.
    intros [->|Hy]%elem_of_cons [->|Hz]%elem_of_cons Heq; [left|left| |].
    + exfalso. eapply Forall_forall in Hall1; [|done]. eapply addr_lt_irrefl; [|exact Hall1]. congruence.
    + right. by eapply (md_reused _ _ _ _ _ _ _ _ _ _ _ Hd).
Qed.

Lemma merged_remove T C G hd x re kept rn w w1 w' res kept' :
  merged T C G hd re kept rn w1 res kept' w' → x ∉ re → x ∉ rn →
  (∀ y, y ≠ x → wlisteners w1 !! y = wlisteners w !! y) → removed w1 x →
  (∀ l l', wlisteners w !! x = Some l → wlisteners w1 !! x = Some l' → ltable l' = ltable l) →
  (∀ n, head rn = Some n → address_order (addr x) (addr n) < 0) →
  merged T C G hd (x :: re) kept rn w res kept' w'.
Proof.
  intros Hd Hx1 Hx2 Hsame Hrem Htab Hlt. constructor.
  - apply Hd.
  - eapply Forall2_impl; [apply Hd|]. intros r y. apply entry_weaken; [|by right|done].
    intros z Hz. apply Hsame; intros ->; by destruct Hz.
  - intros y [Hyx Hyre]%not_elem_of_cons Hyr. rewrite (md_frame _ _ _ _ _ _ _ _ _ _ _ Hd) by done. by apply Hsame.
  - intros y [->|Hy]%elem_of_cons Hr; [|by apply (md_removed _ _ _ _ _ _ _ _ _ _ _ Hd)].
    intros l. rewrite (md_frame _ _ _ _ _ _ _ _ _ _ _ Hd) by done. apply Hrem.
  - intros y l k Hy Hl Hk. destruct (decide (y = x)) as [->|Hyx].
    + rewrite (md_frame _ _ _ _ _ _ _ _ _ _ _ Hd) in Hk by done. by rewrite (Htab l k Hl Hk).
    + rewrite <- Hsame in Hl by done. by apply (md_tables _ _ _ _ _ _ _ _ _ _ _ Hd y l k).
  - intros y l k Hy Hr Hl Hk. rewrite <- Hsame in Hl by (intros ->; done). by apply (md_started _ _ _ _ _ _ _ _ _ _ _ Hd y l k).
  - apply Hd.
  - apply Hd.
  - intros [Hs1 Hall1]%StronglySorted_inv Hs2 y z [->|Hy]%elem_of_cons Hz Heq; [|by eapply (md_reused _ _ _ _ _ _ _ _ _ _ _ Hd)].
    exfalso. destruct rn as [|n rn]; [by apply elem_of_nil in Hz|]. specialize (Hlt n eq_refl).
    apply StronglySorted_inv in Hs2 as [_ Hall]. apply elem_of_cons in Hz as [->|Hz]; [by eapply addr_lt_irrefl|].
    eapply addr_lt_irrefl; [exact Heq|]. eapply address_order_trans; [exact Hlt|]. eapply Forall_forall in Hall; [exact Hall|done].
Qed.

Lemma merged_nil T C G tables hd kept w :
  merging T C G tables hd [] kept [] w → merged T C G hd [] kept [] w [] [] w.
Proof. intros Hm. constructor; try done; [apply Hm|intros; congruence|by intros ??? ?%elem_of_nil|constructor]. Qed.

Lemma merging_disjoint T C G tables hd re kept rn w :
  merging T C G tables hd re kept rn w →
  NoDup hd ∧ NoDup re ∧ NoDup kept ∧ NoDup rn ∧ ∀ x,
    ¬ (x ∈ hd ∧ x ∈ re) ∧ ¬ (x ∈ hd ∧ x ∈ rn) ∧ ¬ (x ∈ re ∧ x ∈ rn) ∧ ¬ (x ∈ kept ∧ x ∈ rn).
Proof.
  intros Hm. pose proof (mg_nodup _ _ _ _ _ _ _ _ _ Hm) as Hnd.
  apply NoDup_app in Hnd as ((? & ? & ?)%NoDup_app & ? & (? & ? & ?)%NoDup_app). split_and!; try done. set_solver.
Qed.

Lemma reload_iters_spec e T C G tables fuel hd re kept rn w :
  merging T C G tables hd re kept rn w → (length re + length rn ≤ fuel)%nat →
  ∃ w' res kept', reload_iters pcre_compile have_reuseport have_v6only inet_ntop fuel e (hd ++ re) (kept ++ rn) tables
      (head re) (head rn) w = Ok ((hd ++ res, kept ++ kept'), w') ∧
    merged T C G hd re kept rn w res kept' w'.
Proof.
  revert hd re kept rn w. induction fuel as [|fuel IH]; intros hd re kept rn w Hm Hfuel.
  { destruct re, rn; cbn in Hfuel; try lia. exists w, [], []. split; [done|by eapply merged_nil]. }
  destruct (decide (re = [] ∧ rn = [])) as [[-> ->]|Hne].
  { exists w, [], []. split; [done|by eapply merged_nil]. }
  destruct (compare_iters_spec T C G tables hd re kept rn w Hm) as (c & Hc & Hcmp).
  { destruct re, rn; naive_solver. }
  destruct (merging_disjoint _ _ _ _ _ _ _ _ _ Hm) as (N1 & N2 & N3 & N4 & Hdis).
  assert (∀ (A : Type) (a b : A), match head re, head rn with None, None => a | _, _ => b end = b) as Hmatch.
  { intros A a b. destruct re, rn; naive_solver. }
  cbn [reload_iters]. rewrite Hmatch. st_simpl. rewrite Hc. cbv beta iota.
  destruct (Z.ltb_spec 0 c) as [Hpos|Hpos]; [|destruct (Z.eqb_spec c 0) as [H0|H0]].
  - assert (∃ n rn', rn = n :: rn' ∧ before_all n re) as (n & rn' & -> & Hbefore).
    { destruct re as [|x re], rn as [|n rn']; try (subst c; lia); [naive_solver|by eexists n, rn'|].
      exists n, rn'. split; [done|]. intros ? [= <-]. rewrite address_order_opp. lia. }
    apply NoDup_cons in N4 as [Hn4 N4]. cbn [head not_null]. st_simpl.
    destruct (announce_run T C G tables hd re kept (n :: rn') w n " added." Hm) as (text & Hann & Hm0); [set_solver|].
    destruct (step_add e T C G tables hd re kept n rn' _ Hm0 Hbefore) as (w1 & Hrun & Hm1 & Hsame & Hnew).
    unfold not_null. st_simpl. rewrite Hann. rewrite next_of_mid by (specialize (Hdis n); set_solver).
    specialize (Hrun _ (λ ex nw, reload_iters pcre_compile have_reuseport have_v6only inet_ntop fuel e ex nw tables (head re) (head rn'))).
    destruct (IH (hd ++ [n]) re kept rn' w1 Hm1) as (w' & res & kept' & Heq & Hd); [cbn in Hfuel; lia|].
    rewrite <- !(assoc_L (++) hd) in Heq. cbn [app] in Heq. exists w', (n :: res), kept'.
    split; [etransitivity; [exact Hrun|exact Heq]|].
    eapply merged_add; [exact Hd|done| |done|done|done]. specialize (Hdis n). set_solver.
  - assert (∃ x re' n rn', re = x :: re' ∧ rn = n :: rn' ∧ addr x = addr n) as (x & re' & n & rn' & -> & -> & Ha).
    { destruct re as [|x re], rn as [|n rn']; try (subst c; lia). exists x, re, n, rn'.
      split_and!; [done..|]. subst c. apply address_order_0; [..|done]; apply (mg_addr _ _ _ _ _ _ _ _ _ Hm); set_solver. }
    apply NoDup_cons in N4 as [Hn4 N4]. apply NoDup_cons in N2 as [Hx2 N2]. cbn [head]. unfold not_null. st_simpl.
    destruct (announce_run T C G tables hd (x :: re') kept (n :: rn') w x " updated." Hm) as (text & Hann & Hm0); [set_solver|].
    rewrite Hann. cbv beta iota. rewrite bind_eq.
    destruct (step_update T C G tables hd x re' kept n rn' _ Hm0 Ha) as (w1 & le & ln & t & Hrun & Hm1 & Hsame & H1 & H2 & H3 & H4).
    rewrite Hrun. st_simpl. rewrite !next_of_mid by (pose proof (Hdis n); pose proof (Hdis x); set_solver).
    destruct (IH (hd ++ [x]) re' (kept ++ [n]) rn' w1 Hm1) as (w' & res & kept' & Heq & Hd); [cbn in Hfuel; lia|].
    rewrite <- !(assoc_L (++) hd), <- !(assoc_L (++) kept) in Heq. cbn [app] in Heq.
    exists w', (x :: res), (n :: kept'). split; [exact Heq|]. pose proof (Hdis x). pose proof (Hdis n).
    eapply merged_update; [exact Hd|done|..|exact H1|exact H2|exact H3|exact H4]; try done; set_solver.
  - assert (∃ x re', re = x :: re' ∧ ∀ n, head rn = Some n → address_order (addr x) (addr n) < 0) as (x & re' & -> & Hlt).
    { destruct re as [|x re], rn as [|n rn']; try (subst c; lia); [by exists x, re|]. exists x, re.
      split; [done|]. intros ? [= <-]. lia. }
    apply NoDup_cons in N2 as [Hx2 N2]. cbn [head]. unfold not_null. st_simpl.
    destruct (announce_run T C G tables hd (x :: re') kept rn w x " removed." Hm) as (text & Hann & Hm0); [set_solver|].
    rewrite Hann. cbv beta iota. rewrite bind_eq.
    destruct (step_remove T C G tables hd x re' kept rn _ Hm0) as (w1 & Hrun & Hm1 & Hsame & Hrem & Htab).
    rewrite next_of_mid by (specialize (Hdis x); set_solver). rewrite Hrun. st_simpl.
    destruct (IH hd re' kept rn w1 Hm1) as (w' & res & kept' & Heq & Hd); [cbn in Hfuel; lia|].
    exists w', res, kept'. split; [exact Heq|]. pose proof (Hdis x).
    eapply merged_remove; [exact Hd|done| |done|done|exact Htab|done]. set_solver.
Qed.
Lemma listeners_reload_spec e T C G tables existing new w :
  world_ok T (existing ++ new ++ C) G w → NoDup (existing ++ new) →
  (∀ x, x ∈ existing ++ new → has_addr (wlisteners w) addr x) →
  (∀ n l, n ∈ new → wlisteners w !! n = Some l → ltable l = None) →
  Sorted (addr_le addr) new → (∀ t, t ∈ tables → t ∈ T) →
  ∃ res kept w',
    listeners_reload pcre_compile have_reuseport have_v6only inet_ntop e existing new tables w = Ok ((res, kept), w') ∧
    merged T C G [] existing [] new w res kept w' ∧ addr <$> res = addr <$> new.
Proof.
  intros Hw Hnd Haddr Htab Hs Hsub. unfold listeners_reload.
  destruct (reload_iters_spec e T C G tables
    (length existing + length new) [] existing [] new w) as (w' & res & kept' & Heq & Hd); [|done|].
  { constructor; try done; [|by intros ?? ?%elem_of_nil]. apply Sorted_StronglySorted; [|done]. apply addr_le_trans. }
  exists res, kept', w'. split_and!; [exact Heq|exact Hd|].
  apply list_eq_Forall2, Forall2_fmap_2. eapply Forall2_impl; [apply Hd|].
  intros r n [_ [[-> _]|(_ & -> & _)]]; done.
Qed.
End merge.

(** [free_listeners] gives back the references of the list. *)
Lemma free_listeners_spec {pcre} T C G ls (w : world pcre) :
  world_ok T (ls ++ C) G w → NoDup ls →
  ∃ w', free_listeners ls w = Ok ((), w') ∧ world_ok T C G w' ∧
    (∀ y, y ∉ ls → wlisteners w' !! y = wlisteners w !! y) ∧ (∀ x, x ∈ ls → removed w' x).
Proof.
  revert w. induction ls as [|x ls IH]; intros w Hw Hnd.
  { exists w. split; [done|]. split; [done|]. split; [done|by intros ? ?%elem_of_nil]. }
  apply NoDup_cons in Hnd as [Hx Hnd]. cbn [free_listeners app] in *.
  destruct (counted_live _ _ (ok_listeners _ _ _ _ Hw) x) as [l Hl]; [left|].
  destruct (remove_listener_spec T (ls ++ C) G w [] x [] l Hw Hl) as (w1 & Hrun & Hw1 & Hsame & Hrem & Htab); [apply not_elem_of_nil|].
  unfold remove_listener in Hrun. revert Hrun. st_simpl. destruct (close_listener x w) as [[[] w0]|]; [|done].
  cbn [slist_remove app]. rewrite bool_decide_true by done. st_simpl.
  destruct (listener_ref_put (Some x) w0) as [[[] w0']|]; [|done]. cbv beta iota. rewrite ret_eq. intros [= ->].
  destruct (IH w1 Hw1 Hnd) as (w' & -> & Hw' & Hsame' & Hrem'). exists w'. split_and!; [done|done| |].
  - intros y [Hyx Hy]%not_elem_of_cons. rewrite Hsame' by done. by apply Hsame.
  - intros y [->|Hy]%elem_of_cons; [|by apply Hrem']. intros ly. rewrite Hsame' by done. apply Hrem.
Qed.

(** * Properties *)


(** C29: opening the socket of a listener leaks none: if a call fails, every socket that was
    opened, by socket or by the binder, is closed again; otherwise exactly the returned
    one is open, it is watched, and the listener holds the table that it names. *)
Theorem init_listener_no_leak {pcre} (pcre_compile : list Z → option pcre) have_reuseport have_v6only inet_ntop
    e T Ls G tables (w : world pcre) x l :
  world_ok T Ls G w → wlisteners w !! x = Some l → 0 < lreference_count l → ltable l = None →
  (∀ t, t ∈ tables → t ∈ T) →
  ∃ r w' l' evs, init_listener pcre_compile have_reuseport have_v6only inet_ntop e x tables w = Ok (r, w') ∧
    world_ok T Ls G w' ∧ wlisteners w' !! x = Some l' ∧ wsock w' = wsock w ++ evs ∧
    (r < 0 → open_fds evs = []) ∧
    (0 ≤ r → open_fds evs = [r] ∧ watcher_fd l' = r ∧ watcher_active l' = true ∧
             ∃ t, ltable l' = Some t ∧ t ∈ tables).
Proof.
  intros Hw Hl Hpos Hnone Hsub.
  destruct (init_listener_spec pcre_compile have_reuseport have_v6only inet_ntop e T Ls G w x l tables)
    as (r & w' & l' & evs & Heq & Hw' & Hl' & _ & Hevs & Hfds & Hr); [done..|].
  exists r, w', l', evs. split_and!; [done|done|by rewrite Hl', lookup_insert_eq|done| |].
  - intros Hneg. by rewrite (proj2 (Z.ltb_lt r 0)) in Hfds.
  - intros Hge. rewrite (proj2 (Z.ltb_ge r 0)) in Hfds by done. split; [done|by apply Hr].
Qed.

(** Updating a listener does not take over all of its new configuration: the options
    reuseport, ipv6_v6only and "source client" and the proxy flag of the fallback stay
    the old ones, and a fallback address without port keeps port 0, where
    [init_listener] gives it the port of the listener. *)
Theorem listener_update_forgets {pcre} (pcre_compile : list Z → option pcre) T Ls G tables (w : world pcre) x y le ln f :
  world_ok T Ls G w → wlisteners w !! x = Some le → wlisteners w !! y = Some ln → x ≠ y →
  0 < lreference_count le → 0 < lreference_count ln → ltable ln = None →
  address_compare (laddress le) (laddress ln) = 0 → (∀ t, t ∈ tables → t ∈ T) →
  fallback_address ln = Some f → address_port f = Ok 0 → is_unix f = false →
  ∃ w' l', listener_update pcre_compile x y tables w = Ok ((), w') ∧ wlisteners w' !! x = Some l' ∧
    fallback_address l' = Some f ∧
    (fallback_use_proxy_header l', transparent_proxy l', reuseport l', ipv6_v6only l') =
    (fallback_use_proxy_header le, transparent_proxy le, reuseport le, ipv6_v6only le) ∧
    ∃ l2 f2, inherit_port ln = Ok l2 ∧ fallback_address l2 = Some f2 ∧ address_port f2 = port_of (laddress ln).
Proof.
  intros Hw Hx Hy Hne Hxp Hyp Hnone Hcmp Hsub Hf Hport Hunix.
  destruct (listener_update_spec pcre_compile T Ls G w x y le ln tables) as (w' & t & Heq & _ & Hl' & _); [done..|].
  exists w', (set_ltable t (move_config le ln)). split_and!; [done| |done|done|].
  { rewrite Hl'. unfold updated_listeners. by rewrite lookup_insert_ne, lookup_insert_eq. }
  pose proof (ok_wf _ _ _ _ Hw y ln Hy Hyp) as Hwf. destruct (wf_fallback _ Hwf f Hf) as [Hfwf _].
  destruct (wf_address _ Hwf) as (a & Ha & Hawf & _). unfold inherit_port. rewrite Hf, Hport. outcome_simpl.
  rewrite Ha. unfold port_of. rewrite address_port_wf by done. outcome_simpl.
  destruct (address_set_port_wf f (if is_unix a then 0 else aport a)) as (d & -> & Hd & Htake & _); [done| |].
  { destruct (is_unix a); [by split|]. by destruct Hawf. }
  outcome_simpl. eexists _, _. split; [done|]. split; [done|]. rewrite address_port_wf by done.
  assert (∀ p, is_unix (mkAddress (type f) (alen f) p d) = is_unix f) as -> by (intros; unfold is_unix; cbn; by rewrite Htake).
  by rewrite Hunix.
Qed.

(** * Witnesses *)

Definition ex_tables : gmap loc (Table (list Z)) := {[ 1%positive := mkTable (Some (bytes "t")) false 3 [ex_backend "x"] ]}.

(** A listener on a port, with a fallback address that has none. *)
Definition ex_running (port refs fd : Z) (t : option loc) : Listener :=
  mkListener (Some (ex_in port)) (Some (ex_in 0)) None tls_protocol_ptr (Some (bytes "t")) None false 0 false 0
    false refs fd (0 <=? fd) false t true.

(** Listeners on the ports 80 and 443 run, the second with a connection; the new configuration
    has the ports 80 and 8443. *)
Definition ex_world : world (list Z) :=
  mkWorld ex_tables
    (<[1%positive := ex_running 80 1 3 (Some 1%positive)]> (<[2%positive := ex_running 443 2 4 (Some 1%positive)]>
    (<[3%positive := ex_running 80 1 (-1) None]> (<[4%positive := ex_running 8443 1 (-1) None]> ∅))))
    log_init [].
Definition ex_addrs (x : loc) : Address :=
  ex_in (match x with 1%positive | 3%positive => 80 | 2%positive => 443 | _ => 8443 end).
Definition ex_sock_env : sock_env := mkSockEnv (λ _ _, 5) (λ _ _, 0) (λ _, (0, 0)) (λ _, -1) (λ _, 0) (λ _, 0) (λ _, bytes "error").

Lemma ex_running_wf port refs fd t : is_port port → listener_wf (ex_running port refs fd t).
Proof.
  intros Hp. constructor.
  - exists (ex_in port). split_and!; [done|by apply ex_in_wf|done].
  - intros f [= <-]. split; [by apply ex_in_wf|by left].
  - done.
  - unfold watched. cbn. lia.
Qed.

Lemma ex_lookup x l : wlisteners ex_world !! x = Some l →
  (x ∈ [1; 2; 3; 4]%positive) ∧ ∃ port refs fd t, is_port port ∧ l = ex_running port refs fd t.
Proof.
  cbn. rewrite !lookup_insert_Some, lookup_empty.
  intros [[<- <-]|[_ [[<- <-]|[_ [[<- <-]|[_ [[<- <-]|[_ [=]]]]]]]]]; (split; [set_solver|]); repeat eexists; by vm_compute.
Qed.

Lemma ex_world_ok : world_ok [1%positive] ([1; 2]%positive ++ [3; 4]%positive ++ [2%positive]) [] ex_world.
Proof.
  split; [constructor|].
  - apply counted_checked; apply (bool_decide_unpack _); by vm_compute.
  - intros x t. cbn. unfold ex_tables. intros [_ <-]%lookup_singleton_Some. constructor; [|constructor].
    split; [done|]. intros a [= <-]. split; [by apply ex_in_wf|by vm_compute].
  - apply counted_checked; apply (bool_decide_unpack _); by vm_compute.
  - apply log_init_ok.
  - intros x l (_ & port & refs & fd & t & Hp & ->)%ex_lookup _. by apply ex_running_wf.
Qed.

Lemma ex_world_addr x : x ∈ [1; 2; 3; 4]%positive → has_addr (wlisteners ex_world) ex_addrs x.
Proof. intros Hx. by_cases_in; (split; [by apply ex_in_wf|]; eexists; split; by vm_compute). Qed.


Lemma init_listener_no_leak_witness :
  ∃ r w' l' evs, init_listener Some true true fixed_ntop ex_sock_env 4%positive [1%positive] ex_world = Ok (r, w') ∧
    wlisteners w' !! 4%positive = Some l' ∧ wsock w' = evs ∧ (0 ≤ r → open_fds evs = [r] ∧ watcher_fd l' = r).
Proof.
  destruct (init_listener_no_leak Some true true fixed_ntop ex_sock_env [1%positive] ([1; 2]%positive ++ [3; 4]%positive ++ [2%positive]) []
    [1%positive] ex_world 4%positive (ex_running 8443 1 (-1) None)) as (r & w' & l' & evs & H1 & _ & H2 & H3 & _ & H4).
  - apply ex_world_ok.
  - by vm_compute.
  - done.
  - done.
  - done.
  - exists r, w', l', evs. split_and!; [done|done|done|]. intros Hr. destruct (H4 Hr) as (? & ? & _). done.
Defined.

Lemma listener_update_forgets_witness :
  ∃ w' l', listener_update Some 1%positive 3%positive [1%positive] ex_world = Ok ((), w') ∧
    wlisteners w' !! 1%positive = Some l' ∧ fallback_address l' = Some (ex_in 0).
Proof.
  destruct (listener_update_forgets Some [1%positive] ([1; 2]%positive ++ [3; 4]%positive ++ [2%positive]) [] [1%positive]
    ex_world 1%positive 3%positive (ex_running 80 1 3 (Some 1%positive)) (ex_running 80 1 (-1) None) (ex_in 0))
    as (w' & l' & H1 & H2 & H3 & _); [apply ex_world_ok|done || by vm_compute..|].
  by exists w', l'.
Defined.
