(* ===== verification/Binder.v ===== *)
(** The binder (src/binder.c): a child process that is started before the privileges are dropped
    and binds sockets to low ports for the program.  Requests go through a pair of sockets; the
    answer is a descriptor in ancillary data, or the text of an error. *)

From S2P Require Import Prelude CString Address.
From stdpp Require Import list.

#[local] Open Scope Z_scope.

(** * Data *)

(** The static variables of the parent. *)
Record Binder := mkBinder { binder_sock : Z; binder_pid : Z }.

(** A control message; the data of an [SCM_RIGHTS] message are descriptors. *)
Record cmsghdr := mkCmsg { cmsg_level : Z; cmsg_type : Z; cmsg_data : list Z }.

Definition SOL_SOCKET : Z := 1.
Definition SCM_RIGHTS : Z := 1.

(** [sizeof(request)] for a pointer, [sizeof(struct binder_request)] with its flexible array,
    and the arrays of both processes. *)
Definition sizeof_pointer : Z := 8.
Definition sizeof_binder_request : Z := 8.
Definition sizeof_data : Z := 256.

(** What the parent does, its messages included. *)
Inductive parent_event : Type :=
  | PSend (fd : Z) (data : list Z)
  | PErr (text : list Z)
  | PClose (fd : Z)
  | PWait (pid : Z).

(** What the child does. *)
Inductive child_event : Type :=
  | CSocket (family fd : Z)
  | CReuseAddr (fd : Z)
  | CBind (fd : Z) (addr : list Z)
  | CPass (fd : Z) (data : list Z) (ret : Z)    (* sendmsg with the descriptor *)
  | CSend (data : list Z) (ret : Z)
  | CClose (fd : Z)
  | CErr (text : list Z).

(** Integers in memory, little-endian. *)
Fixpoint le_bytes (n : nat) (z : Z) : list Z :=
  match n with O => [] | S n' => z mod 256 :: le_bytes n' (z / 256) end.
Fixpoint le_value (bs : list Z) : Z :=
  match bs with [] => 0 | b :: bs' => b + 256 * le_value bs' end.

(** * Starting and stopping *)

(** What socketpair and fork return, in the parent. *)
Record start_env := mkStartEnv {
  socketpair_ret : option (Z * Z);
  fork_pid       : Z;
  start_strerror : list Z
}.

Definition start_binder (b : Binder) (e : start_env) : Binder * list parent_event :=
  match socketpair_ret e with
  | None => (b, [PErr (bytes "sockpair: " ++ start_strerror e)])
  | Some (s0, s1) =>
      if fork_pid e =? -1 then (b, [PErr (bytes "fork: " ++ start_strerror e); PClose s0; PClose s1])
      else (mkBinder s0 (fork_pid e), [PClose s1])
  end.

Definition stop_binder (b : Binder) (waitpid_ret : Z) (strerror : list Z) : list parent_event :=
  [PClose (binder_sock b); PWait (binder_pid b)] ++
  if waitpid_ret <? 0 then [PErr (bytes "waitpid: " ++ strerror)] else [].

(** * The parent *)

(** The last descriptor of the control messages. *)
Fixpoint parse_ancillary_data (m : list cmsghdr) (fd : Z) : outcome Z :=
  match m with
  | [] => Ok fd
  | c :: m' =>
      if (cmsg_level c =? SOL_SOCKET) && (cmsg_type c =? SCM_RIGHTS) then
        d ← load_range (cmsg_data c) 0 4;
        parse_ancillary_data m' (c_int (le_value d))
      else parse_ancillary_data m' fd
  end.

(** What the calls return to the parent; [stack] is what the array holds at first. *)
Record parent_env := mkParentEnv {
  psend_ret    : Z;
  precvmsg     : option (list Z * list cmsghdr);   (* None: an error *)
  pstrerror    : list Z;
  stack        : list Z
}.

Definition bind_socket (b : Binder) (e : parent_env) (addr : list Z) (addr_len : Z) : outcome (Z * list parent_event) :=
  if binder_pid b <=? 0 then Ok (-1, [PErr (bytes "bind_socket: Binder not started")]) else
  let request_len := size_t (sizeof_pointer + addr_len) in
  if sizeof_data <? request_len then Fault Exit else
  data_buf ← store_range (stack e) 0 (le_bytes 8 addr_len);
  address ← load_range addr 0 addr_len;
  data_buf ← store_range data_buf 8 address;
  request ← load_range data_buf 0 request_len;
  let sent := PSend (binder_sock b) request in
  if psend_ret e <? 0 then Ok (-1, [sent; PErr (bytes "send: " ++ pstrerror e)]) else
  match precvmsg e with
  | None => Ok (-1, [sent; PErr (bytes "recvmsg: " ++ pstrerror e)])
  | Some (data, control) =>
      data_buf ← store_range data_buf 0 data;
      fd ← parse_ancillary_data control (-1);
      if fd <? 0 then Ok (fd, [sent; PErr (bytes "binder returned: " ++ until_nul (take (length data) data_buf))])
      else Ok (fd, [sent])
  end.

(** * The child *)

(** One turn of the loop: what the calls return, and what the array holds at first. *)
Record child_env := mkChildEnv {
  crecv       : option (list Z);      (* None: an error *)
  csocket     : Z → Z;
  csetsockopt : Z;
  cbind       : list Z → Z;
  csendmsg    : Z;
  csend       : Z;
  cstrerror   : list Z;
  junk        : list Z
}.

(** The array after an error, and the answer: [false] when the loop ends. *)
Definition error_buffer (text : list Z) : list Z :=
  take 255 text ++ replicate (256 - length (take 255 text)) 0.

Definition answer_error (sockfd : Z) (e : child_env) (text : list Z) : list child_event * bool :=
  let sent := CSend (until_nul (error_buffer text)) (csend e) in
  if csend e <? 0 then ([sent; CErr (bytes "send: " ++ cstrerror e); CClose sockfd], false) else ([sent], true).

(** Calls that were made, and then an error. *)
Definition after (evs : list child_event) (r : list child_event * bool) : outcome (list child_event * bool) :=
  Ok (evs ++ fst r, snd r).

Definition binder_turn (sockfd : Z) (e : child_env) : outcome (list child_event * bool) :=
  match crecv e with
  | None => after [] (answer_error sockfd e (bytes "recv(): " ++ cstrerror e))
  | Some data =>
      let len := Zlen data in
      if len =? 0 then Ok ([CClose sockfd], false)
      else if len <? sizeof_binder_request then after [] (answer_error sockfd e (bytes "Incomplete error:"))
      else
        buffer ← store_range (junk e) 0 data;
        family ← sa_family (drop 8 buffer);
        let fd := csocket e family in
        if fd <? 0 then after [CSocket family fd] (answer_error sockfd e (bytes "socket(): " ++ cstrerror e)) else
        if csetsockopt e <? 0 then
          after [CSocket family fd; CReuseAddr fd] (answer_error sockfd e (bytes "setsockopt SO_REUSEADDR failed: " ++ cstrerror e))
        else
        addr ← load_range buffer 8 (le_value (slice buffer 0 8) mod 2 ^ 32);
        let bound := [CSocket family fd; CReuseAddr fd; CBind fd addr] in
        if cbind e addr <? 0 then after bound (answer_error sockfd e (bytes "bind(): " ++ cstrerror e)) else
        let passed := bound ++ [CPass fd buffer (csendmsg e)] in
        if csendmsg e <? 0 then after passed (answer_error sockfd e (bytes "send: " ++ cstrerror e)) else
        Ok (passed ++ [CClose fd], true)
  end.

(** The loop, over what happens turn by turn. *)
Fixpoint binder_main (sockfd : Z) (turns : list child_env) : outcome (list child_event) :=
  match turns with
  | [] => Ok []
  | e :: turns' =>
      '(evs, continue) ← binder_turn sockfd e;
      if continue : bool then rest ← binder_main sockfd turns'; Ok (evs ++ rest) else Ok evs
  end.

(** The child of [start_binder] closes what it inherits first. *)
Definition binder_child (sockfd : Z) (turns : list child_env) : outcome (list child_event) :=
  evs ← binder_main sockfd turns;
  Ok ((CClose <$> (Z.of_nat <$> seq 0 (Z.to_nat sockfd))) ++ evs).

(** * Lemmas *)

Lemma le_bytes_length n z : length (le_bytes n z) = n.
Proof. revert z. induction n as [|n IH]; intros z; [done|]. cbn. by rewrite IH. Qed.

Lemma le_bytes_value n z : 0 ≤ z < 256 ^ Z.of_nat n → le_value (le_bytes n z) = z.
Proof.
  revert z. induction n as [|n IH]; intros z Hz; [cbn in Hz; cbn; lia|]. cbn [le_bytes le_value].
  rewrite Nat2Z.inj_succ, Z.pow_succ_r in Hz by lia. rewrite IH; [|split; [apply Z.div_pos; lia|apply Z.div_lt_upper_bound; lia]].
  pose proof (Z.div_mod z 256). lia.
Qed.

(** The request in memory: the length, the address, and what was there before. *)
Definition request (addr : list Z) : list Z := le_bytes 8 (Zlen addr) ++ addr.

Lemma Zlen_request addr : Zlen (request addr) = 8 + Zlen addr.
Proof. unfold request. by rewrite Zlen_app. Qed.

Lemma splice_request buf addr :
  Zlen buf = 256 → Zlen addr ≤ 248 →
  splice (splice buf 0 (le_bytes 8 (Zlen addr))) 8 addr = request addr ++ drop (8 + length addr) buf.
Proof.
  intros Hb Ha. unfold splice, request. change (Z.to_nat 0) with 0%nat. change (Z.to_nat 8) with 8%nat.
  rewrite take_0, app_nil_l, le_bytes_length, Nat.add_0_l. rewrite take_app_length' by (by rewrite le_bytes_length).
  rewrite drop_app_ge by (rewrite le_bytes_length; lia). rewrite le_bytes_length, drop_drop, <- (assoc_L (++)). do 3 f_equal. lia.
Qed.

Lemma splice_0 buf data : splice buf 0 data = data ++ drop (length data) buf.
Proof. done. Qed.

(** What the child finds in its array. *)
Lemma request_fields addr rest :
  Zlen addr < 2 ^ 32 →
  le_value (slice (request addr ++ rest) 0 8) mod 2 ^ 32 = Zlen addr ∧
  slice (request addr ++ rest) 8 (Zlen addr) = addr.
Proof.
  intros Ha. pose proof (Zlen_nonneg addr). unfold request. rewrite <- (assoc_L (++)). split.
  - replace (slice (le_bytes 8 (Zlen addr) ++ addr ++ rest) 0 8) with (le_bytes 8 (Zlen addr)) by (symmetry; by apply (slice_mid [])).
    rewrite le_bytes_value by lia. apply Z.mod_small. lia.
  - by apply slice_mid.
Qed.

Lemma error_buffer_text text :
  0 ∉ text → until_nul (error_buffer text) = take 255 text ∧ Zlen (take 255 text) ≤ 255.
Proof.
  intros Ht. assert (0 ∉ take 255 text) as H0.
  { intros Hin. apply Ht. by apply elem_of_take in Hin as (? & ?%list_elem_of_lookup_2 & _). }
  split; [|unfold Zlen; rewrite length_take; lia]. unfold error_buffer.
  replace (256 - length (take 255 text))%nat with (S (255 - length (take 255 text)))%nat by (rewrite length_take; lia).
  cbn [replicate]. by apply until_nul_app.
Qed.

(** ** The parent *)

Lemma bind_socket_request b e addr :
  0 < binder_pid b → Zlen (stack e) = sizeof_data → Zlen addr ≤ 248 →
  let sent := PSend (binder_sock b) (request addr) in
  bind_socket b e addr (Zlen addr) =
    if psend_ret e <? 0 then Ok (-1, [sent; PErr (bytes "send: " ++ pstrerror e)]) else
    match precvmsg e with
    | None => Ok (-1, [sent; PErr (bytes "recvmsg: " ++ pstrerror e)])
    | Some (data, control) =>
        data_buf ← store_range (request addr ++ drop (8 + length addr) (stack e)) 0 data;
        fd ← parse_ancillary_data control (-1);
        if fd <? 0 then Ok (fd, [sent; PErr (bytes "binder returned: " ++ until_nul (take (length data) data_buf))])
        else Ok (fd, [sent])
    end.
Proof.
  intros Hpid Hstack Ha sent. pose proof (Zlen_nonneg addr). unfold bind_socket, sizeof_data, sizeof_pointer in *.
  rewrite (proj2 (Z.leb_gt _ 0)), size_t_small, (proj2 (Z.ltb_ge _ _)) by lia.
  assert (Zlen (le_bytes 8 (Zlen addr)) = 8) as Hle by (unfold Zlen; by rewrite le_bytes_length).
  rewrite store_range_Ok by (rewrite ?Hle; lia). outcome_simpl.
  rewrite load_range_Ok by lia. rewrite slice_all. outcome_simpl.
  rewrite store_range_Ok by (rewrite ?Zlen_splice; rewrite ?Hle; lia). outcome_simpl.
  rewrite splice_request by done.
  assert (Zlen (request addr ++ drop (8 + length addr) (stack e)) = 256) as Hlen.
  { rewrite Zlen_app, Zlen_request. unfold Zlen in *. rewrite length_drop. lia. }
  rewrite load_range_Ok by lia. outcome_simpl.
  replace (slice (request addr ++ _) 0 (8 + Zlen addr)) with (request addr); [done|].
  symmetry. rewrite <- Zlen_request. by apply (slice_mid []).
Qed.

(** ** The child *)

Lemma binder_turn_request sockfd e addr :
  crecv e = Some (request addr) → Zlen (junk e) = sizeof_data → 2 ≤ Zlen addr ≤ 248 →
  ∃ family, sa_family addr = Ok family ∧
    binder_turn sockfd e =
      let fd := csocket e family in
      let opened := [CSocket family fd; CReuseAddr fd] in
      let bound := opened ++ [CBind fd addr] in
      let passed := bound ++ [CPass fd (request addr ++ drop (8 + length addr) (junk e)) (csendmsg e)] in
      if fd <? 0 then after [CSocket family fd] (answer_error sockfd e (bytes "socket(): " ++ cstrerror e)) else
      if csetsockopt e <? 0 then after opened (answer_error sockfd e (bytes "setsockopt SO_REUSEADDR failed: " ++ cstrerror e)) else
      if cbind e addr <? 0 then after bound (answer_error sockfd e (bytes "bind(): " ++ cstrerror e)) else
      if csendmsg e <? 0 then after passed (answer_error sockfd e (bytes "send: " ++ cstrerror e)) else
      Ok (passed ++ [CClose fd], true).
Proof.
  intros Hr Hj Ha. unfold sizeof_data in Hj.
  destruct (load_Ok addr 0) as (lo & Hlo & _); [lia|]. destruct (load_Ok addr 1) as (hi & Hhi & _); [lia|].
  exists (lo + 256 * hi). split; [unfold sa_family; by rewrite Hlo; outcome_simpl; rewrite Hhi|].
  unfold binder_turn. rewrite Hr, Zlen_request, (proj2 (Z.eqb_neq _ _)), (proj2 (Z.ltb_ge _ sizeof_binder_request)) by (unfold sizeof_binder_request; lia).
  rewrite store_range_Ok by (rewrite ?Zlen_request; lia). outcome_simpl. rewrite splice_0.
  replace (length (request addr)) with (8 + length addr)%nat by (unfold request; rewrite length_app, le_bytes_length; lia).
  set (rest := drop (8 + length addr) (junk e)).
  assert (drop 8 (request addr ++ rest) = addr ++ rest) as Hdrop.
  { unfold request. rewrite <- (assoc_L (++)). apply drop_app_length'. by rewrite le_bytes_length. }
  unfold sa_family. rewrite Hdrop, !load_app_l, Hlo by lia. outcome_simpl. rewrite Hhi. outcome_simpl.
  destruct (request_fields addr rest) as [Hn Hs]; [lia|].
  rewrite Hn, load_range_Ok by (rewrite ?Zlen_app, ?Zlen_request; pose proof (Zlen_nonneg rest); lia). rewrite Hs. outcome_simpl.
  cbv zeta. done.
Qed.

(** * Both processes *)

(** What the parent receives, as [fd'] if a descriptor is passed to it. *)
Fixpoint delivered (fd' : Z) (evs : list child_event) : option (list Z * list cmsghdr) :=
  match evs with
  | [] => None
  | CPass _ data ret :: evs' =>
      if ret <? 0 then delivered fd' evs' else Some (data, [mkCmsg SOL_SOCKET SCM_RIGHTS (le_bytes 4 fd')])
  | CSend data ret :: evs' => if ret <? 0 then delivered fd' evs' else Some (data, [])
  | _ :: evs' => delivered fd' evs'
  end.

(** The descriptors that a turn opens and does not close. *)
Fixpoint left_open (evs : list child_event) (fds : list Z) : list Z :=
  match evs with
  | [] => fds
  | CSocket _ fd :: evs' => left_open evs' (if fd <? 0 then fds else fd :: fds)
  | CClose fd :: evs' => left_open evs' (filter (λ x, x ≠ fd) fds)
  | _ :: evs' => left_open evs' fds
  end.

(** The first call that fails, as the text of the answer. *)
Definition binder_error (e : child_env) (family : Z) (addr : list Z) : option (list Z) :=
  if csocket e family <? 0 then Some (bytes "socket(): " ++ cstrerror e)
  else if csetsockopt e <? 0 then Some (bytes "setsockopt SO_REUSEADDR failed: " ++ cstrerror e)
  else if cbind e addr <? 0 then Some (bytes "bind(): " ++ cstrerror e)
  else if csendmsg e <? 0 then Some (bytes "send: " ++ cstrerror e)
  else None.

Lemma binder_error_nul_free e family addr text :
  0 ∉ cstrerror e → binder_error e family addr = Some text → 0 ∉ text.
Proof.
  intros H. assert (∀ what : string, 0 ∉ bytes what → Some (bytes what ++ cstrerror e) = Some text → 0 ∉ text) as Ht.
  { intros what Hw [= <-]. by rewrite not_elem_of_app. }
  unfold binder_error. repeat (destruct (_ <? 0); [apply Ht; no_nul|]). done.
Qed.

Lemma after_answer evs sockfd e text fd' :
  delivered fd' evs = None → 0 ≤ csend e → 0 ∉ text →
  ∃ evs', after evs (answer_error sockfd e text) = Ok (evs ++ evs', true) ∧ evs' = [CSend (take 255 text) (csend e)] ∧
    delivered fd' (evs ++ evs') = Some (take 255 text, []).
Proof.
  intros Hd Hs Ht. unfold after, answer_error. rewrite (proj1 (error_buffer_text text Ht)), (proj2 (Z.ltb_ge _ _)) by done.
  eexists. split; [done|]. split; [done|]. induction evs as [|ev evs IH]; cbn; [by rewrite (proj2 (Z.ltb_ge _ _)) by done|].
  destruct ev as [| | |? ? ret|? ret| |]; cbn in Hd |- *; try (by apply IH); destruct (ret <? 0); try done; by apply IH.
Qed.

(** A request is carried out, or answered with an error. *)
Lemma binder_turn_served sockfd e addr fd' :
  crecv e = Some (request addr) → Zlen (junk e) = sizeof_data → 2 ≤ Zlen addr ≤ 248 → 0 ∉ cstrerror e → 0 ≤ csend e →
  ∃ family evs, sa_family addr = Ok family ∧ binder_turn sockfd e = Ok (evs, true) ∧
    let fd := csocket e family in
    match binder_error e family addr with
    | None =>
        let buffer := request addr ++ drop (8 + length addr) (junk e) in
        evs = [CSocket family fd; CReuseAddr fd; CBind fd addr; CPass fd buffer (csendmsg e); CClose fd] ∧
        delivered fd' evs = Some (buffer, [mkCmsg SOL_SOCKET SCM_RIGHTS (le_bytes 4 fd')]) ∧ left_open evs [] = []
    | Some text => delivered fd' evs = Some (take 255 text, []) ∧ left_open evs [] = if fd <? 0 then [] else [fd]
    end.
Proof.
  intros Hr Hj Ha Hstr Hs. destruct (binder_turn_request sockfd e addr Hr Hj Ha) as (family & Hfam & ->). exists family.
  assert (∀ text, binder_error e family addr = Some text → 0 ∉ text) as Hnul by (intros text; by apply binder_error_nul_free).
  cbv zeta. unfold binder_error in *. set (fd := csocket e family) in *.
  destruct (fd <? 0) eqn:Hfd; [|destruct (csetsockopt e <? 0); [|destruct (cbind e addr <? 0); [|destruct (csendmsg e <? 0) eqn:Hmsg]]].
  all: try (edestruct (after_answer) as (evs & -> & -> & Hd); [| |by apply Hnul|]; [|done|]; [|eexists; split; [done|]; split; [done|]; split; [exact Hd|]]).
  all: cbn; rewrite ?Hfd, ?Hmsg; try done.
  eexists. split; [done|]. split; [done|]. cbn. rewrite Hfd, Hmsg. split_and!; [done|done|].
  rewrite filter_cons, decide_False by (by intros H). done.
Qed.

Lemma parse_rights fd fd0 :
  0 ≤ fd < 2 ^ 31 → parse_ancillary_data [mkCmsg SOL_SOCKET SCM_RIGHTS (le_bytes 4 fd)] fd0 = Ok fd.
Proof.
  intros Hfd. cbn [parse_ancillary_data cmsg_level cmsg_type cmsg_data]. rewrite (load_range_Ok (le_bytes 4 fd)) by (unfold Zlen; rewrite ?le_bytes_length; lia).
  replace (slice (le_bytes 4 fd) 0 4) with (le_bytes 4 fd) by (symmetry; apply (slice_all (le_bytes 4 fd))).
  change ((SOL_SOCKET =? SOL_SOCKET) && (SCM_RIGHTS =? SCM_RIGHTS)) with true. cbv iota. outcome_simpl.
  by rewrite le_bytes_value, c_int_small by lia.
Qed.

(** * Properties *)


(** The child loses a descriptor for every request that fails after the socket was opened:
    setting the option, binding or passing it.  It answers with an error and goes on to the
    next request, but the socket stays open; only a failed socket call leaves nothing. *)
Theorem binder_keeps_failed_socket ce sockfd addr family text :
  crecv ce = Some (request addr) → Zlen (junk ce) = sizeof_data → 2 ≤ Zlen addr ≤ 248 →
  0 ∉ cstrerror ce → 0 ≤ csend ce → sa_family addr = Ok family → binder_error ce family addr = Some text →
  ∃ evs, binder_turn sockfd ce = Ok (evs, true) ∧
    left_open evs [] = if csocket ce family <? 0 then [] else [csocket ce family].
Proof.
  intros Hr Hj Ha Hstr Hcs Hfam Herr.
  destruct (binder_turn_served sockfd ce addr 0 Hr Hj Ha Hstr Hcs) as (family' & evs & Hfam' & Hturn & Hcase).
  rewrite Hfam in Hfam'. injection Hfam' as <-. rewrite Herr in Hcase. exists evs. split; [done|]. apply Hcase.
Qed.

(** * Examples *)

Definition ex_addr : list Z := [2; 0; 1; 187; 192; 0; 2; 1] ++ replicate 8 0.
Definition ex_turn (ret : Z) : child_env :=
  mkChildEnv (Some (request ex_addr)) (λ _, 7) 0 (λ _, ret) 0 0 (bytes "Address already in use") (replicate 256 170).
Definition ex_parent (evs : list child_event) : parent_env :=
  mkParentEnv 24 (delivered 9 evs) (bytes "Error") (replicate 256 85).

Definition ex_evs : list child_event := match binder_turn 4 (ex_turn 0) with Ok (evs, _) => evs | _ => [] end.


Lemma binder_keeps_failed_socket_witness :
  ∃ evs, binder_turn 4 (ex_turn (-1)) = Ok (evs, true) ∧ left_open evs [] = [7].
Proof.
  apply (binder_keeps_failed_socket (ex_turn (-1)) 4 ex_addr 2 (bytes "bind(): Address already in use"));
    [done|done|by vm_compute|no_nul|done|done|done].
Defined.
