(* ===== verification/BadRequest.v ===== *)
(** The message about a request that cannot be parsed ([log_bad_request] of src/connection.c):
    a text of computed length is built piece by piece in an allocated block. *)

From S2P Require Import Prelude CString RefCount Logger.
From stdpp Require Import list.

#[local] Open Scope Z_scope.

(** * Operations *)

(** [%d] and [0x%02hhx]. *)
Definition show_int (z : Z) : list Z := if z <? 0 then bytes "-" ++ decimal (- z) else decimal z.
Definition hex_digit (d : Z) : Z := if d <? 10 then 48 + d else 87 + d.
Definition show_hex (b : Z) : list Z := bytes "0x" ++ [hex_digit (b / 16); hex_digit (b mod 16)].

(** [snprintf] at an offset of a block; it returns the length of the whole text. *)
Definition snprintf_at (m : list Z) (pos size : Z) (text : list Z) : outcome (list Z) :=
  if size =? 0 then Ok m else store_range m pos (take (Z.to_nat (size - 1)) text ++ [0]).

Section log_bad_request.
Context (message_len : Z).

Fixpoint print_bytes (m : list Z) (message_pos : Z) (req : list Z) : outcome (list Z * Z) :=
  match req with
  | [] => Ok (m, message_pos)
  | b :: req' =>
      let text := show_hex b ++ bytes ", " in
      m ← snprintf_at m message_pos (size_t (message_len - message_pos)) text;
      print_bytes m (message_pos + Zlen text) req'
  end.
End log_bad_request.

(** What is logged, with its priority: a debug message, or else the error when there is no
    memory. *)
Definition log_bad_request (malloc : Z → option (list Z)) (req : list Z) (parse_result : Z)
    : outcome (Z * list Z) :=
  let req_len := Zlen req in
  let message_len := size_t (64 + 6 * req_len) in
  match malloc message_len with
  | None => Ok (LOG_ERR, bytes "log_bad_request: unable to allocate message buffer")
  | Some m =>
      let first := bytes "parse_packet({" in
      m ← snprintf_at m 0 message_len first;
      '(m, message_pos) ← print_bytes message_len m (Zlen first) req;
      let message_pos := message_pos - 2 in
      m ← snprintf_at m message_pos (size_t (message_len - message_pos))
            (bytes "}, " ++ decimal req_len ++ bytes ", ...) = " ++ show_int parse_result);
      text ← c_string m 0;
      Ok (LOG_DEBUG, text)
  end.

(** * Lemmas *)

(** The block holds a text, its NUL, and some more. *)
Definition holds (m text : list Z) : Prop := ∃ rest, m = text ++ 0 :: rest.

Lemma snprintf_at_append m text pre more size :
  m = text ++ more → Zlen text = pre → Zlen text + Zlen size < Zlen m → Zlen m < 2 ^ 64 →
  ∃ rest, snprintf_at m pre (size_t (Zlen m - pre)) size = Ok (text ++ size ++ 0 :: rest) ∧
    Zlen (text ++ size ++ 0 :: rest) = Zlen m.
Proof.
  intros -> <- Hlen Hmax. pose proof (Zlen_nonneg text). pose proof (Zlen_nonneg size). rewrite Zlen_app in Hlen, Hmax |- *.
  unfold snprintf_at. rewrite size_t_small, (proj2 (Z.eqb_neq _ _)) by lia.
  rewrite take_ge by (unfold Zlen in *; lia). rewrite store_range_Ok; [|lia|rewrite !Zlen_app; change (Zlen [0]) with 1; lia].
  exists (drop (length size + 1) more). unfold splice. split.
  - replace (Z.to_nat (Zlen text)) with (length text) by (unfold Zlen; lia).
    rewrite take_app_length, drop_app_ge by lia. rewrite length_app. cbn [length]. f_equal.
    rewrite <- (assoc_L (++)). cbn [app]. do 4 f_equal. lia.
  - rewrite !Zlen_app, Zlen_cons. unfold Zlen in *. rewrite length_drop. lia.
Qed.

(** What the loop appends, and the bytes as they are meant to be shown. *)
Definition pieces (req : list Z) : list Z := req ≫= λ b, show_hex b ++ bytes ", ".

Fixpoint join_hex (req : list Z) : list Z :=
  match req with
  | [] => []
  | [b] => show_hex b
  | b :: req' => show_hex b ++ bytes ", " ++ join_hex req'
  end.

Lemma pieces_join req : req ≠ [] → pieces req = join_hex req ++ bytes ", ".
Proof.
  induction req as [|b req IH]; [done|]. intros _. change (pieces (b :: req)) with ((show_hex b ++ bytes ", ") ++ pieces req).
  destruct req as [|b' req]; [by rewrite app_nil_r|]. rewrite IH by done.
  change (join_hex (b :: b' :: req)) with (show_hex b ++ bytes ", " ++ join_hex (b' :: req)). by rewrite <- !(assoc_L (++)).
Qed.

Lemma Zlen_pieces req : Zlen (pieces req) = 6 * Zlen req.
Proof.
  induction req as [|b req IH]; [done|]. change (pieces (b :: req)) with ((show_hex b ++ bytes ", ") ++ pieces req).
  rewrite Zlen_app, IH, Zlen_cons. change (Zlen (show_hex b ++ bytes ", ")) with 6. lia.
Qed.

Lemma print_bytes_ok L m text req :
  holds m text → Zlen m = L → L < 2 ^ 64 → Zlen text + 6 * Zlen req < L →
  ∃ m', print_bytes L m (Zlen text) req = Ok (m', Zlen text + 6 * Zlen req) ∧ holds m' (text ++ pieces req) ∧ Zlen m' = L.
Proof.
  revert m text. induction req as [|b req IH]; intros m text Hm HL Hmax Hlen.
  { exists m. cbn [print_bytes pieces]. change (Zlen (@nil Z)) with 0. rewrite Z.mul_0_r, Z.add_0_r, app_nil_r. done. }
  rewrite Zlen_cons in Hlen |- *. pose proof (Zlen_nonneg req). destruct Hm as [rest Hm]. cbn [print_bytes]. cbv zeta.
  destruct (snprintf_at_append m text (Zlen text) _ (show_hex b ++ bytes ", ") Hm eq_refl) as (rest1 & Heq & Hl1);
    [change (Zlen (show_hex b ++ bytes ", ")) with 6; lia|lia|].
  rewrite HL in Heq. rewrite Heq. outcome_simpl. rewrite <- Zlen_app.
  destruct (IH (text ++ (show_hex b ++ bytes ", ") ++ 0 :: rest1) (text ++ show_hex b ++ bytes ", ")) as (m' & Hrun & Hh & Hl').
  - exists rest1. by rewrite <- !(assoc_L (++)).
  - lia.
  - done.
  - rewrite Zlen_app. change (Zlen (show_hex b ++ bytes ", ")) with 6. lia.
  - exists m'. split_and!; [|by rewrite <- (assoc_L (++)) in Hh|done]. rewrite Hrun, Zlen_app.
    change (Zlen (show_hex b ++ bytes ", ")) with 6. do 2 f_equal. lia.
Qed.

Lemma decimal_length k n : 0 ≤ n < 10 ^ Z.of_nat (S k) → Zlen (decimal n) ≤ Z.of_nat (S k).
Proof. intros Hn. unfold Zlen, decimal. pose proof (decimal_fuel_length (S (Z.to_nat (Z.log2 n))) k n Hn). lia. Qed.

Lemma show_int_length z : - 2 ^ 31 ≤ z < 2 ^ 31 → Zlen (show_int z) ≤ 11.
Proof.
  intros Hz. unfold show_int. destruct (Z.ltb_spec z 0).
  - rewrite Zlen_app. pose proof (decimal_length 9 (- z) ltac:(cbn; lia)). change (Zlen (bytes "-")) with 1. lia.
  - pose proof (decimal_length 9 z ltac:(cbn; lia)). lia.
Qed.

Lemma show_int_nul_free z : 0 ∉ show_int z.
Proof.
  unfold show_int. destruct (Z.ltb_spec z 0); [|by apply decimal_nul_free]. rewrite not_elem_of_app. split; [no_nul|apply decimal_nul_free; lia].
Qed.

Lemma show_hex_nul_free b : is_byte b → 0 ∉ show_hex b.
Proof.
  intros Hb. assert (∀ d, 0 ≤ d → 0 ≠ hex_digit d) as Hd by (intros d Hd; unfold hex_digit; destruct (d <? 10); lia).
  unfold is_byte in Hb. unfold show_hex. rewrite not_elem_of_app, !not_elem_of_cons.
  split_and!; [no_nul|apply Hd, Z.div_pos; lia|apply Hd, Z.mod_pos_bound; lia|apply not_elem_of_nil].
Qed.

Lemma pieces_nul_free req : Forall is_byte req → 0 ∉ pieces req.
Proof.
  induction 1 as [|b req Hb _ IH]; [apply not_elem_of_nil|].
  change (pieces (b :: req)) with ((show_hex b ++ bytes ", ") ++ pieces req). rewrite !not_elem_of_app.
  split_and!; [by apply show_hex_nul_free|no_nul|done].
Qed.

(** The text that is meant. *)
Definition bad_request_text (req : list Z) (parse_result : Z) : list Z :=
  (if bool_decide (req = []) then bytes "parse_packet" else bytes "parse_packet({" ++ join_hex req) ++
  bytes "}, " ++ decimal (Zlen req) ++ bytes ", ...) = " ++ show_int parse_result.

Lemma log_bad_request_eq malloc req parse_result m :
  Forall is_byte req → 64 + 6 * Zlen req < 2 ^ 64 → - 2 ^ 31 ≤ parse_result < 2 ^ 31 →
  malloc (64 + 6 * Zlen req) = Some m → Zlen m = 64 + 6 * Zlen req →
  log_bad_request malloc req parse_result = Ok (LOG_DEBUG, bad_request_text req parse_result).
Proof.
  intros Hreq Hmax Hres Hmalloc Hm. pose proof (Zlen_nonneg req). unfold log_bad_request.
  rewrite size_t_small by lia. rewrite Hmalloc. set (first := bytes "parse_packet({"). set (L := 64 + 6 * Zlen req) in *.
  assert (Zlen first = 14) as Hfirst by done.
  destruct (snprintf_at_append m [] 0 m first eq_refl eq_refl) as (rest1 & H1 & Hl1); [change (Zlen (@nil Z)) with 0; lia|lia|].
  rewrite Hm, Z.sub_0_r, size_t_small in H1 by lia. rewrite H1. outcome_simpl.
  destruct (print_bytes_ok L (first ++ 0 :: rest1) first req) as (m2 & H2 & [rest2 Hh2] & Hl2); [by eexists|rewrite app_nil_l in Hl1; lia|lia|lia|].
  cbn [app]. rewrite H2. outcome_simpl.
  set (tail := bytes "}, " ++ decimal (Zlen req) ++ bytes ", ...) = " ++ show_int parse_result).
  set (kept := if bool_decide (req = []) then bytes "parse_packet" else first ++ join_hex req).
  assert (∃ s, first ++ pieces req = kept ++ s ∧ Zlen kept = 14 + 6 * Zlen req - 2 ∧ 0 ∉ kept) as (s & Hs & Hk & Hknul).
  { pose proof (pieces_nul_free req Hreq) as Hp. pose proof (Zlen_pieces req) as Hz. unfold kept. case_bool_decide as He.
    - subst req. exists (bytes "({"). split_and!; [done|done|no_nul].
    - rewrite pieces_join in Hp, Hz |- * by done. exists (bytes ", "). rewrite <- (assoc_L (++)). split; [done|].
      rewrite Zlen_app in Hz |- *. change (Zlen (bytes ", ")) with 2 in Hz. split; [lia|].
      rewrite not_elem_of_app in Hp |- *. split; [unfold first; no_nul|apply Hp]. }
  assert (Zlen tail ≤ 3 + 20 + 9 + 11) as Htail.
  { unfold tail. rewrite !Zlen_app. pose proof (decimal_length 19 (Zlen req) ltac:(cbn; lia)). pose proof (show_int_length _ Hres).
    change (Zlen (bytes "}, ")) with 3. change (Zlen (bytes ", ...) = ")) with 9. lia. }
  destruct (snprintf_at_append m2 kept (Zlen first + 6 * Zlen req - 2) (s ++ 0 :: rest2) tail) as (rest3 & H3 & _);
    [by rewrite Hh2, Hs, <- (assoc_L (++))|lia|lia|lia|].
  rewrite Hl2 in H3. rewrite H3. outcome_simpl. rewrite (assoc_L (++)).
  assert (c_string ((kept ++ tail) ++ 0 :: rest3) 0 = Ok (kept ++ tail)) as ->; [|done]. apply (c_string_app []); [done|].
  rewrite not_elem_of_app. split; [done|]. unfold tail. rewrite !not_elem_of_app.
  split_and!; [no_nul|by apply decimal_nul_free|no_nul|apply show_int_nul_free].
Qed.

Lemma bad_request_text_nul_free req parse_result : Forall is_byte req → 0 ∉ bad_request_text req parse_result.
Proof.
  intros Hreq. unfold bad_request_text. rewrite !not_elem_of_app.
  split_and!; [|no_nul|apply decimal_nul_free, Zlen_nonneg|no_nul|apply show_int_nul_free].
  case_bool_decide as He; [no_nul|]. rewrite not_elem_of_app. split; [no_nul|].
  pose proof (pieces_nul_free req Hreq) as Hp. rewrite pieces_join, not_elem_of_app in Hp by done. apply Hp.
Qed.

(** Whether or not there is memory, a text without NUL is logged. *)
Lemma log_bad_request_Ok malloc req parse_result :
  Forall is_byte req → 64 + 6 * Zlen req < 2 ^ 64 → - 2 ^ 31 ≤ parse_result < 2 ^ 31 →
  (∀ n m, 0 ≤ n → malloc n = Some m → Zlen m = n) →
  ∃ prio text, log_bad_request malloc req parse_result = Ok (prio, text) ∧ 0 ∉ text.
Proof.
  intros Hreq Hmax Hres Hm. pose proof (Zlen_nonneg req). destruct (malloc (64 + 6 * Zlen req)) as [m|] eqn:Heq.
  - eexists _, _. split; [eapply log_bad_request_eq; try done|by apply bad_request_text_nul_free]. by apply Hm; [lia|].
  - unfold log_bad_request. rewrite size_t_small, Heq by lia. eexists _, _. split; [done|no_nul].
Qed.

(** * Properties *)

(** C30: the message about a bad request always fits in its block, whatever the request: no byte
    is written outside of it and nothing is cut off.  The text is complete, with every byte of
    the request in order, its length and the result; only for an empty request is the opening
    of the list deleted with the separator that is not there. *)
Theorem log_bad_request_fits malloc req parse_result m :
  Forall is_byte req → 64 + 6 * Zlen req < 2 ^ 64 → - 2 ^ 31 ≤ parse_result < 2 ^ 31 →
  malloc (64 + 6 * Zlen req) = Some m → Zlen m = 64 + 6 * Zlen req →
  log_bad_request malloc req parse_result =
    Ok (LOG_DEBUG,
        (if bool_decide (req = []) then bytes "parse_packet" else bytes "parse_packet({" ++ join_hex req) ++
        bytes "}, " ++ decimal (Zlen req) ++ bytes ", ...) = " ++ show_int parse_result).
Proof. apply log_bad_request_eq. Qed.

Lemma log_bad_request_fits_witness :
  log_bad_request (λ n, Some (replicate (Z.to_nat n) 170)) [22; 3; 255] (-5) =
    Ok (LOG_DEBUG, bytes "parse_packet({0x16, 0x03, 0xff}, 3, ...) = -5").
Proof.
  exact (log_bad_request_fits (λ n, Some (replicate (Z.to_nat n) 170)) [22; 3; 255] (-5) (replicate 82 170)
    ltac:(by apply bytes_checked) ltac:(done) ltac:(done) eq_refl eq_refl).
Defined.
