(* ===== verification/Connection.v ===== *)
(** Connections (src/connection.c): the state machine that accepts a client, reads its
    request, chooses and connects to a server, and then relays bytes both ways until
    both sockets are closed.  What a handler has to say is part of its trace; the file
    Connections hands it to the logger.  The queue of all connections and the reference to the
    listener are left out here, and so is the freeing of memory. *)

From S2P Require Import Prelude CString Protocol RefCount Buffer Tls Http Address Resolv Backend Table Listener Logger BadRequest.
From stdpp Require Import list gmap.

#[local] Open Scope Z_scope.

(** * Data *)

Inductive State : Type :=
  | NEW | ACCEPTED | PARSED | RESOLVING | RESOLVED | CONNECTED | SERVER_CLOSED | CLIENT_CLOSED | CLOSED.

#[global] Instance State_eq_dec : EqDecision State.
Proof. solve_decision. Defined.

(** A libev I/O watcher. *)
Definition EV_READ : Z := 1.
Definition EV_WRITE : Z := 2.

Record ev_io := mkWatcher { wfd : Z; wactive : bool; wevents : Z }.

Definition ev_io_init (fd events : Z) : ev_io := mkWatcher fd false events.
Definition ev_io_set (w : ev_io) (fd events : Z) : ev_io := mkWatcher fd (wactive w) events.
Definition ev_io_start (w : ev_io) : ev_io := mkWatcher (wfd w) true (wevents w).
Definition ev_io_stop (w : ev_io) : ev_io := mkWatcher (wfd w) false (wevents w).

(** One of the two anonymous structs [client] and [server]; an address is the 128 bytes of
    its [sockaddr_storage].  The length of the local address is never read. *)
Record peer := mkPeer {
  paddr     : list Z;    (* addr *)
  paddr_len : Z;         (* addr_len *)
  plocal    : list Z;    (* local_addr *)
  watcher   : ev_io;
  pbuffer   : Buffer     (* buffer *)
}.

(** [query_handle] is [Some] of the address the pending query was made for. *)
Record Connection := mkConn {
  state             : State;
  client            : peer;
  server            : peer;
  hostname          : option (list Z);
  hostname_len      : Z;
  header_len        : Z;
  query_handle      : option Address;
  established       : Z;             (* established_timestamp *)
  cuse_proxy_header : bool           (* use_proxy_header *)
}.

Definition set_state (s : State) (c : Connection) : Connection :=
  mkConn s (client c) (server c) (hostname c) (hostname_len c) (header_len c) (query_handle c)
    (established c) (cuse_proxy_header c).
Definition set_header_len (n : Z) (c : Connection) : Connection :=
  mkConn (state c) (client c) (server c) (hostname c) (hostname_len c) n (query_handle c)
    (established c) (cuse_proxy_header c).
Definition set_hostname (h : option (list Z)) (n : Z) (c : Connection) : Connection :=
  mkConn (state c) (client c) (server c) h n (header_len c) (query_handle c)
    (established c) (cuse_proxy_header c).
Definition set_query (q : option Address) (c : Connection) : Connection :=
  mkConn (state c) (client c) (server c) (hostname c) (hostname_len c) (header_len c) q
    (established c) (cuse_proxy_header c).
Definition set_use_proxy (b : bool) (c : Connection) : Connection :=
  mkConn (state c) (client c) (server c) (hostname c) (hostname_len c) (header_len c) (query_handle c)
    (established c) b.
(** [true] is the client, [false] the server. *)
Definition side (s : bool) (c : Connection) : peer := if s then client c else server c.
Definition set_side (s : bool) (p : peer) (c : Connection) : Connection :=
  mkConn (state c) (if s then p else client c) (if s then server c else p) (hostname c)
    (hostname_len c) (header_len c) (query_handle c) (established c) (cuse_proxy_header c).
Definition set_watcher (w : ev_io) (p : peer) : peer := mkPeer (paddr p) (paddr_len p) (plocal p) w (pbuffer p).
Definition set_buffer (b : Buffer) (p : peer) : peer := mkPeer (paddr p) (paddr_len p) (plocal p) (watcher p) b.
Definition set_addr (a : list Z) (n : Z) (p : peer) : peer := mkPeer a n (plocal p) (watcher p) (pbuffer p).
Definition set_local (a : list Z) (p : peer) : peer := mkPeer (paddr p) (paddr_len p) a (watcher p) (pbuffer p).

(** What a connection does to the outside. *)
Inductive io : Type :=
  | IoRecv (s : bool) (bs : list Z)   (* bytes received from the client or the server *)
  | IoSend (s : bool) (bs : list Z)   (* bytes sent to it *)
  | IoClose (s : bool)                (* its socket closed *)
  | IoBind (addr : list Z)            (* bind() of the new socket *)
  | IoConnect (addr : list Z)         (* connect() to the address *)
  | IoDiscard (fd : Z)                (* a socket closed before it was connected *)
  | IoQuery (host : list Z) (mode : Z)
  | IoCancel
  | IoLog (prio : Z) (text : list Z). (* a message of err, warn, notice or debug *)

(** * A monad for the handlers

    The connection and the trace are passed along; a fault ends the computation. *)

Definition M (A : Type) : Type := Connection → list io → outcome (A * Connection * list io).

#[global] Instance M_ret : MRet M := λ A a c t, Ok (a, c, t).
#[global] Instance M_bind : MBind M := λ A B f m c t,
  match m c t with Ok (a, c', t') => f a c' t' | Fault e => Fault e end.

Definition get : M Connection := λ c t, Ok (c, c, t).
Definition modify (f : Connection → Connection) : M unit := λ c t, Ok ((), f c, t).
Definition emit (e : io) : M unit := λ c t, Ok ((), c, t ++ [e]).
Definition lift {A} (o : outcome A) : M A := λ c t,
  match o with Ok a => Ok (a, c, t) | Fault e => Fault e end.
Definition fault {A} (e : fault) : M A := λ _ _, Fault e.
Definition when (b : bool) (m : M unit) : M unit := if b then m else mret ().

Notation "m1 ;;; m2" := (mbind (M := M) (λ _ : unit, m2) m1)
  (at level 100, m2 at level 200, right associativity).

Definition say (prio : Z) (text : list Z) : M unit := emit (IoLog prio text).

Definition set_peer (s : bool) (f : peer → peer) : M unit := modify (λ c, set_side s (f (side s c)) c).

(** * Texts *)

(** The errors of the system: the texts of [strerror], and the [errno] with which [close] of
    the socket of a side fails, if it does. *)
Record sys_errors := mkErrors { strerror : Z → list Z; close_err : bool → option Z }.

(** [%s] of [strerror]. *)
Definition show_error (x : sys_errors) (errno : Z) : list Z := until_nul (strerror x errno).

(** [%s] of a string; glibc prints NULL as "(null)". *)
Definition show_string (s : option (list Z)) : list Z := match s with Some t => until_nul t | None => bytes "(null)" end.

(** [%s] of a buffer that was filled by [display_sockaddr]. *)
Definition show_sockaddr (inet_ntop : Z → list Z → list Z) (sa : list Z) (size : Z) : outcome (list Z) :=
  s ← display_sockaddr inet_ntop sa size; Ok (until_nul s).

(** The buffers for the addresses of peers. *)
Definition PEER_BUFFER_SIZE : Z := INET6_ADDRSTRLEN + 8.

(** The first bytes of a [struct Address]: its type.  The padding behind them has no value. *)
Definition address_struct (a : Address) : list Z :=
  [match type a with HOSTNAME => 0 | SOCKADDR => 1 | WILDCARD => 2 | PATTERN => 3 end; 0; 0; 0].

(** [display_sockaddr] of [con->listener->address], which is a [struct Address] and not a socket
    address: the family that is read is the type. *)
Definition show_listener_address (inet_ntop : Z → list Z → list Z) (la : option Address) : outcome (list Z) :=
  match la with
  | None => Fault NullDereference
  | Some a => show_sockaddr inet_ntop (address_struct a) ADDRESS_BUFFER_SIZE
  end.

Definition socket_name (s : bool) : list Z := if s then bytes "client" else bytes "server".

(** * The environment of one callback

    What the system calls return while the callback runs, and the listener and table as
    they are then. *)

Record env (pcre : Type) := mkEnv {
  now         : Z;
  recv_ret_of : recv_result;                 (* recvmsg *)
  send_ret_of : send_result;                 (* sendmsg *)
  alloc       : Z → option (list Z);         (* malloc: the block, NULL *)
  listener    : Listener;
  table       : option (Table pcre);         (* *listener->table *)
  scratch     : list Z;                      (* the array of listener_lookup_server_address *)
  query_ok    : bool;                        (* resolv_query does not return NULL *)
  socket_ret  : Z;
  sockopt_ret : Z;
  bind_ret    : nat → Z * Z;                 (* result and errno of each bind *)
  connect_ret : Z * Z;
  sockname    : option (list Z);             (* getsockname: the local address, failure *)
  errors      : sys_errors;
  sys_errno   : Z;             (* errno after a failed socket, setsockopt, getsockname or accept *)
  discard_err : option Z       (* errno if closing the new socket fails *)
}.
Arguments now {pcre} _.
Arguments recv_ret_of {pcre} _.
Arguments send_ret_of {pcre} _.
Arguments alloc {pcre} _.
Arguments listener {pcre} _.
Arguments table {pcre} _.
Arguments scratch {pcre} _.
Arguments query_ok {pcre} _.
Arguments socket_ret {pcre} _.
Arguments sockopt_ret {pcre} _.
Arguments bind_ret {pcre} _.
Arguments connect_ret {pcre} _.
Arguments sockname {pcre} _.
Arguments errors {pcre} _.
Arguments sys_errno {pcre} _.
Arguments discard_err {pcre} _.

Definition EINTR : Z := 4.
Definition EAGAIN : Z := 11.
Definition EADDRINUSE : Z := 98.
Definition EINPROGRESS : Z := 115.

(** EWOULDBLOCK is EAGAIN on Linux. *)
Definition IS_TEMPORARY_SOCKERR (e : Z) : bool := (e =? EAGAIN) || (e =? EINTR).

(** * Which sockets are open *)

Definition client_socket_open (c : Connection) : bool :=
  match state c with
  | ACCEPTED | PARSED | RESOLVING | RESOLVED | CONNECTED | SERVER_CLOSED => true
  | _ => false
  end.

Definition server_socket_open (c : Connection) : bool :=
  match state c with CONNECTED | CLIENT_CLOSED => true | _ => false end.

(** * Closing *)

(** [if (close(fd) < 0) warn(...)]. *)
Definition close_fd (x : sys_errors) (s : bool) : M unit :=
  emit (IoClose s) ;;;
  match close_err x s with
  | None => mret ()
  | Some errno => say LOG_WARNING (bytes "close failed: " ++ show_error x errno)
  end.

Definition close_client_socket (x : sys_errors) : M unit :=
  c ← get;
  lift (c_assert (negb (bool_decide (state c = CLOSED)) && negb (bool_decide (state c = CLIENT_CLOSED)))) ;;;
  set_peer true (λ p, set_watcher (ev_io_stop (watcher p)) p) ;;;
  close_fd x true ;;;
  when (bool_decide (state c = RESOLVING))
    (match query_handle c with
     | None => fault NullDereference   (* resolv_cancel(NULL) *)
     | Some _ => emit IoCancel
     end ;;;
     modify (set_state PARSED)) ;;;
  c ← get;
  modify (set_state
    match state c with
    | SERVER_CLOSED | ACCEPTED | PARSED | RESOLVING | RESOLVED => CLOSED
    | _ => CLIENT_CLOSED
    end).

Definition close_server_socket (x : sys_errors) : M unit :=
  c ← get;
  lift (c_assert (negb (bool_decide (state c = CLOSED)) && negb (bool_decide (state c = SERVER_CLOSED)))) ;;;
  set_peer false (λ p, set_watcher (ev_io_stop (watcher p)) p) ;;;
  close_fd x false ;;;
  modify (set_state (match state c with CLIENT_CLOSED => CLOSED | _ => SERVER_CLOSED end)).

Definition close_socket (x : sys_errors) (s : bool) : M unit :=
  if s then close_client_socket x else close_server_socket x.

Definition close_connection (x : sys_errors) : M unit :=
  c ← get;
  lift (c_assert (negb (bool_decide (state c = NEW)))) ;;;
  when (server_socket_open c) (close_server_socket x) ;;;
  c ← get;
  lift (c_assert (match state c with
                  | ACCEPTED | PARSED | RESOLVING | RESOLVED | SERVER_CLOSED | CLOSED => true
                  | _ => false end)) ;;;
  when (client_socket_open c) (close_client_socket x) ;;;
  c ← get;
  lift (c_assert (bool_decide (state c = CLOSED))).

(** * Watchers *)

Definition reactivate_watcher (w : ev_io) (input_buffer output_buffer : Buffer) : ev_io :=
  let events := Z.lor (if negb (buffer_room input_buffer =? 0) then EV_READ else 0)
                      (if negb (buffer_len output_buffer =? 0) then EV_WRITE else 0) in
  if wactive w then
    if events =? 0 then ev_io_stop w
    else if negb (events =? wevents w)
         then ev_io_start (ev_io_set (ev_io_stop w) (wfd w) events) else w
  else if negb (events =? 0) then ev_io_start (ev_io_set w (wfd w) events) else w.

Definition reactivate_side (s : bool) : M unit :=
  c ← get;
  set_peer s (λ p, set_watcher
    (reactivate_watcher (watcher p) (pbuffer (side s c)) (pbuffer (side (negb s) c))) p).

Definition reactivate_watchers : M unit :=
  c ← get;
  when (client_socket_open c) (reactivate_side true) ;;;
  when (server_socket_open c) (reactivate_side false) ;;;
  c ← get;
  lift (c_assert (client_socket_open c || negb (wactive (watcher (client c))))) ;;;
  lift (c_assert (server_socket_open c || negb (wactive (watcher (server c))))) ;;;
  lift (c_assert
    (wactive (watcher (client c)) && negb (wevents (watcher (client c)) =? 0) ||
     wactive (watcher (server c)) && negb (wevents (watcher (server c)) =? 0) ||
     bool_decide (state c = RESOLVING))).

Section connection.
Context {pcre : Type}.
Context (pcre_exec : pcre → list Z → Z → Z * list Z).
Context (pcre_copy_substring : list Z → list Z → Z → Z → Z → Z * list Z).
Context (inet_pton : Z → list Z → option (list Z)) (inet_ntop : Z → list Z → list Z).
Context (have_libudns have_transparent : bool).

Definition malloc_of (e : env pcre) (n : Z) : bool := non_null (alloc e n).

(** * The PROXY header *)

(** [con->header_len += buffer_push(con->client.buffer, bs, n)]. *)
Definition push_header (bs : list Z) : M unit :=
  c ← get;
  '(n, b) ← lift (buffer_push (pbuffer (client c)) bs (Zlen bs));
  set_peer true (set_buffer b) ;;;
  modify (λ c, set_header_len (size_t (header_len c + n)) c).

Definition push_addresses (family : Z) (off n : Z) : M unit :=
  c ← get;
  src ← lift (load_range (paddr (client c)) off n);
  push_header (inet_ntop family src) ;;;
  push_header [32] ;;;
  dst ← lift (load_range (plocal (client c)) off n);
  push_header (inet_ntop family dst) ;;;
  sport ← lift (sin_port (paddr (client c)));
  push_header (snprintf INET6_ADDRSTRLEN ([32] ++ decimal sport)) ;;;
  dport ← lift (sin_port (plocal (client c)));
  push_header (snprintf INET6_ADDRSTRLEN ([32] ++ decimal dport)).

Definition insert_proxy_v1_header : M unit :=
  push_header (bytes "PROXY ") ;;;
  c ← get;
  f ← lift (sa_family (paddr (client c)));
  (if f =? AF_INET then push_header (bytes "TCP4 ") ;;; push_addresses AF_INET 4 4
   else if f =? AF_INET6 then push_header (bytes "TCP6 ") ;;; push_addresses AF_INET6 8 16
   else push_header (bytes "UNKNOWN")) ;;;
  push_header [CR; LF].

(** * Reading the request *)

Definition abort_connection (e : env pcre) : M unit :=
  c ← get;
  lift (c_assert (client_socket_open c)) ;;;
  let p := protocol_of (protocol (listener e)) in
  '(_, b) ← lift (buffer_push (pbuffer (server c)) (abort_message p) (abort_message_len p));
  set_peer false (set_buffer b) ;;;
  modify (set_state SERVER_CLOSED).

(** The messages about a request that names no host. *)
Definition report_request (e : env pcre) (payload : list Z) (payload_len result : Z) : M unit :=
  c ← get;
  client_text ← lift (show_sockaddr inet_ntop (paddr (client c)) PEER_BUFFER_SIZE);
  if result =? -1 then
    say LOG_WARNING (bytes "Request from " ++ client_text ++ bytes " exceeded " ++
                     decimal (buffer_size (pbuffer (client c))) ++ bytes " byte buffer size")
  else if result =? -2 then
    say LOG_WARNING (bytes "Request from " ++ client_text ++ bytes " did not include a hostname")
  else
    say LOG_WARNING (bytes "Unable to parse request from " ++ client_text ++ bytes ": parse_packet returned " ++
                     show_int result) ;;;
    when (log_bad_requests (listener e))
      ('(prio, text) ← lift (log_bad_request (alloc e) (take (Z.to_nat payload_len) payload) result);
       say prio text).

Definition parse_client_request (e : env pcre) : M unit :=
  c ← get;
  let b := pbuffer (client c) in
  '(off, payload_len, b) ← lift (buffer_coalesce b (alloc e (len b)));
  set_peer true (set_buffer b) ;;;
  if payload_len <=? header_len c then mret () else
  let payload := drop (Z.to_nat (off + header_len c)) (buffer b) in
  let payload_len := size_t (payload_len - header_len c) in
  '(result, h) ← lift (parse_packet (protocol_of (protocol (listener e))) (malloc_of e)
                         payload payload_len true);
  if (result =? -1) && (0 <? buffer_room b) then mret () else
  when (result <? 0) (report_request e payload payload_len result) ;;;
  if (result <? 0) && negb (non_null (fallback_address (listener e))) then abort_connection e
  else
    modify (set_hostname h (size_t result)) ;;;
    modify (set_state PARSED).

(** * Choosing the server *)

(** [con->server.addr = *address_sa(a)], after the assertion on its length. *)
Definition store_server_addr (a : Address) : M unit :=
  c ← get;
  lift (c_assert (address_sa_len a <=? sizeof_sockaddr_storage)) ;;;
  match address_sa a with
  | None => fault NullDereference
  | Some sa =>
      bs ← lift (load_range sa 0 (address_sa_len a));
      addr ← lift (store_range (paddr (server c)) 0 bs);
      set_peer false (set_addr addr (address_sa_len a))
  end.

Definition resolv_mode (e : env pcre) (a : Address) (family : Z) : M Z :=
  if transparent_proxy (listener e) then
    if family =? AF_INET then mret RESOLV_MODE_IPV4_ONLY
    else if family =? AF_INET6 then mret RESOLV_MODE_IPV6_ONLY
    else
      listener_address ← lift (show_listener_address inet_ntop (laddress (listener e)));
      say LOG_WARNING (bytes "attempt to use transparent proxy with hostname " ++ show_string (address_hostname a) ++
        bytes " on non-IP listener " ++ listener_address ++ bytes ", falling back to non-transparent mode") ;;;
      mret RESOLV_MODE_DEFAULT
  else mret RESOLV_MODE_DEFAULT.

Definition resolve_server_address (e : env pcre) : M unit :=
  c ← get;
  t ← lift (match table e with Some t => Ok t | None => Fault NullDereference end);
  r ← lift (listener_lookup_server_address inet_pton (malloc_of e) pcre_exec pcre_copy_substring
              (listener e) t (scratch e) (hostname c) (hostname_len c));
  match raddress r with
  | None => abort_connection e
  | Some a =>
      if address_is_hostname (Some a) then
        if negb have_libudns then
          say LOG_WARNING (bytes "DNS lookups not supported unless sniproxy compiled with libudns") ;;;
          abort_connection e
        else if negb (malloc_of e 32) then
          say LOG_ERR (bytes "resolve_server_address: malloc") ;;;
          abort_connection e
        else
          modify (set_use_proxy (ruse_proxy_header r)) ;;;
          f ← lift (sa_family (paddr (client c)));
          mode ← resolv_mode e a f;
          emit (IoQuery (default [] (address_hostname a)) mode) ;;;
          modify (set_query (if query_ok e then Some a else None)) ;;;
          modify (set_state RESOLVING)
      else if address_is_sockaddr (Some a) then
        store_server_addr a ;;;
        modify (set_use_proxy (ruse_proxy_header r)) ;;;
        modify (set_state RESOLVED)
      else fault AssertionFailed
  end.

(** * Connecting to the server *)

(** The [do ... while] loop around [bind]; [i] counts the calls.  The result is that of the
    last call, with its [errno]. *)
Fixpoint bind_loop (e : env pcre) (source : Address) (i tries : nat) : M (Z * Z) :=
  sa ← lift (load_range (default [] (address_sa source)) 0 (address_sa_len source));
  emit (IoBind sa) ;;;
  let '(result, errno) := bind_ret e i in
  match tries with
  | O => mret (result, errno)
  | S tries =>
      if (result <? 0) && (errno =? EADDRINUSE) then
        p ← lift (address_port source);
        if p =? 0 then bind_loop e source (S i) tries else mret (result, errno)
      else mret (result, errno)
  end.

(** [err("... failed: %s", strerror(errno))]. *)
Definition complain (e : env pcre) (what : string) (errno : Z) : M unit :=
  say LOG_ERR (bytes what ++ bytes " failed: " ++ show_error (errors e) errno).

(** The options and the local address of the new socket; [false] where the source closes
    it and aborts the connection. *)
Definition prepare_socket (e : env pcre) : M bool :=
  c ← get;
  fc ← lift (sa_family (paddr (client c)));
  fs ← lift (sa_family (paddr (server c)));
  if transparent_proxy (listener e) && (fc =? fs) then
    let result := if have_transparent then sockopt_ret e else -1 in
    if result <? 0 then complain e "setsockopt IP_TRANSPARENT" (sys_errno e) ;;; mret false else
    emit (IoBind (take (Z.to_nat (paddr_len (client c))) (paddr (client c)))) ;;;
    let '(result, errno) := bind_ret e 0 in
    if result <? 0 then complain e "bind" errno ;;; mret false else mret true
  else
    match source_address (listener e) with
    | Some source =>
        if sockopt_ret e <? 0 then complain e "setsockopt SO_REUSEADDR" (sys_errno e) ;;; mret false else
        '(result, errno) ← bind_loop e source 0 5;
        if result <? 0 then complain e "bind" errno ;;; mret false else mret true
    | None => mret true
    end.

(** [close(sockfd)]: the result is [errno] afterwards. *)
Definition discard (e : env pcre) (sockfd errno : Z) : M Z :=
  emit (IoDiscard sockfd) ;;; mret (default errno (discard_err e)).

Definition initiate_server_connect (e : env pcre) : M unit :=
  c ← get;
  let sockfd := socket_ret e in
  if sockfd <? 0 then
    client_text ← lift (show_sockaddr inet_ntop (paddr (client c)) PEER_BUFFER_SIZE);
    say LOG_WARNING (bytes "socket failed: " ++ show_error (errors e) (sys_errno e) ++
                     bytes ", closing connection from " ++ client_text) ;;;
    abort_connection e else
  ready ← prepare_socket e;
  if negb ready then _ ← discard e sockfd 0; abort_connection e else
  emit (IoConnect (take (Z.to_nat (paddr_len (server c))) (paddr (server c)))) ;;;
  let '(result, errno) := connect_ret e in
  if (result <? 0) && negb (errno =? EINPROGRESS) then
    errno ← discard e sockfd errno;
    server_text ← lift (show_sockaddr inet_ntop (paddr (server c)) PEER_BUFFER_SIZE);
    say LOG_WARNING (bytes "Failed to open connection to " ++ server_text ++ bytes ": " ++
                     show_error (errors e) errno) ;;;
    abort_connection e else
  match sockname e with
  | None =>
      errno ← discard e sockfd (sys_errno e);
      say LOG_WARNING (bytes "getsockname failed: " ++ show_error (errors e) errno) ;;;
      abort_connection e
  | Some local =>
      set_peer false (set_local local) ;;;
      (if negb (header_len c =? 0) && negb (cuse_proxy_header c) then
         '(_, _, b) ← lift (buffer_pop (pbuffer (client c)) None (header_len c));
         set_peer true (set_buffer b)
       else mret ()) ;;;
      set_peer false (set_watcher (ev_io_init sockfd EV_WRITE)) ;;;
      modify (set_state CONNECTED) ;;;
      set_peer false (λ p, set_watcher (ev_io_start (watcher p)) p)
  end.

(** The answer of the resolver to the query made for [cb_address]. *)
Definition resolv_cb (e : env pcre) (cb_address : Address) (result : option Address) : M unit :=
  c ← get;
  if negb (bool_decide (state c = RESOLVING)) then
    say LOG_WARNING (bytes "resolv_cb() called for connection not in RESOLVING state") else
  match result with
  | None =>
      say LOG_NOTICE (bytes "unable to resolve " ++ show_string (address_hostname cb_address) ++
                      bytes ", closing connection") ;;;
      abort_connection e
  | Some a =>
      lift (c_assert (address_is_sockaddr result)) ;;;
      p ← lift (address_port cb_address);
      a ← lift (address_set_port a p);
      store_server_addr a ;;;
      modify (set_state RESOLVED) ;;;
      initiate_server_connect e
  end ;;;
  modify (set_query None) ;;;
  reactivate_watchers.

(** * The callback of both watchers *)

(** The receiving part; the result is [revents] afterwards. *)
Definition receive (e : env pcre) (is_client : bool) (revents : Z) : M Z :=
  c ← get;
  let input := pbuffer (side is_client c) in
  if negb (Z.land revents EV_READ =? 0) && negb (buffer_room input =? 0) then
    '(n, b) ← lift (buffer_recv input (recv_ret_of e) (now e));
    set_peer is_client (set_buffer b) ;;;
    emit (IoRecv is_client (received_bytes (recv_ret_of e))) ;;;
    let errno := match recv_ret_of e with RecvError errno => errno | _ => 0 end in
    if (n <? 0) && negb (IS_TEMPORARY_SOCKERR errno) then
      say LOG_WARNING (bytes "recv(" ++ socket_name is_client ++ bytes "): " ++ show_error (errors e) errno ++
                       bytes ", closing connection") ;;;
      close_socket (errors e) is_client ;;; mret 0
    else if n =? 0 then close_socket (errors e) is_client ;;; mret 0
    else mret revents
  else mret revents.

Definition transmit (e : env pcre) (is_client : bool) (revents : Z) : M unit :=
  c ← get;
  let output := pbuffer (side (negb is_client) c) in
  if negb (Z.land revents EV_WRITE =? 0) && negb (buffer_len output =? 0) then
    '(n, bs, b) ← lift (buffer_send output (send_ret_of e) (now e));
    set_peer (negb is_client) (set_buffer b) ;;;
    emit (IoSend is_client bs) ;;;
    let errno := match send_ret_of e with SendError errno => errno | _ => 0 end in
    when ((n <? 0) && negb (IS_TEMPORARY_SOCKERR errno))
      (say LOG_WARNING (bytes "send(" ++ socket_name is_client ++ bytes "): " ++ show_error (errors e) errno ++
                        bytes ", closing connection") ;;;
       close_socket (errors e) is_client)
  else mret ().

(** The state specific logic; several states may be passed in one call. *)
Definition advance (e : env pcre) (is_client : bool) : M unit :=
  c ← get;
  when (is_client && bool_decide (state c = ACCEPTED)) (parse_client_request e) ;;;
  c ← get;
  when (is_client && bool_decide (state c = PARSED)) (resolve_server_address e) ;;;
  c ← get;
  when (is_client && bool_decide (state c = RESOLVED)) (initiate_server_connect e).

(** Closes the other socket if the corresponding buffer was flushed. *)
Definition close_flushed (x : sys_errors) : M unit :=
  c ← get;
  when (bool_decide (state c = SERVER_CLOSED) && (buffer_len (pbuffer (server c)) =? 0)) (close_client_socket x) ;;;
  c ← get;
  when (bool_decide (state c = CLIENT_CLOSED) && (buffer_len (pbuffer (client c)) =? 0)) (close_server_socket x).

(** The result is [true] when the connection was freed. *)
Definition connection_cb (e : env pcre) (is_client : bool) (revents : Z) : M bool :=
  revents ← receive e is_client revents;
  transmit e is_client revents ;;;
  advance e is_client ;;;
  close_flushed (errors e) ;;;
  c ← get;
  if bool_decide (state c = CLOSED) then mret true
  else reactivate_watchers ;;; mret false.

(** * New connections *)

Definition no_addr : list Z := replicate (Z.to_nat sizeof_sockaddr_storage) 0.

(** [struct_alloc] is whether the three structs can be allocated. *)
Definition new_connection (e : env pcre) (struct_alloc : bool) : option Connection :=
  if negb struct_alloc then None else
  match new_buffer 4096 (now e) struct_alloc (alloc e 4096) with
  | None => None
  | Some cb =>
      match new_buffer 4096 (now e) struct_alloc (alloc e 4096) with
      | None => None
      | Some sb =>
          Some (mkConn NEW (mkPeer no_addr 128 no_addr (mkWatcher 0 false 0) cb)
                  (mkPeer no_addr 128 no_addr (mkWatcher 0 false 0) sb) None 0 0 None 0 false)
      end
  end.

(** [accepted] is the descriptor and the peer address with its length [accept] returns. *)
Definition accept_connection (e : env pcre) (struct_alloc : bool) (accepted : option (Z * list Z * Z))
    : outcome (option Connection * list io) :=
  match new_connection e struct_alloc with
  | None => Ok (None, [IoLog LOG_ERR (bytes "new_connection failed")])
  | Some c =>
      match accepted with
      | None => Ok (None, [IoLog LOG_WARNING (bytes "accept failed: " ++ show_error (errors e) (sys_errno e))])
      | Some (sockfd, addr, addr_len) =>
          let c := set_side true (set_addr addr addr_len (client c)) c in
          match sockname e with
          | None => Ok (None, [IoLog LOG_WARNING (bytes "getsockname failed: " ++ show_error (errors e) (sys_errno e))])
          | Some local =>
              let p := set_watcher (ev_io_start (ev_io_init sockfd EV_READ)) (set_local local (client c)) in
              let c := mkConn ACCEPTED p (server c) (hostname c) (hostname_len c) (header_len c)
                         (query_handle c) (now e) (cuse_proxy_header c) in
              match table e with
              | None => Fault NullDereference
              | Some t =>
                  if tuse_proxy_header t || fallback_use_proxy_header (listener e) then
                    match insert_proxy_v1_header c [] with
                    | Ok (_, c, tr) => Ok (Some c, tr)
                    | Fault f => Fault f
                    end
                  else Ok (Some c, [])
              end
          end
      end
  end.
End connection.
