(* ===== verification/Connections.v ===== *)
(** All connections of the program (src/connection.c): the queue they are kept in, the reference
    each holds on its listener, the line of the access log that is written when a connection
    ends, and the listing of all connections.  The handlers of a single connection are those of
    the file Connection; here they run on the listener and the table as they are in the stores
    of the program, and what they have to say goes to the logger. *)

From S2P Require Import Prelude CString Protocol Buffer Tls Http Address Resolv Backend Table Listener BadRequest Connection.
From S2P Require Import RefCount Logger ListenerReload.
From stdpp Require Import list gmap.

#[local] Open Scope Z_scope.

(** * Data *)

(** Whose memory the address of a query is ([cb_data->address]): that of the query itself
    ([cb_free_addr]), of an entry of a table, or of the listener of the connection. *)
Inductive addr_owner : Type :=
  | OwnAddress
  | TableAddress (t : loc)
  | ListenerAddress.

(** A connection, the listener it refers to, and what it has done to the outside so far.  When
    the configuration is replaced, the address of a query may be freed under it. *)
Record conn_entry := mkEntry {
  econn     : Connection;
  elistener : loc;
  etrace    : list io;
  eowner    : addr_owner;
  efreed    : bool
}.

Definition update_entry (c : Connection) (t : list io) (en : conn_entry) : conn_entry :=
  mkEntry c (elistener en) t (eowner en) (efreed en).

(** [connections]: the objects, and the order of the queue, head first. *)
Record prog (pcre : Type) := mkProg {
  pworld : world pcre;
  pconns : gmap loc conn_entry;
  pqueue : list loc
}.
Arguments mkProg {pcre} _ _ _.
Arguments pworld {pcre} _.
Arguments pconns {pcre} _.
Arguments pqueue {pcre} _.

(** The file of the listing: what mkstemp, fdopen and fclose return. *)
Record dump_file := mkDump {
  mkstemp_ret   : Z;
  dump_name     : list Z;
  fdopen_ok     : bool;
  fclose_ret    : Z;
  dump_strerror : list Z
}.

Definition set_pworld {pcre} (w : world pcre) (p : prog pcre) : prog pcre := mkProg w (pconns p) (pqueue p).
Definition set_pconns {pcre} (m : gmap loc conn_entry) (p : prog pcre) : prog pcre := mkProg (pworld p) m (pqueue p).
Definition set_pqueue {pcre} (q : list loc) (p : prog pcre) : prog pcre := mkProg (pworld p) (pconns p) q.

(** * Text *)

(** [%.*s]: at most [prec] bytes of a string that ends with them or with its NUL; all of it
    when the precision is negative.  glibc prints NULL as "(null)" if that fits. *)
Definition show_prefix (prec : Z) (s : option (list Z)) : outcome (list Z) :=
  match s with
  | None => Ok (if (prec <? 0) || (6 <=? prec) then bytes "(null)" else [])
  | Some h =>
      if (0 <=? prec) && (prec <=? Zlen h) then Ok (until_nul (take (Z.to_nat prec) h))
      else t ← c_string h 0; Ok (if prec <? 0 then t else take (Z.to_nat prec) t)
  end.

(** [%1.3f] of a time; times are in milliseconds, the resolution they are printed with. *)
Definition show_seconds (ms : Z) : list Z :=
  let a := Z.abs ms in
  (if ms <? 0 then bytes "-" else []) ++ decimal (a / 1000) ++ bytes "." ++
  [48 + a / 100 mod 10; 48 + a / 10 mod 10; 48 + a mod 10].

(** What [log_connection] prints. *)
Definition connection_line (inet_ntop : Z → list Z → list Z) (c : Connection) : outcome (list Z) :=
  let duration := Z.max (last_recv (pbuffer (client c))) (last_recv (pbuffer (server c))) - established c in
  client_address ← show_sockaddr inet_ntop (paddr (client c)) ADDRESS_BUFFER_SIZE;
  listener_address ← show_sockaddr inet_ntop (plocal (client c)) ADDRESS_BUFFER_SIZE;
  server_address ← show_sockaddr inet_ntop (paddr (server c)) ADDRESS_BUFFER_SIZE;
  name ← show_prefix (c_int (hostname_len c)) (hostname c);
  Ok (client_address ++ bytes " -> " ++ listener_address ++ bytes " -> " ++ server_address ++
      bytes " [" ++ name ++ bytes "] " ++
      decimal (tx_bytes (pbuffer (server c))) ++ bytes "/" ++ decimal (rx_bytes (pbuffer (server c))) ++
      bytes " bytes tx " ++
      decimal (tx_bytes (pbuffer (client c))) ++ bytes "/" ++ decimal (rx_bytes (pbuffer (client c))) ++
      bytes " bytes rx " ++ show_seconds duration ++ bytes " seconds").

(** * One line of the listing *)

Definition print_peer (inet_ntop : Z → list Z → list Z) (p : peer) : outcome (list Z) :=
  a ← show_sockaddr inet_ntop (paddr p) PEER_BUFFER_SIZE;
  Ok (a ++ bytes " " ++ decimal (buffer_len (pbuffer p)) ++ bytes "/" ++ decimal (buffer_size (pbuffer p))).

Definition print_connection (inet_ntop : Z → list Z → list Z) (c : Connection) : outcome (list Z) :=
  let client_only (name : string) := p ← print_peer inet_ntop (client c); Ok (bytes name ++ p ++ [9] ++ bytes "-" ++ [LF]) in
  match state c with
  | NEW => Ok (bytes "NEW           -" ++ [9] ++ bytes "-" ++ [LF])
  | ACCEPTED => client_only "ACCEPTED      "
  | PARSED => client_only "PARSED        "
  | RESOLVING => client_only "RESOLVING      "
  | RESOLVED => client_only "RESOLVED      "
  | CONNECTED =>
      p ← print_peer inet_ntop (client c);
      q ← print_peer inet_ntop (server c);
      Ok (bytes "CONNECTED     " ++ p ++ [9] ++ q ++ [LF])
  | SERVER_CLOSED => client_only "SERVER_CLOSED "
  | CLIENT_CLOSED =>
      q ← print_peer inet_ntop (server c);
      Ok (bytes "CLIENT_CLOSED -" ++ [9] ++ q ++ [LF])
  | CLOSED => Ok (bytes "CLOSED        -" ++ [9] ++ bytes "-" ++ [LF])
  end.

(** * Operations *)

Section connections.
Context {pcre : Type}.
Context (pcre_exec : pcre → list Z → Z → Z * list Z).
Context (pcre_copy_substring : list Z → list Z → Z → Z → Z → Z * list Z).
Context (inet_pton : Z → list Z → option (list Z)) (inet_ntop : Z → list Z → list Z).
Context (have_libudns have_transparent : bool).
Context (ge : log_env).
Local Abbreviation P := (ST (prog pcre)).

Definition with_world {A} (m : ST (world pcre) A) : P A := zoom pworld set_pworld m.

Definition get_conn (x : loc) : P conn_entry := m ← gets pconns; lift (deref m x).
Definition put_conn (x : loc) (en : conn_entry) : P unit := modify (λ p, set_pconns (<[x := en]> (pconns p)) p).

(** The environment of a callback of a connection of the listener at [x]: [con->listener] and
    [con->listener->table] are what they are in the stores. *)
Definition env_at (e : env pcre) (x : loc) : P (env pcre) :=
  w ← gets pworld;
  l ← lift (deref (wlisteners w) x);
  t ← match ltable l with
      | None => mret None
      | Some tx => t ← lift (deref (wtables w) tx); mret (Some t)
      end;
  mret (mkEnv pcre (now e) (recv_ret_of e) (send_ret_of e) (alloc e) l t (scratch e) (query_ok e)
          (socket_ret e) (sockopt_ret e) (bind_ret e) (connect_ret e) (sockname e)
          (errors e) (sys_errno e) (discard_err e)).

Definition init_connections : P unit := modify (set_pqueue []).

(** The messages among the events of a handler, in order.  Nothing else that a handler does
    depends on the logger, so they may be written when it has ended. *)
Fixpoint write_log (t : list io) : P unit :=
  match t with
  | [] => mret ()
  | IoLog prio text :: t' => with_world (on_log (log_default ge prio text)) ≫= λ _, write_log t'
  | _ :: t' => write_log t'
  end.

(** What a handler has added to the trace of a connection. *)
Definition news (en : conn_entry) (t : list io) : list io := drop (length (etrace en)) t.

(** Buffers, name and struct are released with the entry. *)
Definition free_connection (x : loc) : P unit :=
  en ← get_conn x;
  with_world (listener_ref_put (Some (elistener en))) ≫= λ _,
  modify (λ p, set_pconns (delete x (pconns p)) p).

(** [TAILQ_REMOVE] of a connection that is not in the queue follows its links. *)
Definition dequeue (x : loc) : P unit :=
  q ← gets pqueue;
  q ← lift (slist_remove q x);
  modify (set_pqueue q).

Definition move_to_head (x : loc) : P unit :=
  dequeue x ≫= λ _, modify (λ p, set_pqueue (x :: pqueue p) p).

(** [accept_connection] on the listener at [l].  A connection that is given up before it is in
    the queue is freed, which puts the reference back. *)
Definition accept_client (e : env pcre) (struct_alloc : bool) (accepted : option (Z * list Z * Z)) (l : loc) : P Z :=
  match new_connection e struct_alloc with
  | None => write_log [IoLog LOG_ERR (bytes "new_connection failed")] ≫= λ _, mret 0
  | Some _ =>
      with_world (on_listeners (λ h, h ← listener_ref_get h l; Ok ((), h))) ≫= λ _,
      e ← env_at e l;
      '(o, t) ← lift (accept_connection inet_ntop e struct_alloc accepted);
      write_log t ≫= λ _,
      match o with
      | None => with_world (listener_ref_put (Some l)) ≫= λ _, mret 0
      | Some c =>
          m ← gets pconns;
          let x := fresh (dom m) in
          put_conn x (mkEntry c l t OwnAddress false) ≫= λ _,
          modify (λ p, set_pqueue (x :: pqueue p) p) ≫= λ _,
          mret 1
      end
  end.

(** The watcher of a listener; [accept_connection] restores the [errno] of a failed accept. *)
Definition listener_cb (e : env pcre) (struct_alloc : bool) (accepted : option (Z * list Z * Z))
    (l : loc) (revents : Z) : P unit :=
  when (negb (Z.land revents 1 =? 0))
    (result ← accept_client e struct_alloc accepted l;
     with_world (with_messages ge (listener_accept_cb inet_ntop l revents result (sys_errno e)))).

Definition log_connection (en : conn_entry) : P unit :=
  l ← with_world (get_listener (elistener en));
  when (non_null (access_log l))
    (text ← lift (connection_line inet_ntop (econn en));
     with_world (on_log (log_msg ge (access_log l) LOG_NOTICE text))).

(** The owner of the address that [listener_lookup_server_address] returns. *)
Definition query_owner (e : env pcre) (c : Connection) : addr_owner :=
  match table e, ltable (listener e) with
  | Some t, Some tx =>
      match listener_lookup_server_address inet_pton (malloc_of e) pcre_exec pcre_copy_substring
              (listener e) t (scratch e) (hostname c) (hostname_len c),
            table_lookup_server_address pcre_exec t (hostname c) (hostname_len c) with
      | Ok r, Ok tr =>
          if caller_free_address r then OwnAddress
          else match raddress tr with
               | Some a => if address_is_pattern (Some a) || address_is_wildcard (Some a) then ListenerAddress
                           else TableAddress tx
               | None => ListenerAddress
               end
      | _, _ => OwnAddress
      end
  | _, _ => OwnAddress
  end.

(** A query that was started in the callback keeps a pointer to its address. *)
Definition start_query (e : env pcre) (c : Connection) (t : list io) (en : conn_entry) : conn_entry :=
  if bool_decide (state c = RESOLVING) && negb (bool_decide (state (econn en) = RESOLVING))
  then mkEntry c (elistener en) t (query_owner e c) false
  else update_entry c t en.

(** Whether that address was freed. *)
Definition address_freed (w : world pcre) (en : conn_entry) : bool :=
  efreed en || match eowner en with
               | TableAddress tx => bool_decide (wtables w !! tx = None)
               | _ => false
               end.

(** [connection_cb] of the connection at [x]. *)
Definition on_connection (e : env pcre) (x : loc) (is_client : bool) (revents : Z) : P unit :=
  en ← get_conn x;
  e ← env_at e (elistener en);
  '(freed, c, t) ← lift (connection_cb pcre_exec pcre_copy_substring inet_pton inet_ntop have_libudns have_transparent
                           e is_client revents (econn en) (etrace en));
  write_log (news en t) ≫= λ _,
  let en := start_query e c t en in
  put_conn x en ≫= λ _,
  if freed : bool then dequeue x ≫= λ _, log_connection en ≫= λ _, free_connection x
  else move_to_head x.

(** [resolv_cb] of the connection at [x], which reads the address of the query; the queue
    changes with its watchers. *)
Definition on_answer (e : env pcre) (x : loc) (cb_address : Address) (result : option Address) : P unit :=
  en ← get_conn x;
  e ← env_at e (elistener en);
  w ← gets pworld;
  lift (if bool_decide (state (econn en) = RESOLVING) && address_freed w en then Fault UseAfterFree else Ok ()) ≫= λ _,
  '(_, c, t) ← lift (resolv_cb inet_ntop have_transparent e cb_address result (econn en) (etrace en));
  write_log (news en t) ≫= λ _,
  put_conn x (update_entry c t en) ≫= λ _,
  when (bool_decide (state (econn en) = RESOLVING)) (move_to_head x).

(** The loop takes the first connection until the queue is empty; [errs] are the errors of
    the calls of [close] for each. *)
Fixpoint close_all (errs : loc → sys_errors) (q : list loc) : P unit :=
  match q with
  | [] => mret ()
  | x :: q' =>
      modify (set_pqueue q') ≫= λ _,
      en ← get_conn x;
      '(_, c, t) ← lift (close_connection (errs x) (econn en) (etrace en));
      write_log (news en t) ≫= λ _,
      put_conn x (update_entry c t en) ≫= λ _,
      free_connection x ≫= λ _,
      close_all errs q'
  end.

Definition free_connections (errs : loc → sys_errors) : P unit := q ← gets pqueue; close_all errs q.

Fixpoint print_entries (q : list loc) : P (list Z) :=
  match q with
  | [] => mret []
  | x :: q' =>
      en ← get_conn x;
      s ← lift (print_connection inet_ntop (econn en));
      r ← print_entries q';
      mret (s ++ r)
  end.

(** The contents of the file, unless it cannot be created or opened. *)
Definition print_connections (d : dump_file) : P (option (list Z)) :=
  let complain (what : string) := with_world (on_log (warn ge (bytes what ++ bytes " failed: " ++ dump_strerror d))) in
  if mkstemp_ret d <? 0 then complain "mkstemp" ≫= λ _, mret None
  else if negb (fdopen_ok d) then complain "fdopen" ≫= λ _, mret None
  else
    q ← gets pqueue;
    s ← print_entries q;
    when (fclose_ret d <? 0) (complain "fclose") ≫= λ _,
    with_world (on_log (notice ge (bytes "Dumped connections to " ++ dump_name d))) ≫= λ _,
    mret (Some (bytes "Running connections:" ++ [LF] ++ s)).

(** The addresses that go with the old configuration when [reload_config] has replaced it: the
    entries of the tables that stay are replaced and freed ([reload_tables]), and so is the
    fallback address of a listener that stays ([listener_update]). *)
Definition free_old_addresses (listeners tables : list loc) : P unit :=
  modify (λ p, set_pconns ((λ en, mkEntry (econn en) (elistener en) (etrace en) (eowner en)
    (efreed en || match eowner en with
                  | OwnAddress => false
                  | TableAddress tx => bool_decide (tx ∈ tables ∨ wtables (pworld p) !! tx = None)
                  | ListenerAddress => bool_decide (elistener en ∈ listeners)
                  end)) <$> pconns p) p).
End connections.
