(* ===== verification/Relay.v ===== *)
(** What the connections of src/connection.c keep true: rules to run their handlers, the
    invariant that holds between two callbacks, its preservation by every handler, and
    the theorems that follow about the whole run of a connection. *)

From S2P Require Import Prelude CString Protocol RefCount Buffer Tls Http Address Resolv Backend Table Listener Logger BadRequest Connection.
From stdpp Require Import list gmap.

#[local] Open Scope Z_scope.

(** * Reasoning about handlers

    [wp m Q c t]: run from [c] and [t] the handler [m] ends without a fault, in a state
    that satisfies [Q]. *)

Definition wp {A} (m : M A) (Q : A → Connection → list io → Prop) (c : Connection) (t : list io) : Prop :=
  ∃ a c' t', m c t = Ok (a, c', t') ∧ Q a c' t'.

Lemma wp_ret {A} (a : A) Q c t : Q a c t → wp (mret a) Q c t.
Proof. intros. by exists a, c, t. Qed.
Lemma wp_bind {A B} (m : M A) (f : A → M B) Q c t :
  wp m (λ a, wp (f a) Q) c t → wp (m ≫= f) Q c t.
Proof.
  intros (a & c' & t' & Hm & (b & c'' & t'' & Hf & HQ)). exists b, c'', t''. split; [|done].
  unfold mbind, M_bind. by rewrite Hm.
Qed.
Lemma wp_get Q c t : Q c c t → wp get Q c t.
Proof. intros. by exists c, c, t. Qed.
Lemma wp_modify f Q c t : Q () (f c) t → wp (modify f) Q c t.
Proof. intros. by exists (), (f c), t. Qed.
Lemma wp_emit e Q c t : Q () c (t ++ [e]) → wp (emit e) Q c t.
Proof. intros. by exists (), c, (t ++ [e]). Qed.
Lemma wp_lift {A} (o : outcome A) a Q c t : o = Ok a → Q a c t → wp (lift o) Q c t.
Proof. intros -> HQ. by exists a, c, t. Qed.
Lemma wp_assert b Q c t : b = true → Q () c t → wp (lift (c_assert b)) Q c t.
Proof. intros -> HQ. by eapply wp_lift. Qed.
Lemma wp_set_peer s f Q c t : Q () (set_side s (f (side s c)) c) t → wp (set_peer s f) Q c t.
Proof. apply wp_modify. Qed.
Lemma wp_when_true b m Q c t : b = true → wp m Q c t → wp (when b m) Q c t.
Proof. by intros ->. Qed.
Lemma wp_when_false b m Q c t : b = false → Q () c t → wp (when b m) Q c t.
Proof. intros -> HQ. by apply wp_ret. Qed.
Lemma wp_mono {A} (m : M A) P Q c t : wp m P c t → (∀ a c t, P a c t → Q a c t) → wp m Q c t.
Proof. intros (a & c' & t' & Hm & HP) HPQ. exists a, c', t'. split; [done|]. by apply HPQ. Qed.

(** A guarded step: either the guard is false and nothing happens, or it is true. *)
Lemma wp_when b m Q c t :
  (b = true → wp m Q c t) → (b = false → Q () c t) → wp (when b m) Q c t.
Proof. destruct b; intros H1 H2; [by apply H1|apply wp_ret; by apply H2]. Qed.

Ltac wp_step :=
  lazymatch goal with
  | |- wp (mbind _ _) _ _ _ => apply wp_bind
  | |- wp get _ _ _ => apply wp_get
  | |- wp (modify _) _ _ _ => apply wp_modify
  | |- wp (emit _) _ _ _ => apply wp_emit
  | |- wp (say _ _) _ _ _ => apply wp_emit
  | |- wp (set_peer _ _) _ _ _ => apply wp_set_peer
  | |- wp (mret _) _ _ _ => apply wp_ret
  end.
Ltac wps := cbv beta iota zeta; repeat (wp_step; cbv beta iota zeta).

(** * The invariant *)

(** The bytes received from, and sent to, one side. *)
Definition rx (s : bool) (t : list io) : list Z :=
  concat ((λ e, match e with IoRecv s' bs => if eqb s s' then bs else [] | _ => [] end) <$> t).
Definition tx (s : bool) (t : list io) : list Z :=
  concat ((λ e, match e with IoSend s' bs => if eqb s s' then bs else [] | _ => [] end) <$> t).

Lemma rx_app s t u : rx s (t ++ u) = rx s t ++ rx s u.
Proof. unfold rx. by rewrite fmap_app, concat_app. Qed.
Lemma tx_app s t u : tx s (t ++ u) = tx s t ++ tx s u.
Proof. unfold tx. by rewrite fmap_app, concat_app. Qed.

(** The text of a message is what [%s] can print. *)
Definition printable (e : io) : Prop := match e with IoLog _ text => 0 ∉ text | _ => True end.

(** Events that move no bytes. *)
Definition silent (e : io) : Prop :=
  match e with IoRecv _ _ | IoSend _ _ => False | IoLog _ text => 0 ∉ text | _ => True end.

Lemma silent_printable e : silent e → printable e.
Proof. by destruct e. Qed.

Lemma silent_rx e s : silent e → rx s [e] = [].
Proof. by destruct e. Qed.
Lemma silent_tx e s : silent e → tx s [e] = [].
Proof. by destruct e. Qed.

Abbreviation cbuf c := (pbuffer (client c)).
Abbreviation sbuf c := (pbuffer (server c)).

Definition buf_ok (b : Buffer) : Prop := buffer_wf b ∧ size_mask b = 4095.

Lemma buf_ok_room b : buf_ok b → buffer_room b = 4096 - len b.
Proof.
  intros [Hwf Hm]. destruct (wf_len b Hwf). unfold buffer_room, buffer_size. rewrite Hm in *. nowrap. lia.
Qed.

(** Before the server is connected: everything received is in the client buffer, behind
    the PROXY header [hdr]. *)
Definition pending (hdr : list Z) (c : Connection) (t : list io) : Prop :=
  contents (cbuf c) = hdr ++ rx true t ∧ contents (sbuf c) = [] ∧
  tx true t = [] ∧ tx false t = [] ∧ rx false t = [].

(** While relaying: in each direction, what was sent and what is still buffered is what
    was received, in order, with the header in front if the backend wants it. *)
Definition relayed (hdr : list Z) (c : Connection) (t : list io) : Prop :=
  tx false t ++ contents (cbuf c) = (if cuse_proxy_header c then hdr else []) ++ rx true t ∧
  tx true t ++ contents (sbuf c) = rx false t.

(** After an abort: the client gets the abort message of the protocol, the server
    nothing. *)
Definition aborted (c : Connection) (t : list io) : Prop :=
  (∃ p, tx true t ++ contents (sbuf c) = abort_message (protocol_of p)) ∧ tx false t = [] ∧ rx false t = [].

Definition traffic (hdr : list Z) (c : Connection) (t : list io) : Prop :=
  match state c with
  | NEW => False
  | ACCEPTED | PARSED | RESOLVING | RESOLVED => pending hdr c t
  | CONNECTED | CLIENT_CLOSED => relayed hdr c t
  | SERVER_CLOSED => relayed hdr c t ∨ aborted c t
  | CLOSED => pending hdr c t ∨ relayed hdr c t ∨ aborted c t
  end.

(** A socket address that can be printed: of a known family, a path being terminated. *)
Definition displayable (sa : list Z) : Prop :=
  ∃ f, sa_family sa = Ok f ∧ (f = AF_INET ∨ f = AF_INET6 ∨ f = AF_UNSPEC ∨ f = AF_UNIX ∧ 0 ∈ drop 2 sa).

Record mid_inv (hdr : list Z) (c : Connection) (t : list io) : Prop := {
  mi_cbuf : buf_ok (cbuf c) ∧ buffer_bytes (cbuf c);
  mi_sbuf : buf_ok (sbuf c);
  mi_caddr : Zlen (paddr (client c)) = 128;
  mi_saddr : Zlen (paddr (server c)) = 128;
  mi_names : displayable (paddr (client c)) ∧ displayable (paddr (server c));
  mi_local : Zlen (plocal (client c)) = 128 ∧ displayable (plocal (client c));
  mi_host h : hostname c = Some h → 0 ∈ h;
  mi_hdr : Zlen hdr = header_len c ∧ header_len c < 4096;
  mi_cwatch : client_socket_open c = false → wactive (watcher (client c)) = false;
  mi_swatch : server_socket_open c = false → wactive (watcher (server c)) = false;
  mi_query : state c = RESOLVING → ∃ a, query_handle c = Some a ∧ address_wf a;
  mi_head : state c = ACCEPTED → Buffer.head (cbuf c) = 0;
  mi_log : Forall printable t;
  mi_traffic : traffic hdr c t
}.

(** Between callbacks. *)
Record conn_inv (hdr : list Z) (c : Connection) (t : list io) : Prop := {
  ci_mid : mid_inv hdr c t;
  ci_settled : match state c with
    | PARSED | RESOLVED | NEW | CLOSED => False
    | ACCEPTED => len (cbuf c) < 4096
    | SERVER_CLOSED => 0 < len (sbuf c)
    | CLIENT_CLOSED => 0 < len (cbuf c)
    | _ => True
    end
}.

Lemma buf_ok_len b : buf_ok b → 0 ≤ len b ≤ 4096.
Proof. intros [Hwf Hm]. destruct (wf_len b Hwf). lia. Qed.

Lemma empty_contents b : buf_ok b → contents b = [] → len b = 0.
Proof. intros [Hwf _] Hc. rewrite <- (Zlen_contents b Hwf), Hc. done. Qed.


(** The trace grows by events that move no bytes. *)
Lemma rx_silent s t e : silent e → rx s (t ++ [e]) = rx s t.
Proof. intros. rewrite rx_app, silent_rx by done. apply app_nil_r. Qed.
Lemma tx_silent s t e : silent e → tx s (t ++ [e]) = tx s t.
Proof. intros. rewrite tx_app, silent_tx by done. apply app_nil_r. Qed.

Lemma traffic_silent hdr c t e : silent e → traffic hdr c t → traffic hdr c (t ++ [e]).
Proof.
  intros He. unfold traffic, pending, relayed, aborted. by rewrite !rx_silent, !tx_silent by done.
Qed.

Lemma mid_inv_silent hdr c t e : silent e → mid_inv hdr c t → mid_inv hdr c (t ++ [e]).
Proof.
  intros He []. constructor; try done; [|by apply traffic_silent].
  apply Forall_app. split; [done|]. constructor; [by apply silent_printable|done].
Qed.

(** Messages, and other events that move no bytes. *)
Lemma mid_inv_quiet hdr c t u : Forall silent u → mid_inv hdr c t → mid_inv hdr c (t ++ u).
Proof.
  intros Hu. revert t. induction Hu as [|e u He _ IH]; intros t Hinv; [by rewrite app_nil_r|].
  rewrite cons_middle, app_assoc. by apply IH, mid_inv_silent.
Qed.

(** * Texts that can be printed *)

Section text.
Context (inet_ntop : Z → list Z → list Z).

Lemma show_sockaddr_Ok sa n : Zlen sa = 128 → displayable sa → ∃ s, show_sockaddr inet_ntop sa n = Ok s ∧ 0 ∉ s.
Proof.
  intros Hl (f & Hf & Hcase). unfold show_sockaddr.
  assert (∃ s, display_sockaddr inet_ntop sa n = Ok s) as (s & ->); [|eexists; split; [done|apply until_nul_free]].
  assert (∃ p, sin_port sa = Ok p) as (p & Hp).
  { unfold sin_port. destruct (load_Ok sa 2) as (x & -> & _); [lia|]. outcome_simpl.
    destruct (load_Ok sa 3) as (y & -> & _); [lia|]. by eexists. }
  unfold display_sockaddr. rewrite Hf. outcome_simpl. destruct Hcase as [-> |[-> |[-> |[-> Hnul]]]]; cbn [Z.eqb AF_INET AF_INET6 AF_UNIX AF_UNSPEC Pos.eqb].
  - rewrite load_range_Ok by lia. outcome_simpl. rewrite Hp. by eexists.
  - rewrite load_range_Ok by lia. outcome_simpl. rewrite Hp. by eexists.
  - by eexists.
  - unfold c_string, offsetof_sun_path. rewrite bool_decide_true by done. by eexists.
Qed.

(** Whatever the socket address of the listener, this is what is printed. *)
Lemma show_listener_address_unix la :
  type la = SOCKADDR → show_listener_address inet_ntop (Some la) = Ok (bytes "unix:").
Proof. intros Ht. unfold show_listener_address, address_struct. by rewrite Ht. Qed.
End text.

Lemma show_error_nul_free x n : 0 ∉ show_error x n.
Proof. apply until_nul_free. Qed.
Lemma show_string_nul_free s : 0 ∉ show_string s.
Proof. destruct s; [apply until_nul_free|no_nul]. Qed.
Lemma socket_name_nul_free s : 0 ∉ socket_name s.
Proof. destruct s; no_nul. Qed.

(** Texts put together of literals and of such texts have no NUL. *)
Ltac text_piece :=
  lazymatch goal with
  | |- _ ∉ bytes _ => no_nul
  | |- _ ∉ show_error _ _ => apply show_error_nul_free
  | |- _ ∉ show_string _ => apply show_string_nul_free
  | |- _ ∉ socket_name _ => apply socket_name_nul_free
  | |- _ ∉ show_int _ => apply show_int_nul_free
  | |- _ ∉ decimal _ => apply decimal_nul_free; lia
  | |- _ => assumption
  end.
Ltac text_ok := cbn [silent printable]; rewrite ?not_elem_of_app; split_and?; text_piece.

(** What [close] has to say. *)
Definition close_log (x : sys_errors) (s : bool) : list io :=
  match close_err x s with
  | None => []
  | Some errno => [IoLog LOG_WARNING (bytes "close failed: " ++ show_error x errno)]
  end.

Lemma close_log_silent x s : Forall silent (close_log x s).
Proof. unfold close_log. destruct (close_err x s); repeat constructor. text_ok. Qed.

Lemma wp_close_fd x s Q c t : Q () c (t ++ IoClose s :: close_log x s) → wp (close_fd x s) Q c t.
Proof.
  intros HQ. unfold close_fd. wps. unfold close_log in HQ. destruct (close_err x s); wps; [|done].
  by rewrite <- app_assoc.
Qed.

Definition socket_open (s : bool) (c : Connection) : bool :=
  if s then client_socket_open c else server_socket_open c.

(** * Closing keeps the invariant *)

Definition closed_state (s : bool) (st : State) : State :=
  match s, st with
  | true, CONNECTED => CLIENT_CLOSED
  | true, _ => CLOSED
  | false, CLIENT_CLOSED => CLOSED
  | false, _ => SERVER_CLOSED
  end.

(** The connection after one of its sockets was closed. *)
Definition after_close (s : bool) (c : Connection) : Connection :=
  let c := set_side s (set_watcher (ev_io_stop (watcher (side s c))) (side s c)) c in
  set_state (closed_state s (state c)) c.

Lemma traffic_close hdr c t s :
  traffic hdr c t → socket_open s c = true → traffic hdr (after_close s c) t.
Proof.
  unfold traffic, pending, relayed, aborted.
  destruct s; cbn [after_close set_side set_state side client server state cuse_proxy_header
    set_watcher pbuffer socket_open]; unfold client_socket_open, server_socket_open;
    destruct (state c); cbn [closed_state]; done || tauto.
Qed.

Lemma mid_inv_close hdr c t s :
  mid_inv hdr c t → socket_open s c = true → mid_inv hdr (after_close s c) t.
Proof.
  intros [] Ho. constructor; try (by apply traffic_close); destruct s; try done;
    unfold socket_open, client_socket_open, server_socket_open in *; cbn in *;
    destruct (state c); done || auto.
Qed.

(** Closing a socket that is open: one [close], and the next state depends on the
    previous state. *)
Lemma close_client_run x hdr c t :
  mid_inv hdr c t → client_socket_open c = true →
  wp (close_client_socket x) (λ _ c' t', mid_inv hdr c' t' ∧ c' = after_close true c ∧
    t' = t ++ (IoClose true :: close_log x true) ++ (if decide (state c = RESOLVING) then [IoCancel] else [])) c t.
Proof.
  intros Hinv Ho. pose proof (mid_inv_close _ _ _ true Hinv Ho) as Hc.
  assert (mid_inv hdr (after_close true c) (t ++ IoClose true :: close_log x true)) as Hc1.
  { apply mid_inv_quiet; [|done]. constructor; [done|apply close_log_silent]. }
  unfold close_client_socket. wps. apply wp_assert.
  { unfold client_socket_open in Ho. by destruct (state c). }
  wps. apply wp_close_fd. wps. apply wp_when.
  - intros Hst%bool_decide_eq_true. destruct (mi_query _ _ _ Hinv Hst) as (a & -> & _). wps. split.
    { apply mid_inv_silent; [done|]. unfold after_close in Hc1. cbn in *. by rewrite Hst in Hc1. }
    split; [unfold after_close; cbn; by rewrite Hst|].
    rewrite decide_True, <- app_assoc by done. done.
  - intros Hst%bool_decide_eq_false. wps.
    assert (match state c with
            | SERVER_CLOSED | ACCEPTED | PARSED | RESOLVING | RESOLVED => CLOSED
            | _ => CLIENT_CLOSED end = closed_state true (state c)) as Heq.
    { unfold client_socket_open in Ho. by destruct (state c). }
    cbn. rewrite Heq. split; [done|]. split; [done|].
    by rewrite decide_False, app_nil_r.
Qed.

Lemma close_server_run x hdr c t :
  mid_inv hdr c t → server_socket_open c = true →
  wp (close_server_socket x) (λ _ c' t', mid_inv hdr c' t' ∧ c' = after_close false c ∧
    t' = t ++ IoClose false :: close_log x false) c t.
Proof.
  intros Hinv Ho. pose proof (mid_inv_close _ _ _ false Hinv Ho) as Hc.
  unfold close_server_socket. wps. apply wp_assert.
  { unfold server_socket_open in Ho. by destruct (state c). }
  wps. apply wp_close_fd. wps. assert (match state c with CLIENT_CLOSED => CLOSED | _ => SERVER_CLOSED end
               = closed_state false (state c)) as -> by (by destruct (state c)).
  split; [|done]. apply mid_inv_quiet; [|done]. constructor; [done|apply close_log_silent].
Qed.

Lemma close_socket_run x hdr s c t :
  mid_inv hdr c t → socket_open s c = true →
  wp (close_socket x s) (λ _ c' t', mid_inv hdr c' t' ∧ c' = after_close s c) c t.
Proof.
  intros Hinv Ho. destruct s.
  - eapply wp_mono; [by apply close_client_run|]. cbn. by intros _ c' t' (?&?&?).
  - eapply wp_mono; [by apply close_server_run|]. cbn. by intros _ c' t' (?&?&?).
Qed.

(** The system calls of [close_connection], in order, with the warnings about those that
    fail. *)
Definition closes (x : sys_errors) (c : Connection) : list io :=
  (if server_socket_open c then IoClose false :: close_log x false else []) ++
  (if client_socket_open c then IoClose true :: close_log x true else []) ++
  (if decide (state c = RESOLVING) then [IoCancel] else []).

Lemma close_connection_run x hdr c t :
  mid_inv hdr c t →
  wp (close_connection x) (λ _ c' t', mid_inv hdr c' t' ∧ state c' = CLOSED ∧ t' = t ++ closes x c) c t.
Proof.
  intros Hinv. unfold close_connection, closes.
  assert (state c ≠ NEW) as Hnew.
  { intros Hst. pose proof (mi_traffic _ _ _ Hinv) as Ht. unfold traffic in Ht. by rewrite Hst in Ht. }
  wps. apply wp_assert; [by rewrite bool_decide_false|]. wps.
  set (c1 := if server_socket_open c then after_close false c else c).
  set (t1 := t ++ if server_socket_open c then IoClose false :: close_log x false else []).
  apply wp_mono with (P := λ _ c' t', mid_inv hdr c1 t1 ∧ c' = c1 ∧ t' = t1).
  { unfold c1, t1. apply wp_when; intros Ho; rewrite Ho.
    - eapply wp_mono; [by apply close_server_run|]. cbv beta. by intros _ c' t' (?&->&->).
    - by rewrite app_nil_r. }
  intros _ c' t' (Hinv1 & -> & ->). wps. rewrite app_assoc.
  assert (∃ st, state c1 = st ∧ client_socket_open c = client_socket_open c1 ∧
    (state c = RESOLVING ↔ st = RESOLVING) ∧
    match st with
    | ACCEPTED | PARSED | RESOLVING | RESOLVED | SERVER_CLOSED | CLOSED => True
    | _ => False end) as (st & Hst & Hcl & Hres & Hok).
  { eexists. split; [done|]. unfold c1, client_socket_open, server_socket_open, after_close.
    destruct (state c) eqn:Hst; cbn; rewrite ?Hst; done. }
  apply wp_assert; [rewrite Hst; by destruct st|]. wps. rewrite Hcl. fold t1. apply wp_when; intros Ho; rewrite Ho.
  - eapply wp_mono; [by apply close_client_run|]. cbv beta. intros _ c' t' (Hinv' & -> & ->). wps.
    assert (state (after_close true c1) = CLOSED) as Hend by (cbn; rewrite Hst; by destruct st).
    apply wp_assert; [by rewrite bool_decide_true|]. split; [done|]. split; [done|]. repeat f_equal.
    rewrite Hst. apply decide_ext. tauto.
  - wps. assert (state c1 = CLOSED) as Hend.
    { unfold client_socket_open in Ho. rewrite Hst in *. by destruct st. }
    apply wp_assert; [by rewrite bool_decide_true|]. split; [done|]. split; [done|].
    rewrite decide_False; [by rewrite app_nil_r|]. rewrite Hres, <- Hst, Hend. done.
Qed.

(** * Receiving and sending keep the invariant *)

(** The fields a transfer does not look at. *)
Definition same_control (c c' : Connection) : Prop :=
  state c' = state c ∧ header_len c' = header_len c ∧ cuse_proxy_header c' = cuse_proxy_header c.

Lemma traffic_recv hdr c t s bs b :
  traffic hdr c t → socket_open s c = true → contents b = contents (pbuffer (side s c)) ++ bs →
  traffic hdr (set_side s (set_buffer b (side s c)) c) (t ++ [IoRecv s bs]).
Proof.
  intros Ht Ho Hb. unfold traffic in *.
  assert (∀ s', rx s' (t ++ [IoRecv s bs]) = rx s' t ++ if eqb s' s then bs else []) as Hrx.
  { intros s'. rewrite rx_app. unfold rx at 2. cbn. by rewrite app_nil_r. }
  assert (∀ s', tx s' (t ++ [IoRecv s bs]) = tx s' t) as Htx.
  { intros s'. by rewrite tx_app, app_nil_r. }
  unfold pending, relayed, aborted, socket_open, client_socket_open, server_socket_open in *.
  destruct s; cbn [side set_side set_buffer pbuffer client server state cuse_proxy_header] in *;
    rewrite !Hrx, !Htx, Hb; cbn [eqb]; rewrite ?app_nil_r, ?app_assoc;
    destruct (state c); try done.
  all: rewrite ?app_assoc in *; try (by destruct Ht as (-> & ?)); try (destruct Ht as (?&Ht); by rewrite Ht).
  - destruct Ht as [(-> & ?)|?]; [by left|by right].
Qed.

Lemma traffic_send hdr c t s n b :
  traffic hdr c t → socket_open s c = true →
  pbuffer (side (negb s) c) = b → 0 < len b → buf_ok b → ∀ b',
  contents b' = drop n (contents b) →
  traffic hdr (set_side (negb s) (set_buffer b' (side (negb s) c)) c)
    (t ++ [IoSend s (take n (contents b))]).
Proof.
  intros Ht Ho <- Hpos Hok b' Hb. unfold traffic in *.
  assert (∀ s', tx s' (t ++ [IoSend s (take n (contents (pbuffer (side (negb s) c))))]) =
    tx s' t ++ if eqb s' s then take n (contents (pbuffer (side (negb s) c))) else []) as Htx.
  { intros s'. rewrite tx_app. unfold tx at 2. cbn. by rewrite app_nil_r. }
  assert (∀ s' e, rx s' (t ++ [IoSend s e]) = rx s' t) as Hrx.
  { intros s' e. by rewrite rx_app, app_nil_r. }
  assert (contents (pbuffer (side (negb s) c)) ≠ []) as Hne.
  { intros Hnil%empty_contents; [lia|done]. }
  unfold pending, relayed, aborted, socket_open, client_socket_open, server_socket_open in *.
  destruct s; cbn [negb side set_side set_buffer pbuffer client server state cuse_proxy_header] in *;
    rewrite !Hrx, !Htx, Hb; cbn [eqb]; rewrite ?app_nil_r, <- ?app_assoc, ?take_drop;
    destruct (state c); try done; tauto.
Qed.

(** Replacing one buffer by another that is as good. *)
Lemma mid_inv_buffer hdr c t t' s b :
  mid_inv hdr c t → buf_ok b → (s = true → buffer_bytes b) →
  (s = true → state c = ACCEPTED → Buffer.head b = 0) → Forall printable t' →
  traffic hdr (set_side s (set_buffer b (side s c)) c) t' →
  mid_inv hdr (set_side s (set_buffer b (side s c)) c) t'.
Proof. intros [[] ] Hb Hby Hh Hlog Ht. destruct s; constructor; cbn in *; auto. Qed.

Lemma printable_more hdr c t e : mid_inv hdr c t → printable e → Forall printable (t ++ [e]).
Proof. intros Hinv He. apply Forall_app. split; [apply Hinv|by constructor]. Qed.

Lemma side_buf_ok hdr c t s : mid_inv hdr c t → buf_ok (pbuffer (side s c)).
Proof. intros [[] ]. by destruct s. Qed.

Section handlers.
Context {pcre : Type} (e : env pcre).

(** What the operating system promises to a callback of the watcher of [s]. *)
Definition min_payload (p : protocol_ptr) : Z :=
  match p with tls_protocol_ptr => 0 | http_protocol_ptr => 2 end.

Definition payload_ok (c : Connection) (n : Z) : Prop :=
  n ≤ header_len c ∨ header_len c + min_payload (protocol (listener e)) ≤ n.

Record transfers_ok (s : bool) (c : Connection) : Prop := {
  to_recv : recv_fits (pbuffer (side s c)) (recv_ret_of e);
  to_bytes : Forall is_byte (received_bytes (recv_ret_of e));
  to_send : send_fits (pbuffer (side (negb s) c)) (send_ret_of e);
  to_payload : state c = ACCEPTED →
    payload_ok c (len (cbuf c)) ∧ payload_ok c (len (cbuf c) + Zlen (received_bytes (recv_ret_of e)))
}.

(** What holds before the state specific part. *)
Definition ready (s : bool) (c : Connection) : Prop :=
  match state c with
  | NEW | PARSED | RESOLVED => False
  | ACCEPTED => s = true ∧ payload_ok c (len (cbuf c))
  | _ => True
  end.

Lemma ready_closed s s' c : ready s (after_close s' c).
Proof. unfold ready. cbn. by destruct s', (state c). Qed.

Lemma receive_run hdr s c t revents :
  mid_inv hdr c t → socket_open s c = true → ready s c → transfers_ok s c →
  wp (receive e s revents) (λ r c' t', mid_inv hdr c' t' ∧ ready s c' ∧
    (r = 0 ∨ socket_open s c' = true ∧ pbuffer (side (negb s) c') = pbuffer (side (negb s) c))) c t.
Proof.
  intros Hinv Ho Hr [Hfits Hby _ Hpay]. unfold receive. wps.
  destruct (_ && _) eqn:Hg; [|wps; split_and!; [done|done|by right]].
  pose proof (side_buf_ok _ _ _ s Hinv) as [Hwf Hmask].
  destruct (buffer_recv_Ok _ (recv_ret_of e) (now e) Hwf Hfits) as (b & Hrecv & (Hwf' & Hc & Hl & Hm & _) & _).
  wps. eapply wp_lift; [exact Hrecv|]. wps.
  set (c1 := set_side s (set_buffer b (side s c)) c).
  assert (mid_inv hdr c1 (t ++ [IoRecv s (received_bytes (recv_ret_of e))])) as Hinv1.
  { eapply mid_inv_buffer; [exact Hinv|by split; [|congruence]| | |by eapply printable_more|by apply traffic_recv; [apply Hinv|..]].
    - intros ->. eapply buffer_recv_bytes; [|exact Hby|exact Hrecv]. apply Hinv.
    - intros -> Hst. eapply buffer_recv_head_kept; [|exact Hrecv]. by eapply mi_head. }
  assert (socket_open s c1 = true) as Ho1 by (by destruct s).
  assert (ready s c1) as Hr1.
  { unfold ready in *. change (state c1) with (state c). destruct (state c); try done.
    destruct Hr as [-> _]. split; [done|]. unfold payload_ok. cbn. rewrite Hl. by apply Hpay. }
  assert (∀ u, mid_inv hdr c1 u → wp (close_socket (errors e) s;;; mret 0) (λ r c' t', mid_inv hdr c' t' ∧ ready s c' ∧
    (r = 0 ∨ socket_open s c' = true ∧ pbuffer (side (negb s) c') = pbuffer (side (negb s) c))) c1 u) as Hclose.
  { intros u Hu. wps. eapply wp_mono; [by apply close_socket_run|]. cbn. intros _ c' t' [? ->]. wps.
    split_and!; [done|apply ready_closed|by left]. }
  destruct ((recv_ret _ <? 0) && _).
  { apply wp_bind, wp_emit, Hclose, mid_inv_silent; [text_ok|done]. }
  destruct (recv_ret _ =? 0); [by apply Hclose|]. wps.
  split_and!; [done|done|right]. split; [done|]. by destruct s.
Qed.

Lemma transmit_run hdr s c t revents :
  mid_inv hdr c t → ready s c →
  revents = 0 ∨ socket_open s c = true ∧ send_fits (pbuffer (side (negb s) c)) (send_ret_of e) →
  wp (transmit e s revents) (λ _ c' t', mid_inv hdr c' t' ∧ ready s c') c t.
Proof.
  intros Hinv Hr Hrev. unfold transmit. wps.
  destruct (_ && _) eqn:Hg; [|wps; by split].
  apply andb_true_iff in Hg as [Hw Hlen]. destruct Hrev as [->|[Ho Hfits]]; [done|].
  pose proof (side_buf_ok _ _ _ (negb s) Hinv) as Hok. destruct (Hok) as [Hwf Hmask].
  pose proof (buf_ok_len _ Hok) as Hl0. unfold buffer_len in Hlen. 
  destruct (buffer_send_Ok _ (send_ret_of e) (now e) Hwf Hfits) as (b & Hsend & (Hwf' & Hc & Hl & Hm & _) & _).
  wps. eapply wp_lift; [exact Hsend|]. wps.
  set (c1 := set_side (negb s) (set_buffer b (side (negb s) c)) c).
  set (t1 := t ++ _).
  assert (mid_inv hdr c1 t1) as Hinv1.
  { eapply mid_inv_buffer; [exact Hinv|by split; [|congruence]| | |by eapply printable_more|].
    - intros ->%negb_true_iff. unfold buffer_bytes. rewrite (buffer_send_block _ _ _ _ _ _ Hsend). apply Hinv.
    - intros ->%negb_true_iff Hst. unfold socket_open, server_socket_open in Ho. by rewrite Hst in Ho.
    - eapply traffic_send; [apply Hinv|done|done| |done|done]. destruct (Z.eqb_spec (len (pbuffer (side (negb s) c))) 0); [done|lia]. }
  assert (ready s c1) as Hr1.
  { unfold ready in *. change (state c1) with (state c). destruct (state c); try done.
    destruct Hr as [-> ?]. done. }
  apply wp_when; [|done]. intros _. wps.
  eapply wp_mono; [apply close_socket_run; [apply mid_inv_silent; [text_ok|done]|by destruct s]|].
  cbn. intros _ c' t' [? ->]. split; [done|]. apply ready_closed.
Qed.

(** * The address of the server *)

Lemma wf_sockaddr_len a :
  address_wf a → type a = SOCKADDR → alen a = Zlen (adata a) ∧ 0 ≤ alen a ≤ 128.
Proof.
  intros Hwf. unfold sizeof_sun_path in *.
  destruct Hwf as [| p r Hr|p r Hr|path p Hn Hp| |]; cbn [type alen adata]; try done; intros _;
    rewrite ?Zlen_app; change (Zlen [AF_INET; 0]) with 2; change (Zlen [AF_INET6; 0]) with 2;
    change (Zlen [AF_UNIX; 0]) with 2; change (Zlen (htons p)) with 2; change (Zlen [0]) with 1.
  - lia.
  - lia.
  - unfold sizeof_sun_path in *. pose proof (Zlen_nonneg path). lia.
Qed.

Lemma wf_displayable a rest : address_wf a → type a = SOCKADDR → displayable (adata a ++ rest).
Proof.
  intros Hwf. destruct Hwf as [|p r Hr|p r Hr|path p Hn Hp| |]; cbn [type adata]; try done; intros _;
    (eexists; split; [done|]); [by left|by right; left|right; right; right].
  split; [done|]. cbn. set_solver.
Qed.

Lemma store_addr_run hdr c t a :
  mid_inv hdr c t → address_wf a → type a = SOCKADDR →
  wp (store_server_addr a) (λ _ c' t', t' = t ∧ mid_inv hdr c' t ∧ same_control c c') c t.
Proof.
  intros Hinv Hwf Hsa. destruct (wf_sockaddr_len a Hwf Hsa) as [Hlen Hmax].
  pose proof (mi_saddr _ _ _ Hinv) as Haddr.
  unfold store_server_addr, address_sa, address_sa_len. rewrite Hsa. wps.
  apply wp_assert; [unfold sizeof_sockaddr_storage; lia|]. wps.
  eapply wp_lift; [apply load_range_Ok; lia|]. wps.
  rewrite Hlen, slice_all. eapply wp_lift; [apply store_range_Ok; lia|]. wps.
  split; [done|]. split; [|done]. destruct Hinv as [? ? ? ? [? ?]]. constructor; try done; cbn.
  - rewrite Zlen_splice; lia.
  - split; [done|]. unfold splice. cbn [Z.to_nat take app]. by apply wf_displayable.
Qed.

(** * Aborting and parsing *)

Definition before_server (c : Connection) : Prop :=
  match state c with ACCEPTED | PARSED | RESOLVING | RESOLVED => True | _ => False end.

(** The outcome of the handlers that may abort: aborted, or in one of the states [P]. *)
Definition moved (hdr : list Z) (P : Connection → Prop) (c : Connection) (t : list io) : Prop :=
  mid_inv hdr c t ∧ (state c = SERVER_CLOSED ∧ 0 < len (sbuf c) ∨ P c).

(** Before the server is connected only the buffers and the watchers matter. *)
Lemma mid_inv_control hdr c c' t :
  mid_inv hdr c t → before_server c → before_server c' → state c' ≠ ACCEPTED →
  client c' = client c → server c' = server c → header_len c' = header_len c →
  (state c' = RESOLVING → ∃ a, query_handle c' = Some a ∧ address_wf a) →
  hostname c' = hostname c ∨ (∀ h, hostname c' = Some h → 0 ∈ h) → mid_inv hdr c' t.
Proof.
  intros [] Hb Hb' Hst Hcl Hsv Hhl Hq Hname.
  constructor; rewrite ?Hcl, ?Hsv, ?Hhl; try done; unfold before_server in *;
    unfold client_socket_open, server_socket_open, traffic, pending in *; rewrite ?Hcl, ?Hsv.
  - destruct Hname as [-> |]; done.
  - by destruct (state c').
  - intros _. apply mi_swatch0. by destruct (state c).
  - destruct (state c), (state c'); done.
Qed.

#[local] Instance listener_parser_ok (p : protocol_ptr) : ParserOk (protocol_of p) (min_payload p).
Proof. destruct p; apply _. Qed.

Lemma abort_run hdr c t P :
  mid_inv hdr c t → before_server c → wp (abort_connection e) (λ _, moved hdr P) c t.
Proof.
  intros Hinv Hst. unfold abort_connection. wps. apply wp_assert.
  { unfold client_socket_open, before_server in *. by destruct (state c). }
  set (p := protocol (listener e)).
  destruct (parser_abort_bounds (p := protocol_of p) (min := min_payload p)) as [Hpos Hmax].
  pose proof (parser_abort (p := protocol_of p) (min := min_payload p)) as Hlen.
  pose proof (mi_traffic _ _ _ Hinv) as Ht.
  assert (pending hdr c t) as (_ & Hempty & Htx & Htx' & Hrx).
  { unfold traffic, before_server in *. by destruct (state c). }
  pose proof (mi_sbuf _ _ _ Hinv) as [Hwf Hmask].
  pose proof (empty_contents _ (mi_sbuf _ _ _ Hinv) Hempty) as Hl0.
  destruct (buffer_push_fits (sbuf c) (abort_message (protocol_of p)) (abort_message_len (protocol_of p)))
    as (Hpush & Hwf' & Hc & Hl & Hm & _); [done|lia|lia|].
  set (b := appended _ _) in *. clearbody b.
  wps. eapply wp_lift; [exact Hpush|]. wps.
  rewrite Hempty, <- Hlen, slice_all, app_nil_l in Hc.
  split; [|left; split; [done|]; change (0 < len b); rewrite Hl, <- Hlen, slice_all; lia].
  destruct Hinv. constructor; cbn; try done.
  - split; [done|congruence].
  - intros _. apply mi_swatch0. unfold server_socket_open, before_server in *. by destruct (state c).
  - right. split; [exists p|done]. cbn. by rewrite Htx, Hc.
Qed.

(** A message, and then the abort. *)
Lemma abort_said hdr c t prio text P :
  mid_inv hdr c t → before_server c → 0 ∉ text →
  wp (say prio text ;;; abort_connection e) (λ _, moved hdr P) c t.
Proof. intros Hinv Hst Ht. wps. apply abort_run; [by apply mid_inv_silent|done]. Qed.

(** The name and its length are what a parser returned. *)
Definition parsed_name (c : Connection) : Prop :=
  ∃ result, parse_result_ok (result, hostname c) ∧ hostname_len c = size_t result.

Context (inet_ntop : Z → list Z → list Z).

Lemma report_request_run hdr c t payload payload_len result :
  mid_inv hdr c t → Forall is_byte payload → 0 ≤ payload_len ≤ 4096 → - 2 ^ 31 ≤ result < 0 →
  (∀ n m, 0 ≤ n → alloc e n = Some m → Zlen m = n) →
  wp (report_request inet_ntop e payload payload_len result) (λ _ c' t', c' = c ∧ mid_inv hdr c t') c t.
Proof.
  intros Hinv Hb Hlen Hres Halloc. unfold report_request. wps.
  destruct (show_sockaddr_Ok inet_ntop (paddr (client c)) PEER_BUFFER_SIZE) as (s & Hs & Hnul);
    [apply Hinv|apply Hinv|]. eapply wp_lift; [exact Hs|]. wps.
  assert (0 ≤ buffer_size (cbuf c)) as Hsize.
  { destruct (mi_cbuf _ _ _ Hinv) as [[Hwf Hm] _]. unfold buffer_size. rewrite Hm. nowrap. lia. }
  destruct (result =? -1); [wps; split; [done|]; apply mid_inv_silent; [text_ok|done]|].
  destruct (result =? -2); [wps; split; [done|]; apply mid_inv_silent; [text_ok|done]|]. wps.
  set (t1 := t ++ _). assert (mid_inv hdr c t1) as Hinv1 by (apply mid_inv_silent; [text_ok|done]).
  apply wp_when; [intros _|done].
  destruct (log_bad_request_Ok (alloc e) (take (Z.to_nat payload_len) payload) result) as (prio & text & Htext & Ht0);
    [by apply Forall_take| |lia|done|].
  { unfold Zlen. rewrite length_take. lia. }
  wps. eapply wp_lift; [exact Htext|]. wps. split; [done|]. by apply mid_inv_silent.
Qed.

(** [parse_client_request] waits for more, refuses the request, or leaves it parsed. *)
Lemma parse_run hdr c t :
  mid_inv hdr c t → state c = ACCEPTED → payload_ok c (len (cbuf c)) →
  (∀ n m, 0 ≤ n → alloc e n = Some m → Zlen m = n ∧ Forall is_byte m) →
  wp (parse_client_request inet_ntop e) (λ _, moved hdr (λ c,
    state c = ACCEPTED ∧ len (cbuf c) < 4096 ∨ state c = PARSED ∧ parsed_name c)) c t.
Proof.
  intros Hinv Hst Hpay Halloc. unfold parse_client_request. wps.
  destruct (mi_cbuf _ _ _ Hinv) as [[Hwf Hmask] Hby]. destruct (mi_hdr _ _ _ Hinv) as [Hhl Hhm].
  pose proof (Zlen_nonneg hdr). pose proof (buf_ok_len _ (conj Hwf Hmask)).
  destruct (coalesce_at_start (cbuf c) (alloc e (len (cbuf c)))) as (b & Hco & Hwf' & Hh & Hl & Hc & Hm);
    [done|by apply (mi_head _ _ _ Hinv)|intros m Hm; apply Halloc; [lia|done]|].
  assert (buffer_bytes b) as Hby'.
  { eapply buffer_coalesce_bytes; [exact Hby| |exact Hco]. intros m Hm'. eapply Halloc; [|exact Hm']. lia. }
  eapply wp_lift; [exact Hco|]. wps.
  set (c1 := set_side true (set_buffer b (side true c)) c).
  assert (mid_inv hdr c1 t) as Hinv1.
  { eapply mid_inv_buffer; [exact Hinv|by split; [|congruence]|done|done|apply Hinv|].
    pose proof (mi_traffic _ _ _ Hinv) as Ht. unfold traffic in *. cbn. rewrite Hst in *.
    unfold pending in *. cbn. by rewrite Hc. }
  assert (before_server c1) as Hb1 by (unfold before_server; cbn; by rewrite Hst).
  destruct (Z.leb_spec (len (cbuf c)) (header_len c)).
  { wps. split; [done|right; left]. split; [done|]. cbn. lia. }
  rewrite size_t_small by lia.
  assert (Zlen (drop (Z.to_nat (0 + header_len c)) (buffer b)) = 4096 - header_len c) as Hzl.
  { pose proof (wf_block _ Hwf'). unfold Zlen in *. rewrite length_drop. lia. }
  destruct (parser_safe (p := protocol_of (protocol (listener e))) (malloc_of e)
    (drop (Z.to_nat (0 + header_len c)) (buffer b)) (len (cbuf c) - header_len c))
    as ([result h] & Hparse & Hres); [by apply Forall_drop|destruct Hpay; lia|lia|].
  wps. eapply wp_lift; [exact Hparse|]. wps.
  destruct ((result =? -1) && _) eqn:Hmore.
  { wps. split; [done|right; left]. split; [done|].
    apply andb_true_iff in Hmore as [_ Hroom%Z.ltb_lt]. rewrite buf_ok_room in Hroom by (split; [done|congruence]).
    cbn. lia. }
  apply wp_bind, wp_mono with (P := λ _ c' t', c' = c1 ∧ mid_inv hdr c1 t').
  { apply wp_when; [|done]. intros Hneg%Z.ltb_lt. destruct h as [h|]; [destruct Hres; lia|].
    apply report_request_run; [done|by apply Forall_drop|lia|done|]. intros n m Hn Hm'. by apply (Halloc n m). }
  intros _ c2 t2 [-> Hinv2]. destruct ((result <? 0) && _); [by apply abort_run|]. wps.
  split; [apply (mid_inv_control hdr c1); try done; right|right; right; split; [done|by exists result]].
  cbn. intros h' ->. destruct Hres as [_ Hnul]. by eapply list_elem_of_lookup_2.
Qed.

(** * Choosing the server *)

Context (pcre_exec : pcre → list Z → Z → Z * list Z).
Context (pcre_copy_substring : list Z → list Z → Z → Z → Z → Z * list Z).
Context (inet_pton : Z → list Z → option (list Z)).
Context (have_libudns have_transparent : bool).

(** What a callback relies on: malloc returns blocks of the size asked for, the resolver
    accepts queries, and the configuration only leads to usable addresses. *)
Record env_ok : Prop := {
  eo_alloc n m : 0 ≤ n → alloc e n = Some m → Zlen m = n ∧ Forall is_byte m;
  eo_routes : ∃ t, table e = Some t ∧ ∀ result h, parse_result_ok (result, h) →
    yields (listener_lookup_server_address inet_pton (malloc_of e) pcre_exec pcre_copy_substring
              (listener e) t (scratch e) h (size_t result)) (λ r, ∀ a, raddress r = Some a → usable a);
  eo_query : query_ok e = true;
  eo_source a : source_address (listener e) = Some a → address_wf a ∧ type a = SOCKADDR;
  eo_address : transparent_proxy (listener e) = true → ∃ la, laddress (listener e) = Some la ∧ type la = SOCKADDR
}.

Context (Henv : env_ok).

Lemma sa_family_Ok sa : Zlen sa = 128 → ∃ f, sa_family sa = Ok f.
Proof.
  intros Hl. unfold sa_family. destruct (load_Ok sa 0) as (x & -> & _); [lia|]. outcome_simpl.
  destruct (load_Ok sa 1) as (y & -> & _); [lia|]. by eexists.
Qed.

Lemma resolv_mode_run hdr c t a f :
  mid_inv hdr c t → wp (resolv_mode inet_ntop e a f) (λ _ c' t', c' = c ∧ mid_inv hdr c t') c t.
Proof.
  intros Hinv. unfold resolv_mode. destruct (transparent_proxy (listener e)) eqn:Ht; [|by wps].
  destruct (f =? AF_INET); [by wps|]. destruct (f =? AF_INET6); [by wps|].
  destruct (eo_address Henv Ht) as (la & -> & Hla). wps.
  eapply wp_lift; [by apply show_listener_address_unix|]. wps. split; [done|]. apply mid_inv_silent; [text_ok|done].
Qed.

Lemma resolve_run hdr c t :
  mid_inv hdr c t → state c = PARSED → parsed_name c →
  wp (resolve_server_address pcre_exec pcre_copy_substring inet_pton inet_ntop have_libudns e)
    (λ _, moved hdr (λ c, state c = RESOLVING ∨ state c = RESOLVED)) c t.
Proof.
  intros Hinv Hst (result & Hres & Hlen). unfold resolve_server_address. wps.
  destruct (eo_routes Henv) as (tb & -> & Hroutes). eapply wp_lift; [done|]. wps.
  destruct (Hroutes result (hostname c) Hres) as (r & Hr & Husable). rewrite <- Hlen in Hr.
  eapply wp_lift; [exact Hr|]. wps.
  assert (before_server c) as Hb by (unfold before_server; by rewrite Hst).
  destruct (raddress r) as [a|]; [|by apply abort_run].
  destruct (Husable a eq_refl) as [Hwf Ht].
  unfold address_is_hostname, address_is_sockaddr, address_is. destruct Ht as [Ht|Ht].
  - rewrite bool_decide_true by done. destruct have_libudns; cbn [negb]; [|apply abort_said; [done..|text_ok]].
    destruct (malloc_of e 32); cbn [negb]; [|apply abort_said; [done..|text_ok]]. wps.
    destruct (sa_family_Ok _ (mi_caddr _ _ _ Hinv)) as (f & Hf). eapply wp_lift; [exact Hf|]. wps.
    set (c1 := set_use_proxy (ruse_proxy_header r) c).
    assert (mid_inv hdr c1 t) as Hinv1.
    { apply (mid_inv_control hdr c); try done; [by cbn; rewrite Hst|cbn; by rewrite Hst|by left]. }
    eapply wp_mono; [by apply (resolv_mode_run hdr c1)|]. cbv beta. intros mode c' u [-> Hu]. wps.
    rewrite (eo_query Henv). split; [|by right; left]. apply mid_inv_silent; [done|].
    apply (mid_inv_control hdr c1); try done; [intros _; by exists a|by left].
  - rewrite bool_decide_false, bool_decide_true by congruence. wps.
    eapply wp_mono; [by apply store_addr_run|]. cbn. intros _ c' t' (-> & Hinv' & Hst' & Hh' & _). wps.
    split; [|by right; right]. apply (mid_inv_control hdr c'); try done; [|by left].
    unfold before_server. by rewrite Hst', Hst.
Qed.

(** * Connecting to the server *)

Lemma bind_loop_run hdr c t source i tries :
  mid_inv hdr c t → address_wf source → type source = SOCKADDR →
  wp (bind_loop e source i tries) (λ _ c' t', c' = c ∧ mid_inv hdr c t') c t.
Proof.
  intros Hinv Hwf Hsa. destruct (wf_sockaddr_len source Hwf Hsa) as [Hlen Hmax].
  revert i t Hinv. induction tries as [|tries IH]; intros i t Hinv; cbn [bind_loop];
    unfold address_sa, address_sa_len; rewrite Hsa; cbn [default]; wps;
    (eapply wp_lift; [apply load_range_Ok; cbn; lia|]); wps;
    pose proof (mid_inv_silent _ _ _ (IoBind (slice (adata source) 0 (alen source))) I Hinv) as Hinv1;
    destruct (bind_ret e i) as [r errno]; cbv beta iota; [by wps|].
  destruct (_ && _); [|by wps]. wps. eapply wp_lift; [by apply address_port_wf|]. wps.
  destruct (_ =? 0); [by apply IH|by wps].
Qed.

Lemma prepare_socket_run hdr c t :
  mid_inv hdr c t → wp (prepare_socket have_transparent e) (λ _ c' t', c' = c ∧ mid_inv hdr c t') c t.
Proof.
  intros Hinv. unfold prepare_socket.
  assert (∀ what errno u, mid_inv hdr c u → 0 ∉ bytes what →
    wp (complain e what errno;;; mret false) (λ _ c' t', c' = c ∧ mid_inv hdr c t') c u) as Hfail.
  { intros what errno u Hu Hw. unfold complain. wps. split; [done|]. apply mid_inv_silent; [|done].
    cbn [silent]. rewrite !not_elem_of_app. split_and!; [done|text_ok|text_ok]. }
  wps.
  destruct (sa_family_Ok _ (mi_caddr _ _ _ Hinv)) as (f & Hf). eapply wp_lift; [exact Hf|]. wps.
  destruct (sa_family_Ok _ (mi_saddr _ _ _ Hinv)) as (g & Hg). eapply wp_lift; [exact Hg|]. wps.
  destruct (transparent_proxy (listener e) && (f =? g)).
  { destruct ((if have_transparent then _ else _) <? 0); [by apply Hfail; [|no_nul]|]. wps.
    destruct (bind_ret e 0) as [r errno]. cbv beta iota.
    destruct (r <? 0); [by apply Hfail; [apply mid_inv_silent|no_nul]|]. wps. split; [done|]. by apply mid_inv_silent. }
  destruct (source_address (listener e)) as [a|] eqn:Ha; [|by wps].
  destruct (sockopt_ret e <? 0); [by apply Hfail; [|no_nul]|]. destruct (eo_source Henv a Ha) as [Hwf Hsa]. wps.
  eapply wp_mono; [by apply bind_loop_run|]. cbv beta. intros [r errno] c' t' [-> ?]. cbv beta iota.
  destruct (r <? 0); [by apply Hfail; [|no_nul]|by wps].
Qed.

(** The header is taken out of the client buffer when the backend does not want it. *)
Lemma header_dropped hdr c t :
  mid_inv hdr c t → state c = RESOLVED →
  wp (if negb (header_len c =? 0) && negb (cuse_proxy_header c) then
        '(_, _, b) ← lift (buffer_pop (pbuffer (client c)) None (header_len c));
        set_peer true (set_buffer b)
      else mret ())
    (λ _ c' t', t' = t ∧ ∃ b, c' = set_side true (set_buffer b (client c)) c ∧ buf_ok b ∧ buffer_bytes b ∧
      contents b = (if cuse_proxy_header c then hdr else []) ++ rx true t) c t.
Proof.
  intros Hinv Hst. destruct (mi_cbuf _ _ _ Hinv) as [[Hwf Hm] Hby]. destruct (mi_hdr _ _ _ Hinv) as [Hh ?].
  pose proof (mi_traffic _ _ _ Hinv) as Ht. unfold traffic in Ht. rewrite Hst in Ht. destruct Ht as [Hc _].
  assert (cuse_proxy_header c = true ∨ hdr = [] →
    ∃ b, c = set_side true (set_buffer b (client c)) c ∧ buf_ok b ∧ buffer_bytes b ∧
         contents b = (if cuse_proxy_header c then hdr else []) ++ rx true t) as Hsame.
  { intros Hd. exists (cbuf c). split; [by destruct c as [? [] ? ? ? ? ? ? ?]|]. split; [done|].
    split; [done|]. rewrite Hc. destruct Hd as [->| ->]; [done|]. by destruct (cuse_proxy_header c). }
  destruct (cuse_proxy_header c) eqn:Hp; [rewrite andb_false_r; wps; auto|].
  destruct (Z.eqb_spec (header_len c) 0) as [Hz|Hz]; cbn [negb andb].
  { wps. split; [done|]. apply Hsame. right. destruct hdr; [done|]. rewrite Zlen_cons in Hh.
    pose proof (Zlen_nonneg hdr). lia. }
  assert (header_len c ≤ len (cbuf c)) as Hle.
  { rewrite <- (Zlen_contents _ Hwf), Hc, Zlen_app. pose proof (Zlen_nonneg (rx true t)). lia. }
  pose proof (Zlen_nonneg hdr).
  destruct (buffer_pop_null (cbuf c) (header_len c)) as (b & Hpop & Hwf' & Hc' & Hl' & Hm' & _); [done|lia|].
  wps. eapply wp_lift; [exact Hpop|]. wps. split; [done|]. exists b. split; [done|].
  split; [split; [done|congruence]|]. split; [unfold buffer_bytes; by rewrite (buffer_pop_block _ _ _ _ _ _ Hpop)|].
  rewrite Hc', Hc. replace (read_amount (cbuf c) (header_len c)) with (Zlen hdr)
    by (unfold read_amount; zcase).
  unfold Zlen. by rewrite Nat2Z.id, drop_app_length.
Qed.

Lemma initiate_run hdr c t :
  mid_inv hdr c t → state c = RESOLVED →
  wp (initiate_server_connect inet_ntop have_transparent e) (λ _, moved hdr (λ c, state c = CONNECTED)) c t.
Proof.
  intros Hinv Hst. unfold initiate_server_connect. wps.
  assert (before_server c) as Hb by (unfold before_server; by rewrite Hst).
  assert (∀ u fd, mid_inv hdr c u → mid_inv hdr c (u ++ [IoDiscard fd])) as Hdiscard
    by (intros; by apply mid_inv_silent).
  destruct (mi_names _ _ _ Hinv) as [Hn1 Hn2].
  destruct (show_sockaddr_Ok inet_ntop (paddr (client c)) PEER_BUFFER_SIZE) as (s1 & Hs1 & Hnul1); [apply Hinv|done|].
  destruct (show_sockaddr_Ok inet_ntop (paddr (server c)) PEER_BUFFER_SIZE) as (s2 & Hs2 & Hnul2); [apply Hinv|done|].
  destruct (socket_ret e <? 0).
  { wps. eapply wp_lift; [exact Hs1|]. apply abort_said; [done..|text_ok]. }
  wps. eapply wp_mono; [by apply prepare_socket_run|]. cbv beta. intros b c' u [-> Hu]. unfold discard.
  destruct b; cbn [negb]; [|wps; by apply abort_run; [apply Hdiscard|]]. apply wp_bind, wp_emit. cbv beta.
  pose proof (mid_inv_silent _ _ _ (IoConnect (take (Z.to_nat (paddr_len (server c))) (paddr (server c)))) I Hu) as Hu1.
  destruct (connect_ret e) as [result errno]. cbv beta iota zeta.
  destruct (_ && _).
  { wps. eapply wp_lift; [exact Hs2|]. apply abort_said; [by apply Hdiscard|done|text_ok]. }
  destruct (sockname e) as [l|]; [|wps; apply abort_run; [apply mid_inv_silent; [text_ok|by apply Hdiscard]|done]].
  wps. set (t1 := u ++ _) in *. set (c1 := set_side false _ c).
  assert (mid_inv hdr c1 t1) as Hinv1 by (by destruct Hu1).
  eapply wp_mono; [by apply (header_dropped hdr c1 t1)|].
  intros _ c' t' (-> & b & -> & Hok & Hby & Hc). wps.
  split; [|by right]. pose proof (mi_traffic _ _ _ Hinv1) as Ht. unfold traffic in Ht. cbn in Ht.
  rewrite Hst in Ht. destruct Ht as (_ & Hs & Htx & Htx' & Hrx). destruct Hinv1. constructor; try done.
  cbn. split; cbn; [by rewrite Htx', Hc|by rewrite Htx, Hrx].
Qed.

(** * The watchers afterwards *)

Lemma reactivate_live w i o :
  buf_ok i → buf_ok o → len i < 4096 ∨ 0 < len o →
  wactive (reactivate_watcher w i o) && negb (wevents (reactivate_watcher w i o) =? 0) = true.
Proof.
  intros Hi Ho Hlive. unfold reactivate_watcher, buffer_len. rewrite buf_ok_room by done.
  destruct (buf_ok_len i Hi), (buf_ok_len o Ho).
  assert (∃ ev, Z.lor (if negb (4096 - len i =? 0) then EV_READ else 0)
    (if negb (len o =? 0) then EV_WRITE else 0) = ev ∧ (ev =? 0) = false) as (ev & -> & Hev).
  { eexists. split; [done|]. unfold EV_READ, EV_WRITE. destruct (Z.eqb_spec (4096 - len i) 0), (Z.eqb_spec (len o) 0); done || lia. }
  rewrite Hev. cbn [negb]. destruct (wactive w) eqn:Hw; [|cbn; by rewrite Hev].
  destruct (Z.eqb_spec ev (wevents w)) as [->|]; cbn; [by rewrite Hw, Hev|by rewrite Hev].
Qed.

(** Only the watchers of open sockets change. *)
Lemma conn_inv_watcher hdr c t s w :
  conn_inv hdr c t → socket_open s c = true →
  conn_inv hdr (set_side s (set_watcher w (side s c)) c) t.
Proof.
  intros [[] Hset] Ho. destruct s; (split; [constructor|]; cbn in *; try done);
    unfold client_socket_open, server_socket_open in *; cbn in *; congruence.
Qed.

(** The states in which a watcher is live after [reactivate_watchers]. *)
Definition some_live (c : Connection) : bool :=
  wactive (watcher (client c)) && negb (wevents (watcher (client c)) =? 0) ||
  wactive (watcher (server c)) && negb (wevents (watcher (server c)) =? 0) ||
  bool_decide (state c = RESOLVING).

(** The connection after the watcher of [s] was adjusted. *)
Definition readjusted (s : bool) (c : Connection) : Connection :=
  if socket_open s c then
    set_side s (set_watcher (reactivate_watcher (watcher (side s c)) (pbuffer (side s c))
                               (pbuffer (side (negb s) c))) (side s c)) c
  else c.

Lemma wp_reactivate_side s c t (Q : unit → Connection → list io → Prop) :
  Q () (readjusted s c) t → wp (when (socket_open s c) (reactivate_side s)) Q c t.
Proof. unfold readjusted. destruct (socket_open s c); intros HQ; [|by apply wp_ret]. unfold when, reactivate_side. by wps. Qed.

Lemma readjusted_inv hdr s c t : conn_inv hdr c t → conn_inv hdr (readjusted s c) t.
Proof. intros. unfold readjusted. destruct (socket_open s c) eqn:Ho; [by apply conn_inv_watcher|done]. Qed.

Lemma readjusted_open s s' c : socket_open s' (readjusted s c) = socket_open s' c.
Proof. unfold readjusted. destruct (socket_open s c); [|done]. by destruct s, s'. Qed.

Lemma readjusted_state s c : state (readjusted s c) = state c.
Proof. unfold readjusted. by destruct (socket_open s c). Qed.

Lemma closed_inactive hdr c t :
  conn_inv hdr c t → (client_socket_open c || negb (wactive (watcher (client c))) = true) ∧
                     (server_socket_open c || negb (wactive (watcher (server c))) = true).
Proof.
  intros [[] _]. split; [destruct (client_socket_open c)|destruct (server_socket_open c)]; try done.
  - by rewrite mi_cwatch0.
  - by rewrite mi_swatch0.
Qed.

(** In a settled state one of the watchers has something to wait for. *)
Lemma readjusted_live hdr c t :
  conn_inv hdr c t → some_live (readjusted false (readjusted true c)) = true.
Proof.
  intros [[[Hc _] Hs _ _ _ _ _ _ _ _] Hset]. unfold some_live.
  assert (client_socket_open c = true → len (cbuf c) < 4096 ∨ 0 < len (sbuf c) →
    wactive (watcher (client (readjusted false (readjusted true c)))) &&
    negb (wevents (watcher (client (readjusted false (readjusted true c)))) =? 0) = true) as Hcl.
  { intros Ho Hl. unfold readjusted at 1 3. cbn [socket_open].
    change (server_socket_open (readjusted true c)) with (socket_open false (readjusted true c)).
    destruct (socket_open false _); cbn [client set_side]; unfold readjusted; cbn [socket_open]; rewrite Ho;
      by apply reactivate_live. }
  assert (server_socket_open c = true → len (sbuf c) < 4096 ∨ 0 < len (cbuf c) →
    wactive (watcher (server (readjusted false (readjusted true c)))) &&
    negb (wevents (watcher (server (readjusted false (readjusted true c)))) =? 0) = true) as Hsv.
  { intros Ho Hl. set (c1 := readjusted true c). unfold readjusted at 1 2.
    assert (socket_open false c1 = true) as -> by (by unfold c1; rewrite readjusted_open).
    cbn [server set_side]. apply reactivate_live; unfold c1, readjusted;
      by destruct (socket_open true c). }
  rewrite !readjusted_state.
  unfold client_socket_open, server_socket_open in *.
  pose proof (buf_ok_len _ Hc). pose proof (buf_ok_len _ Hs).
  destruct (state c) eqn:Hst; try done.
  - by rewrite Hcl by (done || by left).
  - by rewrite orb_true_r.
  - destruct (decide (len (cbuf c) < 4096)).
    + by rewrite Hcl by (done || by left).
    + rewrite Hsv by (done || (right; lia)). by rewrite orb_true_r.
  - by rewrite Hcl by (done || by right).
  - rewrite Hsv by (done || by right). by rewrite orb_true_r.
Qed.

(** The watcher of an open socket waits for room to send when there is something to send. *)
Definition watching (c : Connection) : Prop :=
  ∀ s, socket_open s c = true → 0 < len (pbuffer (side (negb s) c)) →
    wactive (watcher (side s c)) = true ∧ Z.land (wevents (watcher (side s c))) EV_WRITE ≠ 0.

Lemma reactivate_writes w i o :
  0 < len o →
  wactive (reactivate_watcher w i o) = true ∧ Z.land (wevents (reactivate_watcher w i o)) EV_WRITE ≠ 0.
Proof.
  intros Ho. unfold reactivate_watcher, buffer_len. rewrite (proj2 (Z.eqb_neq (len o) 0)) by lia. cbn [negb].
  set (ev := Z.lor _ EV_WRITE).
  assert ((ev =? 0) = false ∧ Z.land ev EV_WRITE ≠ 0) as [-> Hev] by (unfold ev; by destruct (negb (buffer_room i =? 0))).
  clearbody ev. cbn [negb]. destruct (wactive w) eqn:Hw; [|done].
  destruct (Z.eqb_spec ev (wevents w)) as [->|]; done.
Qed.

Lemma readjusted_buffers s s' c : pbuffer (side s' (readjusted s c)) = pbuffer (side s' c).
Proof. unfold readjusted. destruct (socket_open s c); [|done]. by destruct s, s'. Qed.

Lemma readjusted_watching c : watching (readjusted false (readjusted true c)).
Proof.
  intros s. rewrite !readjusted_open, !readjusted_buffers. intros Ho Hl. destruct s; cbn [negb] in Hl.
  - assert (watcher (side true (readjusted false (readjusted true c))) = watcher (side true (readjusted true c))) as ->
      by (unfold readjusted at 1; by destruct (socket_open false _)).
    unfold readjusted. rewrite Ho. by apply reactivate_writes.
  - set (c1 := readjusted true c). unfold readjusted.
    assert (socket_open false c1 = true) as -> by (by unfold c1; rewrite readjusted_open).
    apply reactivate_writes. unfold c1. by rewrite readjusted_buffers.
Qed.

Lemma reactivate_run hdr c t :
  conn_inv hdr c t →
  wp reactivate_watchers
    (λ _ c' t', t' = t ∧ conn_inv hdr c' t ∧ some_live c' = true ∧ c' = readjusted false (readjusted true c)) c t.
Proof.
  intros Hinv. unfold reactivate_watchers. wps.
  apply (wp_reactivate_side true). wps.
  replace (server_socket_open c) with (socket_open false (readjusted true c)) by apply readjusted_open.
  apply wp_reactivate_side. wps. set (c2 := readjusted false _).
  assert (conn_inv hdr c2 t) as H2 by (by do 2 apply readjusted_inv).
  destruct (closed_inactive _ _ _ H2) as [Ha Hb].
  apply wp_assert; [exact Ha|]. wps. apply wp_assert; [exact Hb|].
  apply wp_assert; [by eapply readjusted_live|]. split_and!; [done|done|by eapply readjusted_live|done].
Qed.

(** * The callbacks *)

(** What the state specific part leaves. *)
Definition settling (c : Connection) : Prop :=
  match state c with
  | NEW | PARSED | RESOLVED => False
  | ACCEPTED => len (cbuf c) < 4096
  | _ => True
  end.

Lemma advance_run hdr s c t :
  mid_inv hdr c t → ready s c →
  wp (advance pcre_exec pcre_copy_substring inet_pton inet_ntop have_libudns have_transparent e s)
    (λ _ c' t', mid_inv hdr c' t' ∧ settling c') c t.
Proof.
  intros Hinv Hr. unfold advance. wps. unfold ready in Hr.
  destruct s; cbn [andb].
  2: { unfold when. wps. split; [done|]. unfold settling. destruct (state c); try done. by destruct Hr. }
  apply wp_mono with (P := λ _, moved hdr (λ c', settling c' ∧ (∀ st, st = PARSED ∨ st = RESOLVED → state c' ≠ st)
    ∨ state c' = PARSED ∧ parsed_name c')).
  { apply wp_when.
    - intros Hst%bool_decide_eq_true. rewrite Hst in Hr. destruct Hr as [_ Hp].
      eapply wp_mono; [apply parse_run; [done|done|done|apply (eo_alloc Henv)]|].
      intros _ c' t' [Hinv' [?|[[Hs Hl]|?]]]; (split; [done|]); [by left|right; left|by right; right].
      unfold settling. rewrite Hs. split; [done|]. by intros st [-> | ->].
    - intros Hst%bool_decide_eq_false. split; [done|]. right; left. unfold settling.
      destruct (state c); try done; (split; [done|by intros st [-> | ->]]). }
  intros _ c1 t1 [Hinv1 Hc1]. wps.
  apply wp_mono with (P := λ _, moved hdr (λ c', settling c' ∧ state c' ≠ RESOLVED ∨ state c' = RESOLVED)).
  { apply wp_when.
    - intros Hst%bool_decide_eq_true. 
      assert (parsed_name c1) as Hn.
      { destruct Hc1 as [[? _]|[[_ Hn]|[_ ?]]]; [congruence| |done]. by destruct (Hn PARSED); [left|]. }
      eapply wp_mono; [by apply resolve_run|].
      intros _ c' t' [Hinv' [?|[Hs|Hs]]]; (split; [done|]); [by left|right; left|by right; right].
      unfold settling. by rewrite Hs.
    - intros Hst%bool_decide_eq_false. split; [done|].
      destruct Hc1 as [?|[[? Hn]|[? _]]]; [by left|right; left|done]. split; [done|]. apply Hn. by right. }
  intros _ c2 t2 [Hinv2 Hc2]. wps. apply wp_when.
  - intros Hst%bool_decide_eq_true. eapply wp_mono; [by apply initiate_run|].
    intros _ c' t' [Hinv' [[Hs _]|Hs]]; (split; [done|]); unfold settling; by rewrite Hs.
  - intros Hst%bool_decide_eq_false. split; [done|]. unfold settling in *.
    destruct Hc2 as [[Hs _]|[[Hs _]|?]]; [by rewrite Hs|done|done].
Qed.

Lemma close_flushed_run hdr c t :
  mid_inv hdr c t → settling c →
  wp (close_flushed (errors e)) (λ _ c' t', mid_inv hdr c' t' ∧ (state c' = CLOSED ∨ conn_inv hdr c' t')) c t.
Proof.
  intros Hinv Hset. unfold close_flushed, buffer_len. wps.
  pose proof (buf_ok_len _ (mi_sbuf _ _ _ Hinv)). pose proof (buf_ok_len _ (proj1 (mi_cbuf _ _ _ Hinv))).
  apply wp_when.
  { intros [Hst%bool_decide_eq_true Hl]%andb_true_iff.
    eapply wp_mono; [apply close_client_run; [done|unfold client_socket_open; by rewrite Hst]|].
    cbn beta. intros _ c' t' (Hinv' & -> & _). wps.
    apply wp_when_false; unfold after_close; cbn; rewrite Hst; [done|]. split; [|by left].
    unfold after_close in Hinv'. cbn in Hinv'. by rewrite Hst in Hinv'. }
  intros Hn. wps. apply wp_when.
  - intros [Hst%bool_decide_eq_true Hl]%andb_true_iff.
    eapply wp_mono; [apply close_server_run; [done|unfold server_socket_open; by rewrite Hst]|].
    cbn beta. intros _ c' t' (Hinv' & -> & _). split; [done|]. left. cbn. by rewrite Hst.
  - intros Hn'. split; [done|]. destruct (state c) eqn:Hst; try (by unfold settling in Hset; rewrite Hst in Hset);
      try (right; split; [done|]; rewrite Hst; done); try by left.
    + right. split; [done|]. rewrite Hst. unfold settling in Hset. by rewrite Hst in Hset.
    + right. split; [done|]. rewrite Hst. rewrite bool_decide_true in Hn by done. cbn in Hn.
      apply Z.eqb_neq in Hn. lia.
    + right. split; [done|]. rewrite Hst. rewrite bool_decide_true in Hn' by done. cbn in Hn'.
      apply Z.eqb_neq in Hn'. lia.
Qed.

Lemma connection_cb_run hdr s revents c t :
  conn_inv hdr c t → wactive (watcher (side s c)) = true → transfers_ok s c →
  wp (connection_cb pcre_exec pcre_copy_substring inet_pton inet_ntop have_libudns have_transparent e s revents)
    (λ freed c' t', mid_inv hdr c' t' ∧
       if freed : bool then state c' = CLOSED else conn_inv hdr c' t' ∧ some_live c' = true ∧ watching c') c t.
Proof.
  intros [Hinv Hset] Hact Hto. unfold connection_cb. wps.
  assert (socket_open s c = true) as Ho.
  { apply not_false_is_true. intros Ho. destruct s; cbn in *;
      [rewrite (mi_cwatch _ _ _ Hinv Ho) in Hact|rewrite (mi_swatch _ _ _ Hinv Ho) in Hact]; done. }
  assert (ready s c) as Hr.
  { unfold ready. destruct (state c) eqn:Hst; try done.
    split; [|by apply (to_payload _ _ Hto)]. destruct s; [done|]. unfold socket_open, server_socket_open in Ho.
    by rewrite Hst in Ho. }
  eapply wp_mono; [by apply receive_run|]. cbv beta. intros r c1 t1 (Hinv1 & Hr1 & Hsend). wps.
  eapply wp_mono; [apply transmit_run; [exact Hinv1|exact Hr1|]|].
  { destruct Hsend as [?|[? ->]]; [by left|right]. split; [done|]. apply Hto. }
  cbv beta. intros _ c2 t2 [Hinv2 Hr2]. wps.
  eapply wp_mono; [by apply advance_run|]. cbv beta. intros _ c3 t3 [Hinv3 Hr3]. wps.
  eapply wp_mono; [by apply close_flushed_run|]. cbv beta. intros _ c4 t4 [Hinv4 Hend]. wps.
  case_bool_decide; [by wps|]. destruct Hend as [?|Hend]; [done|]. wps.
  eapply wp_mono; [by apply reactivate_run|]. cbv beta. intros _ c5 t5 (-> & Hinv5 & Hl & ->). wps.
  split; [apply Hinv5|]. split_and!; [done|done|apply readjusted_watching].
Qed.

Lemma conn_inv_query hdr c t q :
  conn_inv hdr c t → state c ≠ RESOLVING → conn_inv hdr (set_query q c) t.
Proof. intros [[] ?] ?. split; [constructor|]; done. Qed.

Lemma resolv_cb_run hdr cb_address result c t :
  conn_inv hdr c t → address_wf cb_address → answer_ok result →
  wp (resolv_cb inet_ntop have_transparent e cb_address result)
    (λ _ c' t', conn_inv hdr c' t' ∧ (state c = RESOLVING →
       (state c' = SERVER_CLOSED ∨ state c' = CONNECTED) ∧ some_live c' = true ∧ watching c')) c t.
Proof.
  intros Hinv Hcb Hans. unfold resolv_cb. wps.
  case_bool_decide as Hst; cbn [negb].
  2: { wps. split; [|done]. split; [apply mid_inv_silent; [text_ok|apply Hinv]|apply Hinv]. }
  assert (before_server c) as Hb by (unfold before_server; by rewrite Hst).
  apply wp_bind. apply wp_mono with (P := λ _, moved hdr (λ c', state c' = CONNECTED)).
  { destruct result as [a|]; [|apply abort_said; [apply Hinv|done|text_ok]].
    destruct (Hans a eq_refl) as [Hwf Hsa]. wps.
    apply wp_assert; [cbn; by rewrite Hsa|]. wps.
    eapply wp_lift; [by apply address_port_wf|]. wps.
    destruct (address_set_port_wf a (port_value cb_address) Hwf (port_value_range _ Hcb))
      as (d & Hd & Hdwf & _). eapply wp_lift; [exact Hd|]. wps.
    eapply wp_mono; [apply store_addr_run; [apply Hinv|done|done]|].
    cbv beta. intros _ c1 t1 (-> & Hinv1 & Hst1 & Hh1 & _). wps. apply initiate_run; [|done].
    apply (mid_inv_control hdr c1); try done; [|by left]. unfold before_server. by rewrite Hst1, Hst. }
  intros _ c1 t1 [Hinv1 Hc1]. wps.
  assert (conn_inv hdr (set_query None c1) t1) as Hinv2.
  { apply conn_inv_query; [split; [done|]; destruct Hc1 as [[-> ?]| ->]; done|].
    destruct Hc1 as [[-> ?]| ->]; done. }
  eapply wp_mono; [by apply reactivate_run|]. cbv beta. intros _ c' t' (-> & Hinv' & Hl & ->).
  split; [done|]. intros _. split; [|split; [done|apply readjusted_watching]]. rewrite !readjusted_state. cbn. destruct Hc1 as [[-> _]| ->]; auto.
Qed.

End handlers.

(** * The PROXY header *)

Section proxy_header.
Context (inet_pton : Z → list Z → option (list Z)) (inet_ntop : Z → list Z → list Z).
Context `{!InetText inet_pton inet_ntop}.

(** The line of version 1 of the PROXY protocol for a connection between two addresses
    of a family. *)
Definition proxy_endpoints (family : Z) (src dst : list Z) (sport dport : Z) : list Z :=
  inet_ntop family src ++ [32] ++ inet_ntop family dst ++ [32] ++ decimal sport ++ [32] ++ decimal dport.

Definition proxy_line (family : Z) (addr local : list Z) (sport dport : Z) : list Z :=
  bytes "PROXY " ++
  (if family =? AF_INET then
     bytes "TCP4 " ++ proxy_endpoints AF_INET (slice addr 4 4) (slice local 4 4) sport dport
   else if family =? AF_INET6 then
     bytes "TCP6 " ++ proxy_endpoints AF_INET6 (slice addr 8 16) (slice local 8 16) sport dport
   else bytes "UNKNOWN") ++ [CR; LF].

(** A buffer that was only written to. *)
Definition unread (b : Buffer) : Prop := buf_ok b ∧ buffer_bytes b ∧ Buffer.head b = 0.

(** [c] is [c0] after the bytes [bs] were put into its empty client buffer. *)
Record pushed (bs : list Z) (c0 c : Connection) : Prop := {
  pd_unread : unread (cbuf c);
  pd_contents : contents (cbuf c) = bs;
  pd_rest : c = set_header_len (Zlen bs) (set_side true (set_buffer (cbuf c) (client c0)) c0)
}.

Lemma pushed_addr bs c0 c :
  pushed bs c0 c → paddr (client c) = paddr (client c0) ∧ plocal (client c) = plocal (client c0) ∧
  header_len c = Zlen bs.
Proof. intros [_ _ ->]. done. Qed.

Lemma push_header_run acc bs c0 c t (Q : unit → Connection → list io → Prop) :
  pushed acc c0 c → 0 < Zlen bs → Zlen acc + Zlen bs ≤ 4096 → Forall is_byte bs →
  (∀ c', pushed (acc ++ bs) c0 c' → Q () c' t) → wp (push_header bs) Q c t.
Proof.
  intros Hp Hpos Hroom Hby HQ. destruct (pushed_addr _ _ _ Hp) as (_ & _ & Hh).
  pose proof Hp as [([Hwf Hm] & Hb & H0) Hc Hrest].
  pose proof (Zlen_contents _ Hwf) as Hl. rewrite Hc in Hl.
  destruct (buffer_push_fits (cbuf c) bs (Zlen bs)) as (Hpush & Hwf' & Hc' & Hl' & Hm' & _); [done|lia|lia|].
  assert (Buffer.head (appended (rewind (cbuf c)) (slice bs 0 (Zlen bs))) = 0) as Hh0.
  { cbn. unfold rewind. by destruct (len (cbuf c) =? 0). }
  pose proof (buffer_push_bytes _ _ _ _ _ Hb Hby Hpush) as Hb'.
  set (b := appended _ _) in *. clearbody b. rewrite slice_all in *.
  unfold push_header. wps. eapply wp_lift; [exact Hpush|]. wps. apply HQ.
  pose proof (Zlen_nonneg acc). constructor.
  - split; [split; [done|cbn; congruence]|done].
  - cbn. by rewrite Hc', Hc.
  - cbn. rewrite Hh, size_t_small, Zlen_app by lia. rewrite Hrest. done.
Qed.

Lemma bytes_byte s : Forall is_byte (bytes s).
Proof.
  unfold bytes. apply Forall_fmap, Forall_true. intros a. unfold is_byte; cbn.
  pose proof (Ascii.N_ascii_bounded a). lia.
Qed.

Lemma decimal_text n : 0 ≤ n < 65536 → 0 < Zlen (decimal n) ≤ 5 ∧ Forall is_byte (decimal n).
Proof.
  intros Hn. destruct (decimal_digits n) as [Hd Hne]; [lia|]. apply nonempty_Zlen in Hne.
  pose proof (decimal_length_u16 n Hn). split; [lia|].
  eapply Forall_impl; [exact Hd|]. cbn. intros c Hc. unfold isdigit in Hc. unfold is_byte. lia.
Qed.

Lemma ntop_text family ip :
  family = AF_INET ∧ Zlen ip = 4 ∨ family = AF_INET6 ∧ Zlen ip = 16 → Forall is_byte ip →
  0 < Zlen (inet_ntop family ip) < 46 ∧ Forall is_byte (inet_ntop family ip).
Proof.
  assert (∀ p l, (∀ c, p c = true → is_byte c) → forallb p l = true → Forall is_byte l) as Hall.
  { intros p l Hp Hl. rewrite forallb_forall in Hl. apply Forall_forall. intros c Hc%list_elem_of_In. auto. }
  intros [[-> Hl]|[-> Hl]] Hb.
  - pose proof (pton_ntop_in ip Hl Hb) as Hp. pose proof (pton_in_nonempty _ _ Hp) as Hne%nonempty_Zlen.
    pose proof (ntop_in_length ip Hl). split; [done|]. eapply (Hall ip4_char); [|by eapply pton_in_chars].
    intros c Hc. unfold ip4_char, isdigit, is_byte in *. lia.
  - pose proof (pton_ntop_in6 ip Hl Hb) as Hp. destruct (pton_in6_colons _ _ Hp) as (x & y & z & Heq & _).
    pose proof (ntop_in6_length ip Hl). split.
    + split; [|done]. apply nonempty_Zlen. rewrite Heq. by destruct x.
    + eapply (Hall ip6_char); [|by eapply pton_in6_chars].
      intros c Hc. unfold ip6_char, isxdigit, isdigit, is_byte in *. lia.
Qed.

(** The addresses of the two ends of the client's socket. *)
Record ends_ok (c : Connection) : Prop := {
  en_addr : Zlen (paddr (client c)) = 128 ∧ Forall is_byte (paddr (client c));
  en_local : Zlen (plocal (client c)) = 128 ∧ Forall is_byte (plocal (client c))
}.

Lemma sin_port_Ok sa : Zlen sa = 128 → Forall is_byte sa → ∃ p, sin_port sa = Ok p ∧ 0 ≤ p < 65536.
Proof.
  intros Hl Hb. unfold sin_port. destruct (load_Ok sa 2) as (x & Hx & _); [lia|].
  destruct (load_Ok sa 3) as (y & Hy & _); [lia|]. rewrite Hx, Hy. outcome_simpl.
  apply load_byte in Hx, Hy; [|done..]. unfold is_byte in *. eexists. split; [done|]. lia.
Qed.

Lemma snprintf_fits s : Zlen s ≤ 45 → snprintf INET6_ADDRSTRLEN s = s.
Proof. intros. unfold snprintf, Zlen in *. apply take_ge. unfold INET6_ADDRSTRLEN. lia. Qed.

(** Lengths of a few texts put together. *)
Ltac zlen_lia :=
  rewrite ?Zlen_app; change (Zlen [32]) with 1; change (Zlen [CR; LF]) with 2;
  change (Zlen (bytes "PROXY ")) with 6; change (Zlen (bytes "TCP4 ")) with 5;
  change (Zlen (bytes "TCP6 ")) with 5; lia.

Lemma push_addresses_run family off n acc c0 c t sport dport (Q : unit → Connection → list io → Prop) :
  family = AF_INET ∧ off = 4 ∧ n = 4 ∨ family = AF_INET6 ∧ off = 8 ∧ n = 16 →
  pushed acc c0 c → ends_ok c0 → Zlen acc ≤ 100 →
  sin_port (paddr (client c0)) = Ok sport → 0 ≤ sport < 65536 →
  sin_port (plocal (client c0)) = Ok dport → 0 ≤ dport < 65536 →
  (∀ c', pushed (acc ++ proxy_endpoints family (slice (paddr (client c0)) off n)
                   (slice (plocal (client c0)) off n) sport dport) c0 c' →
         Zlen (proxy_endpoints family (slice (paddr (client c0)) off n)
                   (slice (plocal (client c0)) off n) sport dport) ≤ 200 → Q () c' t) →
  wp (push_addresses inet_ntop family off n) Q c t.
Proof.
  intros Hf Hp [[Hla Hba] [Hll Hbl]] Hacc Hs Hsr Hd Hdr HQ.
  assert (0 ≤ off ∧ 0 ≤ n ∧ off + n ≤ 128) as Hoff by lia.
  assert (∀ sa, Zlen sa = 128 → Forall is_byte sa →
    0 < Zlen (inet_ntop family (slice sa off n)) < 46 ∧ Forall is_byte (inet_ntop family (slice sa off n))) as Htext.
  { intros sa Hl Hb. apply ntop_text; [|by apply slice_bytes].
    destruct Hf as [(-> & -> & ->)|(-> & -> & ->)]; [left|right]; (split; [done|]); apply Zlen_slice; lia. }
  destruct (Htext _ Hla Hba) as [Hsl Hsb]. destruct (Htext _ Hll Hbl) as [Hdl Hdb].
  destruct (decimal_text sport Hsr) as [Hspl Hspb]. destruct (decimal_text dport Hdr) as [Hdpl Hdpb].
  unfold proxy_endpoints in HQ. pose proof (Zlen_nonneg acc).
  assert (Forall is_byte [32]) as H32 by (by repeat constructor).
  destruct (pushed_addr _ _ _ Hp) as (Ha & Hlo & _).
  unfold push_addresses. wps. rewrite Ha, Hlo. eapply wp_lift; [apply load_range_Ok; lia|]. wps.
  eapply push_header_run; [exact Hp|lia|lia|done|]. intros c1 H1. wps.
  eapply push_header_run; [exact H1|done|zlen_lia|done|]. intros c2 H2. wps.
  eapply wp_lift; [apply load_range_Ok; lia|]. wps.
  eapply push_header_run; [exact H2|lia|zlen_lia|done|]. intros c3 H3. wps.
  eapply wp_lift; [exact Hs|]. wps. rewrite snprintf_fits by zlen_lia.
  eapply push_header_run; [exact H3|zlen_lia
    |zlen_lia|by apply Forall_app|]. intros c4 H4. wps.
  eapply wp_lift; [exact Hd|]. wps. rewrite snprintf_fits by zlen_lia.
  eapply push_header_run; [exact H4|zlen_lia
    |zlen_lia|by apply Forall_app|]. intros c5 H5.
  apply HQ; [by rewrite <- !app_assoc in *|]. zlen_lia.
Qed.

Lemma insert_header_run c t :
  unread (cbuf c) → contents (cbuf c) = [] → header_len c = 0 → ends_ok c →
  ∃ family sport dport,
    sa_family (paddr (client c)) = Ok family ∧ sin_port (paddr (client c)) = Ok sport ∧
    sin_port (plocal (client c)) = Ok dport ∧
    wp (insert_proxy_v1_header inet_ntop) (λ _ c' t', t' = t ∧
      pushed (proxy_line family (paddr (client c)) (plocal (client c)) sport dport) c c' ∧
      header_len c' < 4096) c t.
Proof.
  intros Hu Hc Hh Hends. pose proof Hends as [[Hla Hba] [Hll Hbl]].
  destruct (sa_family_Ok _ Hla) as (f & Hf). destruct (sin_port_Ok _ Hla Hba) as (sp & Hsp & Hspr).
  destruct (sin_port_Ok _ Hll Hbl) as (dp & Hdp & Hdpr). exists f, sp, dp. split_and!; [done..|].
  assert (pushed [] c c) as H0.
  { constructor; [done|done|]. change (Zlen []) with 0. rewrite <- Hh. by destruct c as [? [] ? ? ? ? ? ? ?]. }
  unfold insert_proxy_v1_header. wps.
  eapply push_header_run; [exact H0|done|done|apply bytes_byte|]. intros c1 H1. wps.
  destruct (pushed_addr _ _ _ H1) as (Ha & _ & _). rewrite Ha. eapply wp_lift; [exact Hf|]. wps.
  assert (∀ body c2 t2, pushed (bytes "PROXY " ++ body) c c2 → Zlen body ≤ 300 → t2 = t →
    wp (push_header [CR; LF]) (λ _ c' t', t' = t ∧ pushed (bytes "PROXY " ++ body ++ [CR; LF]) c c' ∧
      header_len c' < 4096) c2 t2) as Hend.
  { intros body c2 t2 H2 Hl ->. pose proof (Zlen_nonneg body).
    eapply push_header_run; [exact H2|done|zlen_lia
      |by repeat constructor|]. intros c3 H3. rewrite <- app_assoc in H3. split; [done|]. split; [done|].
    destruct (pushed_addr _ _ _ H3) as (_ & _ & ->). zlen_lia. }
  unfold proxy_line. destruct (Z.eqb_spec f AF_INET); [|destruct (Z.eqb_spec f AF_INET6)]; wps.
  - eapply push_header_run; [exact H1|done|done|apply bytes_byte|]. intros c2 H2. wps.
    eapply push_addresses_run; [by left|exact H2|done|done|done|done|done|done|]. intros c3 H3 Hl.
    apply Hend; [by rewrite <- !app_assoc in H3|zlen_lia|done].
  - eapply push_header_run; [exact H1|done|done|apply bytes_byte|]. intros c2 H2. wps.
    eapply push_addresses_run; [by right|exact H2|done|done|done|done|done|done|]. intros c3 H3 Hl.
    apply Hend; [by rewrite <- !app_assoc in H3|zlen_lia|done].
  - eapply push_header_run; [exact H1|done|done|apply bytes_byte|]. intros c2 H2. by apply Hend.
Qed.
End proxy_header.

(** * New connections *)

Section accept.
Context {pcre : Type} (e : env pcre).
Context (inet_pton : Z → list Z → option (list Z)) (inet_ntop : Z → list Z → list Z).
Context `{!InetText inet_pton inet_ntop}.

(** What [accept] and [getsockname] fill in is the 128 bytes of a [sockaddr_storage] with an
    address of a family a listener can have. *)
Record accept_ok (accepted : option (Z * list Z * Z)) : Prop := {
  ao_alloc m : alloc e 4096 = Some m → Zlen m = 4096 ∧ Forall is_byte m;
  ao_addr fd addr n : accepted = Some (fd, addr, n) → Zlen addr = 128 ∧ Forall is_byte addr ∧ displayable addr;
  ao_local l : sockname e = Some l → Zlen l = 128 ∧ Forall is_byte l ∧ displayable l;
  ao_table : table e ≠ None
}.

Lemma new_connection_spec accepted sa c :
  accept_ok accepted → new_connection e sa = Some c →
  unread (cbuf c) ∧ contents (cbuf c) = [] ∧ buf_ok (sbuf c) ∧ contents (sbuf c) = [] ∧
  c = mkConn NEW (mkPeer no_addr 128 no_addr (mkWatcher 0 false 0) (cbuf c))
        (mkPeer no_addr 128 no_addr (mkWatcher 0 false 0) (sbuf c)) None 0 0 None 0 false.
Proof.
  intros Hok. unfold new_connection. destruct sa; [|done]. cbn [negb].
  destruct (alloc e 4096) as [m|] eqn:Hm; [|done]. destruct (ao_alloc _ Hok m Hm) as [Hl Hb].
  destruct (new_buffer_wf 4096 (now e) m) as (b & Hnew & Hwf & Hc & _ & _ & Hh & Hmask & _); [lia|done|done|].
  rewrite Hnew. intros [= <-]. unfold unread, buf_ok. cbn. split_and!; try done.
  unfold new_buffer in Hnew. injection Hnew as <-. exact Hb.
Qed.

(** A connection that was just accepted, its header in place. *)
Lemma accept_conn_inv fd addr n local cb sb hdr :
  unread cb → contents cb = hdr → buf_ok sb → contents sb = [] → Zlen addr = 128 →
  displayable addr → Zlen local = 128 → displayable local → Zlen hdr < 4096 →
  conn_inv hdr (mkConn ACCEPTED (mkPeer addr n local (ev_io_start (ev_io_init fd EV_READ)) cb)
    (mkPeer no_addr 128 no_addr (mkWatcher 0 false 0) sb) None 0 (Zlen hdr) None (now e) false) [].
Proof.
  intros ([Hwf Hm] & Hb & Hh) Hc Hs Hsc Ha Hd1 Hll Hd2 Hl. pose proof (Zlen_contents _ Hwf) as Hlen. rewrite Hc in Hlen.
  split; [constructor|]; cbn -[no_addr]; try done; [| |lia].
  { split; [done|]. exists 0. split; [done|]. by right; right; left. }
  unfold pending. cbn. by rewrite Hc, app_nil_r.
Qed.

(** Whether some server reached through this listener may want the header. *)
Definition wants_header : bool :=
  match table e with
  | Some tb => tuse_proxy_header tb || fallback_use_proxy_header (listener e)
  | None => false
  end.

Lemma accept_run sa accepted :
  accept_ok accepted →
  ∃ o tr, accept_connection inet_ntop e sa accepted = Ok (o, tr) ∧
       (o = None → ∃ prio text, tr = [IoLog prio text] ∧ 0 ∉ text) ∧
       ∀ c, o = Some c → tr = [] ∧ conn_inv (contents (cbuf c)) c [] ∧
         state c = ACCEPTED ∧
         if wants_header then ∃ family sport dport,
            sa_family (paddr (client c)) = Ok family ∧ sin_port (paddr (client c)) = Ok sport ∧
            sin_port (plocal (client c)) = Ok dport ∧
            contents (cbuf c) = proxy_line inet_ntop family (paddr (client c)) (plocal (client c)) sport dport
         else contents (cbuf c) = [].
Proof.
  intros Hok. unfold accept_connection, wants_header.
  assert (∀ prio text, 0 ∉ text → ∃ prio' text', [IoLog prio text] = [IoLog prio' text'] ∧ 0 ∉ text') as Hsaid
    by (intros prio text ?; by exists prio, text).
  destruct (new_connection e sa) as [c|] eqn:Hnew.
  2: { eexists _, _. split; [done|]. split; [|done]. intros _. apply Hsaid. text_ok. }
  destruct (new_connection_spec _ _ _ Hok Hnew) as (Hu & Hc & Hs & Hsc & ->). clear Hnew.
  set (cb := cbuf c) in *. set (sb := sbuf c) in *. clearbody cb sb. clear c.
  destruct accepted as [[[fd addr] n]|] eqn:Hacc.
  2: { eexists _, _. split; [done|]. split; [|done]. intros _. apply Hsaid. text_ok. }
  destruct (ao_addr _ Hok fd addr n eq_refl) as (Hal & Hab & Hadisp).
  destruct (sockname e) as [local|] eqn:Hsn.
  2: { eexists _, _. split; [done|]. split; [|done]. intros _. apply Hsaid. text_ok. }
  destruct (ao_local _ Hok local Hsn) as (Hll & Hlb & Hldisp).
  destruct (table e) as [tb|] eqn:Htb; [|by destruct (ao_table _ Hok)]. cbn -[no_addr].
  destruct (tuse_proxy_header tb || fallback_use_proxy_header (listener e)).
  - set (c := mkConn ACCEPTED _ _ _ _ _ _ _ _).
    destruct (insert_header_run inet_pton inet_ntop c []) as (f & sp & dp & Hf & Hsp & Hdp & (x & c' & t' & Hrun & -> & Hp & Hhl));
      [done|done|done|by split|].
    rewrite Hrun. eexists _, _. split; [done|]. split; [done|]. intros c'' [= <-]. split; [done|].
    destruct (pushed_addr _ _ _ Hp) as (Ha & Hlo & Hh). rewrite Hh in Hhl.
    destruct Hp as [Hu' Hc' Hrest]. split; [|split; [by rewrite Hrest|]; exists f, sp, dp; rewrite Ha, Hlo; by rewrite Hc'].
    rewrite Hc' at 1. rewrite Hrest. by apply accept_conn_inv.
  - eexists _, _. split; [done|]. split; [done|]. intros c [= <-]. split; [done|]. split; [|done]. cbn -[no_addr]. rewrite Hc.
    by apply (accept_conn_inv fd addr n local cb sb []).
Qed.
End accept.

(** * Runs

    A connection from [accept_connection] on, through the callbacks of its two watchers and
    the answers of the resolver, in any order and with any listener and table at each
    callback; [hdr] is what the client buffer held when the connection was accepted. *)

Section run.
Context {pcre : Type}.
Context (pcre_exec : pcre → list Z → Z → Z * list Z).
Context (pcre_copy_substring : list Z → list Z → Z → Z → Z → Z * list Z).
Context (inet_pton : Z → list Z → option (list Z)) (inet_ntop : Z → list Z → list Z).
Context (have_libudns have_transparent : bool).
Context `{!InetText inet_pton inet_ntop}.

Abbreviation cb e s revents :=
  (connection_cb pcre_exec pcre_copy_substring inet_pton inet_ntop have_libudns have_transparent e s revents).

(** libev calls the callback of an active watcher. *)
Record callback_ok (e : env pcre) (s : bool) (c : Connection) : Prop := {
  co_env : env_ok e pcre_exec pcre_copy_substring inet_pton;
  co_active : wactive (watcher (side s c)) = true;
  co_transfers : transfers_ok e s c
}.

Inductive run : list Z → Connection → list io → Prop :=
  | run_accept (e : env pcre) sa accepted c t :
      accept_ok e accepted → accept_connection inet_ntop e sa accepted = Ok (Some c, t) →
      run (contents (cbuf c)) c t
  | run_callback hdr c t (e : env pcre) s revents c' t' :
      run hdr c t → callback_ok e s c → cb e s revents c t = Ok (false, c', t') → run hdr c' t'
  | run_answer hdr c t (e : env pcre) a result c' t' :
      run hdr c t → env_ok e pcre_exec pcre_copy_substring inet_pton → state c = RESOLVING →
      query_handle c = Some a → answer_ok result →
      resolv_cb inet_ntop have_transparent e a result c t = Ok ((), c', t') → run hdr c' t'.

Lemma run_inv hdr c t : run hdr c t → conn_inv hdr c t.
Proof.
  induction 1 as [e sa accepted c t Hok Hacc|hdr c t e s revents c' t' _ IH [] Hcb
                 |hdr c t e a result c' t' _ IH Henv Hst Hq Hans Hcb].
  - destruct (accept_run e inet_pton inet_ntop sa accepted Hok) as (o & tr & Heq & _ & Ho).
    rewrite Hacc in Heq. injection Heq as <- <-. destruct (Ho c eq_refl) as (-> & Hinv & _). exact Hinv.
  - destruct (connection_cb_run e inet_ntop pcre_exec pcre_copy_substring inet_pton have_libudns have_transparent
      co_env0 hdr s revents c t) as (freed & c1 & t1 & Heq & _ & H1); [done..|].
    rewrite Hcb in Heq. injection Heq as <- <- <-. apply H1.
  - destruct (mi_query _ _ _ (ci_mid _ _ _ IH) Hst) as (a' & Ha' & Hwf). rewrite Hq in Ha'. injection Ha' as <-.
    destruct (resolv_cb_run e inet_ntop pcre_exec pcre_copy_substring inet_pton have_transparent
      Henv hdr a result c t) as (x & c1 & t1 & Heq & H1 & _); [done..|].
    rewrite Hcb in Heq. injection Heq as _ <- <-. done.
Qed.

Lemma run_watching hdr c t : run hdr c t → watching c.
Proof.
  destruct 1 as [e sa accepted c t Hok Hacc|hdr c t e s revents c' t' Hrun [] Hcb
                 |hdr c t e a result c' t' Hrun Henv Hst Hq Hans Hcb].
  - destruct (accept_run e inet_pton inet_ntop sa accepted Hok) as (o & tr & Heq & _ & Ho).
    rewrite Hacc in Heq. injection Heq as <- <-. destruct (Ho c eq_refl) as (-> & [Hmid _] & Hst & _).
    pose proof (mi_traffic _ _ _ Hmid) as Ht. unfold traffic in Ht. rewrite Hst in Ht. destruct Ht as (_ & Hs & _).
    apply empty_contents in Hs; [|apply Hmid]. intros [] Hopen Hl; cbn in *; [lia|].
    unfold server_socket_open in Hopen. by rewrite Hst in Hopen.
  - destruct (connection_cb_run e inet_ntop pcre_exec pcre_copy_substring inet_pton have_libudns have_transparent
      co_env0 hdr s revents c t) as (freed & c1 & t1 & Heq & _ & H1); [by apply run_inv|done..|].
    rewrite Hcb in Heq. injection Heq as <- <- <-. apply H1.
  - apply run_inv in Hrun as IH. destruct (mi_query _ _ _ (ci_mid _ _ _ IH) Hst) as (a' & Ha' & Hwf).
    rewrite Hq in Ha'. injection Ha' as <-.
    destruct (resolv_cb_run e inet_ntop pcre_exec pcre_copy_substring inet_pton have_transparent
      Henv hdr a result c t) as (x & c1 & t1 & Heq & _ & H1); [done..|].
    rewrite Hcb in Heq. injection Heq as _ <- <-. by apply H1.
Qed.

(** In each direction, what was sent and what is buffered. *)
Lemma traffic_streams hdr c t :
  traffic hdr c t →
  let line := if cuse_proxy_header c then hdr else [] in
  (tx false t = [] ∨ tx false t ++ contents (cbuf c) = line ++ rx true t) ∧
  (server_socket_open c = true → tx false t ++ contents (cbuf c) = line ++ rx true t) ∧
  (tx true t ++ contents (sbuf c) = rx false t ∨
   tx false t = [] ∧ rx false t = [] ∧ ∃ p, tx true t ++ contents (sbuf c) = abort_message (protocol_of p)).
Proof.
  intros Ht line.
  assert (relayed hdr c t ∨ server_socket_open c = false ∧ (pending hdr c t ∨ aborted c t)) as Hcase.
  { unfold traffic, server_socket_open in *. destruct (state c); tauto. }
  destruct Hcase as [[Hc Hs]|[Ho [(_ & Hs & Htx & Htx' & Hrx)|([p Hp] & Htx & Hrx)]]].
  - split_and!; [by right|done|by left].
  - rewrite Ho. split_and!; [by left|done|left]. by rewrite Htx, Hs, Hrx.
  - rewrite Ho. split_and!; [by left|done|right]. split_and!; [done|done|by exists p].
Qed.

(** * Properties *)


(** C1: what the peers see.  After every callback, also the one that frees the connection, the
    bytes sent to the server followed by those still buffered for it are the PROXY line (if
    the backend wants it) followed by what the client sent: nothing is lost, added or
    reordered; before a server is connected, nothing is sent to it.  The client gets exactly
    what the server sent, or else, if the connection was aborted, the abort message of a
    protocol. *)
Theorem relay_integrity hdr c t e s revents freed c' t' :
  run hdr c t → callback_ok e s c → cb e s revents c t = Ok (freed, c', t') →
  let line := if cuse_proxy_header c' then hdr else [] in
  (tx false t' = [] ∨ tx false t' ++ contents (cbuf c') = line ++ rx true t') ∧
  (server_socket_open c' = true → tx false t' ++ contents (cbuf c') = line ++ rx true t') ∧
  (tx true t' ++ contents (sbuf c') = rx false t' ∨
   tx false t' = [] ∧ rx false t' = [] ∧
     ∃ p, tx true t' ++ contents (sbuf c') = abort_message (protocol_of p)).
Proof.
  intros Hinv%run_inv [] Hcb.
  destruct (connection_cb_run e inet_ntop pcre_exec pcre_copy_substring inet_pton have_libudns have_transparent
    co_env0 hdr s revents c t) as (f & c1 & t1 & Heq & Hmid & _); [done..|].
  rewrite Hcb in Heq. injection Heq as <- <- <-. apply traffic_streams, Hmid.
Qed.

(** C32: an accepted connection starts with the line of version 1 of the PROXY protocol that
    names the two ends of the client's socket when the table or the fallback of the listener
    asks for the header, and with an empty buffer when none does; [header_len] is the length
    of what the buffer holds.  A connection that cannot be set up leaves a message. *)
Theorem accept_proxy_header (e : env pcre) sa accepted :
  accept_ok e accepted →
  ∃ o t, accept_connection inet_ntop e sa accepted = Ok (o, t) ∧
    (o = None → ∃ prio text, t = [IoLog prio text]) ∧
    ∀ c, o = Some c → t = [] ∧ state c = ACCEPTED ∧ header_len c = Zlen (contents (cbuf c)) ∧
      if wants_header e then ∃ family sport dport,
         sa_family (paddr (client c)) = Ok family ∧ sin_port (paddr (client c)) = Ok sport ∧
         sin_port (plocal (client c)) = Ok dport ∧
         contents (cbuf c) = proxy_line inet_ntop family (paddr (client c)) (plocal (client c)) sport dport
      else contents (cbuf c) = [].
Proof.
  intros Hok. destruct (accept_run e inet_pton inet_ntop sa accepted Hok) as (o & t & Heq & Hn & Ho).
  exists o, t. split; [done|]. split; [intros (prio & text & ? & _)%Hn; by exists prio, text|].
  intros c Hc. destruct (Ho c Hc) as (Ht & Hinv & Hst & Hline).
  destruct (mi_hdr _ _ _ (ci_mid _ _ _ Hinv)) as [Hl _]. done.
Qed.

(** When [resolv_query] cannot start a query it returns NULL, and the connection
    nevertheless waits in RESOLVING: if the client then closes its socket, the callback hands
    NULL to [resolv_cancel]. *)
Theorem failed_query_crashes c t (e e' : env pcre) tb r a revents :
  buf_ok (cbuf c) → len (cbuf c) < 4096 → Zlen (paddr (client c)) = 128 →
  table e = Some tb →
  listener_lookup_server_address inet_pton (malloc_of e) pcre_exec pcre_copy_substring
    (listener e) tb (scratch e) (hostname c) (hostname_len c) = Ok r →
  raddress r = Some a → type a = HOSTNAME →
  have_libudns = true → malloc_of e 32 = true → query_ok e = false → transparent_proxy (listener e) = false →
  recv_ret_of e' = Received [] → Z.land revents EV_READ ≠ 0 →
  ∃ c' t', resolve_server_address pcre_exec pcre_copy_substring inet_pton inet_ntop have_libudns e c t = Ok ((), c', t') ∧
    state c' = RESOLVING ∧ cb e' true revents c' t' = Fault NullDereference.
Proof.
  intros Hb Hroom Haddr Htb Hr Ha Hta Hlib Hm Hq Htp Hrecv Hrev.
  destruct (sa_family_Ok _ Haddr) as (f & Hf).
  unfold resolve_server_address, mbind, M_bind, get, lift. rewrite Htb, Hr, Ha.
  unfold address_is_hostname, address_is. rewrite bool_decide_true, Hlib, Hm, Hf, Hq by done. cbn [negb].
  unfold resolv_mode. rewrite Htp.
  eexists _, _. split; [done|]. split; [done|].
  unfold connection_cb, receive, mbind, M_bind, get, lift. cbn [side client set_state set_query set_use_proxy].
  rewrite (proj2 (Z.eqb_neq _ _) Hrev), buf_ok_room, (proj2 (Z.eqb_neq (4096 - len (cbuf c)) 0)) by (done || lia).
  cbn [negb andb]. destruct Hb as [Hwf Hmask]. destruct (wf_len _ Hwf).
  destruct (buffer_recv_Ok (cbuf c) (recv_ret_of e') (now e') Hwf) as (b & -> & _).
  { rewrite Hrecv. unfold recv_fits. cbn. change (Zlen []) with 0. lia. }
  rewrite Hrecv. unfold close_socket, close_client_socket, close_fd, mbind, M_bind. by destruct (close_err (errors e') true).
Qed.

(** C33: a client can abort the program: a request that names "*", or a name with a dollar sign,
    on a listener whose table sends it to a wildcard entry, makes the lookup return an
    address the connection cannot use, and the assertion for that case fails. *)
Theorem wildcard_name_aborts c t (e : env pcre) tb la s z tr entry :
  (∀ n, malloc_of e n = true) → table e = Some tb →
  laddress (listener e) = Some la → address_wf la →
  hostname c = Some (s ++ 0 :: z) → hostname_len c = Zlen s →
  table_lookup_server_address pcre_exec tb (Some (s ++ 0 :: z)) (Zlen s) = Ok tr →
  raddress tr = Some entry → type entry = WILDCARD → 0 ∉ s → 58 ∉ s → s = bytes "*" ∨ 36 ∈ s →
  resolve_server_address pcre_exec pcre_copy_substring inet_pton inet_ntop have_libudns e c t = Fault AssertionFailed.
Proof.
  intros Hm Htb Hla Hlawf Hh Hn Htr He Hte H0 H58 Hs.
  destruct (wildcard_request_unusable inet_pton inet_ntop (malloc_of e) pcre_exec pcre_copy_substring
    (listener e) la tb (scratch e) s z tr entry) as (r & a & Hr & Ha & Hta); try done.
  unfold resolve_server_address, mbind, M_bind, get, lift. rewrite Htb, Hh, Hn, Hr, Ha.
  unfold address_is_hostname, address_is_sockaddr, address_is.
  rewrite !bool_decide_false by (destruct Hta; congruence). done.
Qed.
End run.

(** * Witnesses *)

(** No call of [close] fails. *)
Definition ex_errors : sys_errors := mkErrors (λ _, bytes "Bad file descriptor") (λ _, None).

(** A listener without table entries whose fallback is a fixed address; its table asks for
    the PROXY header, its fallback does not. *)
Definition ex_env (r : recv_result) (q : bool) (t : Table (list Z)) : env (list Z) :=
  mkEnv _ 7 r (Sent 0) (λ n, Some (replicate (Z.to_nat n) 0)) (ex_listener 443) (Some t)
    (replicate 1024 0) q 5 0 (λ _, (0, 0)) (-1, EINPROGRESS) (Some (sockaddr_in [10; 0; 0; 2]))
    ex_errors 0 None.

Definition ex_table : Table (list Z) := mkTable None true 1 [].
Definition ex_accepted : option (Z * list Z * Z) := Some (4, sockaddr_in [10; 0; 0; 1], 16).
Definition ex_data : recv_result := Received (bytes "GET / HTTP/1.1").

Definition ex_conn : Connection :=
  match accept_connection fixed_ntop (ex_env ex_data true ex_table) true ex_accepted with
  | Ok (Some c, _) => c
  | _ => mkConn NEW (mkPeer [] 0 [] (mkWatcher 0 false 0) (mkBuffer [] 0 0 0 0 0 0 0))
           (mkPeer [] 0 [] (mkWatcher 0 false 0) (mkBuffer [] 0 0 0 0 0 0 0)) None 0 0 None 0 false
  end.

Lemma ex_alloc r q t n m :
  0 ≤ n → alloc (ex_env r q t) n = Some m → Zlen m = n ∧ Forall is_byte m.
Proof.
  intros Hn [= <-]. split; [unfold Zlen; rewrite length_replicate; lia|by apply Forall_replicate].
Qed.

Lemma ex_accept_ok : accept_ok (ex_env ex_data true ex_table) ex_accepted.
Proof.
  split.
  - intros m Hm. eapply ex_alloc; [|exact Hm]. lia.
  - intros fd addr n [= _ <- _]. split; [done|]. split; [by repeat constructor|]. eexists. split; [done|by left].
  - intros l [= <-]. split; [done|]. split; [by repeat constructor|]. eexists. split; [done|by left].
  - done.
Qed.

Lemma ex_accepted_run : run prefix_exec vector_copy fixed_pton fixed_ntop true true (contents (cbuf ex_conn)) ex_conn [].
Proof. apply (run_accept _ _ _ _ _ _ _ true _ _ _ ex_accept_ok). vm_compute. reflexivity. Qed.

Lemma ex_routes_usable r q t :
  fixed_routes t →
  ∀ result h, parse_result_ok (result, h) →
    yields (listener_lookup_server_address fixed_pton (malloc_of (ex_env r q t)) prefix_exec vector_copy
      (ex_listener 443) t (scratch (ex_env r q t)) h (size_t result)) (λ r, ∀ a, raddress r = Some a → usable a).
Proof.
  intros Ht result h _. eapply lookup_fixed_routes; [done|done|by apply ex_in_wf| |done].
  intros a [= <-]. split; [by apply ex_in_wf|by right].
Qed.

Lemma ex_env_ok r : env_ok (ex_env r true ex_table) prefix_exec vector_copy fixed_pton.
Proof.
  split.
  - apply ex_alloc.
  - eexists. split; [done|]. apply ex_routes_usable. by constructor.
  - done.
  - done.
  - done.
Qed.

Lemma ex_callback_ok :
  callback_ok prefix_exec vector_copy fixed_pton (ex_env ex_data true ex_table) true ex_conn.
Proof.
  split; [apply ex_env_ok|by vm_compute|]. split.
  - by vm_compute.
  - by repeat constructor.
  - by vm_compute.
  - intros _. by split; [left|right]; vm_compute.
Qed.

Abbreviation ex_cb e revents c :=
  (connection_cb prefix_exec vector_copy fixed_pton fixed_ntop true true e true revents c []).


(** The callback connects to the fallback and has taken the header out. *)
Definition ex_next : Connection * list io :=
  match ex_cb (ex_env ex_data true ex_table) EV_READ ex_conn with
  | Ok (_, c, t) => (c, t)
  | _ => (ex_conn, [])
  end.

Lemma relay_integrity_witness :
  state ex_next.1 = CONNECTED ∧ rx true ex_next.2 = bytes "GET / HTTP/1.1" ∧
  tx false ex_next.2 ++ contents (cbuf ex_next.1) = rx true ex_next.2.
Proof.
  assert (ex_cb (ex_env ex_data true ex_table) EV_READ ex_conn = Ok (false, ex_next.1, ex_next.2)) as Heq
    by (vm_compute; reflexivity).
  destruct (relay_integrity prefix_exec vector_copy fixed_pton fixed_ntop true true
    (contents (cbuf ex_conn)) ex_conn [] _ true EV_READ false _ _ ex_accepted_run ex_callback_ok Heq) as (_ & Hs & _).
  split; [vm_compute; reflexivity|]. split; [vm_compute; reflexivity|].
  assert (server_socket_open ex_next.1 = true) as Ho by (vm_compute; reflexivity). specialize (Hs Ho).
  assert (cuse_proxy_header ex_next.1 = false) as Hp by (vm_compute; reflexivity). rewrite Hp in Hs. exact Hs.
Defined.

Lemma accept_proxy_header_witness :
  contents (cbuf ex_conn) = bytes "PROXY TCP4 010000000001 010000000002 0 0" ++ [CR; LF] ∧
  header_len ex_conn = Zlen (contents (cbuf ex_conn)).
Proof.
  destruct (accept_proxy_header fixed_pton fixed_ntop (ex_env ex_data true ex_table) true
    ex_accepted ex_accept_ok) as (o & t & Heq & _ & Ho).
  assert (o = Some ex_conn) as ->.
  { assert (accept_connection fixed_ntop (ex_env ex_data true ex_table) true ex_accepted = Ok (Some ex_conn, []))
      as H by (vm_compute; reflexivity). rewrite H in Heq. by injection Heq. }
  destruct (Ho ex_conn eq_refl) as (_ & _ & Hl & _). split; [vm_compute; reflexivity|exact Hl].
Defined.

(** A client that was accepted and has asked for [s]. *)
Definition ex_parsed (s : list Z) : Connection :=
  set_state PARSED (set_hostname (Some (s ++ [0])) (Zlen s) ex_conn).

Definition ex_hosts : Table (list Z) :=
  mkTable None false 1
    [mkBackend (Some []) (Some (mkAddress HOSTNAME 11 443 (bytes "example.com" ++ [0]))) false (Some [])].

Lemma failed_query_crashes_witness :
  ∃ c' t', resolve_server_address prefix_exec vector_copy fixed_pton fixed_ntop true (ex_env ex_data false ex_hosts)
      (ex_parsed (bytes "example.com")) [] = Ok ((), c', t') ∧
    state c' = RESOLVING ∧
    connection_cb prefix_exec vector_copy fixed_pton fixed_ntop true true (ex_env (Received []) true ex_hosts)
      true EV_READ c' t' = Fault NullDereference.
Proof.
  eapply (failed_query_crashes prefix_exec vector_copy fixed_pton fixed_ntop true true
    (ex_parsed (bytes "example.com")) [] (ex_env ex_data false ex_hosts) (ex_env (Received []) true ex_hosts) ex_hosts
    (mkLookupResult (Some (mkAddress HOSTNAME 11 443 (bytes "example.com" ++ [0]))) false false
       (prefix_exec [] (bytes "example.com") 11))).
  - apply (mi_cbuf _ _ _ (ci_mid _ _ _ (run_inv _ _ _ _ _ _ _ _ _ ex_accepted_run))).
  - vm_compute. reflexivity.
  - vm_compute. reflexivity.
  - reflexivity.
  - vm_compute. reflexivity.
  - reflexivity.
  - reflexivity.
  - reflexivity.
  - vm_compute. reflexivity.
  - reflexivity.
  - reflexivity.
  - reflexivity.
  - done.
Defined.

Lemma wildcard_name_aborts_witness :
  resolve_server_address prefix_exec vector_copy fixed_pton fixed_ntop true (ex_env ex_data true ex_routes)
    (ex_parsed (bytes "*")) [] = Fault AssertionFailed.
Proof.
  apply (wildcard_name_aborts prefix_exec vector_copy fixed_pton fixed_ntop true
    (ex_parsed (bytes "*")) [] (ex_env ex_data true ex_routes) ex_routes (ex_in 443) (bytes "*") []
    (mkLookupResult (Some (mkAddress WILDCARD 0 0 [])) false false (prefix_exec [] (bytes "*") 1))
    (mkAddress WILDCARD 0 0 [])).
  - done.
  - reflexivity.
  - reflexivity.
  - by apply ex_in_wf.
  - reflexivity.
  - reflexivity.
  - vm_compute. reflexivity.
  - reflexivity.
  - reflexivity.
  - apply (bool_decide_unpack _). by vm_compute.
  - apply (bool_decide_unpack _). by vm_compute.
  - by left.
Defined.
