(* ===== verification/Forward.v ===== *)
(** The whole path of a request through src/tls.c or src/http.c, src/buffer.c, src/table.c,
    src/backend.c, src/listener.c and src/connection.c: what one callback does with the last
    bytes of a request whose name the table sends to a socket address. *)

From S2P Require Import Prelude CString Protocol RefCount Buffer Tls Http Address Resolv Backend Table Listener Logger BadRequest Connection Relay.
From stdpp Require Import list gmap.

#[local] Open Scope Z_scope.

(** * Requests

    The complete requests of each protocol that name a host. *)

Inductive names_host : protocol_ptr → list Z → list Z → Prop :=
  | names_tls ch rest :
      client_hello_ok ch → 0 ∉ ch_host ch →
      names_host tls_protocol_ptr (Tls.encode ch ++ rest) (ch_host ch)
  | names_http l0 hs f rest name :
      line l0 → Forall (other_header (bytes "Host:")) hs → line f →
      is_field (bytes "Host:") f = true → 0 ∉ f →
      port_stripped (field_value (bytes "Host:") f) name →
      names_host http_protocol_ptr (l0 ++ crlf ++ with_headers hs (f ++ crlf ++ rest)) name.

(** The parser of the protocol finds that name, whatever lies behind the request in memory. *)
Lemma request_parsed p malloc data junk name :
  names_host p data name → (∀ n, malloc n = true) →
  Forall is_byte (data ++ junk) → Zlen (data ++ junk) < 2 ^ 31 →
  ∃ z, parse_packet (protocol_of p) malloc (data ++ junk) (Zlen data) true =
       Ok (Zlen name, Some (name ++ 0 :: z)).
Proof.
  intros Hreq Hm Hb Hmax. destruct Hreq as [ch rest Hok Hnul|l0 hs f rest name ? ? ? ? ? ?]; cbn [protocol_of].
  - pose proof (Zlen_nonneg (Tls.encode ch ++ rest)).
    destruct (parse_tls_header_spec malloc ((Tls.encode ch ++ rest) ++ junk) (Zlen (Tls.encode ch ++ rest)) Hb) as (v & Hv & Heq).
    { rewrite (Zlen_app (Tls.encode ch ++ rest)). pose proof (Zlen_nonneg junk). lia. }
    rewrite slice_app_l, slice_all in Hv by lia.
    rewrite (hello_verdict_det _ _ _ Hv (hello_verdict_encode ch rest Hok)) in Heq. cbn [report] in Heq.
    rewrite Hm, nul_padded_no_nul in Heq by done. by exists [].
  - by apply host_header_parsed.
Qed.

Lemma Zlen_drop_le {A} n (l : list A) : Zlen (drop n l) ≤ Zlen l.
Proof. unfold Zlen. rewrite length_drop. lia. Qed.

Lemma drop_blanks_le l : Zlen (drop_blanks l) ≤ Zlen l.
Proof.
  induction l as [|c l IH]; [done|]. cbn [drop_blanks]. destruct (isblank c); rewrite ?Zlen_cons in *; lia.
Qed.

Lemma name_length p data name : names_host p data name → Zlen name ≤ Zlen data.
Proof.
  destruct 1 as [ch rest Hok _|l0 hs f rest name _ _ _ _ _ Hp].
  - destruct (hello_verdict_occurs _ _ (hello_verdict_encode ch rest Hok)) as (pre & post & ->).
    rewrite !Zlen_app. pose proof (Zlen_nonneg pre). pose proof (Zlen_nonneg post). lia.
  - assert (Zlen name ≤ Zlen (field_value (bytes "Host:") f)) as Hn.
    { destruct Hp as [name ds|]; [|done]. rewrite Zlen_app. pose proof (Zlen_nonneg (58 :: ds)). lia. }
    rewrite with_headers_app, !Zlen_app. unfold field_value in Hn.
    pose proof (drop_blanks_le (drop (length (bytes "Host:")) f)). pose proof (Zlen_drop_le (length (bytes "Host:")) f).
    pose proof (Zlen_nonneg l0). pose proof (Zlen_nonneg crlf). pose proof (Zlen_nonneg (with_headers hs [])).
    pose proof (Zlen_nonneg rest). lia.
Qed.

(** * Two runs of one handler *)

Lemma wp_combine {A} (m : M A) P Q R c t :
  wp m P c t → wp m Q c t → (∀ a c t, P a c t → Q a c t → R a c t) → wp m R c t.
Proof.
  intros (a & c1 & t1 & Hm & HP) (a' & c2 & t2 & Hm' & HQ) HR. rewrite Hm in Hm'. injection Hm' as <- <- <-.
  exists a, c1, t1. auto.
Qed.

Section forward.
Context {pcre : Type} (e : env pcre).
Context (pcre_exec : pcre → list Z → Z → Z * list Z).
Context (pcre_copy_substring : list Z → list Z → Z → Z → Z → Z * list Z).
Context (inet_pton : Z → list Z → option (list Z)) (inet_ntop : Z → list Z → list Z).
Context (have_libudns have_transparent : bool).
Context `{!InetText inet_pton inet_ntop}.

(** * The entry of the table

    [b] is the first entry whose expression matches the name; the expressions only look at
    the name, not at what lies behind it in memory. *)

Definition first_match (tb : Table pcre) (name : list Z) (b : Backend pcre) : Prop :=
  ∃ pre post, backends tb = pre ++ b :: post ∧ Forall initialised pre ∧
    ∀ z, Forall (λ b, ¬ accepts pcre_exec (name ++ 0 :: z) (Zlen name) b) pre ∧
         accepts pcre_exec (name ++ 0 :: z) (Zlen name) b.

(** The address of an entry, with the port of the listener if it has none. *)
Definition target (la entry : Address) : outcome Address :=
  if port_value entry =? 0 then address_set_port entry (port_value la) else Ok entry.

Lemma lookup_loop_first pre b post name n m :
  Forall initialised pre → Forall (λ b, ¬ accepts pcre_exec name n b) pre → accepts pcre_exec name n b →
  ∃ m', lookup_loop pcre_exec (pre ++ b :: post) name n m = Ok (mkLookup (Some b) m').
Proof.
  intros Hi Hn (re & Hre & Hm). revert m. induction Hi as [|x pre [rx Hx] Hi IH]; intros m; cbn [app lookup_loop].
  - rewrite Hre. cbn. rewrite (proj2 (Z.leb_le _ _)) by done. by eexists.
  - rewrite Hx. apply Forall_cons in Hn as [Hnx Hn]. cbn. destruct (Z.leb_spec 0 (pcre_exec rx name n).1); [|by apply IH].
    by destruct Hnx; exists rx.
Qed.

Lemma lookup_target tb name z b entry la :
  first_match tb name b → address b = Some entry → address_wf entry → type entry = SOCKADDR →
  laddress (listener e) = Some la → address_wf la → (∀ n, malloc_of e n = true) →
  ∃ a r, listener_lookup_server_address inet_pton (malloc_of e) pcre_exec pcre_copy_substring
           (listener e) tb (scratch e) (Some (name ++ 0 :: z)) (Zlen name) = Ok r ∧
         raddress r = Some a ∧ ruse_proxy_header r = use_proxy_header b ∧
         target la entry = Ok a ∧ address_wf a ∧ type a = SOCKADDR.
Proof.
  intros (pre & post & Htb & Hi & Hacc) Hb Hwf Hsa Hla Hlawf Hm. destruct (Hacc z) as [Hn Ha].
  destruct (lookup_loop_first pre b post (name ++ 0 :: z) (Zlen name) (-1, []) Hi Hn Ha) as (m & Hl).
  unfold listener_lookup_server_address, table_lookup_server_address, lookup_backend. rewrite Htb, Hl. outcome_simpl.
  cbn [backend]. outcome_simpl. cbn [raddress]. rewrite Hb. unfold address_is_pattern, address_is_wildcard, address_is.
  rewrite !bool_decide_false by congruence. rewrite address_port_wf by done. outcome_simpl.
  fold (port_value entry). unfold target. destruct (port_value entry =? 0); [|by eexists _, _].
  rewrite copy_address_wf by (done || by apply wf_small; [|congruence]). rewrite Hm. outcome_simpl.
  rewrite (port_of_wf _ la) by done. outcome_simpl.
  destruct (address_set_port_wf entry (port_value la) Hwf (port_value_range la Hlawf)) as (d & -> & Hd & _).
  outcome_simpl. eexists _, _. split; [done|]. done.
Qed.

(** * The handlers on that path *)

Lemma received_run hdr c t revents bs :
  conn_inv hdr c t → state c = ACCEPTED → transfers_ok e true c → Z.land revents EV_READ ≠ 0 →
  recv_ret_of e = Received bs → bs ≠ [] →
  wp (receive e true revents) (λ r c' t', r = revents ∧ t' = t ++ [IoRecv true bs] ∧
    mid_inv hdr c' t' ∧ ready e true c' ∧ state c' = ACCEPTED) c t.
Proof.
  intros [Hinv Hset] Hst Hto Hrev Hrecv Hne. rewrite Hst in Hset.
  eapply wp_combine with (Q := λ r c' t', r = revents ∧ t' = t ++ [IoRecv true bs] ∧ state c' = ACCEPTED).
  - apply (receive_run e hdr true c t revents); [done| | |done].
    + unfold socket_open, client_socket_open. by rewrite Hst.
    + unfold ready. rewrite Hst. split; [done|]. by apply (to_payload _ _ _ Hto).
  - destruct (mi_cbuf _ _ _ Hinv) as [Hb _].
    destruct (buffer_recv_Ok (cbuf c) (recv_ret_of e) (now e) (proj1 Hb) (to_recv _ _ _ Hto)) as (b & Heq & _).
    unfold receive. wps. cbn [side]. rewrite (proj2 (Z.eqb_neq _ _) Hrev), buf_ok_room by done.
    rewrite (proj2 (Z.eqb_neq (4096 - len (cbuf c)) 0)) by lia. cbn [negb andb]. wps.
    eapply wp_lift; [exact Heq|]. rewrite Hrecv. cbn [received_bytes recv_ret]. wps.
    apply nonempty_Zlen in Hne. rewrite (proj2 (Z.ltb_ge _ _)), (proj2 (Z.eqb_neq _ _)) by lia. cbn [andb]. by wps.
  - cbv beta. intros r c' t' (? & ? & _) (? & ? & ?). done.
Qed.

(** Nothing is sent to the client while its request is awaited. *)
Lemma transmit_nothing hdr c t revents :
  mid_inv hdr c t → state c = ACCEPTED → wp (transmit e true revents) (λ _ c' t', c' = c ∧ t' = t) c t.
Proof.
  intros Hinv Hst. pose proof (mi_traffic _ _ _ Hinv) as Ht. unfold traffic in Ht. rewrite Hst in Ht.
  destruct Ht as (_ & Hs & _). apply empty_contents in Hs; [|apply Hinv].
  unfold transmit, buffer_len. wps. cbn [side negb]. rewrite Hs. rewrite andb_false_r. by wps.
Qed.

(** A block whose contents start at its beginning. *)
Lemma contents_from_start b : buffer_wf b → Buffer.head b = 0 → ∃ junk, buffer b = contents b ++ junk.
Proof.
  intros Hwf Hh. exists (drop (Z.to_nat (len b)) (buffer b)). unfold contents. rewrite Hh.
  cbn [Z.to_nat take]. rewrite drop_0, app_nil_r. by rewrite take_drop.
Qed.

Lemma parsed_run hdr c t name :
  mid_inv hdr c t → state c = ACCEPTED → payload_ok e c (len (cbuf c)) →
  (∀ n m, 0 ≤ n → alloc e n = Some m → Zlen m = n ∧ Forall is_byte m) → (∀ n, malloc_of e n = true) →
  names_host (protocol (listener e)) (rx true t) name → rx true t ≠ [] →
  wp (parse_client_request inet_ntop e) (λ _ c' t', t' = t ∧ mid_inv hdr c' t ∧ state c' = PARSED ∧
    ∃ z, hostname c' = Some (name ++ 0 :: z) ∧ hostname_len c' = Zlen name) c t.
Proof.
  intros Hinv Hst Hpay Halloc Hm Hreq Hne.
  eapply wp_combine with (Q := λ _ c' t', t' = t ∧ state c' = PARSED ∧
    ∃ z, hostname c' = Some (name ++ 0 :: z) ∧ hostname_len c' = Zlen name); [by apply (parse_run e inet_ntop hdr c t)|..].
  - destruct (mi_cbuf _ _ _ Hinv) as [[Hwf Hmask] Hby]. destruct (mi_hdr _ _ _ Hinv) as [Hhl Hhm].
    pose proof (mi_traffic _ _ _ Hinv) as Ht. unfold traffic in Ht. rewrite Hst in Ht. destruct Ht as [Hc _].
    pose proof (Zlen_nonneg hdr). pose proof (buf_ok_len _ (conj Hwf Hmask)). apply nonempty_Zlen in Hne.
    assert (len (cbuf c) = header_len c + Zlen (rx true t)) as Hlen by (by rewrite <- (Zlen_contents _ Hwf), Hc, Zlen_app, Hhl).
    destruct (coalesce_at_start (cbuf c) (alloc e (len (cbuf c)))) as (b & Hco & Hwf' & Hh & Hl & Hcb & Hmb);
      [done|by apply (mi_head _ _ _ Hinv)|intros m Hm'; apply Halloc; [lia|done]|].
    assert (buffer_bytes b) as Hby'.
    { eapply buffer_coalesce_bytes; [exact Hby| |exact Hco]. intros m Hm'. eapply Halloc; [|exact Hm']. lia. }
    destruct (contents_from_start b Hwf' Hh) as (junk & Hjunk). rewrite Hcb, Hc, <- app_assoc in Hjunk.
    assert (drop (Z.to_nat (0 + header_len c)) (buffer b) = rx true t ++ junk) as Hdrop.
    { rewrite Hjunk, <- Hhl. unfold Zlen. by rewrite Z.add_0_l, Nat2Z.id, drop_app_length. }
    unfold parse_client_request. wps. eapply wp_lift; [exact Hco|]. wps.
    rewrite (proj2 (Z.leb_gt _ _)) by lia. rewrite size_t_small by lia. rewrite Hdrop.
    replace (len (cbuf c) - header_len c) with (Zlen (rx true t)) by lia.
    destruct (request_parsed (protocol (listener e)) (malloc_of e) (rx true t) junk name) as (z & Hz); [done|done| | |].
    + rewrite <- Hdrop. by apply Forall_drop.
    + pose proof (wf_block _ Hwf') as Hblock. rewrite Hjunk, Zlen_app in Hblock. lia.
    + wps. eapply wp_lift; [exact Hz|]. cbv beta iota zeta. pose proof (Zlen_nonneg name).
      rewrite (proj2 (Z.eqb_neq (Zlen name) (-1))), (proj2 (Z.ltb_ge (Zlen name) 0)) by lia. cbn [andb when]. wps.
      split; [done|]. split; [done|]. exists z. split; [done|]. cbn.
      pose proof (name_length _ _ _ Hreq). rewrite size_t_small by lia. done.
  - cbv beta. intros _ c' t' [Hinv' _] (-> & ? & ?). done.
Qed.

Lemma stored_run hdr c t a :
  mid_inv hdr c t → address_wf a → type a = SOCKADDR →
  wp (store_server_addr a) (λ _ c' t', t' = t ∧ mid_inv hdr c' t ∧ same_control c c' ∧
    take (Z.to_nat (paddr_len (server c'))) (paddr (server c')) = adata a) c t.
Proof.
  intros Hinv Hwf Hsa. destruct (wf_sockaddr_len a Hwf Hsa) as [Hlen Hmax].
  pose proof (mi_saddr _ _ _ Hinv) as Haddr.
  eapply wp_combine with (Q := λ _ c' _, take (Z.to_nat (paddr_len (server c'))) (paddr (server c')) = adata a);
    [by apply (store_addr_run hdr c t a)| |].
  - unfold store_server_addr, address_sa, address_sa_len. rewrite Hsa. wps.
    apply wp_assert; [unfold sizeof_sockaddr_storage; lia|]. wps.
    eapply wp_lift; [apply load_range_Ok; lia|]. wps.
    rewrite Hlen, slice_all. eapply wp_lift; [apply store_range_Ok; lia|]. wps.
    change (paddr_len _) with (Zlen (adata a)). change (paddr _) with (splice (paddr (server c)) 0 (adata a)).
    unfold splice, Zlen. change (Z.to_nat 0) with 0%nat. by rewrite Nat2Z.id, take_0, app_nil_l, take_app_length.
  - cbv beta. by intros _ c' t' (? & ? & ?) ?.
Qed.

Lemma resolved_run hdr c t tb name z b entry la :
  mid_inv hdr c t → state c = PARSED → hostname c = Some (name ++ 0 :: z) → hostname_len c = Zlen name →
  table e = Some tb → first_match tb name b → address b = Some entry → address_wf entry → type entry = SOCKADDR →
  laddress (listener e) = Some la → address_wf la → (∀ n, malloc_of e n = true) →
  wp (resolve_server_address pcre_exec pcre_copy_substring inet_pton inet_ntop have_libudns e)
    (λ _ c' t', t' = t ∧ mid_inv hdr c' t ∧ state c' = RESOLVED ∧ cuse_proxy_header c' = use_proxy_header b ∧
       ∃ a, target la entry = Ok a ∧ take (Z.to_nat (paddr_len (server c'))) (paddr (server c')) = adata a) c t.
Proof.
  intros Hinv Hst Hh Hn Htb Hb Hbe Hwf Hsa Hla Hlawf Hm.
  destruct (lookup_target tb name z b entry la) as (a & r & Hr & Ha & Hp & Ht & Hawf & Hasa); [done..|].
  unfold resolve_server_address. wps. rewrite Htb. eapply wp_lift; [done|]. wps.
  rewrite Hh, Hn. eapply wp_lift; [exact Hr|]. cbv beta iota zeta. rewrite Ha.
  unfold address_is_hostname, address_is_sockaddr, address_is. rewrite bool_decide_false, bool_decide_true by congruence.
  wps. eapply wp_mono; [by apply stored_run|]. cbv beta. intros _ c' t' (-> & Hinv' & (Hst' & ? & _) & Haddr). wps.
  split; [done|]. split; [|split_and!; [done|done|by exists a]].
  apply (mid_inv_control hdr c'); try done; [|by left]. unfold before_server. by rewrite Hst', Hst.
Qed.

(** The system calls that set up the socket to the server succeed. *)
Record connects : Prop := {
  cn_socket : 0 ≤ socket_ret e;
  cn_sockopt : 0 ≤ sockopt_ret e;
  cn_transparent : transparent_proxy (listener e) = true → have_transparent = true;
  cn_bind i : 0 ≤ (bind_ret e i).1;
  cn_connect : 0 ≤ (connect_ret e).1 ∨ (connect_ret e).2 = EINPROGRESS;
  cn_sockname : sockname e ≠ None
}.

Definition is_bind (ev : io) : Prop := match ev with IoBind _ => True | _ => False end.

Lemma mid_inv_binds hdr c t binds : Forall is_bind binds → mid_inv hdr c t → mid_inv hdr c (t ++ binds).
Proof. intros Hb. apply mid_inv_quiet. eapply Forall_impl; [exact Hb|]. by intros []. Qed.

Definition binds_only (c : Connection) (t : list io) (r : bool) (c' : Connection) (t' : list io) : Prop :=
  r = true ∧ c' = c ∧ ∃ binds, t' = t ++ binds ∧ Forall is_bind binds.

Lemma source_bound_run c t :
  connects → env_ok e pcre_exec pcre_copy_substring inet_pton →
  wp (match source_address (listener e) with
      | Some source =>
          if sockopt_ret e <? 0 then complain e "setsockopt SO_REUSEADDR" (sys_errno e) ;;; mret false
          else ('(result, errno) ← bind_loop e source 0 5;
                if result <? 0 then complain e "bind" errno ;;; mret false else mret true)
      | None => mret true
      end) (binds_only c t) c t.
Proof.
  intros [] Henv. destruct (source_address (listener e)) as [a|] eqn:Ha.
  2: { wps. split_and!; [done|done|]. exists []. by rewrite app_nil_r. }
  destruct (eo_source _ _ _ _ Henv a Ha) as [Hwf Hsa]. destruct (wf_sockaddr_len a Hwf Hsa) as [Hlen Hmax].
  rewrite (proj2 (Z.ltb_ge _ _)) by done. wps. unfold bind_loop. fold (bind_loop e).
  unfold address_sa, address_sa_len. rewrite Hsa. cbn [default]. wps.
  eapply wp_lift; [apply load_range_Ok; cbn; lia|]. wps. specialize (cn_bind0 0%nat).
  destruct (bind_ret e 0) as [r errno]. cbn in cn_bind0. rewrite (proj2 (Z.ltb_ge r 0)) by done. cbn [andb]. wps.
  rewrite (proj2 (Z.ltb_ge r 0)) by done. wps. split_and!; [done|done|]. eexists. split; [done|by repeat constructor].
Qed.

Lemma prepared_run hdr c t :
  connects → env_ok e pcre_exec pcre_copy_substring inet_pton → mid_inv hdr c t →
  wp (prepare_socket have_transparent e) (binds_only c t) c t.
Proof.
  intros Hcn Henv Hinv. pose proof (source_bound_run c t Hcn Henv) as Hsource. destruct Hcn. unfold prepare_socket. wps.
  destruct (sa_family_Ok _ (mi_caddr _ _ _ Hinv)) as (f & Hf). eapply wp_lift; [exact Hf|]. wps.
  destruct (sa_family_Ok _ (mi_saddr _ _ _ Hinv)) as (g & Hg). eapply wp_lift; [exact Hg|]. wps.
  destruct (transparent_proxy (listener e) && (f =? g)) eqn:Htp; [|done].
  apply andb_true_iff in Htp as [Htp _]. rewrite cn_transparent0, (proj2 (Z.ltb_ge (sockopt_ret e) 0)) by done. wps.
  specialize (cn_bind0 0%nat). destruct (bind_ret e 0) as [r errno]. cbn in cn_bind0.
  rewrite (proj2 (Z.ltb_ge r 0)) by done. wps. split_and!; [done|done|]. eexists. split; [done|by repeat constructor].
Qed.

Lemma connected_run hdr c t :
  connects → env_ok e pcre_exec pcre_copy_substring inet_pton → mid_inv hdr c t → state c = RESOLVED →
  let addr := take (Z.to_nat (paddr_len (server c))) (paddr (server c)) in
  wp (initiate_server_connect inet_ntop have_transparent e) (λ _ c' t', mid_inv hdr c' t' ∧ state c' = CONNECTED ∧
    cuse_proxy_header c' = cuse_proxy_header c ∧
    ∃ binds, t' = t ++ binds ++ [IoConnect addr] ∧ Forall is_bind binds) c t.
Proof.
  intros Hcn Henv Hinv Hst addr.
  eapply wp_combine with (Q := λ _ c' t', state c' = CONNECTED ∧ cuse_proxy_header c' = cuse_proxy_header c ∧
    ∃ binds, t' = t ++ binds ++ [IoConnect addr] ∧ Forall is_bind binds);
    [by eapply (initiate_run e inet_ntop pcre_exec pcre_copy_substring inet_pton have_transparent)| |].
  2: { cbv beta. by intros _ c' t' [? _] (? & ? & ?). }
  pose proof (prepared_run hdr c t Hcn Henv Hinv) as Hprep. destruct Hcn. unfold initiate_server_connect. wps.
  rewrite (proj2 (Z.ltb_ge _ _)) by done. wps.
  eapply wp_mono; [exact Hprep|]. intros r c' t' (-> & -> & binds & -> & Hbinds). cbn [negb]. wps. fold addr.
  destruct (connect_ret e) as [result errno]. cbn [fst snd] in *.
  assert ((result <? 0) && negb (errno =? EINPROGRESS) = false) as ->.
  { destruct cn_connect0 as [?| ->]; [by rewrite (proj2 (Z.ltb_ge _ _))|by rewrite andb_false_r]. }
  destruct (sockname e) as [l|]; [|done]. wps.
  set (t1 := (t ++ binds) ++ _). set (c1 := set_side false _ c).
  assert (mid_inv hdr c1 t) as Hinv1 by (by destruct Hinv).
  assert (mid_inv hdr c1 t1) as Hinv2.
  { unfold t1. apply mid_inv_silent; [done|]. by apply mid_inv_binds. }
  eapply wp_mono; [by apply (header_dropped hdr c1 t1)|].
  intros _ c' t' (-> & b & -> & _). wps. split; [done|]. split; [done|]. exists binds. by rewrite app_assoc.
Qed.

(** The listener and the table send [name] to the entry [b] with the socket address [entry]. *)
Record routed (name : list Z) (b : Backend pcre) (la entry : Address) : Prop := {
  rt_table : ∃ tb, table e = Some tb ∧ first_match tb name b;
  rt_entry : address b = Some entry ∧ address_wf entry ∧ type entry = SOCKADDR;
  rt_listener : laddress (listener e) = Some la ∧ address_wf la
}.

(** From the last bytes of the request to the connection to the server. *)
Lemma advance_connects hdr c t name b la entry :
  mid_inv hdr c t → ready e true c → state c = ACCEPTED →
  names_host (protocol (listener e)) (rx true t) name → rx true t ≠ [] →
  routed name b la entry → env_ok e pcre_exec pcre_copy_substring inet_pton →
  (∀ n, malloc_of e n = true) → connects →
  wp (advance pcre_exec pcre_copy_substring inet_pton inet_ntop have_libudns have_transparent e true)
    (λ _ c' t', mid_inv hdr c' t' ∧ state c' = CONNECTED ∧ cuse_proxy_header c' = use_proxy_header b ∧
       ∃ a binds, target la entry = Ok a ∧ Forall is_bind binds ∧ t' = t ++ binds ++ [IoConnect (adata a)]) c t.
Proof.
  intros Hinv Hr Hst Hreq Hne [(tb & Htb & Hfm) (Hbe & Hwf & Hsa) (Hla & Hlawf)] Henv Hm Hcn.
  unfold advance. wps. rewrite bool_decide_true by done. cbn [andb when].
  eapply wp_mono; [apply (parsed_run hdr c t name); try done|].
  { unfold ready in Hr. rewrite Hst in Hr. apply Hr. }
  { apply (eo_alloc _ _ _ _ Henv). }
  cbv beta. intros _ c1 t1 (-> & Hinv1 & Hst1 & z & Hh & Hn). wps. rewrite bool_decide_true by done. cbn [when].
  eapply wp_mono; [by apply (resolved_run hdr c1 t tb name z b entry la)|].
  cbv beta. intros _ c2 t2 (-> & Hinv2 & Hst2 & Hp & a & Ha & Haddr). wps. rewrite bool_decide_true by done. cbn [when].
  eapply wp_mono; [by apply connected_run|]. cbv beta zeta. rewrite Haddr, Hp.
  intros _ c3 t3 (Hinv3 & Hst3 & Hp3 & binds & -> & Hb). split_and!; [done|done|done|]. by exists a, binds.
Qed.

Lemma tx_binds s t binds a : Forall is_bind binds → tx s (t ++ binds ++ [IoConnect a]) = tx s t.
Proof.
  intros Hb. rewrite app_assoc, tx_silent by done. revert t. induction Hb as [|ev binds Hev _ IH]; intros t; [by rewrite app_nil_r|].
  rewrite cons_middle, app_assoc, IH. apply tx_silent. by destruct ev.
Qed.

Lemma rx_binds s t binds a : Forall is_bind binds → rx s (t ++ binds ++ [IoConnect a]) = rx s t.
Proof.
  intros Hb. rewrite app_assoc, rx_silent by done. revert t. induction Hb as [|ev binds Hev _ IH]; intros t; [by rewrite app_nil_r|].
  rewrite cons_middle, app_assoc, IH. apply rx_silent. by destruct ev.
Qed.

Lemma readjusted_use_proxy s c : cuse_proxy_header (readjusted s c) = cuse_proxy_header c.
Proof. unfold readjusted. by destruct (socket_open s c). Qed.

Lemma rx_received s t bs : rx s (t ++ [IoRecv s bs]) = rx s t ++ bs.
Proof. rewrite rx_app. unfold rx at 2. cbn. rewrite app_nil_r. by destruct s. Qed.

Lemma callback_connects hdr c t revents bs name b la entry :
  conn_inv hdr c t → callback_ok pcre_exec pcre_copy_substring inet_pton e true c → state c = ACCEPTED →
  Z.land revents EV_READ ≠ 0 → recv_ret_of e = Received bs → bs ≠ [] →
  names_host (protocol (listener e)) (rx true t ++ bs) name → routed name b la entry →
  (∀ n, malloc_of e n = true) → connects →
  wp (connection_cb pcre_exec pcre_copy_substring inet_pton inet_ntop have_libudns have_transparent e true revents)
    (λ r c' t', r = false ∧ state c' = CONNECTED ∧ cuse_proxy_header c' = use_proxy_header b ∧
       ∃ a binds, target la entry = Ok a ∧ Forall is_bind binds ∧
         t' = (t ++ [IoRecv true bs]) ++ binds ++ [IoConnect (adata a)]) c t.
Proof.
  intros Hinv [Henv Hact Hto] Hst Hrev Hrecv Hne Hreq Hroute Hm Hcn.
  unfold connection_cb. wps. eapply wp_mono; [by apply (received_run hdr c t revents bs)|].
  cbv beta. intros r c1 t1 (-> & -> & Hinv1 & Hr1 & Hst1). wps.
  eapply wp_mono; [by apply (transmit_nothing hdr)|]. cbv beta. intros _ c' t' [-> ->]. wps.
  eapply wp_mono; [apply (advance_connects hdr c1 _ name b la entry); try done|].
  { by rewrite rx_received. } { rewrite rx_received. by destruct (rx true t), bs. }
  cbv beta. intros _ c2 t2 (Hinv2 & Hst2 & Hp2 & a & binds & Ha & Hb & ->). wps.
  unfold close_flushed. wps. rewrite bool_decide_false by congruence. cbn [andb when]. wps.
  rewrite bool_decide_false by congruence. cbn [andb when]. wps. rewrite bool_decide_false by congruence. wps.
  eapply wp_mono; [apply (reactivate_run hdr c2); split; [done|by rewrite Hst2]|].
  cbv beta. intros _ c3 t3 (-> & _ & _ & ->). wps. rewrite !readjusted_state, !readjusted_use_proxy.
  split_and!; [done|done|done|by exists a, binds].
Qed.

(** What the callback leaves. *)
Definition forwarded (hdr req : list Z) (b : Backend pcre) (c : Connection) : Prop :=
  state c = CONNECTED ∧ contents (cbuf c) = (if use_proxy_header b then hdr else []) ++ req ∧
  wactive (watcher (server c)) = true ∧ Z.land (wevents (watcher (server c))) EV_WRITE ≠ 0.

(** * Properties *)

End forward.

(** * Witnesses *)

(** A table that sends names beginning with "example" to 127.0.0.1, without a port, and wants
    the PROXY line; the client sends its hello in two pieces. *)
Definition ex_entry : Backend (list Z) :=
  mkBackend (Some (bytes "example")) (Some (ex_in 0)) true (Some (bytes "example")).
Definition ex_fwd_table : Table (list Z) :=
  mkTable None true 1 [mkBackend (Some (bytes "www.")) (Some (ex_in 80)) false (Some (bytes "www.")); ex_entry].

Definition ex_piece1 : list Z := take 60 (Tls.encode ex_hello).
Definition ex_piece2 : list Z := drop 60 (Tls.encode ex_hello).
Definition ex_fwd_env (bs : list Z) : env (list Z) := ex_env (Received bs) true ex_fwd_table.

Lemma ex_fwd_callback_ok bs c :
  Forall is_byte bs → wactive (watcher (client c)) = true →
  recv_fits (cbuf c) (Received bs) → send_fits (sbuf c) (Sent 0) → 0 ≤ header_len c ≤ len (cbuf c) →
  callback_ok prefix_exec vector_copy fixed_pton (ex_fwd_env bs) true c.
Proof.
  intros Hb Hact Hr Hs Hl. split; [|done|].
  - split; [apply ex_alloc| |done..]. eexists. split; [done|]. apply ex_routes_usable.
    assert (∀ p, is_port p → usable (ex_in p) ∧ Zlen (adata (ex_in p)) < 2 ^ 32) as Hin
      by (intros p Hp; split; [split; [by apply ex_in_wf|by right]|done]).
    unfold fixed_routes. cbn [backends ex_fwd_table].
    apply Forall_cons; split; [split; [done|intros a [= <-]; by apply Hin]|].
    apply Forall_cons; split; [split; [done|intros a [= <-]; by apply Hin]|]. constructor.
  - split; [done|done|done|]. intros _. unfold payload_ok. pose proof (Zlen_nonneg bs).
    change (protocol (listener (ex_fwd_env bs))) with tls_protocol_ptr. cbn [min_payload].
    change (received_bytes (recv_ret_of (ex_fwd_env bs))) with bs. split; right; lia.
Qed.

(** The connection after the first piece. *)
Definition ex_waiting : Connection * list io :=
  match ex_cb (ex_fwd_env ex_piece1) EV_READ ex_conn with
  | Ok (_, c, t) => (c, t)
  | _ => (ex_conn, [])
  end.

Ltac computed := vm_compute; first [reflexivity | done | split; done].

Lemma ex_waiting_run :
  run prefix_exec vector_copy fixed_pton fixed_ntop true true (contents (cbuf ex_conn)) ex_waiting.1 ex_waiting.2.
Proof.
  apply (run_callback _ _ _ _ _ _ _ ex_conn [] (ex_fwd_env ex_piece1) true EV_READ _ _ ex_accepted_run).
  - apply ex_fwd_callback_ok; [by apply bytes_checked; vm_compute|computed..].
  - computed.
Qed.

Lemma ex_first_match : first_match prefix_exec ex_fwd_table (bytes "example.com") ex_entry.
Proof.
  eexists [_], []. split; [done|]. split; [by constructor; [eexists|]|]. intros z. split.
  - constructor; [|done]. by intros (re & [= <-] & H).
  - exists (bytes "example"). split; [done|]. computed.
Qed.

