(* ===== verification/Drain.v ===== *)
(** Half-closed connections come to an end (src/connection.c): once one socket of a connection
    is closed, what is buffered for the other is sent and the connection is freed. *)

From S2P Require Import Prelude CString Protocol RefCount Buffer Tls Http Address Resolv Backend Table Listener Logger BadRequest Connection Relay.
From stdpp Require Import list gmap.

#[local] Open Scope Z_scope.

(** The state in which only the socket of [s] is open, and what its peer still has to get. *)
Definition half_closed (s : bool) : State := if s then SERVER_CLOSED else CLIENT_CLOSED.
Definition outgoing (s : bool) (c : Connection) : Buffer := pbuffer (side (negb s) c).

Section drain.
Context {pcre : Type}.
Context (pcre_exec : pcre → list Z → Z → Z * list Z).
Context (pcre_copy_substring : list Z → list Z → Z → Z → Z → Z * list Z).
Context (inet_pton : Z → list Z → option (list Z)) (inet_ntop : Z → list Z → list Z).
Context (have_libudns have_transparent : bool).
Context `{!InetText inet_pton inet_ntop}.

Abbreviation cb e s revents :=
  (connection_cb pcre_exec pcre_copy_substring inet_pton inet_ntop have_libudns have_transparent e s revents).
Abbreviation run := (run pcre_exec pcre_copy_substring inet_pton inet_ntop have_libudns have_transparent).
Abbreviation callback_ok := (callback_ok pcre_exec pcre_copy_substring inet_pton).

(** A callback for a writable socket that takes at least one byte. *)
Definition progress (e : env pcre) (revents : Z) : bool :=
  negb (Z.land revents EV_WRITE =? 0) && match send_ret_of e with Sent n => 0 <? n | SendError _ => false end.

(** The peer closed its end, or the socket failed. *)
Definition recv_ends (e : env pcre) : Prop :=
  match recv_ret_of e with Received bs => bs = [] | RecvError err => IS_TEMPORARY_SOCKERR err = false end.
Definition send_ends (e : env pcre) : Prop :=
  match send_ret_of e with Sent _ => False | SendError err => IS_TEMPORARY_SOCKERR err = false end.

(** * One callback *)

Lemma half_closed_open s c : state c = half_closed s → socket_open s c = true.
Proof. destruct s; unfold socket_open, client_socket_open, server_socket_open; by intros ->. Qed.

Lemma half_closed_after s c : state c = half_closed s → state (after_close s c) = CLOSED.
Proof. unfold after_close. cbn. by destruct s; intros ->. Qed.

Lemma receive_drain hdr s c t (e : env pcre) revents :
  mid_inv hdr c t → state c = half_closed s → transfers_ok e s c →
  wp (receive e s revents) (λ r c' t', mid_inv hdr c' t' ∧
    (state c' = CLOSED ∧ r = 0 ∧ recv_ends e ∨ state c' = half_closed s ∧ r = revents ∧ outgoing s c' = outgoing s c)) c t.
Proof.
  intros Hinv Hst [Hfits Hby _ _]. pose proof (half_closed_open s c Hst) as Ho. unfold receive. wps.
  destruct (_ && _); [|wps; split; [done|by right]].
  pose proof (side_buf_ok _ _ _ s Hinv) as [Hwf Hmask].
  destruct (buffer_recv_Ok _ (recv_ret_of e) (now e) Hwf Hfits) as (b & Hrecv & (Hwf' & Hc & Hl & Hm & _) & _).
  wps. eapply wp_lift; [exact Hrecv|]. wps.
  set (c1 := set_side s (set_buffer b (side s c)) c). set (t1 := t ++ _).
  assert (mid_inv hdr c1 t1) as Hinv1.
  { eapply mid_inv_buffer; [exact Hinv|by split; [|congruence]| | |by eapply printable_more|by apply traffic_recv; [apply Hinv|..]].
    - intros ->. eapply buffer_recv_bytes; [|exact Hby|exact Hrecv]. apply Hinv.
    - intros ->. by rewrite Hst. }
  assert (∀ u, mid_inv hdr c1 u → recv_ends e → wp (close_socket (errors e) s;;; mret 0) (λ r c' t', mid_inv hdr c' t' ∧
    (state c' = CLOSED ∧ r = 0 ∧ recv_ends e ∨ state c' = half_closed s ∧ r = revents ∧ outgoing s c' = outgoing s c)) c1 u) as Hclose.
  { intros u Hu Hend. wps. eapply wp_mono; [apply close_socket_run; [done|by destruct s]|]. cbv beta. intros _ c' t' [? ->]. wps.
    split; [done|left]. by rewrite half_closed_after. }
  unfold recv_ends in *.
  destruct (recv_ret_of e) as [bs|err]; cbn [recv_ret received_bytes] in *.
  - pose proof (Zlen_nonneg bs). rewrite (proj2 (Z.ltb_ge (Zlen bs) 0)) by done. cbn [andb].
    destruct (Z.eqb_spec (Zlen bs) 0) as [Hnil|]; [apply Hclose; [done|by destruct bs]|]. wps.
    split; [done|right]. by destruct s.
  - cbn [Z.ltb Z.compare andb]. destruct (IS_TEMPORARY_SOCKERR err); cbn [negb Z.eqb].
    2: { apply wp_bind, wp_emit, Hclose; [|done]. apply mid_inv_silent; [text_ok|done]. }
    wps.
    split; [done|right]. by destruct s.
Qed.

Lemma transmit_drain hdr s c t (e : env pcre) revents :
  mid_inv hdr c t → state c = half_closed s → 0 < len (outgoing s c) → send_fits (outgoing s c) (send_ret_of e) →
  wp (transmit e s revents) (λ _ c' t', mid_inv hdr c' t' ∧
    (state c' = CLOSED ∧ send_ends e ∨
     state c' = half_closed s ∧ len (outgoing s c') + (if progress e revents then 1 else 0) ≤ len (outgoing s c))) c t.
Proof.
  intros Hinv Hst Hpos Hfits. pose proof (half_closed_open s c Hst) as Ho. unfold transmit, progress, buffer_len. wps.
  fold (outgoing s c). rewrite (proj2 (Z.eqb_neq (len (outgoing s c)) 0)) by lia.
  destruct (Z.eqb_spec (Z.land revents EV_WRITE) 0); cbn [negb andb]; [wps; split; [done|right]; split; [done|lia]|].
  pose proof (side_buf_ok _ _ _ (negb s) Hinv) as Hok. fold (outgoing s c) in Hok. pose proof Hok as [Hwf Hmask].
  destruct (buffer_send_Ok _ (send_ret_of e) (now e) Hwf Hfits) as (b & Hsend & (Hwf' & Hc & Hl & Hm & _) & _).
  wps. eapply wp_lift; [exact Hsend|]. wps.
  set (c1 := set_side (negb s) (set_buffer b (side (negb s) c)) c). set (t1 := t ++ _).
  assert (mid_inv hdr c1 t1) as Hinv1.
  { eapply mid_inv_buffer; [exact Hinv|by split; [|congruence]| | |by eapply printable_more|].
    - intros ->%negb_true_iff. unfold buffer_bytes. rewrite (buffer_send_block _ _ _ _ _ _ Hsend). apply Hinv.
    - intros _. rewrite Hst. by destruct s.
    - by eapply traffic_send; [apply Hinv|..]. }
  assert (outgoing s c1 = b) as Hb by (by destruct s). unfold send_fits in Hfits. unfold send_ends.
  destruct (send_ret_of e) as [n'|err]; cbn [send_ret sent_count] in *.
  - apply wp_when_false; [zcase|]. split; [done|right]. split; [done|]. rewrite Hb, Hl. zcase.
  - destruct (IS_TEMPORARY_SOCKERR err); cbn [negb andb Z.ltb Z.compare].
    + apply wp_when_false; [done|]. split; [done|right]. split; [done|]. rewrite Hb. lia.
    + apply wp_when_true; [done|]. wps.
      eapply wp_mono; [apply close_socket_run; [apply mid_inv_silent; [text_ok|done]|by destruct s]|].
      cbv beta. intros _ c' t' [? ->]. split; [done|left]. by rewrite half_closed_after.
Qed.

Lemma advance_drain s s' c t (e : env pcre) (Q : unit → Connection → list io → Prop) :
  state c = CLOSED ∨ state c = half_closed s → Q () c t →
  wp (advance pcre_exec pcre_copy_substring inet_pton inet_ntop have_libudns have_transparent e s') Q c t.
Proof.
  intros Hst HQ. unfold advance. wps.
  assert (∀ st, st = ACCEPTED ∨ st = PARSED ∨ st = RESOLVED → s' && bool_decide (state c = st) = false) as Hno.
  { intros st Hs. rewrite bool_decide_false, andb_false_r; [done|]. destruct Hst as [-> | ->], s, Hs as [-> |[-> | ->]]; done. }
  do 2 (apply wp_when_false; [apply Hno; auto|]; wps). apply wp_when_false; [apply Hno; auto|done].
Qed.

Lemma close_flushed_closed x c t (Q : unit → Connection → list io → Prop) :
  state c = CLOSED → Q () c t → wp (close_flushed x) Q c t.
Proof.
  intros Hcl HQ. unfold close_flushed. wps. apply wp_when_false; [by rewrite Hcl|]. wps.
  by apply wp_when_false; [rewrite Hcl|].
Qed.

(** The last socket is closed exactly when its peer got everything. *)
Lemma close_flushed_drain x hdr s c t :
  mid_inv hdr c t → state c = half_closed s →
  wp (close_flushed x) (λ _ c' t', if len (outgoing s c) =? 0 then state c' = CLOSED ∧ outgoing s c' = outgoing s c
                               else c' = c ∧ t' = t) c t.
Proof.
  intros Hinv Hst. unfold close_flushed, buffer_len, outgoing. wps. destruct s; cbn [negb side half_closed] in *.
  - rewrite Hst. cbn [andb bool_decide]. rewrite bool_decide_true by done. cbn [andb]. destruct (len (sbuf c) =? 0).
    + apply wp_when_true; [done|]. eapply wp_mono; [apply close_client_run; [done|unfold client_socket_open; by rewrite Hst]|].
      cbv beta. intros _ c' t' (_ & -> & _). wps. apply wp_when_false; cbn; by rewrite Hst.
    + apply wp_when_false; [done|]. wps. apply wp_when_false; by rewrite ?Hst.
  - rewrite Hst. rewrite bool_decide_false by done. cbn [andb]. apply wp_when_false; [done|]. wps.
    rewrite Hst, bool_decide_true by done. cbn [andb]. destruct (len (cbuf c) =? 0).
    + apply wp_when_true; [done|]. eapply wp_mono; [apply close_server_run; [done|unfold server_socket_open; by rewrite Hst]|].
      cbv beta. intros _ c' t' (_ & -> & _). cbn. by rewrite Hst.
    + by apply wp_when_false.
Qed.

(** What one callback does to a half-closed connection. *)
Definition drain_step (s : bool) (e : env pcre) (revents : Z) (c : Connection) (freed : bool) (c' : Connection) : Prop :=
  if freed then len (outgoing s c') = 0 ∨ recv_ends e ∨ send_ends e
  else state c' = half_closed s ∧ len (outgoing s c') + (if progress e revents then 1 else 0) ≤ len (outgoing s c).

Lemma half_closed_cb hdr s c t (e : env pcre) revents :
  conn_inv hdr c t → state c = half_closed s → transfers_ok e s c →
  wp (cb e s revents) (λ freed c' _, drain_step s e revents c freed c') c t.
Proof.
  intros [Hinv Hset] Hst Hto. unfold connection_cb, drain_step. wps.
  assert (0 < len (outgoing s c)) as Hpos by (rewrite Hst in Hset; unfold outgoing; by destruct s).
  eapply wp_mono; [by apply receive_drain|]. cbv beta. intros r c1 t1 [Hinv1 [(Hcl & -> & Hend)|(Hst1 & -> & Hout)]].
  { assert (transmit e s 0 c1 t1 = Ok ((), c1, t1)) as Htr by done.
    wps. exists (), c1, t1. split; [exact Htr|]. wps. apply (advance_drain s); [by left|]. wps.
    apply close_flushed_closed; [done|]. wps. rewrite bool_decide_true by done. wps. by right; left. }
  wps. rewrite <- Hout in Hpos |- *.
  eapply wp_mono; [apply transmit_drain; [done|done|done|rewrite Hout; apply Hto]|].
  cbv beta. intros _ c2 t2 [Hinv2 [[Hcl Hend]|[Hst2 Hlen]]].
  { wps. apply (advance_drain s); [by left|]. wps.
    apply close_flushed_closed; [done|]. wps. rewrite bool_decide_true by done. wps. by right; right. }
  wps. apply (advance_drain s); [by right|]. wps.
  eapply wp_mono; [by apply (close_flushed_drain _ hdr s)|]. cbv beta. intros _ c3 t3 Hc3. wps.
  destruct (Z.eqb_spec (len (outgoing s c2)) 0) as [H0|H0].
  { destruct Hc3 as [Hcl Ho]. rewrite bool_decide_true by done. wps. left. by rewrite Ho. }
  destruct Hc3 as [-> ->]. rewrite Hst2, bool_decide_false by (by destruct s). wps.
  assert (conn_inv hdr c2 t2) as Hinv'.
  { split; [done|]. pose proof (buf_ok_len _ (side_buf_ok _ _ _ (negb s) Hinv2)) as Hl. fold (outgoing s c2) in Hl.
    rewrite Hst2. unfold outgoing in *. destruct s; cbn in *; lia. }
  eapply wp_mono; [by apply reactivate_run|]. cbv beta. intros _ c' t' (-> & _ & _ & ->). wps.
  rewrite !readjusted_state. split; [done|]. unfold outgoing in *. by rewrite !readjusted_buffers.
Qed.

(** * Sequences of callbacks

    [callbacks k c t c' t']: from [c] and [t] callbacks of either watcher, [k] of which make
    progress, lead to [c'] and [t'], and none of them frees the connection. *)
Inductive callbacks : nat → Connection → list io → Connection → list io → Prop :=
  | callbacks_nil c t : callbacks 0 c t c t
  | callbacks_snoc k c t c1 t1 e s revents c2 t2 :
      callbacks k c t c1 t1 → callback_ok e s c1 → cb e s revents c1 t1 = Ok (false, c2, t2) →
      callbacks (if progress e revents then S k else k) c t c2 t2.

Lemma callbacks_run hdr k c t c' t' : run hdr c t → callbacks k c t c' t' → run hdr c' t'.
Proof. intros Hr. induction 1 as [|k c t c1 t1 e s revents c2 t2 _ IH]; [done|]. eapply run_callback; [by apply IH|done..]. Qed.

(** Only the socket that is open has an active watcher. *)
Lemma half_closed_side hdr s s' c t :
  conn_inv hdr c t → state c = half_closed s → wactive (watcher (side s' c)) = true → s' = s.
Proof.
  intros [Hinv _] Hst Hact. destruct s, s'; try done; cbn in *.
  - rewrite (mi_swatch _ _ _ Hinv) in Hact; [done|unfold server_socket_open; by rewrite Hst].
  - rewrite (mi_cwatch _ _ _ Hinv) in Hact; [done|unfold client_socket_open; by rewrite Hst].
Qed.

Lemma half_closed_callback hdr s s' c t e revents freed c' t' :
  run hdr c t → state c = half_closed s → callback_ok e s' c → cb e s' revents c t = Ok (freed, c', t') →
  drain_step s e revents c freed c'.
Proof.
  intros Hr Hst [_ Hact Hto] Hcb. apply run_inv in Hr as Hinv; [|done].
  assert (s' = s) as -> by (by eapply half_closed_side).
  destruct (half_closed_cb hdr s c t e revents Hinv Hst Hto) as (f & c1 & t1 & Heq & Hstep).
  rewrite Hcb in Heq. by injection Heq as <- <- <-.
Qed.

Lemma callbacks_drain hdr s k c t c' t' :
  run hdr c t → state c = half_closed s → callbacks k c t c' t' →
  state c' = half_closed s ∧ len (outgoing s c') + Z.of_nat k ≤ len (outgoing s c).
Proof.
  intros Hr Hst. induction 1 as [c t|k c t c1 t1 e s' revents c2 t2 Hcbs IH Hok Hcb]; [split; [done|lia]|].
  destruct IH as [Hst1 Hl]; [done..|]. pose proof (callbacks_run _ _ _ _ _ _ Hr Hcbs) as Hr1.
  destruct (half_closed_callback hdr s s' c1 t1 e revents false c2 t2 Hr1 Hst1 Hok Hcb) as [Hst2 Hl2].
  split; [done|]. destruct (progress e revents); lia.
Qed.

(** * Properties *)

(** C31: a half-closed connection is drained and freed.  While it lasts, the watcher of the open
    socket waits for room to send, no callback adds to what has to be sent, and fewer
    callbacks than there are bytes to send can make progress: the one that sends the last
    byte frees the connection.  A callback that frees it has sent everything, unless the
    peer closed its end or the socket failed. *)
Theorem half_closed_drains hdr s k c t c' t' :
  run hdr c t → state c = half_closed s → callbacks k c t c' t' →
  Z.of_nat k < len (outgoing s c) ∧
  wactive (watcher (side s c')) = true ∧ Z.land (wevents (watcher (side s c'))) EV_WRITE ≠ 0 ∧
  ∀ e s' revents, callback_ok e s' c' →
    ∃ freed c'' t'', cb e s' revents c' t' = Ok (freed, c'', t'') ∧
      (progress e revents = true → Z.of_nat k + 1 = len (outgoing s c) → freed = true) ∧
      (freed = true → contents (outgoing s c'') = [] ∨ recv_ends e ∨ send_ends e).
Proof.
  intros Hr Hst Hcbs. destruct (callbacks_drain _ _ _ _ _ _ _ Hr Hst Hcbs) as [Hst' Hl].
  pose proof (callbacks_run _ _ _ _ _ _ Hr Hcbs) as Hr'. apply run_inv in Hr' as Hinv; [|done].
  assert (0 < len (outgoing s c')) as Hpos.
  { destruct Hinv as [_ Hset]. rewrite Hst' in Hset. unfold outgoing. by destruct s. }
  split; [lia|]. apply run_watching in Hr' as Hw; [|done].
  destruct (Hw s (half_closed_open s c' Hst') Hpos) as [Hact Hev]. split_and!; [done|done|].
  intros e s' revents Hok.
  destruct (connection_cb_run e inet_ntop pcre_exec pcre_copy_substring inet_pton have_libudns have_transparent
    (co_env _ _ _ _ _ _ Hok) hdr s' revents c' t') as (freed & c2 & t2 & Heq & Hmid & Hend); [done|apply Hok..|].
  exists freed, c2, t2. split; [done|].
  pose proof (half_closed_callback _ _ _ _ _ _ _ _ _ _ Hr' Hst' Hok Heq) as Hstep. unfold drain_step in Hstep.
  pose proof (side_buf_ok _ _ _ (negb s) Hmid) as [Hwf _]. fold (outgoing s c2) in Hwf.
  destruct freed; [split; [done|]|].
  - intros _. destruct Hstep as [H0|?]; [left|by right]. rewrite <- (Zlen_contents _ Hwf) in H0.
    destruct (contents (outgoing s c2)); [done|]. rewrite Zlen_cons in H0. pose proof (Zlen_nonneg l). lia.
  - split; [|done]. intros Hp Hk. destruct Hstep as [Hst2 Hl2]. rewrite Hp in Hl2. destruct Hend as ([_ Hset] & _).
    rewrite Hst2 in Hset. unfold outgoing in *. destruct s; cbn in *; lia.
Qed.
End drain.

(** * Witness

    The connection of the file Relay: the server sends five bytes and closes its socket. *)

Definition ex_server_cb (r : recv_result) (x : Connection * list io) : outcome (bool * Connection * list io) :=
  connection_cb prefix_exec vector_copy fixed_pton fixed_ntop true true (ex_env r true ex_table) false EV_READ x.1 x.2.

Definition ex_after (r : recv_result) (x : Connection * list io) : Connection * list io :=
  match ex_server_cb r x with Ok (_, c, t) => (c, t) | _ => x end.

Definition ex_answered : Connection * list io := ex_after (Received (bytes "hello")) ex_next.
Definition ex_half : Connection * list io := ex_after (Received []) ex_answered.

Abbreviation ex_run x := (run prefix_exec vector_copy fixed_pton fixed_ntop true true (contents (cbuf ex_conn)) x.1 x.2).

Lemma ex_server_step r x :
  ex_run x → wactive (watcher (server x.1)) = true → transfers_ok (ex_env r true ex_table) false x.1 →
  ex_server_cb r x = Ok (false, (ex_after r x).1, (ex_after r x).2) → ex_run (ex_after r x).
Proof. intros Hr Ha Ht Hcb. eapply run_callback; [exact Hr| |exact Hcb]. split; [apply ex_env_ok|done|done]. Qed.

Lemma ex_transfers_ok r (x : Connection * list io) :
  state x.1 = CONNECTED → recv_fits (sbuf x.1) r → Forall is_byte (received_bytes r) → 0 ≤ len (cbuf x.1) →
  transfers_ok (ex_env r true ex_table) false x.1.
Proof. intros Hst Hr Hb Hl. split; [done|done|by split|]. intros Hst'. by rewrite Hst in Hst'. Qed.

Lemma ex_half_run : ex_run ex_half.
Proof.
  apply ex_server_step; [apply ex_server_step|..].
  - assert (ex_cb (ex_env ex_data true ex_table) EV_READ ex_conn = Ok (false, ex_next.1, ex_next.2)) as Heq
      by (vm_compute; reflexivity).
    eapply run_callback; [apply ex_accepted_run|apply ex_callback_ok|exact Heq].
  - by vm_compute.
  - apply ex_transfers_ok; [by vm_compute|by vm_compute|by repeat constructor|by vm_compute].
  - vm_compute. reflexivity.
  - by vm_compute.
  - apply ex_transfers_ok; [by vm_compute|by vm_compute|by repeat constructor|by vm_compute].
  - vm_compute. reflexivity.
Qed.

Lemma half_closed_drains_witness :
  state ex_half.1 = half_closed true ∧ contents (outgoing true ex_half.1) = bytes "hello" ∧
  wactive (watcher (side true ex_half.1)) = true ∧ Z.land (wevents (watcher (side true ex_half.1))) EV_WRITE ≠ 0.
Proof.
  assert (state ex_half.1 = half_closed true) as Hst by (vm_compute; reflexivity).
  destruct (half_closed_drains prefix_exec vector_copy fixed_pton fixed_ntop true true (contents (cbuf ex_conn)) true 0
    ex_half.1 ex_half.2 ex_half.1 ex_half.2 ex_half_run Hst (callbacks_nil _ _ _ _ _ _ _ _)) as (_ & Ha & Hev & _).
  split; [exact Hst|]. split; [vm_compute; reflexivity|]. split; [exact Ha|exact Hev].
Defined.
