(* ===== verification/CfgTokenizer.v ===== *)
(** The tokenizer of the configuration file (src/cfg_tokenizer.c).  An open file is the list
    of the bytes that were not read yet; putting a byte back ([fseek] by -1) puts it in
    front again. *)

From S2P Require Import Prelude CString.
From stdpp Require Import list.

#[local] Open Scope Z_scope.

(** * The code *)

Inductive Token : Type :=
  | TOKEN_ERROR | TOKEN_EOL | TOKEN_OBRACE | TOKEN_CBRACE | TOKEN_WORD | TOKEN_END.

#[global] Instance Token_eq_dec : EqDecision Token.
Proof. solve_decision. Defined.

Fixpoint chomp_line (file : list Z) : list Z :=
  match file with
  | [] => []
  | ch :: file => if (ch =? LF) || (ch =? CR) then file else chomp_line file
  end.

(** The characters that end a word outside quotes. *)
Definition is_separator (ch : Z) : bool :=
  existsb (Z.eqb ch) [32; 9; 59; LF; CR; 35; 123; 125].

(** The loop of [next_word]: the result, the buffer and the file afterwards. *)
Fixpoint word_loop (file buffer : list Z) (buffer_len len : Z) (quoted escaped : bool)
    : outcome (Z * list Z * list Z) :=
  match file with
  | [] => Ok (-1, buffer, [])
  | ch :: rest =>
      if negb (len <? buffer_len) then Ok (-1, buffer, rest)
      else if escaped then
        buffer ← store_range buffer len [ch];
        word_loop rest buffer buffer_len (len + 1) quoted false
      else if ch =? 92 then word_loop rest buffer buffer_len len quoted true
      else if ch =? 34 then word_loop rest buffer buffer_len len (negb quoted) false
      else if is_separator ch && negb quoted then
        buffer ← store_range buffer len [0];
        Ok (len + 1, buffer, file)
      else
        buffer ← store_range buffer len [ch];
        word_loop rest buffer buffer_len (len + 1) quoted false
  end.

Definition next_word (file buffer : list Z) (buffer_len : Z) : outcome (Z * list Z * list Z) :=
  word_loop file buffer buffer_len 0 false false.

(** The token, the buffer and the file afterwards. *)
Fixpoint next_token (file buffer : list Z) (buffer_len : Z) : outcome (Token * list Z * list Z) :=
  match file with
  | [] => Ok (TOKEN_END, buffer, [])
  | ch :: rest =>
      if (ch =? 32) || (ch =? 9) then next_token rest buffer buffer_len
      else if ch =? 35 then Ok (TOKEN_EOL, buffer, chomp_line rest)
      else if (ch =? 59) || (ch =? LF) || (ch =? CR) then Ok (TOKEN_EOL, buffer, rest)
      else if ch =? 123 then Ok (TOKEN_OBRACE, buffer, rest)
      else if ch =? 125 then Ok (TOKEN_CBRACE, buffer, rest)
      else
        '(token_len, buffer, file) ← next_word (ch :: rest) buffer buffer_len;
        if token_len <=? 0 then Ok (TOKEN_ERROR, buffer, file)
        else Ok (TOKEN_WORD, buffer, file)
  end.

(** * Words without a limit

    The word at the beginning of the input and the input behind it, [None] when the input
    ends before the word does. *)

Fixpoint scan_word (quoted escaped : bool) (file : list Z) : option (list Z * list Z) :=
  match file with
  | [] => None
  | ch :: rest =>
      if escaped then '(w, r) ← scan_word quoted false rest; Some (ch :: w, r)
      else if ch =? 92 then scan_word quoted true rest
      else if ch =? 34 then scan_word (negb quoted) false rest
      else if is_separator ch && negb quoted then Some ([], file)
      else '(w, r) ← scan_word quoted false rest; Some (ch :: w, r)
  end.

Lemma scan_word_length q e file w r :
  scan_word q e file = Some (w, r) → (length r ≤ length file)%nat.
Proof.
  revert q e w r. induction file as [|ch file IH]; intros q e w r; [done|]. cbn.
  assert (∀ q' e' f, ('(w', r') ← scan_word q' e' file; Some (f w', r')) = Some (w, r) →
    (length r ≤ S (length file))%nat) as Hcons.
  { intros q' e' f. destruct (scan_word q' e' file) as [[w' r']|] eqn:Hs; [|done].
    cbn. intros [= _ ->]. apply IH in Hs. lia. }
  destruct e; [by apply Hcons|]. destruct (ch =? 92); [intros Hs; apply IH in Hs; lia|].
  destruct (ch =? 34); [intros Hs; apply IH in Hs; lia|].
  destruct (_ && _); [by intros [= _ <-]|by apply Hcons].
Qed.

(** A word that starts with an ordinary character takes that character off the input. *)
Lemma scan_word_lt ch file w r :
  is_separator ch = false → scan_word false false (ch :: file) = Some (w, r) → (length r ≤ length file)%nat.
Proof.
  intros Hs. cbn [scan_word]. rewrite Hs. cbn [andb].
  destruct (ch =? 92); [apply scan_word_length|]. destruct (ch =? 34); [apply scan_word_length|].
  destruct (scan_word false false file) as [[w' r']|] eqn:Hw; [|done]. cbn. intros [= _ <-].
  by eapply scan_word_length.
Qed.

Lemma store_next pre x post ch :
  store_range (pre ++ x :: post) (Zlen pre) [ch] = Ok ((pre ++ [ch]) ++ post).
Proof.
  pose proof (Zlen_nonneg pre). pose proof (Zlen_nonneg post).
  rewrite store_range_Ok; [|lia|change (Zlen [ch]) with 1; rewrite Zlen_app, Zlen_cons; lia].
  f_equal. unfold splice, Zlen. rewrite Nat2Z.id, take_app_length. rewrite drop_app_ge by (cbn; lia).
  replace (length pre + length [ch] - length pre)%nat with 1%nat by (cbn; lia). by rewrite <- app_assoc.
Qed.

(** What [word_loop] reports of the word [scan_word] finds behind the bytes already read. *)
Definition word_result (buffer_len : Z) (pre : list Z) (o : option (list Z * list Z))
    (n : Z) (buffer rest : list Z) : Prop :=
  match o with
  | Some (w, r) =>
      if decide (Zlen pre + Zlen w < buffer_len)
      then n = Zlen pre + Zlen w + 1 ∧ rest = r ∧ ∃ z, buffer = pre ++ w ++ 0 :: z
      else n = -1
  | None => n = -1
  end.

Lemma word_result_cons L pre ch o n b r :
  word_result L (pre ++ [ch]) o n b r →
  word_result L pre ('(w, r) ← o; Some (ch :: w, r)) n b r.
Proof.
  unfold word_result. destruct o as [[w r']|]; cbn [mbind option_bind]; [|done].
  rewrite Zlen_app. change (Zlen [ch]) with 1. rewrite Zlen_cons.
  replace (Zlen pre + 1 + Zlen w) with (Zlen pre + (1 + Zlen w)) by lia.
  case_decide; [|done]. intros (-> & -> & z & ->). split_and!; [done|done|]. exists z. by rewrite <- app_assoc.
Qed.

Lemma word_loop_spec L file pre post q e :
  L ≤ Zlen (pre ++ post) →
  ∃ n b r, word_loop file (pre ++ post) L (Zlen pre) q e = Ok (n, b, r) ∧
    Zlen b = Zlen (pre ++ post) ∧ (length r ≤ length file)%nat ∧
    word_result L pre (scan_word q e file) n b r.
Proof.
  revert pre post q e. induction file as [|ch file IH]; intros pre post q e HL.
  { exists (-1), (pre ++ post), []. done. }
  cbn [word_loop scan_word]. destruct (Z.ltb_spec (Zlen pre) L) as [Hlt|Hge]; cbn [negb].
  2: { exists (-1), (pre ++ post), file. split_and!; [done|done|cbn; lia|].
       unfold word_result. destruct (if e then _ else _) as [[w r]|]; [|done].
       pose proof (Zlen_nonneg w). by rewrite decide_False by lia. }
  rewrite Zlen_app in HL. destruct post as [|x post]; [rewrite Zlen_nil in HL; lia|]. rewrite Zlen_cons in HL.
  assert (∀ q' e', ∃ n b r, word_loop file (pre ++ x :: post) L (Zlen pre) q' e' = Ok (n, b, r) ∧
    Zlen b = Zlen (pre ++ x :: post) ∧ (length r ≤ S (length file))%nat ∧
    word_result L pre (scan_word q' e' file) n b r) as Hskip.
  { intros q' e'. destruct (IH pre (x :: post) q' e') as (n & b & r & ? & ? & ? & ?);
      [rewrite Zlen_app, Zlen_cons; lia|]. exists n, b, r. split_and!; [done|done|lia|done]. }
  assert (∀ q', ∃ n b r,
    (buffer ← store_range (pre ++ x :: post) (Zlen pre) [ch]; word_loop file buffer L (Zlen pre + 1) q' false) = Ok (n, b, r) ∧
    Zlen b = Zlen (pre ++ x :: post) ∧ (length r ≤ S (length file))%nat ∧
    word_result L pre ('(w, r) ← scan_word q' false file; Some (ch :: w, r)) n b r) as Hput.
  { intros q'. rewrite store_next. outcome_simpl.
    destruct (IH (pre ++ [ch]) post q' false) as (n & b & r & Hr & Hb & Hl & Hw).
    { rewrite !Zlen_app. change (Zlen [ch]) with 1. lia. }
    rewrite Zlen_app in Hr. change (Zlen [ch]) with 1 in Hr. exists n, b, r.
    split_and!; [done| |lia|by apply word_result_cons].
    rewrite Hb, !Zlen_app. change (Zlen [ch]) with 1. rewrite Zlen_cons. lia. }
  destruct e; [by apply Hput|]. destruct (ch =? 92); [by apply Hskip|].
  destruct (ch =? 34); [by apply Hskip|]. destruct (_ && _); [|by apply Hput].
  rewrite store_next. outcome_simpl. eexists _, _, _. split; [done|].
  split; [rewrite !Zlen_app; change (Zlen [0]) with 1; rewrite Zlen_cons; lia|]. split; [cbn; lia|].
  cbn. rewrite decide_True by (change (Zlen []) with 0; lia). split; [change (Zlen []) with 0; lia|].
  split; [done|]. exists post. by rewrite <- app_assoc.
Qed.

(** * Tokens without a limit *)

(** The token at the beginning of the input, the word it carries, the input behind it. *)
Inductive tokenizes : list Z → Token → list Z → list Z → Prop :=
  | tz_end : tokenizes [] TOKEN_END [] []
  | tz_blank ch file tok w rest :
      isblank ch = true → tokenizes file tok w rest → tokenizes (ch :: file) tok w rest
  | tz_comment file : tokenizes (35 :: file) TOKEN_EOL [] (chomp_line file)
  | tz_eol ch file : ch = 59 ∨ ch = LF ∨ ch = CR → tokenizes (ch :: file) TOKEN_EOL [] file
  | tz_obrace file : tokenizes (123 :: file) TOKEN_OBRACE [] file
  | tz_cbrace file : tokenizes (125 :: file) TOKEN_CBRACE [] file
  | tz_word ch file w rest :
      is_separator ch = false → scan_word false false (ch :: file) = Some (w, rest) →
      tokenizes (ch :: file) TOKEN_WORD w rest
  | tz_unfinished ch file :
      is_separator ch = false → scan_word false false (ch :: file) = None →
      tokenizes (ch :: file) TOKEN_ERROR [] [].

(** [next_token] on a buffer of [L] bytes, when the input starts with a token. *)
Definition token_result (L : Z) (tok : Token) (w rest : list Z) (o : Token * list Z * list Z) : Prop :=
  let '(tok', buffer, file) := o in
  match tok with
  | TOKEN_WORD => if decide (Zlen w < L) then tok' = TOKEN_WORD ∧ file = rest ∧ ∃ z, buffer = w ++ 0 :: z
                  else tok' = TOKEN_ERROR
  | TOKEN_ERROR => tok' = TOKEN_ERROR
  | _ => tok' = tok ∧ file = rest
  end.

Lemma separator_cases ch :
  is_separator ch = false →
  ch ≠ 32 ∧ ch ≠ 9 ∧ ch ≠ 59 ∧ ch ≠ LF ∧ ch ≠ CR ∧ ch ≠ 35 ∧ ch ≠ 123 ∧ ch ≠ 125.
Proof. unfold is_separator. cbn. rewrite !orb_false_iff, !Z.eqb_neq. tauto. Qed.

Lemma chomp_line_length file : (length (chomp_line file) ≤ length file)%nat.
Proof. induction file as [|ch file IH]; [done|]. cbn. destruct (_ || _); cbn; lia. Qed.

Lemma next_token_word L ch file buffer :
  is_separator ch = false →
  next_token (ch :: file) buffer L =
    ('(token_len, buffer, file) ← next_word (ch :: file) buffer L;
     if token_len <=? 0 then Ok (TOKEN_ERROR, buffer, file) else Ok (TOKEN_WORD, buffer, file)).
Proof.
  intros (?&?&?&?&?&?&?&?)%separator_cases. unfold next_token. fold next_token.
  by rewrite !(proj2 (Z.eqb_neq _ _)) by done.
Qed.

(** Every input starts with one token. *)
Lemma tokenizes_total file : ∃ tok w rest, tokenizes file tok w rest.
Proof.
  induction file as [|ch file (tok & w & rest & IH)]; [eexists _, _, _; constructor|].
  destruct (is_separator ch) eqn:Hs.
  - unfold is_separator in Hs. cbn in Hs. rewrite !orb_true_iff, !Z.eqb_eq in Hs.
    destruct Hs as [->|[->|[->|[->|[->|[->|[->|[->|?]]]]]]]]; [..|done]; eexists _, _, _.
    all: first [by apply tz_comment|by apply tz_obrace|by apply tz_cbrace|by apply tz_blank|by apply tz_eol; auto].
  - destruct (scan_word false false (ch :: file)) as [[w' r']|] eqn:Hw.
    + eexists _, _, _. by apply tz_word.
    + eexists _, _, _. by apply tz_unfinished.
Qed.

Lemma next_token_tokenizes L file buffer tok w rest :
  0 ≤ L ≤ Zlen buffer → tokenizes file tok w rest →
  ∃ tok' b r, next_token file buffer L = Ok (tok', b, r) ∧ Zlen b = Zlen buffer ∧
    (length r ≤ length file)%nat ∧ (tok' ≠ TOKEN_END → tok' ≠ TOKEN_ERROR → (length r < length file)%nat) ∧
    token_result L tok w rest (tok', b, r).
Proof.
  intros HL. induction 1 as [|ch file tok w rest Hb _ (tok' & b & r & Heq & Hlb & Hlr & Hlt & Hres)|file|ch file Hch|file|file
                            |ch file w rest Hs Hw|ch file Hs Hw].
  - by exists TOKEN_END, buffer, [].
  - exists tok', b, r. cbn [next_token]. unfold isblank in Hb. rewrite Hb.
    split_and!; [done|done|cbn; lia| |done]. intros Hne Hne'. cbn. specialize (Hlt Hne Hne'). lia.
  - exists TOKEN_EOL, buffer, (chomp_line file). pose proof (chomp_line_length file).
    split_and!; [done|done|cbn; lia|cbn; lia|done].
  - exists TOKEN_EOL, buffer, file. split_and!; [by destruct Hch as [->|[->| ->]]|done|cbn; lia|cbn; lia|done].
  - exists TOKEN_OBRACE, buffer, file. split_and!; [done|done|cbn; lia|cbn; lia|done].
  - exists TOKEN_CBRACE, buffer, file. split_and!; [done|done|cbn; lia|cbn; lia|done].
  - rewrite next_token_word by done. unfold next_word.
    destruct (word_loop_spec L (ch :: file) [] buffer false false) as (n & b & r & Heq & Hlb & Hlr & Hres); [cbn; lia|].
    change (Zlen []) with 0 in Heq. cbn [app] in Heq. rewrite Heq. outcome_simpl. rewrite Hw in Hres.
    cbn [word_result app] in Hres. change (Zlen []) with 0 in Hres. rewrite Z.add_0_l in Hres.
    pose proof (Zlen_nonneg w). case_decide as Hd.
    + destruct Hres as (-> & -> & z & ->). zcase. exists TOKEN_WORD, (w ++ 0 :: z), rest.
      split_and!; [done|done|done| |cbn; rewrite decide_True by done; eauto].
      intros _ _. apply scan_word_lt in Hw; [cbn; lia|done].
    + subst. cbn. exists TOKEN_ERROR, b, r. split_and!; [done|done|done|done|]. cbn.
      by rewrite decide_False.
  - rewrite next_token_word by done. unfold next_word.
    destruct (word_loop_spec L (ch :: file) [] buffer false false) as (n & b & r & Heq & Hlb & Hlr & Hres); [cbn; lia|].
    change (Zlen []) with 0 in Heq. cbn [app] in Heq. rewrite Heq. outcome_simpl. rewrite Hw in Hres.
    cbn [word_result] in Hres. subst. exists TOKEN_ERROR, b, r. split_and!; [done|done|done|done|done].
Qed.

(** What a caller can rely on without knowing the input. *)
Lemma next_token_safe L file buffer :
  0 ≤ L ≤ Zlen buffer →
  ∃ tok b r, next_token file buffer L = Ok (tok, b, r) ∧ Zlen b = Zlen buffer ∧
    (length r ≤ length file)%nat ∧
    (tok ≠ TOKEN_END → tok ≠ TOKEN_ERROR → (length r < length file)%nat) ∧
    (tok = TOKEN_WORD → ∃ w, c_string b 0 = Ok w).
Proof.
  intros HL. destruct (tokenizes_total file) as (tok & w & rest & Ht).
  destruct (next_token_tokenizes L file buffer tok w rest HL Ht) as (tok' & b & r & ?&?&?&?&Hres).
  exists tok', b, r. split_and!; try done. intros ->. destruct tok; cbn in Hres; try (by destruct Hres); try done.
  case_decide; [|done]. destruct Hres as (_ & _ & z & ->). unfold c_string.
  rewrite bool_decide_true; [by eexists|]. cbn. set_solver.
Qed.

(** * Writing words *)

(** A word in quotes, with a backslash before the characters that would end it. *)
Definition quote_char (ch : Z) : list Z := if (ch =? 34) || (ch =? 92) then [92; ch] else [ch].
Definition quote (w : list Z) : list Z := [34] ++ concat (quote_char <$> w) ++ [34].

Lemma scan_quoted w rest :
  scan_word true false (concat (quote_char <$> w) ++ [34] ++ rest) =
    '(w', r) ← scan_word false false rest; Some (w ++ w', r).
Proof.
  induction w as [|ch w IH].
  - cbn. destruct (scan_word false false rest) as [[w' r]|]; done.
  - cbn [fmap list_fmap concat]. rewrite <- app_assoc. unfold quote_char at 1.
    destruct (Z.eqb_spec ch 34) as [->|H34]; [|destruct (Z.eqb_spec ch 92) as [->|H92]]; cbn [orb app scan_word Z.eqb Pos.eqb].
    + cbn [app] in IH. rewrite IH. by destruct (scan_word false false rest) as [[w' r]|].
    + cbn [app] in IH. rewrite IH. by destruct (scan_word false false rest) as [[w' r]|].
    + rewrite (proj2 (Z.eqb_neq ch 92) H92), (proj2 (Z.eqb_neq ch 34) H34), andb_false_r.
      cbn [app] in IH. rewrite IH. by destruct (scan_word false false rest) as [[w' r]|].
Qed.

Lemma tokenizes_quote w sep rest :
  is_separator sep = true → tokenizes (quote w ++ sep :: rest) TOKEN_WORD w (sep :: rest).
Proof.
  intros Hs. unfold quote. rewrite <- !app_assoc. apply tz_word; [done|].
  change (scan_word true false (concat (quote_char <$> w) ++ [34] ++ sep :: rest) = Some (w, sep :: rest)).
  rewrite scan_quoted. cbn [scan_word]. rewrite Hs. cbn [andb negb].
  assert (sep ≠ 92 ∧ sep ≠ 34) as [H92 H34] by (by split; intros ->).
  rewrite (proj2 (Z.eqb_neq sep 92) H92), (proj2 (Z.eqb_neq sep 34) H34). cbn. by rewrite app_nil_r.
Qed.

(** * Properties *)

(** C35: on every input [next_token] ends without writing outside its buffer and returns the token
    the input starts with, where a word is read through quotes and escapes, is left NUL
    terminated in the buffer and needs to be shorter than the buffer; a word that is too long
    or that the file ends in is an error; and every token but the last takes something off
    the input. *)
Theorem next_token_decides L file buffer :
  0 ≤ L ≤ Zlen buffer →
  (∃ tok w rest, tokenizes file tok w rest) ∧
  ∀ tok w rest, tokenizes file tok w rest →
    ∃ tok' b r, next_token file buffer L = Ok (tok', b, r) ∧
      Zlen b = Zlen buffer ∧ token_result L tok w rest (tok', b, r) ∧
      (tok' ≠ TOKEN_END → tok' ≠ TOKEN_ERROR → (length r < length file)%nat).
Proof.
  intros HL. split; [apply tokenizes_total|]. intros tok w rest Ht.
  destruct (next_token_tokenizes L file buffer tok w rest HL Ht) as (tok' & b & r & ?&?&_&?&?).
  by exists tok', b, r.
Qed.

(** Every word, whatever characters it has, can be written in quotes so that it is read
    back, unless it fills the buffer. *)
Theorem quoted_word_roundtrip w sep rest buffer :
  is_separator sep = true → Zlen w < Zlen buffer → 0 ∉ w →
  ∃ b, next_token (quote w ++ sep :: rest) buffer (Zlen buffer) = Ok (TOKEN_WORD, b, sep :: rest) ∧
       c_string b 0 = Ok w.
Proof.
  intros Hs Hl H0. pose proof (Zlen_nonneg buffer).
  destruct (next_token_tokenizes (Zlen buffer) _ buffer _ _ _ ltac:(lia) (tokenizes_quote w sep rest Hs))
    as (tok' & b & r & Heq & _ & _ & _ & Hres).
  cbn in Hres. rewrite decide_True in Hres by done. destruct Hres as (-> & -> & z & ->).
  exists (w ++ 0 :: z). split; [done|]. by apply (c_string_app [] w z).
Qed.

(** * Witnesses *)

Lemma next_token_decides_witness :
  ∃ tok' b r, next_token (bytes "table {") (replicate 256 0) 256 = Ok (tok', b, r) ∧ Zlen b = 256 ∧
    token_result 256 TOKEN_WORD (bytes "table") (bytes " {") (tok', b, r) ∧
    (tok' ≠ TOKEN_END → tok' ≠ TOKEN_ERROR → (length r < 7)%nat).
Proof.
  refine (proj2 (next_token_decides 256 (bytes "table {") (replicate 256 0) _) _ _ _ _); [by vm_compute|].
  by apply tz_word.
Defined.

Lemma quoted_word_roundtrip_witness :
  ∃ b, next_token (quote (bytes "a b;{") ++ [LF]) (replicate 256 0) 256 = Ok (TOKEN_WORD, b, [LF]) ∧
       c_string b 0 = Ok (bytes "a b;{").
Proof.
  apply (quoted_word_roundtrip (bytes "a b;{") LF [] (replicate 256 0)); [done|by vm_compute|].
  apply (bool_decide_unpack _). by vm_compute.
Defined.
