(* ===== verification/CfgParser.v ===== *)
(** The parser of the configuration file (src/cfg_parser.c): a grammar of keywords, whose
    callbacks build the configuration, is run over the tokens of a file. *)

From S2P Require Import Prelude CString CfgTokenizer.
From stdpp Require Import list.

#[local] Open Scope Z_scope.

Section parser.
(** The objects the callbacks create and change live in a state; a context is a
    (non-NULL) pointer to one. *)
Context {state ptr : Type}.

(** * The code *)

(** struct Keyword: the callbacks that are NULL are [None]. *)
Inductive Keyword : Type := mkKeyword {
  keyword       : option (list Z);
  create        : option (state → option ptr * state);
  parse_arg     : option (ptr → list Z → state → Z * state);
  block_grammar : option (list Keyword);
  finalize      : option (ptr → ptr → state → Z * state)
}.

(** A grammar is an array that ends with an entry without keyword, which can stand for any
    word. *)
Fixpoint find_keyword (grammar : list Keyword) (word : list Z) : outcome (option Keyword) :=
  match grammar with
  | [] => Fault OutOfBounds
  | k :: grammar =>
      match keyword k with
      | Some name => if strncmp_eq name word (length word) then Ok (Some k) else find_keyword grammar word
      | None => Ok (if non_null (create k) then Some k else None)
      end
  end.

(** The keyword of the current statement and its context, both set or both NULL. *)
Definition current : Type := option (Keyword * ptr).

Definition call_parse_arg (k : Keyword) (sub : ptr) (word : list Z) (s : state) : Z * state :=
  match parse_arg k with Some f => f sub word s | None => (1, s) end.

Definition call_finalize (k : Keyword) (context sub : ptr) (s : state) : Z * state :=
  match finalize k with Some f => f context sub s | None => (1, s) end.

(** The case TOKEN_WORD: a result above 0 is [break], any other is returned. *)
Definition parse_word (context : ptr) (grammar : list Keyword) (cur : current) (word : list Z) (s : state)
    : outcome (Z * current * state) :=
  let start :=
    k ← find_keyword grammar word;
    match k with
    | None => Ok (-1, None, s)
    | Some k =>
        let '(sub, s) := match create k with Some f => f s | None => (Some context, s) end in
        match sub with
        | None => Ok (-1, None, s)
        | Some sub =>
            match keyword k with
            | None => let '(r, s) := call_parse_arg k sub word s in Ok (r, Some (k, sub), s)
            | Some _ => Ok (1, Some (k, sub), s)
            end
        end
    end in
  match cur with
  | Some (k, sub) =>
      match parse_arg k with
      | Some f => let '(r, s) := f sub word s in Ok (r, cur, s)
      | None => start
      end
  | None => start
  end.

(** The case TOKEN_EOL. *)
Definition end_statement (context : ptr) (cur : current) (s : state) : Z * state :=
  match cur with Some (k, sub) => call_finalize k context sub s | None => (1, s) end.

(** The array of [parse_config]. *)
Definition sizeof_buffer : Z := 256.

(** [fresh] is the local array of every call, [buffer] its current contents.  One unit of
    fuel is a round of the loop. *)
Fixpoint parse_loop (fuel : nat) (fresh : list Z) (context : ptr) (grammar : list Keyword)
    (cur : current) (buffer file : list Z) (s : state) : outcome (Z * list Z * state) :=
  match fuel with
  | O => Fault OutOfFuel
  | S fuel =>
      '(token, buffer, file) ← next_token file buffer sizeof_buffer;
      match token with
      | TOKEN_ERROR => Ok (-1, file, s)
      | TOKEN_WORD =>
          word ← c_string buffer 0;
          '(result, cur, s) ← parse_word context grammar cur word s;
          if result <=? 0 then Ok (result, file, s)
          else parse_loop fuel fresh context grammar cur buffer file s
      | TOKEN_OBRACE =>
          match cur with
          | Some (k, sub) =>
              match block_grammar k with
              | Some block =>
                  '(result, file, s) ← parse_loop fuel fresh sub block None fresh file s;
                  let '(result, s) := if 0 <? result then call_finalize k context sub s else (result, s) in
                  if result <=? 0 then Ok (result, file, s)
                  else parse_loop fuel fresh context grammar None buffer file s
              | None => Ok (-1, file, s)
              end
          | None => Ok (-1, file, s)
          end
      | TOKEN_EOL =>
          let '(result, s) := end_statement context cur s in
          if result <=? 0 then Ok (result, file, s)
          else parse_loop fuel fresh context grammar None buffer file s
      | TOKEN_CBRACE | TOKEN_END => Ok (1, file, s)
      end
  end.

Definition parse_config (fresh : list Z) (context : ptr) (file : list Z) (grammar : list Keyword) (s : state)
    : outcome (Z * list Z * state) :=
  parse_loop (S (length file)) fresh context grammar None fresh file s.

(** * Every parse ends *)

(** Every array of the grammar has its last entry. *)
Inductive grammar_ok : list Keyword → Prop :=
  | go_last k rest :
      keyword k = None → (∀ b, block_grammar k = Some b → grammar_ok b) → grammar_ok (k :: rest)
  | go_cons k g :
      (∀ b, block_grammar k = Some b → grammar_ok b) → grammar_ok g → grammar_ok (k :: g).

Definition block_ok (k : Keyword) : Prop := ∀ b, block_grammar k = Some b → grammar_ok b.
Definition current_ok (cur : current) : Prop := ∀ k sub, cur = Some (k, sub) → block_ok k.

Lemma find_keyword_ok g w :
  grammar_ok g → ∃ o, find_keyword g w = Ok o ∧ ∀ k, o = Some k → block_ok k.
Proof.
  induction 1 as [k rest Hk Hb _|k g Hb _ Hg (o & IH & Ho)].
  - cbn. rewrite Hk. eexists. split; [done|]. destruct (non_null (create k)); by intros k' [= <-].
  - cbn. destruct (keyword k) as [name|].
    + destruct (strncmp_eq name w (length w)); [|by exists o]. exists (Some k). split; [done|]. by intros k' [= <-].
    + eexists. split; [done|]. destruct (non_null (create k)); by intros k' [= <-].
Qed.

Lemma parse_word_ok context g cur w s :
  grammar_ok g → current_ok cur →
  ∃ r cur' s', parse_word context g cur w s = Ok (r, cur', s') ∧ current_ok cur'.
Proof.
  intros Hg Hcur. unfold parse_word. destruct (find_keyword_ok g w Hg) as (o & -> & Ho). outcome_simpl.
  assert (∃ r cur' s',
    match o with
    | None => Ok (-1, None, s)
    | Some k =>
        let '(sub, s) := match create k with Some f => f s | None => (Some context, s) end in
        match sub with
        | None => Ok (-1, None, s)
        | Some sub =>
            match keyword k with
            | None => let '(r, s) := call_parse_arg k sub w s in Ok (r, Some (k, sub), s)
            | Some _ => Ok (1, Some (k, sub), s)
            end
        end
    end = Ok (r, cur', s') ∧ current_ok cur') as Hstart.
  { destruct o as [k|]; [|by eexists _, _, _]. specialize (Ho k eq_refl).
    destruct (match create k with Some f => f s | None => (Some context, s) end) as [[sub|] s1]; [|by eexists _, _, _].
    destruct (keyword k); [|destruct (call_parse_arg k sub w s1)]; eexists _, _, _; (split; [done|]);
      by intros k' sub' [= <- <-]. }
  destruct cur as [[k sub]|]; [|done]. destruct (parse_arg k) as [f|]; [|done].
  destruct (f sub w s) as [r s']. by eexists _, _, _.
Qed.

Lemma parse_loop_total fuel fresh context g cur buffer file s :
  (length file < fuel)%nat → Zlen fresh = sizeof_buffer → Zlen buffer = sizeof_buffer →
  grammar_ok g → current_ok cur →
  ∃ r file' s', parse_loop fuel fresh context g cur buffer file s = Ok (r, file', s') ∧
                (length file' ≤ length file)%nat.
Proof.
  intros Hf Hfresh. revert context g cur buffer file s Hf.
  induction fuel as [|fuel IH]; intros context g cur buffer file s Hf Hb Hg Hcur; [lia|].
  destruct (next_token_safe sizeof_buffer file buffer) as (tok & b & r & Heq & Hlb & Hlr & Hlt & Hword).
  { rewrite Hb. unfold sizeof_buffer. lia. }
  cbn [parse_loop]. rewrite Heq. outcome_simpl. rewrite Hb in Hlb.
  assert (current_ok None) as Hnone by done.
  assert (∀ cur s r0, current_ok cur → (length r0 < length file)%nat → ∃ r' file' s',
    parse_loop fuel fresh context g cur b r0 s = Ok (r', file', s') ∧ (length file' ≤ length file)%nat) as Hnext.
  { intros cur1 s1 r0 Hcur1 Hr0. destruct (IH context g cur1 b r0 s1) as (r' & f' & s' & ? & ?); [lia|done..|].
    exists r', f', s'. split; [done|lia]. }
  destruct tok; try (eexists _, _, _; split; [done|lia]).
  - destruct (end_statement context cur s) as [res s1]. destruct (res <=? 0); [eexists _, _, _; split; [done|lia]|].
    apply Hnext; [done|]. by apply Hlt.
  - destruct cur as [[k sub]|]; [|eexists _, _, _; split; [done|lia]].
    destruct (block_grammar k) as [block|] eqn:Hblk; [|eexists _, _, _; split; [done|lia]].
    assert (length r < length file)%nat as Hr by (by apply Hlt).
    destruct (IH sub block None fresh r s) as (res & f1 & s1 & -> & Hl1); [lia|done|by eapply Hcur|done|].
    outcome_simpl. destruct (if 0 <? res then call_finalize k context sub s1 else (res, s1)) as [res' s2].
    destruct (res' <=? 0); [eexists _, _, _; split; [done|lia]|]. apply Hnext; [done|lia].
  - destruct (Hword eq_refl) as (w & Hw). rewrite Hw. outcome_simpl.
    destruct (parse_word_ok context g cur w s Hg Hcur) as (res & cur1 & s1 & -> & Hcur1). outcome_simpl.
    destruct (res <=? 0); [eexists _, _, _; split; [done|lia]|]. apply Hnext; [done|]. by apply Hlt.
Qed.

(** * Configurations as trees

    A directive is the words of a line, and the directives of a block that follows them. *)

Inductive directive : Type := Directive (words : list (list Z)) (block : option (list directive)).

Definition print_words (ws : list (list Z)) : list Z := flat_map (λ w, quote w ++ [32]) ws.

Fixpoint print_directive (d : directive) : list Z :=
  match d with
  | Directive ws None => print_words ws ++ [LF]
  | Directive ws (Some ds) => print_words ws ++ [123; LF] ++ flat_map print_directive ds ++ [125; LF]
  end.

Definition print_config (ds : list directive) : list Z := flat_map print_directive ds.

(** Running the callbacks along the tree: the specification of the parser. *)
Fixpoint exec_words (context : ptr) (g : list Keyword) (cur : current) (ws : list (list Z)) (s : state)
    : outcome (Z * current * state) :=
  match ws with
  | [] => Ok (1, cur, s)
  | w :: ws =>
      '(r, cur, s) ← parse_word context g cur w s;
      if r <=? 0 then Ok (r, cur, s) else exec_words context g cur ws s
  end.

Definition exec_seq (f : directive → state → outcome (Z * state)) : list directive → state → outcome (Z * state) :=
  fix go ds s :=
    match ds with
    | [] => Ok (1, s)
    | d :: ds => '(r, s) ← f d s; if r <=? 0 then Ok (r, s) else go ds s
    end.

Fixpoint exec_directive (context : ptr) (g : list Keyword) (d : directive) (s : state) : outcome (Z * state) :=
  match d with
  | Directive ws block =>
      '(r, cur, s) ← exec_words context g None ws s;
      if r <=? 0 then Ok (r, s) else
      match block with
      | None => Ok (end_statement context cur s)
      | Some ds =>
          match cur with
          | Some (k, sub) =>
              match block_grammar k with
              | Some block =>
                  '(r, s) ← exec_seq (exec_directive sub block) ds s;
                  Ok (if 0 <? r then call_finalize k context sub s else (r, s))
              | None => Ok (-1, s)
              end
          | None => Ok (-1, s)
          end
      end
  end.

Definition exec_config (context : ptr) (g : list Keyword) : list directive → state → outcome (Z * state) :=
  exec_seq (exec_directive context g).

(** The words the tokenizer can return. *)
Definition word_ok (w : list Z) : Prop := Zlen w < sizeof_buffer ∧ 0 ∉ w.

Inductive directive_ok : directive → Prop :=
  | do_line ws : Forall word_ok ws → directive_ok (Directive ws None)
  | do_block ws ds :
      Forall word_ok ws → (∀ d, d ∈ ds → directive_ok d) → directive_ok (Directive ws (Some ds)).

(** ** One round of the loop *)

Section rounds.
Context (fresh : list Z) (context : ptr) (g : list Keyword).
Context (Hfresh : Zlen fresh = sizeof_buffer).

Lemma loop_blank fuel cur buffer file s :
  parse_loop fuel fresh context g cur buffer (32 :: file) s = parse_loop fuel fresh context g cur buffer file s.
Proof. by destruct fuel. Qed.

Lemma loop_eol fuel cur buffer file s :
  parse_loop (S fuel) fresh context g cur buffer (LF :: file) s =
    let '(r, s) := end_statement context cur s in
    if r <=? 0 then Ok (r, file, s) else parse_loop fuel fresh context g None buffer file s.
Proof. done. Qed.

Lemma loop_obrace fuel k sub block buffer file s :
  block_grammar k = Some block →
  parse_loop (S fuel) fresh context g (Some (k, sub)) buffer (123 :: file) s =
    '(r, file, s) ← parse_loop fuel fresh sub block None fresh file s;
    let '(r, s) := if 0 <? r then call_finalize k context sub s else (r, s) in
    if r <=? 0 then Ok (r, file, s) else parse_loop fuel fresh context g None buffer file s.
Proof. intros Hk. cbn. by rewrite Hk. Qed.

Lemma loop_word fuel cur buffer w file s :
  word_ok w → Zlen buffer = sizeof_buffer →
  ∃ buffer', Zlen buffer' = sizeof_buffer ∧
    parse_loop (S fuel) fresh context g cur buffer (quote w ++ 32 :: file) s =
      '(r, cur, s) ← parse_word context g cur w s;
      if r <=? 0 then Ok (r, 32 :: file, s) else parse_loop fuel fresh context g cur buffer' file s.
Proof.
  intros [Hw H0] Hb. 
  destruct (next_token_tokenizes sizeof_buffer (quote w ++ 32 :: file) buffer _ _ _
    ltac:(rewrite Hb; unfold sizeof_buffer; lia) (tokenizes_quote w 32 file eq_refl))
    as (tok & b & r & Heq & Hlb & _ & _ & Hres).
  cbn in Hres. rewrite decide_True in Hres by done. destruct Hres as (-> & -> & z & ->).
  exists (w ++ 0 :: z). split; [congruence|]. cbn [parse_loop]. rewrite Heq. outcome_simpl.
  pose proof (c_string_app [] w z 0 eq_refl H0) as Hc. cbn [app] in Hc. rewrite Hc. outcome_simpl.
  destruct (parse_word context g cur w s) as [[[res cur'] s']|]; [|done]. outcome_simpl.
  by rewrite loop_blank.
Qed.

(** The words of a line. *)
Lemma loop_words ws fuel cur buffer file s r cur' s' :
  Forall word_ok ws → Zlen buffer = sizeof_buffer →
  (length (print_words ws ++ file) < fuel)%nat →
  exec_words context g cur ws s = Ok (r, cur', s') →
  if r <=? 0 then ∃ file', parse_loop fuel fresh context g cur buffer (print_words ws ++ file) s = Ok (r, file', s')
  else ∃ fuel' buffer', Zlen buffer' = sizeof_buffer ∧ (length file < fuel')%nat ∧
    parse_loop fuel fresh context g cur buffer (print_words ws ++ file) s =
    parse_loop fuel' fresh context g cur' buffer' file s'.
Proof.
  intros Hws. revert fuel cur buffer s. induction Hws as [|w ws Hw _ IH]; intros fuel cur buffer s Hb Hf Hx.
  { injection Hx as <- <- <-. cbn. by exists fuel, buffer. }
  cbn [exec_words] in Hx. apply outcome_bind_Ok in Hx as ([[r1 cur1] s1] & Hword & Hx).
  unfold print_words in *. cbn [flat_map] in *. rewrite <- !app_assoc in *. cbn [app] in *.
  destruct fuel as [|fuel]; [lia|].
  destruct (loop_word fuel cur buffer w (flat_map (λ w, quote w ++ [32]) ws ++ file) s Hw Hb) as (b & Hlb & ->).
  rewrite Hword. outcome_simpl. destruct (r1 <=? 0) eqn:Hr.
  - injection Hx as <- <- <-. rewrite Hr. by eexists.
  - apply IH; [done| |done]. rewrite length_app in Hf. cbn [length] in Hf. lia.
Qed.
End rounds.

(** ** The whole tree *)

(** A directive is read in front of any [file]: it fails as on the tree, or the loop goes on
    behind it. *)
Definition directive_parses (d : directive) : Prop :=
  ∀ fresh context g fuel buffer file s r s',
  Zlen fresh = sizeof_buffer → Zlen buffer = sizeof_buffer →
  (length (print_directive d ++ file) < fuel)%nat → exec_directive context g d s = Ok (r, s') →
  if r <=? 0 then ∃ file', parse_loop fuel fresh context g None buffer (print_directive d ++ file) s = Ok (r, file', s')
  else ∃ fuel' buffer', Zlen buffer' = sizeof_buffer ∧ (length file < fuel')%nat ∧
    parse_loop fuel fresh context g None buffer (print_directive d ++ file) s =
    parse_loop fuel' fresh context g None buffer' file s'.

(** A configuration is read up to the end of the file or the closing brace. *)
Definition config_parses (ds : list directive) : Prop :=
  ∀ fresh context g fuel buffer tail s r s',
  Zlen fresh = sizeof_buffer → Zlen buffer = sizeof_buffer →
  tail = [] ∨ head tail = Some 125 → (length (print_config ds ++ tail) < fuel)%nat →
  exec_config context g ds s = Ok (r, s') →
  ∃ file', parse_loop fuel fresh context g None buffer (print_config ds ++ tail) s = Ok (r, file', s') ∧
           (0 < r → file' = drop 1 tail).

Lemma config_parses_all ds : (∀ d, d ∈ ds → directive_parses d) → config_parses ds.
Proof.
  induction ds as [|d ds IH]; intros Hall fresh context g fuel buffer tail s r s' Hfresh Hb Htail Hf Hx.
  { injection Hx as <- <-. destruct fuel as [|fuel]; [lia|]. exists (drop 1 tail).
    destruct Htail as [->|Htail]; [done|]. destruct tail; [done|]. by injection Htail as ->. }
  cbn [exec_config exec_seq] in Hx. apply outcome_bind_Ok in Hx as ([r1 s1] & Hd & Hx).
  unfold print_config in Hf |- *. cbn [flat_map] in Hf |- *. rewrite <- app_assoc in Hf |- *.
  pose proof (Hall d ltac:(left) fresh context g fuel buffer _ s r1 s1 Hfresh Hb Hf Hd) as H1.
  destruct (r1 <=? 0) eqn:Hr1.
  - destruct H1 as (file' & ->). injection Hx as <- <-. exists file'. split; [done|]. lia.
  - destruct H1 as (fuel' & b & Hlb & Hf' & ->). apply IH; try done. intros; apply Hall. by right.
Qed.

Lemma print_block ws ds file :
  print_directive (Directive ws (Some ds)) ++ file =
    print_words ws ++ 123 :: LF :: print_config ds ++ 125 :: LF :: file.
Proof. cbn [print_directive]. rewrite <- !app_assoc. done. Qed.

Lemma directive_parses_ok d : directive_ok d → directive_parses d.
Proof.
  induction 1 as [ws Hws|ws ds Hws _ IH]; intros fresh context g fuel buffer file s r s' Hfresh Hb Hf Hx;
    cbn [exec_directive] in Hx; apply outcome_bind_Ok in Hx as ([[r1 cur] s1] & Hwords & Hx).
  - cbn [print_directive] in *. rewrite <- app_assoc in *. cbn [app] in *.
    pose proof (loop_words fresh context g ws fuel None buffer _ s r1 cur s1 Hws Hb Hf Hwords) as H1.
    destruct (r1 <=? 0) eqn:Hr1; [injection Hx as <- <-; by rewrite Hr1|].
    destruct H1 as (fuel' & b & Hlb & Hf' & ->). destruct fuel' as [|fuel']; [lia|]. rewrite loop_eol.
    destruct (end_statement context cur s1) as [r2 s2]. injection Hx as -> ->.
    destruct (r <=? 0); [by eexists|]. exists fuel', b. split_and!; [done|cbn in Hf'; lia|done].
  - rewrite print_block in *.
    pose proof (loop_words fresh context g ws fuel None buffer _ s r1 cur s1 Hws Hb Hf Hwords) as H1.
    destruct (r1 <=? 0) eqn:Hr1; [injection Hx as <- <-; by rewrite Hr1|].
    destruct H1 as (fuel' & b & Hlb & Hf' & ->). destruct fuel' as [|fuel']; [lia|].
    cbn [length] in Hf'. rewrite length_app in Hf'. cbn [length] in Hf'.
    destruct cur as [[k sub]|]; [|injection Hx as <- <-; by eexists].
    destruct (block_grammar k) as [block|] eqn:Hk; [|injection Hx as <- <-; cbn; rewrite Hk; by eexists].
    apply outcome_bind_Ok in Hx as ([r2 s2] & Hseq & Hx). rewrite (loop_obrace _ _ _ _ _ _ block) by done.
    destruct fuel' as [|fuel']; [lia|]. rewrite loop_eol. cbn [end_statement Z.leb Z.compare].
    destruct (config_parses_all ds IH fresh sub block fuel' fresh (125 :: LF :: file) s1 r2 s2)
      as (file' & -> & Hfile'); [done|done|by right|rewrite length_app; cbn [length]; lia|done|].
    outcome_simpl. destruct (Z.ltb_spec 0 r2).
    + rewrite Hfile' by done. destruct (call_finalize k context sub s2) as [r3 s3]. injection Hx as -> ->.
      destruct (r <=? 0); [by eexists|]. cbn [drop]. rewrite loop_eol. cbn [end_statement Z.leb Z.compare].
      exists fuel', b. split_and!; [done|lia|done].
    + injection Hx as -> ->. rewrite (proj2 (Z.leb_le r 0)) by lia. by eexists.
Qed.

(** With a proper grammar the tree can always be run. *)
Lemma exec_words_ok context g cur ws s :
  grammar_ok g → current_ok cur →
  ∃ r cur' s', exec_words context g cur ws s = Ok (r, cur', s') ∧ current_ok cur'.
Proof.
  intros Hg. revert cur s. induction ws as [|w ws IH]; intros cur s Hcur; [by eexists _, _, _|].
  cbn. destruct (parse_word_ok context g cur w s Hg Hcur) as (r & cur1 & s1 & -> & Hcur1). outcome_simpl.
  destruct (r <=? 0); [by eexists _, _, _|by apply IH].
Qed.

Lemma exec_seq_ok f ds s :
  (∀ d s, d ∈ ds → ∃ r s', f d s = Ok (r, s')) → ∃ r s', exec_seq f ds s = Ok (r, s').
Proof.
  revert s. induction ds as [|d ds IH]; intros s Hf; [by eexists _, _|]. cbn.
  destruct (Hf d s) as (r & s1 & ->); [left|]. outcome_simpl. destruct (r <=? 0); [by eexists _, _|].
  apply IH. intros d' s' Hd. apply Hf. by right.
Qed.

Lemma exec_directive_ok d :
  directive_ok d → ∀ context g s, grammar_ok g → ∃ r s', exec_directive context g d s = Ok (r, s').
Proof.
  induction 1 as [ws Hws|ws ds Hws _ IH]; intros context g s Hg; cbn [exec_directive];
    destruct (exec_words_ok context g None ws s Hg) as (r & cur & s1 & -> & Hcur); [done| |done|];
    outcome_simpl; (destruct (r <=? 0); [by eexists _, _|]).
  - destruct (end_statement context cur s1). by eexists _, _.
  - destruct cur as [[k sub]|]; [|by eexists _, _]. destruct (block_grammar k) as [block|] eqn:Hb; [|by eexists _, _].
    destruct (exec_seq_ok (exec_directive sub block) ds s1) as (r2 & s2 & ->).
    { intros d s2 Hd. apply IH; [done|]. by eapply Hcur. }
    outcome_simpl. destruct (if 0 <? r2 then _ else _). by eexists _, _.
Qed.

(** * Callbacks with contracts

    A grammar keeps an invariant when each of its callbacks does.  [I] holds between the
    statements of a block, [J sub] while a statement with the object [sub] is read, and
    [E] after a callback that refused. *)

Section contracts.
Context (E : state → Prop).

(** A callback that ends with [r] in the state [s]. *)
Definition keeps (Q : state → Prop) (r : Z * state) : Prop := if 0 <? r.1 then Q r.2 else E r.2.

Record keyword_contract (context : ptr) (I : state → Prop) (k : Keyword) (J : ptr → state → Prop) : Prop := {
  kc_create s : I s →
    match create k with
    | None => J context s
    | Some f =>
        match f s with
        | (None, s') => E s'
        | (Some sub, s') =>
            match keyword k with
            | Some _ => J sub s'
            | None => ∀ w, word_ok w → keeps (J sub) (call_parse_arg k sub w s')
            end
        end
    end;
  kc_parse_arg f sub w s : parse_arg k = Some f → word_ok w → J sub s → keeps (J sub) (f sub w s);
  kc_finalize sub s : J sub s → keeps I (call_finalize k context sub s);
  kc_abandon sub s : J sub s → I s
}.

Inductive grammar_contract (context : ptr) (I : state → Prop) (g : list Keyword) : Prop :=
  | gc_intro :
      (∀ s, I s → E s) →
      (∀ k, k ∈ g → is_Some (keyword k) ∨ is_Some (create k) → ∃ J, keyword_contract context I k J ∧
         ∀ b sub s, block_grammar k = Some b → J sub s → grammar_contract sub (J sub) b) →
      grammar_contract context I g.

(** The state while the statement [cur] is read. *)
Definition current_contract (context : ptr) (I : state → Prop) (g : list Keyword) (cur : current) (s : state) : Prop :=
  match cur with
  | None => I s
  | Some (k, sub) =>
      ∃ J, keyword_contract context I k J ∧ J sub s ∧
        ∀ b sub s, block_grammar k = Some b → J sub s → grammar_contract sub (J sub) b
  end.

Lemma find_keyword_in g w k : find_keyword g w = Ok (Some k) → k ∈ g ∧ (is_Some (keyword k) ∨ is_Some (create k)).
Proof.
  induction g as [|k' g IH]; cbn [find_keyword]; [done|]. destruct (keyword k') as [n|] eqn:Hk.
  - destruct (strncmp_eq _ _ _); [intros [= <-]; split; [left|rewrite Hk; eauto]|].
    intros [? ?]%IH. split; [by right|done].
  - destruct (create k') eqn:Hc; [|done]. intros [= <-]. split; [left|rewrite Hc; eauto].
Qed.

(** A word keeps the contract. *)
Lemma parse_word_contract context I g cur w s r cur' s' :
  grammar_contract context I g → current_contract context I g cur s → word_ok w →
  parse_word context g cur w s = Ok (r, cur', s') →
  if 0 <? r then current_contract context I g cur' s' else E s'.
Proof.
  intros Hg Hcur Hw Hp. pose proof Hg as [HE Hks].
  assert (∀ s, I s → 
    (k ← find_keyword g w;
     match k with
     | None => Ok (-1, None, s)
     | Some k =>
         let '(sub, s) := match create k with Some f => f s | None => (Some context, s) end in
         match sub with
         | None => Ok (-1, None, s)
         | Some sub =>
             match keyword k with
             | None => let '(r, s) := call_parse_arg k sub w s in Ok (r, Some (k, sub), s)
             | Some _ => Ok (1, Some (k, sub), s)
             end
         end
     end) = Ok (r, cur', s') → if 0 <? r then current_contract context I g cur' s' else E s') as Hstart.
  { clear Hp Hcur s. intros s HI (o & Hfind & Hx)%outcome_bind_Ok.
    destruct o as [k|]; [|injection Hx as <- <- <-; by apply HE].
    apply find_keyword_in in Hfind as [Hk Hcr]. destruct (Hks k Hk Hcr) as (J & Hc & Hb).
    pose proof (kc_create _ _ _ _ Hc s HI) as Hcreate.
    destruct (create k) as [f|].
    - destruct (f s) as [[sub|] s1]; [|by injection Hx as <- <- <-].
      destruct (keyword k); [injection Hx as <- <- <-; by exists J|].
      specialize (Hcreate w Hw). destruct (call_parse_arg k sub w s1) as [r1 s2]. injection Hx as <- <- <-.
      unfold keeps in Hcreate. cbn in Hcreate. destruct (0 <? r1); [by exists J|done].
    - destruct Hcr as [[n Hn]|[? ?]]; [|done]. rewrite Hn in Hx. injection Hx as <- <- <-. by exists J. }
  unfold parse_word in Hp. destruct cur as [[k sub]|]; [|by apply (Hstart s)].
  destruct Hcur as (J & Hc & HJ & Hb). destruct (parse_arg k) as [f|] eqn:Hf.
  - pose proof (kc_parse_arg _ _ _ _ Hc f sub w s Hf Hw HJ) as Hkeep. destruct (f sub w s) as [r1 s1].
    injection Hp as <- <- <-. unfold keeps in Hkeep. cbn in Hkeep. destruct (0 <? r1); [by exists J|done].
  - apply (Hstart s); [|done]. by apply (kc_abandon _ _ _ _ Hc sub).
Qed.

Lemma c_string_word_ok b w : Zlen b = sizeof_buffer → c_string b 0 = Ok w → word_ok w.
Proof.
  intros Hb Hw. destruct (c_string_Ok b 0 w Hw) as (z & Hz & H0). split; [|done].
  rewrite drop_0 in Hz. rewrite Hz, Zlen_app, Zlen_cons in Hb. pose proof (Zlen_nonneg z). lia.
Qed.

(** The parser keeps the contract: after a successful parse the invariant of the block holds
    again, and after a failed one [E]. *)
Lemma parse_loop_contract fuel fresh context I g cur buffer file s r file' s' :
  Zlen fresh = sizeof_buffer → Zlen buffer = sizeof_buffer →
  grammar_contract context I g → current_contract context I g cur s →
  parse_loop fuel fresh context g cur buffer file s = Ok (r, file', s') →
  if 0 <? r then I s' else E s'.
Proof.
  intros Hfresh. revert context I g cur buffer file s r file' s'.
  induction fuel as [|fuel IH]; intros context I g cur buffer file s r file' s' Hb Hg Hcur; [done|].
  cbn [parse_loop]. destruct (next_token_safe sizeof_buffer file buffer) as (tok & b & f1 & -> & Hlb & _);
    [rewrite Hb; by unfold sizeof_buffer|].
  outcome_simpl. rewrite Hb in Hlb.
  assert (I s) as HI. { destruct cur as [[k sub]|]; [|done]. destruct Hcur as (J & Hc & HJ & _). by apply (kc_abandon _ _ _ _ Hc sub). }
  assert (E s) as HEs by (destruct Hg as [HE _]; auto).
  assert (∀ s1 r1, keeps I (r1, s1) → (if r1 <=? 0 then Ok (r1, f1, s1)
    else parse_loop fuel fresh context g None b f1 s1) = Ok (r, file', s') → if 0 <? r then I s' else E s') as Hnext.
  { intros s1 r1 Hk. unfold keeps in Hk. cbn in Hk. destruct (Z.leb_spec r1 0).
    - intros [= <- <- <-]. by rewrite (proj2 (Z.ltb_ge 0 r1)) in Hk |- *.
    - rewrite (proj2 (Z.ltb_lt 0 r1)) in Hk by done. by apply IH. }
  destruct tok.
  - by intros [= <- <- <-].
  - assert (keeps I (end_statement context cur s)) as Hk.
    { destruct cur as [[k sub]|]; [|done]. destruct Hcur as (J & Hc & HJ & _). by apply (kc_finalize _ _ _ _ Hc). }
    destruct (end_statement context cur s) as [r1 s1]. by apply Hnext.
  - destruct cur as [[k sub]|]; [|by intros [= <- <- <-]].
    destruct (block_grammar k) as [block|] eqn:Hblk; [|by intros [= <- <- <-]].
    destruct Hcur as (J & Hc & HJ & Hblock). intros ([[r1 f2] s1] & Hx & Hrest)%outcome_bind_Ok.
    apply (IH sub (J sub) block None) in Hx; [|done|by apply (Hblock block sub s)|done].
    destruct (Z.ltb_spec 0 r1).
    + pose proof (kc_finalize _ _ _ _ Hc sub s1 Hx) as Hk. destruct (call_finalize k context sub s1) as [r2 s2].
      unfold keeps in Hk. cbn in Hk. destruct (Z.leb_spec r2 0).
      * injection Hrest as <- <- <-. by rewrite (proj2 (Z.ltb_ge 0 r2)) in Hk |- *.
      * rewrite (proj2 (Z.ltb_lt 0 r2)) in Hk by done. by eapply IH in Hrest.
    + rewrite (proj2 (Z.leb_le r1 0)) in Hrest by done. injection Hrest as <- <- <-.
      by rewrite (proj2 (Z.ltb_ge 0 r1)).
  - by intros [= <- <- <-].
  - intros (w & Hw & Hx)%outcome_bind_Ok. apply c_string_word_ok in Hw; [|done].
    apply outcome_bind_Ok in Hx as ([[r1 cur1] s1] & Hword & Hx).
    pose proof (parse_word_contract context I g cur w s r1 cur1 s1 Hg Hcur Hw Hword) as Hkeep.
    destruct (Z.leb_spec r1 0).
    + injection Hx as <- <- <-. by rewrite (proj2 (Z.ltb_ge 0 r1)) in Hkeep |- *.
    + rewrite (proj2 (Z.ltb_lt 0 r1)) in Hkeep by done. by eapply IH in Hx.
  - by intros [= <- <- <-].
Qed.

Lemma parse_config_contract fresh context I g file s :
  Zlen fresh = sizeof_buffer → grammar_ok g → grammar_contract context I g → I s →
  ∃ r file' s', parse_config fresh context file g s = Ok (r, file', s') ∧ if 0 <? r then I s' else E s'.
Proof.
  intros Hfresh Hok Hg HI. unfold parse_config.
  destruct (parse_loop_total (S (length file)) fresh context g None fresh file s) as (r & f' & s' & Heq & _); [lia|done..|].
  exists r, f', s'. split; [done|]. by eapply parse_loop_contract in Heq.
Qed.
End contracts.

(** * Properties *)

(** C37: [parse_config] ends on every file, whatever the callbacks do: each round of the loop but the
    last takes a character off the file, and the array is never left. *)
Theorem parse_config_total fresh context file g s :
  Zlen fresh = sizeof_buffer → grammar_ok g →
  ∃ r file' s', parse_config fresh context file g s = Ok (r, file', s') ∧ (length file' ≤ length file)%nat.
Proof. intros Hfresh Hg. apply parse_loop_total; try done. lia. Qed.

(** C36: parsing the text of a tree of directives is running the callbacks along the tree: keywords
    are looked up in the grammar of their block, arguments and the ends of lines and blocks go
    to the keyword they belong to, and the first callback that refuses ends the parse with its
    result; otherwise the whole file is read. *)
Theorem parse_print_config fresh context g ds s :
  Zlen fresh = sizeof_buffer → grammar_ok g → (∀ d, d ∈ ds → directive_ok d) →
  ∃ r file' s', exec_config context g ds s = Ok (r, s') ∧
    parse_config fresh context (print_config ds) g s = Ok (r, file', s') ∧ (0 < r → file' = []).
Proof.
  intros Hfresh Hg Hds.
  destruct (exec_seq_ok (exec_directive context g) ds s) as (r & s' & Hx).
  { intros d s1 Hd. apply exec_directive_ok; auto. }
  destruct (config_parses_all ds (λ d Hd, directive_parses_ok d (Hds d Hd)) fresh context g
    (S (length (print_config ds))) fresh [] s r s') as (file' & Hp & Hfile'); [done|done|by left|rewrite app_nil_r; lia|done|].
  rewrite app_nil_r in Hp. by exists r, file', s'.
Qed.

(** Braces need not match: a closing brace outside any block ends the parse with success, and
    what follows it is ignored; and a block that the end of the file cuts off before its
    closing brace is accepted as if the brace were there. *)
Theorem unbalanced_braces_accepted fresh context g ds s :
  Zlen fresh = sizeof_buffer → (∀ d, d ∈ ds → directive_ok d) →
  (∀ rest s', exec_config context g ds s = Ok (1, s') →
     parse_config fresh context (print_config ds ++ 125 :: rest) g s = Ok (1, rest, s')) ∧
  (∀ ws r s', Forall word_ok ws →
     exec_directive context g (Directive ws (Some ds)) s = Ok (r, s') → 0 < r →
     parse_config fresh context (print_words ws ++ 123 :: LF :: print_config ds) g s = Ok (1, [], s')).
Proof.
  intros Hfresh Hds. pose proof (config_parses_all ds (λ d Hd, directive_parses_ok d (Hds d Hd))) as Hparses.
  split.
  - intros rest s' Hx. unfold parse_config.
    destruct (Hparses fresh context g (S (length (print_config ds ++ 125 :: rest))) fresh (125 :: rest) s 1 s')
      as (file' & -> & Hfile'); [done|done|by right|lia|done|]. by rewrite Hfile'.
  - intros ws r s' Hws Hx Hr. unfold parse_config. cbn [exec_directive] in Hx.
    apply outcome_bind_Ok in Hx as ([[r1 cur] s1] & Hwords & Hx).
    pose proof (loop_words fresh context g ws _ None fresh _ s r1 cur s1 Hws Hfresh
      (Nat.lt_succ_diag_r (length (print_words ws ++ 123 :: LF :: print_config ds))) Hwords) as H1.
    destruct (Z.leb_spec r1 0); [injection Hx as <- <-; lia|].
    destruct H1 as (fuel' & b & Hlb & Hf' & ->). cbn [length] in Hf'.
    destruct fuel' as [|[|fuel']]; [lia..|].
    destruct cur as [[k sub]|]; [|injection Hx as <- <-; lia].
    destruct (block_grammar k) as [block|] eqn:Hk; [|injection Hx as <- <-; lia].
    apply outcome_bind_Ok in Hx as ([r2 s2] & Hseq & Hx).
    rewrite (loop_obrace _ _ _ _ _ _ block), loop_eol by done.
    cbn [end_statement Z.leb Z.compare].
    destruct (Hparses fresh sub block fuel' fresh [] s1 r2 s2) as (file' & Hp & Hfile');
      [done|done|by left|rewrite app_nil_r; lia|done|].
    rewrite app_nil_r in Hp. rewrite Hp. outcome_simpl.
    destruct (Z.ltb_spec 0 r2); [|injection Hx as <- <-; lia]. rewrite Hfile' by done.
    destruct (call_finalize k context sub s2) as [r3 s3]. injection Hx as -> ->. zcase. done.
Qed.
End parser.

(** * Witnesses *)

(** A grammar with blocks "table" whose lines are collected. *)
Definition ex_entry : @Keyword (list (list Z)) unit :=
  mkKeyword None (Some (λ s, (Some (), s))) (Some (λ _ w s, (1, s ++ [w]))) None None.
Definition ex_grammar : list (@Keyword (list (list Z)) unit) :=
  [ mkKeyword (Some (bytes "table")) (Some (λ s, (Some (), s))) (Some (λ _ w s, (1, s ++ [w])))
      (Some [ex_entry]) (Some (λ _ _ s, (1, s ++ [bytes "end"])));
    mkKeyword None None None None None ].
Definition ex_tree : list directive :=
  [Directive [bytes "table"; bytes "hosts"] (Some [Directive [bytes "a.example"; bytes "b;c"] None])].

Lemma ex_grammar_ok : grammar_ok ex_grammar.
Proof.
  apply go_cons.
  - intros b [= <-]. apply go_last; done.
  - apply go_last; done.
Qed.

Lemma word_ok_checked w : bool_decide (Zlen w < sizeof_buffer ∧ 0 ∉ w) = true → word_ok w.
Proof. apply bool_decide_eq_true. Qed.

Lemma ex_tree_ok d : d ∈ ex_tree → directive_ok d.
Proof.
  unfold ex_tree. intros ->%list_elem_of_singleton. apply do_block.
  - rewrite !Forall_cons. split_and!; [by apply word_ok_checked; vm_compute..|done].
  - intros d ->%list_elem_of_singleton. apply do_line.
    rewrite !Forall_cons. split_and!; [by apply word_ok_checked; vm_compute..|done].
Qed.

Lemma parse_config_total_witness :
  ∃ r file' s', parse_config (replicate 256 0) () (bytes "table { x") ex_grammar [] = Ok (r, file', s') ∧
    (length file' ≤ 9)%nat.
Proof.
  apply (parse_config_total (replicate 256 0) () (bytes "table { x") ex_grammar []); [by vm_compute|apply ex_grammar_ok].
Defined.

Lemma parse_print_config_witness :
  ∃ r file' s', exec_config () ex_grammar ex_tree [] = Ok (r, s') ∧
    parse_config (replicate 256 0) () (print_config ex_tree) ex_grammar [] = Ok (r, file', s') ∧ (0 < r → file' = []).
Proof.
  apply (parse_print_config (replicate 256 0) () ex_grammar ex_tree []);
    [by vm_compute|apply ex_grammar_ok|apply ex_tree_ok].
Defined.

Lemma unbalanced_braces_accepted_witness :
  parse_config (replicate 256 0) () (print_config ex_tree ++ 125 :: bytes "anything") ex_grammar [] =
    Ok (1, bytes "anything", [bytes "hosts"; bytes "a.example"; bytes "b;c"; bytes "end"]).
Proof.
  refine (proj1 (unbalanced_braces_accepted (replicate 256 0) () ex_grammar ex_tree [] _ _) _ _ _);
    [by vm_compute|apply ex_tree_ok|by vm_compute].
Defined.
