(* ===== verification/Config.v ===== *)
(** Building, reloading and freeing the configuration (src/config.c): the grammar of the
    configuration file with the callbacks that create and fill the objects of the program. *)

From S2P Require Import Prelude CString Protocol RefCount Address Resolv Backend Table Listener Logger ListenerReload CfgTokenizer CfgParser.
From stdpp Require Import list gmap sorting.

#[local] Open Scope Z_scope.

(** * Data *)

(** A [char **] is NULL or an array that ends with NULL. *)
Record ResolverConfig := mkResolver {
  nameservers : option (list (list Z));
  search      : option (list (list Z));
  rmode       : Z                        (* mode *)
}.

Record Config := mkConfig {
  filename    : option (list Z);
  user        : option (list Z);
  group       : option (list Z);
  pidfile     : option (list Z);
  resolver    : ResolverConfig;
  caccess_log : option loc;              (* access_log *)
  listeners   : list loc;
  tables      : list loc
}.

Record LoggerBuilder := mkBuilder {
  lbfilename      : option (list Z);     (* filename *)
  syslog_facility : option (list Z);
  lbpriority      : Z                    (* priority *)
}.

(** What a [void *] of the parser points to. *)
Inductive cfg_ptr : Type :=
  | PConfig
  | PListener (x : loc)
  | PTable (x : loc)
  | PBackend (x : loc)
  | PLogger (x : loc)
  | PResolver (x : loc).

(** The objects of the program, the configuration that is being built, and the objects that
    only exist while a statement is read. *)
Record cfg_state (pcre : Type) := mkCfg {
  cworld    : world pcre;
  config    : Config;
  cbackends : gmap loc (Backend pcre);
  builders  : gmap loc LoggerBuilder;
  resolvers : gmap loc ResolverConfig
}.
Arguments mkCfg {pcre} _ _ _ _ _.
Arguments cworld {pcre} _.
Arguments config {pcre} _.
Arguments cbackends {pcre} _.
Arguments builders {pcre} _.
Arguments resolvers {pcre} _.

Definition set_cworld {pcre} (x : world pcre) (s : cfg_state pcre) : cfg_state pcre :=
  mkCfg x (config s) (cbackends s) (builders s) (resolvers s).
Definition set_config {pcre} (x : Config) (s : cfg_state pcre) : cfg_state pcre :=
  mkCfg (cworld s) x (cbackends s) (builders s) (resolvers s).
Definition set_cbackends {pcre} (x : gmap loc (Backend pcre)) (s : cfg_state pcre) : cfg_state pcre :=
  mkCfg (cworld s) (config s) x (builders s) (resolvers s).
Definition set_builders {pcre} (x : gmap loc LoggerBuilder) (s : cfg_state pcre) : cfg_state pcre :=
  mkCfg (cworld s) (config s) (cbackends s) x (resolvers s).
Definition set_resolvers {pcre} (x : gmap loc ResolverConfig) (s : cfg_state pcre) : cfg_state pcre :=
  mkCfg (cworld s) (config s) (cbackends s) (builders s) x.

Definition set_user (x : option (list Z)) (c : Config) : Config :=
  mkConfig (filename c) x (group c) (pidfile c) (resolver c) (caccess_log c) (listeners c) (tables c).
Definition set_group (x : option (list Z)) (c : Config) : Config :=
  mkConfig (filename c) (user c) x (pidfile c) (resolver c) (caccess_log c) (listeners c) (tables c).
Definition set_pidfile (x : option (list Z)) (c : Config) : Config :=
  mkConfig (filename c) (user c) (group c) x (resolver c) (caccess_log c) (listeners c) (tables c).
Definition set_resolver (x : ResolverConfig) (c : Config) : Config :=
  mkConfig (filename c) (user c) (group c) (pidfile c) x (caccess_log c) (listeners c) (tables c).
Definition set_caccess_log (x : option loc) (c : Config) : Config :=
  mkConfig (filename c) (user c) (group c) (pidfile c) (resolver c) x (listeners c) (tables c).
Definition set_lists (ls ts : list loc) (c : Config) : Config :=
  mkConfig (filename c) (user c) (group c) (pidfile c) (resolver c) (caccess_log c) ls ts.

(** Fields of a listener the configuration sets. *)
Definition set_laccess_log (x : option loc) (l : Listener) : Listener :=
  mkListener (laddress l) (fallback_address l) (source_address l) (protocol l) (table_name l) x
    (log_bad_requests l) (reuseport l) (transparent_proxy l) (ipv6_v6only l)
    (fallback_use_proxy_header l) (lreference_count l) (watcher_fd l) (watcher_active l)
    (backoff_active l) (ltable l) (accept_cb l).
Definition set_accept_cb (l : Listener) : Listener :=
  mkListener (laddress l) (fallback_address l) (source_address l) (protocol l) (table_name l) (access_log l)
    (log_bad_requests l) (reuseport l) (transparent_proxy l) (ipv6_v6only l)
    (fallback_use_proxy_header l) (lreference_count l) (watcher_fd l) (watcher_active l)
    (backoff_active l) (ltable l) true.

(** * The environment *)

(** What the system and the build offer while a configuration is read.  [ftell_first] is the
    order in which the compiler evaluates two arguments of a call that reports an error. *)
Record cfg_env := mkCfgEnv {
  cinet_pton       : Z → list Z → option (list Z);
  cinet_ntop       : Z → list Z → list Z;
  cmalloc          : Z → bool;
  have_libudns     : bool;
  chave_reuseport  : bool;
  chave_v6only     : bool;
  have_transparent : bool;
  clog             : log_env;
  ctext            : list Z → option (list Z);   (* fopen for reading: the contents *)
  cbuffer          : list Z;                     (* the uninitialised array of parse_config *)
  ftell_first      : bool
}.

Section config.
Context {pcre : Type} (e : cfg_env).
Local Abbreviation C := (ST (cfg_state pcre)).
Local Abbreviation W := (ST (world pcre)).

Definition on_world {A} (m : W A) : C A := zoom cworld set_cworld m.
Definition cerr (text : list Z) : C unit := on_world (on_log (err (clog e) text)).
Definition strdup (s : list Z) : option (list Z) := if cmalloc e (Zlen s + 1) then Some s else None.

(** ** The global statements *)

(** The body that the callbacks for a single string share. *)
Definition accept_string (get : Config → option (list Z)) (set : option (list Z) → Config → Config)
    (duplicate strdup_failed : list Z) (word : list Z) : C Z :=
  c ← gets config;
  match get c with
  | Some _ => cerr (duplicate ++ word) ≫= λ _, mret 0
  | None =>
      modify (λ s, set_config (set (strdup word) (config s)) s) ≫= λ _,
      match strdup word with
      | None => cerr strdup_failed ≫= λ _, mret (-1)
      | Some _ => mret 1
      end
  end.

Definition accept_username : list Z → C Z :=
  accept_string user set_user (bytes "Duplicate username: ") (bytes "accept_username: strdup").
Definition accept_groupname : list Z → C Z :=
  accept_string group set_group (bytes "Duplicate groupname: ") (bytes "accept_groupname: strdup").
Definition accept_pidfile : list Z → C Z :=
  accept_string pidfile set_pidfile (bytes "Duplicate pidfile: ") (bytes "accept_pidfile: strdup").

(** ** Listeners *)

Definition cnew_listener : C (option loc) :=
  match new_listener (cmalloc e) with
  | None => mret None
  | Some l =>
      w ← gets cworld;
      let x := fresh (dom (wlisteners w)) in
      modify (set_cworld (set_wlisteners (<[x := l]> (wlisteners w)) w)) ≫= λ _,
      mret (Some x)
  end.

(** A callback of listener.c on the listener at [x]. *)
Definition on_listener (x : loc) (f : Listener → outcome (Z * Listener)) : C Z :=
  l ← on_world (get_listener x);
  '(r, l) ← lift (f l);
  on_world (set_listener x (λ _, l)) ≫= λ _,
  mret r.

Definition end_listener_stanza (x : loc) : C Z :=
  on_world (set_listener x set_accept_cb) ≫= λ _,
  l ← on_world (get_listener x);
  valid ← lift (valid_listener l);
  if valid <=? 0 then
    cerr (bytes "Invalid listener") ≫= λ _,
    lift (print_listener_config (cinet_ntop e) l) ≫= λ _,
    on_world (on_listeners (λ h, h ← listener_ref_get h x; Ok ((), h))) ≫= λ _,
    l ← on_world (get_listener x);
    lift (c_assert (lreference_count l =? 1)) ≫= λ _,
    on_world (listener_ref_put (Some x)) ≫= λ _,
    mret (-1)
  else
    c ← gets config;
    ls ← on_world (on_listeners (λ h, '(h, ls) ← add_listener h (listeners c) x; Ok (ls, h)));
    modify (set_config (set_lists ls (tables c) c)) ≫= λ _,
    mret 1.

(** ** Tables *)

Definition cnew_table : C (option loc) :=
  w ← gets cworld;
  match new_table (cmalloc e) (wtables w) with
  | None => mret None
  | Some (x, h) => modify (set_cworld (set_wtables h w)) ≫= λ _, mret (Some x)
  end.

Definition get_table (x : loc) : C (Table pcre) := w ← gets cworld; lift (deref (wtables w) x).
Definition put_table (x : loc) (t : Table pcre) : C unit :=
  modify (λ s, set_cworld (set_wtables (<[x := t]> (wtables (cworld s))) (cworld s)) s).

Definition on_table (x : loc) (f : Table pcre → Z * Table pcre) : C Z :=
  t ← get_table x;
  let '(r, t) := f t in
  put_table x t ≫= λ _,
  mret r.

Definition end_table_stanza (x : loc) : C Z :=
  c ← gets config;
  w ← gets cworld;
  '(h, ts) ← lift (add_table (wtables w) (tables c) x);
  modify (λ s, set_config (set_lists (listeners c) ts c) (set_cworld (set_wtables h w) s)) ≫= λ _,
  mret 1.

Definition cnew_backend : C (option loc) :=
  match new_backend (cmalloc e) with
  | None => mret None
  | Some b =>
      m ← gets cbackends;
      let x := fresh (dom m) in
      modify (set_cbackends (<[x := b]> m)) ≫= λ _,
      mret (Some x)
  end.

Definition get_backend (x : loc) : C (Backend pcre) := m ← gets cbackends; lift (deref m x).

Definition on_backend (x : loc) (f : Backend pcre → outcome (Z * Backend pcre)) : C Z :=
  b ← get_backend x;
  '(r, b) ← lift (f b);
  modify (λ s, set_cbackends (<[x := b]> (cbackends s)) s) ≫= λ _,
  mret r.

(** The entry moves into the queue of its table. *)
Definition end_backend (t x : loc) : C Z :=
  b ← get_backend x;
  tb ← get_table t;
  put_table t (mkTable (tname tb) (tuse_proxy_header tb || use_proxy_header b) (reference_count tb)
                 (add_backend (backends tb) b)) ≫= λ _,
  modify (λ s, set_cbackends (delete x (cbackends s)) s) ≫= λ _,
  mret 1.

(** ** Loggers *)

Definition new_logger_builder : C (option loc) :=
  if cmalloc e 24 then
    m ← gets builders;
    let x := fresh (dom m) in
    modify (set_builders (<[x := mkBuilder None None LOG_NOTICE]> m)) ≫= λ _,
    mret (Some x)
  else cerr (bytes "new_logger_builder: malloc") ≫= λ _, mret None.

Definition get_builder (x : loc) : C LoggerBuilder := m ← gets builders; lift (deref m x).
Definition put_builder (x : loc) (lb : LoggerBuilder) : C unit :=
  modify (λ s, set_builders (<[x := lb]> (builders s)) s).
Definition free_builder (x : loc) : C unit := modify (λ s, set_builders (delete x (builders s)) s).

Definition accept_logger_filename (x : loc) (word : list Z) : C Z :=
  lb ← get_builder x;
  put_builder x (mkBuilder (strdup word) (syslog_facility lb) (lbpriority lb)) ≫= λ _,
  match strdup word with
  | None => cerr (bytes "accept_logger_filename: strdup") ≫= λ _, mret (-1)
  | Some _ => mret 1
  end.

Definition accept_logger_syslog_facility (x : loc) (facility : list Z) : C Z :=
  lb ← get_builder x;
  put_builder x (mkBuilder (lbfilename lb) (strdup facility) (lbpriority lb)) ≫= λ _,
  match strdup facility with
  | None => cerr (bytes "accept_logger_syslog_facility: strdup") ≫= λ _, mret (-1)
  | Some _ => mret 1
  end.

Definition priorities : list (list Z * Z) :=
  [(bytes "emergency", LOG_EMERG); (bytes "alert", LOG_ALERT); (bytes "critical", LOG_CRIT);
   (bytes "error", LOG_ERR); (bytes "warning", LOG_WARNING); (bytes "notice", LOG_NOTICE);
   (bytes "info", LOG_INFO); (bytes "debug", LOG_DEBUG)].

Definition accept_logger_priority (x : loc) (priority : list Z) : C Z :=
  match List.find (λ p, strncasecmp0 p.1 priority (length priority)) priorities with
  | Some p =>
      lb ← get_builder x;
      put_builder x (mkBuilder (lbfilename lb) (syslog_facility lb) p.2) ≫= λ _,
      mret 1
  | None => mret (-1)
  end.

(** The beginning that the three functions below share. *)
Definition build_logger (lb : LoggerBuilder) : C (option loc) :=
  match lbfilename lb, syslog_facility lb with
  | Some f, None => on_world (on_log (new_file_logger (clog e) (Some f)))
  | None, Some fac => on_world (on_log (new_syslog_logger (clog e) fac))
  | _, _ => cerr (bytes "Logger can not be both file logger and syslog logger") ≫= λ _, mret None
  end.

Definition end_error_logger_stanza (x : loc) : C Z :=
  lb ← get_builder x;
  logger ← build_logger lb;
  match logger with
  | None => free_builder x ≫= λ _, mret (-1)
  | Some _ =>
      on_world (on_log (set_logger_priority logger (lbpriority lb))) ≫= λ _,
      on_world (on_log (set_default_logger logger)) ≫= λ _,
      free_builder x ≫= λ _,
      mret 1
  end.

Definition end_global_access_logger_stanza (x : loc) : C Z :=
  lb ← get_builder x;
  logger ← build_logger lb;
  match logger with
  | None => free_builder x ≫= λ _, mret (-1)
  | Some _ =>
      on_world (on_log (set_logger_priority logger (lbpriority lb))) ≫= λ _,
      c ← gets config;
      on_world (on_log (logger_ref_put (caccess_log c))) ≫= λ _,
      on_world (on_log (logger_ref_get logger)) ≫= λ _,
      modify (set_config (set_caccess_log logger c)) ≫= λ _,
      free_builder x ≫= λ _,
      mret 1
  end.

Definition end_listener_access_logger_stanza (l x : loc) : C Z :=
  lb ← get_builder x;
  logger ← build_logger lb;
  match logger with
  | None => free_builder x ≫= λ _, mret (-1)
  | Some _ =>
      on_world (on_log (set_logger_priority logger (lbpriority lb))) ≫= λ _,
      listener ← on_world (get_listener l);
      on_world (on_log (logger_ref_put (access_log listener))) ≫= λ _,
      on_world (on_log (logger_ref_get logger)) ≫= λ _,
      on_world (set_listener l (set_laccess_log logger)) ≫= λ _,
      free_builder x ≫= λ _,
      mret 1
  end.

(** ** The resolver *)

Definition new_resolver_config : C (option loc) :=
  if cmalloc e 24 then
    m ← gets resolvers;
    let x := fresh (dom m) in
    modify (set_resolvers (<[x := mkResolver None None 0]> m)) ≫= λ _,
    mret (Some x)
  else mret None.

Definition get_resolver (x : loc) : C ResolverConfig := m ← gets resolvers; lift (deref m x).
Definition put_resolver (x : loc) (r : ResolverConfig) : C unit :=
  modify (λ s, set_resolvers (<[x := r]> (resolvers s)) s).

Definition string_vector_len (v : option (list (list Z))) : Z := Zlen (default [] v).

Definition ENOMEM : Z := 12.

(** The result and the vector afterwards: a failed [strdup] leaves the end of the array
    where it was. *)
Definition append_to_string_vector (v : option (list (list Z))) (string : list Z)
    : C (Z * option (list (list Z))) :=
  let len := string_vector_len v in
  if negb (cmalloc e ((len + 2) * 8)) then
    cerr (bytes "append_to_string_vector: realloc") ≫= λ _, mret (- ENOMEM, v)
  else
    match strdup string with
    | None => cerr (bytes "append_to_string_vector: strdup") ≫= λ _, mret (- ENOMEM, Some (default [] v))
    | Some s => mret (len + 1, Some (default [] v ++ [s]))
    end.

Definition accept_resolver_nameserver (x : loc) (nameserver : list Z) : C Z :=
  a ← lift (new_address (cinet_pton e) (cmalloc e) (Some nameserver));
  if negb (address_is_sockaddr a) then mret (-1) else
  r ← get_resolver x;
  '(result, v) ← append_to_string_vector (nameservers r) nameserver;
  put_resolver x (mkResolver v (search r) (rmode r)) ≫= λ _,
  mret result.

Definition accept_resolver_search (x : loc) (word : list Z) : C Z :=
  a ← lift (new_address (cinet_pton e) (cmalloc e) (Some word));
  if negb (address_is_hostname a) then mret (-1) else
  r ← get_resolver x;
  '(result, v) ← append_to_string_vector (search r) word;
  put_resolver x (mkResolver (nameservers r) v (rmode r)) ≫= λ _,
  mret result.

Definition resolver_mode_names : list (list Z) :=
  [bytes "DEFAULT"; bytes "ipv4_only"; bytes "ipv6_only"; bytes "ipv4_first"; bytes "ipv6_first"].

Definition accept_resolver_mode (x : loc) (mode : list Z) : C Z :=
  match list_find (λ n, strncasecmp0 n mode (length mode) = true) resolver_mode_names with
  | Some (i, _) =>
      r ← get_resolver x;
      put_resolver x (mkResolver (nameservers r) (search r) (Z.of_nat i)) ≫= λ _,
      mret 1
  | None => mret (-1)
  end.

Definition end_resolver_stanza (x : loc) : C Z :=
  r ← get_resolver x;
  modify (λ s, set_config (set_resolver r (config s)) s) ≫= λ _,
  modify (λ s, set_resolvers (delete x (resolvers s)) s) ≫= λ _,
  mret 1.

(** ** The grammar *)

(** The parser runs on a state in which a fault is kept: no callback runs after it. *)
Definition callback (m : C Z) (s : outcome (cfg_state pcre)) : Z * outcome (cfg_state pcre) :=
  match s with
  | Fault f => (-1, Fault f)
  | Ok s => match m s with Ok (r, s) => (r, Ok s) | Fault f => (-1, Fault f) end
  end.

Definition creates (p : loc → cfg_ptr) (m : C (option loc)) (s : outcome (cfg_state pcre))
    : option cfg_ptr * outcome (cfg_state pcre) :=
  match s with
  | Fault f => (None, Fault f)
  | Ok s => match m s with Ok (x, s) => (p <$> x, Ok s) | Fault f => (None, Fault f) end
  end.

(** The callbacks are cast to take a [void *]; each expects one type of object. *)
Definition as_config {A} (p : cfg_ptr) (m : C A) : C A := match p with PConfig => m | _ => raise BadCast end.
Definition as_listener {A} (p : cfg_ptr) (m : loc → C A) : C A := match p with PListener x => m x | _ => raise BadCast end.
Definition as_table {A} (p : cfg_ptr) (m : loc → C A) : C A := match p with PTable x => m x | _ => raise BadCast end.
Definition as_backend {A} (p : cfg_ptr) (m : loc → C A) : C A := match p with PBackend x => m x | _ => raise BadCast end.
Definition as_logger {A} (p : cfg_ptr) (m : loc → C A) : C A := match p with PLogger x => m x | _ => raise BadCast end.
Definition as_resolver {A} (p : cfg_ptr) (m : loc → C A) : C A := match p with PResolver x => m x | _ => raise BadCast end.

Local Abbreviation K := (@Keyword (outcome (cfg_state pcre)) cfg_ptr).

Definition on_config (f : list Z → C Z) (p : cfg_ptr) (w : list Z) := callback (as_config p (f w)).
Definition for_listener (f : Listener → list Z → outcome (Z * Listener)) (p : cfg_ptr) (w : list Z) :=
  callback (as_listener p (λ x, on_listener x (λ l, f l w))).
Definition for_logger (f : loc → list Z → C Z) (p : cfg_ptr) (w : list Z) := callback (as_logger p (λ x, f x w)).
Definition for_resolver (f : loc → list Z → C Z) (p : cfg_ptr) (w : list Z) := callback (as_resolver p (λ x, f x w)).

(** A keyword that only takes arguments, and the end of an array. *)
Definition simple (name : string) (f : cfg_ptr → list Z → outcome (cfg_state pcre) → Z * outcome (cfg_state pcre)) : K :=
  mkKeyword (Some (bytes name)) None (Some f) None None.
Definition last_entry : K := mkKeyword None None None None None.

Definition logger_stanza_grammar : list K :=
  [simple "filename" (for_logger accept_logger_filename);
   simple "syslog" (for_logger accept_logger_syslog_facility);
   simple "priority" (for_logger accept_logger_priority);
   last_entry].

Definition resolver_stanza_grammar : list K :=
  [simple "nameserver" (for_resolver accept_resolver_nameserver);
   simple "search" (for_resolver accept_resolver_search);
   simple "mode" (for_resolver accept_resolver_mode);
   last_entry].

Definition listener_stanza_grammar : list K :=
  [simple "protocol" (for_listener accept_listener_protocol);
   simple "reuseport" (for_listener (λ l w, Ok (accept_listener_reuseport (chave_reuseport e) l w)));
   simple "ipv6_v6only" (for_listener (λ l w, Ok (accept_listener_ipv6_v6only (chave_v6only e) l w)));
   simple "table" (for_listener (λ l w, Ok (accept_listener_table_name (cmalloc e) l w)));
   simple "fallback" (for_listener (accept_listener_fallback_address (cinet_pton e) (cmalloc e) (have_libudns e)));
   simple "source" (for_listener (accept_listener_source_address (cinet_pton e) (cmalloc e) (have_transparent e)));
   mkKeyword (Some (bytes "access_log")) (Some (creates PLogger new_logger_builder))
     (Some (for_logger accept_logger_filename)) (Some logger_stanza_grammar)
     (Some (λ p q, callback (as_listener p (λ l, as_logger q (end_listener_access_logger_stanza l)))));
   simple "bad_requests" (for_listener (λ l w, Ok (accept_listener_bad_request_action l w)));
   last_entry].

Definition table_stanza_grammar : list K :=
  [mkKeyword None (Some (creates PBackend cnew_backend))
     (Some (λ p w, callback (as_backend p (λ x, on_backend x (λ b,
        accept_backend_arg (cinet_pton e) (cmalloc e) (have_libudns e) b w)))))
     None
     (Some (λ p q, callback (as_table p (λ t, as_backend q (end_backend t)))));
   last_entry].

Definition global_grammar : list K :=
  [simple "username" (on_config accept_username);
   simple "groupname" (on_config accept_groupname);
   simple "pidfile" (on_config accept_pidfile);
   mkKeyword (Some (bytes "resolver")) (Some (creates PResolver new_resolver_config)) None
     (Some resolver_stanza_grammar)
     (Some (λ p q, callback (as_config p (as_resolver q end_resolver_stanza))));
   mkKeyword (Some (bytes "error_log")) (Some (creates PLogger new_logger_builder)) None
     (Some logger_stanza_grammar)
     (Some (λ p q, callback (as_config p (as_logger q end_error_logger_stanza))));
   mkKeyword (Some (bytes "access_log")) (Some (creates PLogger new_logger_builder)) None
     (Some logger_stanza_grammar)
     (Some (λ p q, callback (as_config p (as_logger q end_global_access_logger_stanza))));
   mkKeyword (Some (bytes "listener")) (Some (creates PListener cnew_listener))
     (Some (for_listener (accept_listener_arg (cinet_pton e) (cmalloc e)))) (Some listener_stanza_grammar)
     (Some (λ p q, callback (as_config p (as_listener q end_listener_stanza))));
   mkKeyword (Some (bytes "table")) (Some (creates PTable cnew_table))
     (Some (λ p w, callback (as_table p (λ x, on_table x (λ t, accept_table_arg (cmalloc e) t w)))))
     (Some table_stanza_grammar)
     (Some (λ p q, callback (as_config p (as_table q end_table_stanza))));
   last_entry].

(** ** The whole configuration *)

Definition werr (text : list Z) : W unit := on_log (err (clog e) text).

(** The strings, the vectors of the resolver and the record itself are released with the
    value. *)
Definition free_config (c : Config) : W unit :=
  on_log (logger_ref_put (caccess_log c)) ≫= λ _,
  free_listeners (listeners c) ≫= λ _,
  on_tables (λ h, free_tables h (tables c)).

Definition empty_config (filename : option (list Z)) : Config :=
  mkConfig filename None None None (mkResolver None None 0) None [] [].

(** Listeners without access log get the global one. *)
Definition inherit_access_log (c : Config) : W unit :=
  match caccess_log c with
  | None => mret ()
  | Some _ =>
      for_each (λ x,
        l ← get_listener x;
        match access_log l with
        | Some _ => mret ()
        | None =>
            on_log (logger_ref_get (caccess_log c)) ≫= λ _,
            set_listener x (set_laccess_log (caccess_log c))
        end) (listeners c)
  end.

(** [fgets] with room for [n] bytes and a terminator: the line, with its end if that was
    reached, and the rest of the file. *)
Fixpoint fgets (n : nat) (file : list Z) : list Z * list Z :=
  match n, file with
  | S n, c :: rest =>
      if c =? LF then ([c], rest) else let '(line, rest) := fgets n rest in (c :: line, rest)
  | _, _ => ([], file)
  end.

(** The lines around an error.  At the end of the file [fgets] gives NULL, which is printed as
    "(null)". *)
Fixpoint near_lines (n : nat) (pos : Z) (file : list Z) : list (list Z) :=
  match n with
  | O => []
  | S n =>
      let '(line, rest) := fgets 255 file in
      let next := pos + Zlen line in
      (bytes " " ++ decimal (if ftell_first e then pos else next) ++ [9] ++
       (if bool_decide (file = []) then bytes "(null)" else until_nul line)) :: near_lines n next rest
  end.

(** The messages about the error behind which [rest] is unread.  Seeking back to before the
    beginning of the file fails. *)
Definition parse_error_messages (fname file rest : list Z) : list (list Z) :=
  let whence := (length file - length rest)%nat in
  let start := if (20 <=? whence)%nat then (whence - 20)%nat else whence in
  (bytes "error parsing " ++ fname ++ bytes " at " ++ decimal (Z.of_nat whence) ++ bytes " near:") ::
  near_lines 5 (Z.of_nat start) (drop start file).

Definition init_config (fname : list Z) : W (option Config) :=
  if negb (cmalloc e 88) then werr (bytes "init_config: malloc") ≫= λ _, mret None else
  match strdup fname with
  | None =>
      werr (bytes "init_config: strdup") ≫= λ _,
      free_config (empty_config None) ≫= λ _,
      mret None
  | Some name =>
      match ctext e name with
      | None =>
          werr (bytes "init_config: unable to open configuration file: " ++ name) ≫= λ _,
          free_config (empty_config (Some name)) ≫= λ _,
          mret None
      | Some file =>
          w ← gets id;
          '(result, rest, s) ← lift (parse_config (cbuffer e) PConfig file global_grammar
             (Ok (mkCfg w (empty_config (Some name)) ∅ ∅ ∅)));
          s ← lift s;
          modify (λ _, cworld s) ≫= λ _,
          if result <=? 0 then
            for_each werr (parse_error_messages fname file rest) ≫= λ _,
            free_config (config s) ≫= λ _,
            mret None
          else
            inherit_access_log (config s) ≫= λ _,
            mret (Some (config s))
      end
  end.

(** The configuration afterwards, and whether it was replaced. *)
Definition reload_config (pcre_compile : list Z → option pcre) (se : sock_env) (c : Config) : W (Config * bool) :=
  name ← not_null (filename c);
  on_log (notice (clog e) (bytes "reloading configuration from " ++ name)) ≫= λ _,
  new ← init_config name;
  match new with
  | None => werr (bytes "failed to reload " ++ name) ≫= λ _, mret (c, false)
  | Some new =>
      on_log (logger_ref_put (caccess_log c)) ≫= λ _,
      on_log (logger_ref_get (caccess_log new)) ≫= λ _,
      h ← gets wtables;
      '(h, ts) ← lift (reload_tables pcre_compile h (tables c) (tables new));
      modify (set_wtables h) ≫= λ _,
      '(ls, ls_new) ← with_messages (clog e)
          (listeners_reload pcre_compile (chave_reuseport e) (chave_v6only e) (cinet_ntop e) se
             (listeners c) (listeners new) ts);
      free_config (set_lists ls_new [] new) ≫= λ _,
      mret (set_lists ls ts (set_caccess_log (caccess_log new) c), true)
  end.

(** ** Output *)

Definition print_vector (prefix : list Z) (v : option (list (list Z))) : list Z :=
  concat ((λ s, prefix ++ s ++ [LF]) <$> default [] v).

Definition print_resolver_config (r : ResolverConfig) : outcome (list Z) :=
  mode ← match resolver_mode_names !! Z.to_nat (rmode r) with
         | Some n => if 0 <=? rmode r then Ok n else Fault OutOfBounds
         | None => Fault OutOfBounds
         end;
  Ok (bytes "resolver {" ++ [LF] ++
      print_vector ([9] ++ bytes "nameserver ") (nameservers r) ++
      print_vector ([9] ++ bytes "search ") (search r) ++
      [9] ++ bytes "mode " ++ mode ++ [LF] ++ bytes "}" ++ [LF; LF]).

Fixpoint print_all (f : loc → outcome (list Z)) (l : list loc) : outcome (list Z) :=
  match l with
  | [] => Ok []
  | x :: l' => s ← f x; r ← print_all f l'; Ok (s ++ r)
  end.

Definition print_line (prefix : string) (v : option (list Z)) : list Z :=
  match v with None => [] | Some s => bytes prefix ++ s ++ [LF; LF] end.

Definition print_config (c : Config) (w : world pcre) : outcome (list Z) :=
  res ← print_resolver_config (resolver c);
  ls ← print_all (λ x, l ← deref (wlisteners w) x; print_listener_config (cinet_ntop e) l) (listeners c);
  ts ← print_all (λ x, t ← deref (wtables w) x; print_table_config (cinet_ntop e) t) (tables c);
  Ok (print_line "# Config loaded from " (filename c) ++ print_line "username " (user c) ++
      print_line "pidfile " (pidfile c) ++ res ++ ls ++ ts).
End config.
