(* ===== verification/ConfigOk.v ===== *)
(** What the configuration file can produce: every callback of src/config.c is given the kind
    of object it expects, keeps the counts of all objects exact and leaves a configuration
    the other components can run with; reloading and freeing give back what was taken. *)

From S2P Require Import Prelude CString Protocol RefCount Address Resolv Backend Table Listener Logger ListenerReload CfgTokenizer CfgParser Config.
From stdpp Require Import list gmap sorting.

#[local] Open Scope Z_scope.

(** * Tables through their counts *)

Section tables.
Context {pcre : Type} (pcre_compile : list Z → option pcre).
Implicit Types h : gmap loc (Table pcre).

Lemma free_tables_counted h ts R :
  counted h (ts ++ R) → backends_ok h → ∃ h', free_tables h ts = Ok h' ∧ counted h' R ∧ backends_ok h'.
Proof.
  revert h. induction ts as [|x ts IH]; intros h Hc Hb; [by exists h|]. cbn [free_tables].
  destruct (table_ref_put_counted h (Some x) (ts ++ R)) as (h1 & -> & Hc1 & Hb1); [done..|]. by apply IH.
Qed.

(** The first element is dropped or found. *)
Lemma drop_unused_head_counted h ts new R :
  counted h (ts ++ R) → backends_ok h → (∀ x, x ∈ new → x ∈ R) →
  ∃ h' ts', drop_unused_head h ts new = Ok (h', ts') ∧ counted h' (ts' ++ R) ∧ backends_ok h'.
Proof.
  intros Hc Hb Hnew. revert h Hc Hb. induction ts as [|x ts IH]; intros h Hc Hb; [by exists h, []|]. cbn [drop_unused_head].
  destruct (counted_live _ _ Hc x) as [t Ht]; [left|]. rewrite (deref_Some _ _ _ Ht). outcome_simpl.
  destruct (table_lookup_counted h _ new (tname t) Hc) as (o & -> & _); [set_solver|]. outcome_simpl.
  destruct o as [y|]; [by exists h, (x :: ts)|].
  destruct (table_ref_put_counted h (Some x) (ts ++ R)) as (h1 & -> & Hc1 & Hb1); [done..|]. by apply IH.
Qed.

Lemma drop_unused_next_counted h ts new R :
  counted h (ts ++ R) → backends_ok h → (∀ x, x ∈ new → x ∈ R) →
  ∃ h' ts', drop_unused_next h ts new = Ok (h', ts') ∧ counted h' (ts' ++ R) ∧ backends_ok h'.
Proof.
  intros Hc Hb Hnew. remember (length ts) as n eqn:Hn. revert ts Hn h R Hc Hb Hnew. induction n as [n IH] using lt_wf_ind.
  intros [|iter [|temp rest]] -> h R Hc Hb Hnew; [by exists h, []|by exists h, [iter]|].
  rewrite drop_unused_next_cons. destruct (counted_live _ _ Hc temp) as [t Ht]; [set_solver|]. rewrite (deref_Some _ _ _ Ht). outcome_simpl. destruct (table_lookup_counted h _ new (tname t) Hc) as (o & -> & _); [set_solver|]. outcome_simpl.
  destruct o as [y|].
  - destruct (IH (length (temp :: rest)) ltac:(cbn; lia) (temp :: rest) eq_refl h (iter :: R)) as (h' & ts' & -> & Hc' & Hb');
      [|done|set_solver|].
    { eapply counted_proper; [|exact Hc]. solve_Permutation. }
    outcome_simpl. exists h', (iter :: ts'). split_and!; [done| |done]. eapply counted_proper; [|exact Hc']. solve_Permutation.
  - destruct (table_ref_put_counted h (Some temp) (rest ++ iter :: R)) as (h1 & -> & Hc1 & Hb1); [|done|].
    { eapply counted_proper; [|exact Hc]. solve_Permutation. }
    outcome_simpl. destruct (IH (length rest) ltac:(cbn; lia) rest eq_refl h1 (iter :: R)) as (h' & ts' & -> & Hc' & Hb');
      [done|done|set_solver|].
    outcome_simpl. exists h', (iter :: ts'). split_and!; [done| |done]. eapply counted_proper; [|exact Hc']. solve_Permutation.
Qed.

Lemma reload_table_counted h ts iter R :
  counted h (iter :: ts ++ R) → backends_ok h →
  ∃ h' ts', reload_table pcre_compile h ts iter = Ok (h', ts') ∧ counted h' (ts' ++ R) ∧ backends_ok h'.
Proof.
  intros Hc Hb. unfold reload_table.
  destruct (init_table_counted pcre_compile h iter _ Hc Hb) as (h1 & -> & Hc1 & Hb1 & _); [apply Hc; left|]. outcome_simpl.
  destruct (counted_live _ _ Hc1 iter) as [new Hnew]; [left|]. rewrite (deref_Some _ _ _ Hnew). outcome_simpl.
  destruct (table_lookup_counted h1 _ ts (tname new) Hc1) as (o & -> & Ho); [set_solver|]. outcome_simpl.
  destruct o as [x|].
  - destruct (counted_live _ _ Hc1 x) as [old Hold]; [specialize (Ho x eq_refl); set_solver|].
    rewrite (deref_Some _ _ _ Hold). outcome_simpl. set (h2 := <[x := _]> h1).
    assert (counted h2 (iter :: ts ++ R)) as Hc2 by (by apply (counted_insert _ _ _ old)).
    assert (backends_ok h2) as Hb2 by (apply backends_insert; [done|exact (Hb1 iter new Hnew)]).
    destruct (counted_live _ _ Hc2 iter) as [new' Hnew']; [left|]. rewrite (deref_Some _ _ _ Hnew'). outcome_simpl.
    set (h3 := <[iter := _]> h2).
    assert (counted h3 (iter :: ts ++ R)) as Hc3 by (by apply (counted_insert _ _ _ new')).
    assert (backends_ok h3) as Hb3 by (apply backends_insert; [done|exact (Hb1 x old Hold)]).
    destruct (table_ref_put_counted h3 (Some iter) (ts ++ R)) as (h4 & -> & Hc4 & Hb4); [done..|]. by exists h4, ts.
  - unfold add_table. destruct (table_ref_get_counted h1 iter _ Hc1 Hb1) as (h2 & -> & Hc2 & Hb2); [by eexists|]. outcome_simpl.
    destruct (table_ref_put_counted h2 (Some iter) ((iter :: ts) ++ R)) as (h3 & -> & Hc3 & Hb3); [done..|].
    by exists h3, (iter :: ts).
Qed.

(** [reload_tables] moves the references of both lists into the result. *)
Lemma reload_tables_counted h ts new R :
  counted h (ts ++ new ++ R) → backends_ok h →
  ∃ h' ts', reload_tables pcre_compile h ts new = Ok (h', ts') ∧ counted h' (ts' ++ R) ∧ backends_ok h'.
Proof.
  intros Hc Hb. unfold reload_tables.
  destruct (drop_unused_head_counted h ts new (new ++ R)) as (h1 & ts1 & -> & Hc1 & Hb1); [done|done|set_solver|]. outcome_simpl.
  destruct (drop_unused_next_counted h1 ts1 new (new ++ R)) as (h2 & ts2 & -> & Hc2 & Hb2); [done|done|set_solver|]. outcome_simpl.
  clear h h1 ts ts1 Hc Hb Hc1 Hb1. revert h2 ts2 Hc2 Hb2. induction new as [|iter new IH]; intros h ts Hc Hb.
  { by exists h, ts. }
  cbn [reload_loop]. destruct (reload_table_counted h ts iter (new ++ R)) as (h1 & ts1 & -> & Hc1 & Hb1); [|done|].
  { eapply counted_proper; [|exact Hc]. solve_Permutation. }
  outcome_simpl. by apply IH.
Qed.
End tables.

(** * The default logger

    The operations on listeners do not replace the default logger. *)

Section keeps_default.
Context {pcre : Type}.
Local Abbreviation W := (ST (world pcre)).

Definition keeps_default {A} (m : W A) : Prop :=
  ∀ w a w', m w = Ok (a, w') → default_logger (wlog w') = default_logger (wlog w).

Lemma kd_bind {A B} (m : W A) (f : A → W B) : keeps_default m → (∀ a, keeps_default (f a)) → keeps_default (m ≫= f).
Proof.
  intros Hm Hf w b w'. rewrite bind_eq. destruct (m w) as [[a w1]|] eqn:Heq; [|done]. intros Hb.
  rewrite (Hf a _ _ _ Hb). by eapply Hm.
Qed.
Lemma kd_ret {A} (a : A) : keeps_default (mret a).
Proof. by intros w b w' [= <- <-]. Qed.
Lemma kd_lift {A} (o : outcome A) : keeps_default (lift o).
Proof. intros w b w'. unfold lift. destruct o; [|done]. by intros [= <- <-]. Qed.
Lemma kd_raise {A} f : keeps_default (raise f : W A).
Proof. done. Qed.
Lemma kd_gets {A} (f : world pcre → A) : keeps_default (gets f).
Proof. by intros w b w' [= <- <-]. Qed.
Lemma kd_modify f : (∀ w, default_logger (wlog (f w)) = default_logger (wlog w)) → keeps_default (modify f).
Proof. intros Hf w b w' [= <- <-]. apply Hf. Qed.
Lemma kd_on_tables f : keeps_default (on_tables f).
Proof. intros w b w'. rewrite on_tables_eq. destruct (f (wtables w)); [|done]. by intros [= <- <-]. Qed.
Lemma kd_on_listeners {A} (f : gmap loc Listener → outcome (A * gmap loc Listener)) : keeps_default (on_listeners f).
Proof. intros w b w'. unfold on_listeners, zoom. destruct (f (wlisteners w)) as [[]|]; [|done]. by intros [= <- <-]. Qed.
Lemma kd_get_listener x : keeps_default (get_listener x).
Proof. apply kd_bind; [apply kd_gets|intros; apply kd_lift]. Qed.
Lemma kd_set_listener x f : keeps_default (set_listener x f).
Proof. apply kd_bind; [apply kd_gets|intros h]. apply kd_bind; [apply kd_lift|intros l]. by apply kd_modify. Qed.
Lemma kd_put o : keeps_default (on_log (logger_ref_put o)).
Proof.
  intros w b w'. rewrite on_log_eq. destruct (logger_ref_put o (wlog w)) as [[u s]|] eqn:Heq; [|done].
  intros [= <- <-]. by apply logger_ref_put_keeps in Heq.
Qed.
Lemma kd_get o : keeps_default (on_log (logger_ref_get o)).
Proof.
  intros w b w'. rewrite on_log_eq. destruct (logger_ref_get o (wlog w)) as [[u s]|] eqn:Heq; [|done].
  intros [= <- <-]. by apply logger_ref_get_keeps in Heq.
Qed.
Lemma kd_emit ev : keeps_default (emit_sock ev).
Proof. by apply kd_modify. Qed.
Lemma kd_not_null {A} (p : option A) : keeps_default (not_null p).
Proof. apply kd_lift. Qed.
End keeps_default.

Create HintDb kd.
#[export] Hint Resolve kd_ret kd_lift kd_raise kd_gets kd_on_tables kd_on_listeners kd_get_listener kd_set_listener
  kd_put kd_get kd_emit kd_not_null : kd.

Ltac kd_solve :=
  repeat first
    [ progress eauto with kd
    | apply kd_bind; [|intros]
    | match goal with
      | |- keeps_default (match ?x with _ => _ end) => destruct x
      | |- keeps_default (if ?x then _ else _) => destruct x
      end
    | by apply kd_modify ].

Section keeps_default_ops.
Context {pcre : Type} (pcre_compile : list Z → option pcre) (have_reuseport have_v6only : bool)
  (inet_ntop : Z → list Z → list Z).
Local Abbreviation W := (ST (world pcre)).

Lemma kd_listener_ref_put x : keeps_default (listener_ref_put x : W unit).
Proof. unfold listener_ref_put, free_listener. kd_solve. Qed.

Lemma kd_close_listener x : keeps_default (close_listener x : W unit).
Proof. unfold close_listener. kd_solve. Qed.
#[local] Hint Resolve kd_listener_ref_put kd_close_listener : kd.

Lemma kd_free_listeners ls : keeps_default (free_listeners ls : W unit).
Proof. induction ls as [|x ls IH]; cbn [free_listeners]; kd_solve. Qed.

Lemma kd_remove_listener ls x : keeps_default (remove_listener ls x : W (list loc)).
Proof. unfold remove_listener. kd_solve. Qed.

Lemma kd_init_listener e x ts : keeps_default (init_listener pcre_compile have_reuseport have_v6only inet_ntop e x ts).
Proof. unfold init_listener, open_listener, set_option, bind_listener, sock_say. kd_solve. Qed.

Lemma kd_listener_update x y ts : keeps_default (listener_update pcre_compile x y ts).
Proof. unfold listener_update. kd_solve. Qed.

Lemma kd_compare_iters x y : keeps_default (compare_iters x y : W Z).
Proof. unfold compare_iters. kd_solve. Qed.

Lemma kd_announce x what : keeps_default (announce inet_ntop x what : W unit).
Proof. unfold announce, sock_say. kd_solve. Qed.
#[local] Hint Resolve kd_init_listener kd_listener_update kd_compare_iters kd_remove_listener kd_announce : kd.

Lemma kd_listeners_reload e existing new ts :
  keeps_default (listeners_reload pcre_compile have_reuseport have_v6only inet_ntop e existing new ts).
Proof.
  unfold listeners_reload. generalize (head existing), (head new). generalize (length existing + length new)%nat as fuel.
  intros fuel. revert existing new. induction fuel as [|fuel IH]; intros existing new ie i; cbn [reload_iters]; kd_solve.
Qed.
End keeps_default_ops.

(** * Partial correctness with tolerated faults

    Reading a configuration can crash the program in one way, by a NULL pointer, and end it
    in one way, by [fatal]. *)

Definition tolerated (f : fault) : Prop := f = NullDereference ∨ f = Exit.

Definition wp {S A} (m : ST S A) (Q : A → S → Prop) (s : S) : Prop :=
  match m s with Ok (a, s') => Q a s' | Fault f => tolerated f end.

Section wp.
Context {S : Type}.
Implicit Types s : S.

Lemma st_wp_bind {A B} (m : ST S A) (f : A → ST S B) Q s : wp m (λ a, wp (f a) Q) s → wp (m ≫= f) Q s.
Proof. unfold wp. rewrite bind_eq. by destruct (m s) as [[a s']|]. Qed.
Lemma st_wp_ret {A} (a : A) Q s : Q a s → wp (mret a) Q s.
Proof. done. Qed.
Lemma st_wp_gets {A} (f : S → A) Q s : Q (f s) s → wp (gets f) Q s.
Proof. done. Qed.
Lemma st_wp_modify f Q s : Q () (f s) → wp (modify f) Q s.
Proof. done. Qed.
Lemma st_wp_lift {A} (o : outcome A) (Q : A → S → Prop) s a : o = Ok a → Q a s → wp (lift o) Q s.
Proof. by intros ->. Qed.
Lemma st_wp_mono {A} (m : ST S A) (Q Q' : A → S → Prop) s : wp m Q s → (∀ a s', Q a s' → Q' a s') → wp m Q' s.
Proof. unfold wp. destruct (m s) as [[a s']|]; auto. Qed.
Lemma st_wp_eq {A} (m : ST S A) (Q : A → S → Prop) s a s' : m s = Ok (a, s') → Q a s' → wp m Q s.
Proof. unfold wp. by intros ->. Qed.
Lemma st_wp_Ok {A} (m : ST S A) (Q : A → S → Prop) s a s' : wp m Q s → m s = Ok (a, s') → Q a s'.
Proof. unfold wp. intros Hm Heq. by rewrite Heq in Hm. Qed.
Lemma st_wp_zoom {T A} (part : S → T) set_part (m : ST T A) Q s :
  wp m (λ a t, Q a (set_part t s)) (part s) → wp (zoom part set_part m) Q s.
Proof. unfold wp, zoom. by destruct (m (part s)) as [[a t]|]. Qed.
End wp.

(** * Well-typed configurations *)

(** What the code relies on: the documented results of the system, and an array of the size
    the parser declares. *)
Record cfg_env_ok (e : cfg_env) : Prop := {
  ce_pton : InetPton (cinet_pton e);
  ce_log : log_env_ok (clog e);
  ce_buffer : Zlen (cbuffer e) = sizeof_buffer
}.

(** The address of a listener. *)
Definition laddr {pcre} (w : world pcre) (x : loc) : Address :=
  default (mkAddress WILDCARD 0 0 []) (wlisteners w !! x ≫= laddress).

Definition is_address (e : cfg_env) (t : addr_type) (s : list Z) : Prop :=
  ∃ a, new_address (cinet_pton e) (cmalloc e) (Some s) = Ok (Some a) ∧ type a = t.

Record resolver_ok (e : cfg_env) (r : ResolverConfig) : Prop := {
  ro_mode : 0 ≤ rmode r < 5;
  ro_nameservers : Forall (is_address e SOCKADDR) (default [] (nameservers r));
  ro_search : Forall (is_address e HOSTNAME) (default [] (search r))
}.

(** Names that end up in messages. *)
Definition names_ok (c : Config) : Prop :=
  0 ∉ default [] (filename c) ∧ 0 ∉ default [] (user c) ∧ 0 ∉ default [] (group c).

(** [T], [Ls] and [G] are the references that others hold, such as the configuration that is
    running and its connections. *)
Record config_ok {pcre} (e : cfg_env) (T Ls G : list loc) (c : Config) (w : world pcre) : Prop := {
  co_world : world_ok (tables c ++ T) (listeners c ++ Ls) (option_list (caccess_log c) ++ G) w;
  co_log : can_log (clog e) (wlog w);
  co_nodup : NoDup (listeners c);
  co_sorted : Sorted (addr_le (laddr w)) (listeners c);
  co_resolver : resolver_ok e (resolver c);
  co_names : names_ok c
}.

(** Before its listeners are initialised. *)
Definition unstarted {pcre} (c : Config) (w : world pcre) : Prop :=
  ∀ x l, x ∈ listeners c → wlisteners w !! x = Some l → ltable l = None ∧ watched l = false.

(** The listeners that accept connections have a table, and listeners keep having one. *)
Definition all_tabled {pcre} (ls : list loc) (w : world pcre) : Prop :=
  ∀ x l, x ∈ ls → wlisteners w !! x = Some l → tabled l.
Definition tables_kept {pcre} (ls : list loc) (w w' : world pcre) : Prop :=
  ∀ x l l', x ∈ ls → wlisteners w !! x = Some l → wlisteners w' !! x = Some l' → ltable l ≠ None → ltable l' ≠ None.

(** A listener that left the configuration is no longer watched. *)
Definition unwatched {pcre} (w : world pcre) (x : loc) : Prop := ∀ l, wlisteners w !! x = Some l → watched l = false.
Definition left_alone {pcre} (K : list loc) (c c' : Config) (w w' : world pcre) : Prop :=
  ∀ x, x ∈ K → x ∉ listeners c' → unwatched w' x ∨ x ∉ listeners c ∧ wlisteners w' !! x = wlisteners w !! x.

Lemma same_tabled {pcre} ls (w w' : world pcre) :
  (∀ x, x ∈ ls → wlisteners w' !! x = wlisteners w !! x) → tables_kept ls w w' ∧ (all_tabled ls w → all_tabled ls w').
Proof.
  intros Hsame. split.
  - intros x l l' Hx Hl Hl'. rewrite Hsame in Hl' by done. by simplify_eq.
  - intros Hall x l Hx Hl. rewrite Hsame in Hl by done. by apply (Hall x).
Qed.

(** A listener of a configuration has its address. *)
Lemma config_has_addr {pcre} e T Ls G c (w : world pcre) x :
  config_ok e T Ls G c w → x ∈ listeners c → has_addr (wlisteners w) (laddr w) x.
Proof.
  intros Hc Hx. destruct (listener_held _ _ _ _ x (co_world _ _ _ _ _ _ Hc)) as (l & Hl & Hpos); [set_solver|].
  destruct (wf_address _ (ok_wf _ _ _ _ (co_world _ _ _ _ _ _ Hc) x l Hl Hpos)) as (a & Ha & Hwf & _).
  assert (laddr w x = a) as Heq by (unfold laddr; rewrite Hl; cbn; by rewrite Ha).
  unfold has_addr. rewrite Heq. split; [done|]. by exists l.
Qed.

Lemma sorted_laddr {pcre} (w w' : world pcre) ls :
  (∀ x, x ∈ ls → laddr w' x = laddr w x) → Sorted (addr_le (laddr w)) ls → Sorted (addr_le (laddr w')) ls.
Proof.
  intros Heq Hs. induction Hs as [|x ls Hs IH Hhd]; [constructor|]. constructor; [apply IH; set_solver|].
  destruct Hhd as [|y ls Hle]; [constructor|]. constructor. unfold addr_le in *. by rewrite !Heq by set_solver.
Qed.

Section typed.
Context {pcre : Type} (e : cfg_env) (He : cfg_env_ok e) (T Ls G : list loc) (L0 : gmap loc Listener).
Local Abbreviation C := (ST (cfg_state pcre)).
Implicit Types (s : cfg_state pcre) (c : Config).
Local Abbreviation config_ok := (config_ok e T Ls G).

#[local] Instance env_pton : InetPton (cinet_pton e) := ce_pton e He.

(** The listeners are new, and those of others stay as they were, in the store [L0]. *)
Definition settled c (w : world pcre) : Prop :=
  unstarted c w ∧ (∀ y, y ∈ Ls → wlisteners w !! y = L0 !! y) ∧ ∀ x, x ∈ listeners c → x ∉ Ls.

Lemma settled_frame c (w w' : world pcre) x :
  settled c w → (x ∉ listeners c ++ Ls) → (∀ y, y ≠ x → wlisteners w' !! y = wlisteners w !! y) → settled c w'.
Proof.
  intros (Hu & Hl & Hf) Hx Hsame. split_and!; [| |done].
  - intros y ly Hy. rewrite Hsame by (intros ->; set_solver). by apply Hu.
  - intros y Hy. rewrite Hsame by (intros ->; set_solver). by apply Hl.
Qed.

Definition cfg_ok s : Prop := config_ok (config s) (cworld s) ∧ settled (config s) (cworld s).

(** The result of a callback. *)
Definition post (P : cfg_state pcre → Prop) (r : Z) s : Prop := if 0 <? r then P s else cfg_ok s.

Lemma post_refused P r s : r ≤ 0 → cfg_ok s → post P r s.
Proof. intros Hr Hs. unfold post. by rewrite (proj2 (Z.ltb_ge 0 r)). Qed.

(** ** The log *)

Definition log_held c (w : world pcre) : list loc := (option_list (caccess_log c) ++ G) ++ log_refs w.

(** A change of the log that keeps the references. *)
Lemma config_ok_log c w g :
  config_ok c w → log_ok (log_held c w) g → can_log (clog e) g → config_ok c (set_wlog g w).
Proof. intros [[[] ?] ? ? ? ? ?] Hg Hcan. by repeat (constructor; try done). Qed.

Lemma config_log_ok c w : config_ok c w → log_ok (log_held c w) (wlog w).
Proof. intros Hc. apply (ok_log _ _ _ _ (co_world _ _ _ _ _ _ Hc)). Qed.

Lemma cfg_ok_log s g :
  cfg_ok s → log_steps (log_held (config s) (cworld s)) (wlog (cworld s)) g →
  cfg_ok (set_cworld (set_wlog g (cworld s)) s).
Proof.
  intros [Hc Hu] [Hg Hk]. split; [|done]. apply config_ok_log; [done|done|].
  eapply can_log_steps; [apply Hc|by split].
Qed.

Lemma wp_log {A} (m : ST LogState A) (Q : A → cfg_state pcre → Prop) s a g :
  m (wlog (cworld s)) = Ok (a, g) → Q a (set_cworld (set_wlog g (cworld s)) s) → wp (on_world (on_log m)) Q s.
Proof. intros Hm HQ. apply st_wp_zoom. unfold wp. rewrite on_log_eq, Hm. done. Qed.

Lemma wp_cerr text Q s :
  cfg_ok s → 0 ∉ text →
  (∀ g, log_steps (log_held (config s) (cworld s)) (wlog (cworld s)) g → Q () (set_cworld (set_wlog g (cworld s)) s)) →
  wp (cerr e text) Q s.
Proof.
  intros [Hc Hu] Ht HQ.
  destruct (log_default_spec (clog e) (log_held (config s) (cworld s)) (wlog (cworld s)) LOG_ERR text)
    as (g & Hg & Hsteps); [apply He|by apply config_log_ok|apply Hc|done|].
  eapply wp_log; [exact Hg|]. by apply HQ.
Qed.

(** A message and a refusal. *)
Lemma wp_cerr_refuse text P r s :
  cfg_ok s → 0 ∉ text → r ≤ 0 → wp (cerr e text ≫= λ _, mret r) (post P) s.
Proof.
  intros Hs Ht Hr. apply st_wp_bind, wp_cerr; [done|done|]. intros g Hg. apply st_wp_ret, post_refused; [done|].
  by apply cfg_ok_log.
Qed.

(** ** Single strings *)

Lemma no_nul_app (a b : list Z) : 0 ∉ a → 0 ∉ b → 0 ∉ a ++ b.
Proof. rewrite not_elem_of_app. auto. Qed.

Lemma accept_string_ok get set dup failed word s :
  (∀ v c, listeners (set v c) = listeners c ∧ tables (set v c) = tables c ∧ caccess_log (set v c) = caccess_log c ∧
          resolver (set v c) = resolver c ∧ (0 ∉ default [] v → names_ok c → names_ok (set v c))) →
  0 ∉ dup → 0 ∉ failed → word_ok word → cfg_ok s →
  wp (accept_string e get set dup failed word) (post cfg_ok) s.
Proof.
  intros Hset Hdup Hfailed [_ Hw] Hs. unfold accept_string. apply st_wp_bind, st_wp_gets. destruct (get (config s)).
  { by apply wp_cerr_refuse; [|apply no_nul_app|]. }
  apply st_wp_bind, st_wp_modify.
  assert (cfg_ok (set_config (set (strdup e word) (config s)) s)) as Hs'.
  { destruct Hs as [[] Hu]. destruct (Hset (strdup e word) (config s)) as (H1 & H2 & H3 & H4 & H5).
    assert (0 ∉ default [] (strdup e word)) as H0 by (unfold strdup; destruct (cmalloc e _); [done|apply not_elem_of_nil]).
    split; [constructor|]; cbn; try (by rewrite ?H1, ?H2, ?H3, ?H4); [by apply H5|]. unfold settled, unstarted in *. cbn. by rewrite H1. }
  destruct (strdup e word); [by apply st_wp_ret|]. by apply wp_cerr_refuse.
Qed.

(** ** Listeners under construction *)

Record draft_ok (l : Listener) : Prop := {
  dr_refs : lreference_count l = 0;
  dr_table : ltable l = None;
  dr_active : watched l = false;
  dr_address a : laddress l = Some a → address_wf a ∧ type a = SOCKADDR;
  dr_fallback f : fallback_address l = Some f → address_wf f ∧ (type f = SOCKADDR ∨ type f = HOSTNAME);
  dr_source a : source_address l = Some a → address_wf a ∧ type a = SOCKADDR
}.

Definition draft (x : loc) s : Prop := ∃ l, wlisteners (cworld s) !! x = Some l ∧ draft_ok l.

(** What a callback of listener.c does to a draft. *)
Definition draft_step (l : Listener) (o : outcome (Z * Listener)) : Prop :=
  match o with
  | Fault f => tolerated f
  | Ok (r, l') =>
      access_log l' = access_log l ∧ ltable l' = None ∧ lreference_count l' = 0 ∧ (0 < r → draft_ok l')
  end.

Lemma draft_same l l' r :
  draft_ok l → access_log l' = access_log l → ltable l' = ltable l → lreference_count l' = lreference_count l →
  watched l' = watched l → laddress l' = laddress l → fallback_address l' = fallback_address l →
  source_address l' = source_address l → draft_step l (Ok (r, l')).
Proof.
  intros [] H1 H2 H3 H4 H5 H6 H7. split_and!; [done|congruence|congruence|]. intros _. constructor; rewrite ?H5, ?H6, ?H7; congruence || done.
Qed.

Lemma word_address w :
  word_ok w → ∃ r, new_address (cinet_pton e) (cmalloc e) (Some w) = Ok r ∧
    ∀ a, r = Some a → address_wf a ∧ Zlen (adata a) < 2 ^ 32.
Proof. intros [Hl H0]. apply new_address_word; [apply He|done|]. unfold sizeof_buffer in Hl. lia. Qed.

Lemma set_port_str_Ok a w : address_wf a → ∃ r a', address_set_port_str a w = Ok (r, a') ∧ type a' = type a ∧
  address_wf a'.
Proof.
  intros Hwf. unfold address_set_port_str. destruct (_ || _) eqn:Hp; [by exists 0, a|].
  apply orb_false_iff in Hp as [?%Z.ltb_ge ?%Z.ltb_ge].
  destruct (address_set_port_wf a (atoi w) Hwf) as (d & -> & Hd & _); [unfold is_port; lia|]. by eexists _, _.
Qed.

Lemma draft_set_address l a r :
  draft_ok l → address_wf a → type a = SOCKADDR → draft_step l (Ok (r, set_laddress (Some a) l)).
Proof. intros [] Hwf Ht. split_and!; try done. intros _. constructor; try done. intros b [= <-]. done. Qed.

Lemma draft_set_port_str l a w :
  draft_ok l → laddress l = Some a → address_wf a → type a = SOCKADDR → draft_step l (set_port_str l w).
Proof.
  intros Hl Ha Hwf Ht. unfold set_port_str. rewrite Ha.
  destruct (set_port_str_Ok a w Hwf) as (r & a' & -> & Ht' & Hwf'). outcome_simpl. by apply draft_set_address; [|done|congruence].
Qed.

Lemma draft_refused l r l' :
  draft_ok l → r ≤ 0 → access_log l' = access_log l → ltable l' = ltable l → lreference_count l' = lreference_count l →
  draft_step l (Ok (r, l')).
Proof. intros [] Hr H1 H2 H3. split_and!; [done|congruence|congruence|lia]. Qed.

Lemma sockaddr_true a : address_is_sockaddr a = true → ∃ b, a = Some b ∧ type b = SOCKADDR.
Proof. destruct a as [b|]; [|done]. cbn. case_bool_decide; [|done]. by exists b. Qed.

Lemma accept_listener_arg_ok l w :
  draft_ok l → word_ok w → draft_step l (accept_listener_arg (cinet_pton e) (cmalloc e) l w).
Proof.
  intros Hl Hw. unfold accept_listener_arg. destruct (laddress l) as [a|] eqn:Ha.
  - destruct (dr_address _ Hl a Ha) as [Hwf Ht]. rewrite address_port_wf by done. outcome_simpl.
    destruct (_ && _); [by eapply draft_set_port_str|]. by apply draft_same.
  - destruct (is_numeric (Some w)); cbn [negb].
    + destruct (word_address (bytes "[::]")) as (r & -> & Hr); [split; [done|no_nul]|]. outcome_simpl.
      destruct (address_is_sockaddr r) eqn:Hs; cbn [negb]; [|by apply draft_refused].
      apply sockaddr_true in Hs as (b & -> & Ht). destruct (Hr b eq_refl) as [Hwf _].
      assert (draft_ok (set_laddress (Some b) l)) as Hl' by (by apply (draft_set_address l b 1)).
      pose proof (draft_set_port_str (set_laddress (Some b) l) b w Hl' eq_refl Hwf Ht) as Hstep. exact Hstep.
    + destruct (word_address w Hw) as (r & -> & Hr). outcome_simpl.
      destruct (address_is_sockaddr r) eqn:Hs; cbn [negb]; [|by apply draft_refused].
      apply sockaddr_true in Hs as (b & -> & Ht). destruct (Hr b eq_refl) as [Hwf _]. by apply draft_set_address.
Qed.

Lemma accept_listener_protocol_ok l w : draft_ok l → draft_step l (accept_listener_protocol l w).
Proof.
  intros Hl. unfold accept_listener_protocol. set (p := if strncasecmp0 _ _ _ then _ else _).
  assert (draft_ok (set_protocol p l)) as Hl' by (destruct Hl; by constructor).
  cbn [laddress set_protocol]. destruct (laddress l) as [a|] eqn:Ha; [|by left].
  destruct (dr_address _ Hl a Ha) as [Hwf Ht]. unfold port_of. rewrite address_port_wf by done. outcome_simpl.
  destruct (_ =? 0); [|by apply draft_same].
  destruct (address_set_port_wf a (default_port (protocol_of p)) Hwf) as (d & -> & Hd & _); [by destruct p|].
  outcome_simpl. by apply (draft_set_address (set_protocol p l)).
Qed.

Lemma accept_listener_flags_ok l w :
  draft_ok l →
  draft_step l (Ok (accept_listener_reuseport (chave_reuseport e) l w)) ∧
  draft_step l (Ok (accept_listener_ipv6_v6only (chave_v6only e) l w)) ∧
  draft_step l (Ok (accept_listener_table_name (cmalloc e) l w)) ∧
  draft_step l (Ok (accept_listener_bad_request_action l w)).
Proof.
  intros Hl. unfold accept_listener_reuseport, accept_listener_ipv6_v6only, accept_listener_table_name,
    accept_listener_bad_request_action. split_and!.
  - destruct (_ =? _); [|destruct (_ && _)]; by apply draft_same.
  - destruct (_ =? _); [|destruct (_ && _)]; by apply draft_same.
  - destruct (table_name l); [|destruct (cmalloc e _)]; by apply draft_same.
  - destruct (strncmp_eq _ _ _); by apply draft_same.
Qed.

Lemma accept_listener_fallback_ok l w :
  draft_ok l → word_ok w →
  draft_step l (accept_listener_fallback_address (cinet_pton e) (cmalloc e) (have_libudns e) l w).
Proof.
  intros Hl Hw. unfold accept_listener_fallback_address. destruct (fallback_address l) as [f|] eqn:Hf.
  { destruct (_ && _); [|by apply draft_same]. rewrite <- Hf. by apply draft_same. }
  destruct (word_address w Hw) as (r & -> & Hr). outcome_simpl. destruct r as [a|]; [|by apply draft_same]. cbn [non_null negb].
  destruct (Hr a eq_refl) as [Hwf _].
  assert (type a = SOCKADDR ∨ type a = HOSTNAME → ∀ b, draft_step l (Ok (1, set_fallback (Some a) b l))) as Hset.
  { intros Ht b. destruct Hl. split_and!; try done. intros _. constructor; try done. by intros ? [= <-]. }
  unfold address_is_sockaddr, address_is_hostname, address_is_wildcard, address_is.
  case_bool_decide; [by auto|]. case_bool_decide; [destruct (have_libudns e); cbn [negb]; [by auto|by apply draft_same]|].
  case_bool_decide; [by apply draft_same|]. by right.
Qed.

Lemma accept_listener_source_ok l w :
  draft_ok l → word_ok w →
  draft_step l (accept_listener_source_address (cinet_pton e) (cmalloc e) (have_transparent e) l w).
Proof.
  intros Hl Hw. unfold accept_listener_source_address. destruct (_ || _); [by apply draft_same|].
  destruct (strcasecmp_eq _ _); [destruct (have_transparent e); by apply draft_same|].
  destruct (word_address w Hw) as (r & -> & Hr). outcome_simpl. destruct r as [a|]; [|by apply draft_refused].
  destruct (address_is_sockaddr (Some a)) eqn:Hs; cbn [negb]; [|by apply draft_refused].
  apply sockaddr_true in Hs as (b & [= <-] & Ht). destruct (Hr a eq_refl) as [Hwf _].
  rewrite address_port_wf by done. outcome_simpl. destruct Hl. split_and!; try done. intros _. constructor; try done.
  by intros ? [= <-].
Qed.

(** A listener without references is in no list. *)
Lemma draft_not_listed c (w : world pcre) x l :
  config_ok c w → wlisteners w !! x = Some l → lreference_count l = 0 → x ∉ listeners c ++ Ls.
Proof.
  intros Hc Hl H0 Hin. pose proof (listener_held_pos _ _ _ _ x l (co_world _ _ _ _ _ _ Hc) Hin Hl). lia.
Qed.

Lemma laddr_insert (w : world pcre) x l y :
  y ≠ x → laddr (set_wlisteners (<[x := l]> (wlisteners w)) w) y = laddr w y.
Proof. intros Hne. unfold laddr. cbn. by rewrite lookup_insert_ne. Qed.

(** Changing a listener that is in no list. *)
Lemma config_ok_draft c (w : world pcre) x l l' :
  config_ok c w → settled c w → wlisteners w !! x = Some l → lreference_count l = 0 →
  access_log l' = access_log l → ltable l' = ltable l → lreference_count l' = 0 →
  config_ok c (set_wlisteners (<[x := l']> (wlisteners w)) w) ∧ settled c (set_wlisteners (<[x := l']> (wlisteners w)) w).
Proof.
  intros Hc Hu Hl H0 Ha Ht H0'. pose proof (draft_not_listed c w x l Hc Hl H0) as Hx. split.
  - pose proof Hc as [Hw ? ? ? ? ?]. constructor; try done.
    + split; [apply (world_counted_update _ _ _ _ _ l); [apply Hw|congruence..]|]. cbn.
      apply wf_insert; [apply Hw|lia].
    + apply (sorted_laddr w); [|done]. intros y Hy. apply laddr_insert. intros ->. set_solver.
  - apply (settled_frame c w _ x Hu Hx). intros y Hy. cbn. by apply lookup_insert_ne.
Qed.

Lemma wp_get_listener x l Q s :
  wlisteners (cworld s) !! x = Some l → Q l s → wp (on_world (get_listener x)) Q s.
Proof.
  intros Hl HQ. apply st_wp_zoom. eapply st_wp_eq; [by apply get_listener_eq|]. by destruct s.
Qed.

Lemma wp_set_listener x l f Q s :
  wlisteners (cworld s) !! x = Some l →
  Q () (set_cworld (set_wlisteners (<[x := f l]> (wlisteners (cworld s))) (cworld s)) s) →
  wp (on_world (set_listener x f)) Q s.
Proof. intros Hl HQ. apply st_wp_zoom. eapply st_wp_eq; [by apply set_listener_eq|]. done. Qed.

Definition in_listener (x : loc) s : Prop := cfg_ok s ∧ draft x s.

Lemma on_listener_ok x f s :
  (∀ l, draft_ok l → draft_step l (f l)) → in_listener x s → wp (on_listener x f) (post (in_listener x)) s.
Proof.
  intros Hf [[Hc Hu] (l & Hl & Hd)]. unfold on_listener. apply st_wp_bind, (wp_get_listener x l); [done|].
  specialize (Hf l Hd). unfold draft_step in Hf. destruct (f l) as [[r l']|fa] eqn:Hfl.
  2: { unfold wp. by rewrite bind_eq. }
  destruct Hf as (H1 & H2 & H3 & H4). apply st_wp_bind, (st_wp_lift _ _ _ (r, l')); [done|].
  apply st_wp_bind, (wp_set_listener x l); [done|]. apply st_wp_ret.
  assert (cfg_ok (set_cworld (set_wlisteners (<[x:=l']> (wlisteners (cworld s))) (cworld s)) s)) as Hs'.
  { apply (config_ok_draft _ _ x l); try done; [apply Hd|by rewrite (dr_table _ Hd)]. }
  unfold post. destruct (Z.ltb_spec 0 r); [|done]. split; [done|]. exists l'. cbn. rewrite lookup_insert_eq. auto.
Qed.

(** A new listener. *)
Lemma cnew_listener_ok s :
  cfg_ok s → wp (cnew_listener e) (λ o s', match o with Some x => in_listener x s' | None => cfg_ok s' end) s.
Proof.
  intros [Hc Hu]. unfold cnew_listener, new_listener. destruct (cmalloc e 248); [|by apply st_wp_ret].
  apply st_wp_bind, st_wp_gets, st_wp_bind, st_wp_modify, st_wp_ret. set (x := fresh _). set (l := mkListener _ _ _ _ _ _ _ _ _ _ _ _ _ _ _ _ _).
  assert (wlisteners (cworld s) !! x = None) as Hx by (apply not_elem_of_dom, is_fresh).
  assert (x ∉ listeners (config s) ++ Ls) as Hnew.
  { intros Hin. destruct (listener_held _ _ _ _ x (co_world _ _ _ _ _ _ Hc) Hin) as (? & ? & _). congruence. }
  split; [split|].
  - pose proof Hc as [Hw ? ? ? ? ?]. constructor; try done.
    + split; [constructor|]; cbn [cworld set_cworld wtables wlisteners wlog set_wlisteners].
      * unfold table_refs. cbn. rewrite holders_insert_new by done. apply Hw.
      * apply Hw.
      * apply counted_new; [apply Hw|done|done].
      * unfold log_refs. cbn. rewrite holders_insert_new by done. apply Hw.
      * apply wf_insert; [apply Hw|done].
    + apply (sorted_laddr (cworld s)); [|done]. intros y Hy. apply laddr_insert. intros ->. set_solver.
  - apply (settled_frame _ _ _ x Hu Hnew). intros y Hy. cbn. by apply lookup_insert_ne.
  - exists l. cbn. rewrite lookup_insert_eq. split; [done|]. by constructor.
Qed.

Lemma print_listener_config_Ok l :
  (∀ a, laddress l = Some a → address_wf a) → (∀ a, fallback_address l = Some a → address_wf a) →
  (∀ a, source_address l = Some a → address_wf a) → ∃ t, print_listener_config (cinet_ntop e) l = Ok t.
Proof.
  intros H1 H2 H3. unfold print_listener_config.
  pose proof (show_address_Ok (cinet_ntop e)) as Hd.
  destruct (Hd _ H1) as (t1 & ->). outcome_simpl.
  destruct (fallback_address l) as [f|]; [destruct (Hd _ H2) as (t2 & ->)|]; outcome_simpl;
    (destruct (source_address l) as [a|]; [destruct (Hd _ H3) as (t3 & ->)|]; outcome_simpl; by eexists).
Qed.

Lemma valid_listener_draft l :
  draft_ok l → ∃ v, valid_listener l = Ok v ∧ (0 < v → listener_wf l).
Proof.
  intros Hl. unfold valid_listener. destruct (accept_cb l); [|by exists 0]. cbn [negb].
  destruct (laddress l) as [a|] eqn:Ha; [|by exists 0]. destruct (dr_address _ Hl a Ha) as [Hwf Ht].
  assert (listener_wf l) as Hlw.
  { destruct Hl. constructor; [by exists a|done|done|]. congruence. }
  unfold address_sa. rewrite Ht. assert (∃ f, sa_family (adata a) = Ok f) as (f & ->) by (destruct Hwf; try done; by eexists).
  outcome_simpl. destruct (f =? AF_UNIX); [by eexists|]. destruct (_ || _); [|by exists 0].
  rewrite address_port_wf by done. outcome_simpl. by eexists.
Qed.

(** The refused listener is freed: taking the only reference and putting it back. *)
Lemma free_draft s x l :
  cfg_ok s → wlisteners (cworld s) !! x = Some l → lreference_count l = 0 →
  let w := set_wlisteners (<[x := set_lrefs 1 l]> (wlisteners (cworld s))) (cworld s) in
  ∃ w', listener_ref_put (Some x) w = Ok ((), w') ∧ cfg_ok (set_cworld w' s).
Proof.
  intros [Hc Hu] Hl H0 w. pose proof (draft_not_listed _ _ _ _ Hc Hl H0) as Hx.
  pose proof (world_counted_get _ _ _ _ x l (co_world _ _ _ _ _ _ Hc) Hl) as Hget. rewrite H0 in Hget. cbn [Z.add] in Hget.
  fold w in Hget. destruct (listener_ref_put_counted _ _ _ w x Hget) as (l1 & w' & Hl1 & _ & Hput & Hw' & Hframe & Hx' & _).
  cbn in Hl1. rewrite lookup_insert_eq in Hl1. injection Hl1 as <-. cbn in Hx'.
  assert (∀ y, y ≠ x → wlisteners w' !! y = wlisteners (cworld s) !! y) as Hsame.
  { intros y Hy. rewrite Hframe by done. cbn. by rewrite lookup_insert_ne. }
  exists w'. split; [done|].
  assert (can_log (clog e) (wlog w')) as Hcan.
  { pose proof (kd_listener_ref_put _ _ _ _ Hput) as Hd. destruct (co_log _ _ _ _ _ _ Hc) as [Hd0|Hm]; [left|by right].
    by rewrite Hd. }
  destruct Hc as [Hw Hlg Hnd Hs Hr Hf]. split; [constructor|]; try done; cbn [config cworld set_cworld].
  - split; [done|]. intros y ly Hy. destruct (decide (y = x)) as [->|Hne]; [by rewrite Hx' in Hy|].
    rewrite Hsame in Hy by done. by apply (ok_wf _ _ _ _ Hw y).
  - apply (sorted_laddr (cworld s)); [|done]. intros y Hy. unfold laddr. rewrite Hsame; [done|]. intros ->. set_solver.
  - by apply (settled_frame _ _ _ x Hu Hx).
Qed.

Lemma end_listener_stanza_ok x s : in_listener x s → wp (end_listener_stanza e x) (post cfg_ok) s.
Proof.
  intros [[Hc Hu] (l & Hl & Hd)]. unfold end_listener_stanza. apply st_wp_bind, (wp_set_listener x l); [done|].
  set (l1 := set_accept_cb l). set (s1 := set_cworld _ s).
  assert (draft_ok l1) as Hd1 by (destruct Hd; by constructor).
  assert (cfg_ok s1) as Hs1 by (apply (config_ok_draft _ _ x l); try done; apply Hd).
  assert (wlisteners (cworld s1) !! x = Some l1) as Hl1 by (cbn; apply lookup_insert_eq).
  apply st_wp_bind, (wp_get_listener x l1); [done|]. destruct (valid_listener_draft l1 Hd1) as (v & Hv & Hwf).
  eapply st_wp_bind, st_wp_lift; [exact Hv|]. destruct (Z.leb_spec v 0) as [Hle|Hgt].
  - apply st_wp_bind, wp_cerr; [done|no_nul|]. intros g Hg. set (s2 := set_cworld _ s1).
    assert (cfg_ok s2) as Hs2 by by apply cfg_ok_log.
    destruct (print_listener_config_Ok l1) as (t & Ht); 
      [intros a Ha; by destruct (dr_address _ Hd1 a Ha)|intros a Ha; by destruct (dr_fallback _ Hd1 a Ha)
      |intros a Ha; by destruct (dr_source _ Hd1 a Ha)|].
    eapply st_wp_bind, st_wp_lift; [exact Ht|]. 
    assert (wlisteners (cworld s2) !! x = Some l1) as Hl2 by done.
    destruct (free_draft s2 x l1 Hs2 Hl2) as (w' & Hput & Hs'); [apply Hd1|].
    set (w3 := set_wlisteners _ _) in Hput. apply st_wp_bind, st_wp_zoom, (st_wp_eq _ _ _ () w3).
    { unfold on_listeners, zoom, listener_ref_get. rewrite (deref_Some _ _ _ Hl2). outcome_simpl.
      by rewrite (dr_refs _ Hd1). }
    apply st_wp_bind, (wp_get_listener x (set_lrefs 1 l1)); [cbn; apply lookup_insert_eq|].
    eapply st_wp_bind, st_wp_lift; [done|]. apply st_wp_bind, st_wp_zoom. eapply st_wp_eq; [exact Hput|]. by apply st_wp_ret, post_refused.
  - specialize (Hwf Hgt). pose proof Hs1 as [Hc1 Hu1].
    pose proof (draft_not_listed _ _ _ _ Hc1 Hl1 (dr_refs _ Hd1)) as Hx. apply st_wp_bind, st_wp_gets.
    destruct (add_listener_sorted (wlisteners (cworld s1)) (laddr (cworld s1)) (listeners (config s1)) x)
      as (h' & ls & l' & Hadd & Hperm & Hsorted & Hl' & ->).
    { constructor; [|apply Forall_forall; intros y Hy; by eapply config_has_addr].
      destruct (wf_address _ Hwf) as (a & Ha & Hawf & _).
      assert (laddr (cworld s1) x = a) as Heq by (unfold laddr; rewrite Hl1; cbn in Ha |- *; by rewrite Ha).
      unfold has_addr. rewrite Heq. split; [done|]. by exists l1. }
    { apply Hc1. }
    rewrite Hl1 in Hl'. injection Hl' as <-. set (l2 := set_lrefs (lreference_count l1 + 1) l1) in *.
    set (w2 := set_wlisteners (<[x := l2]> (wlisteners (cworld s1))) (cworld s1)).
    apply st_wp_bind, st_wp_zoom, (st_wp_eq _ _ _ ls w2).
    { unfold on_listeners, zoom. by rewrite Hadd. }
    apply st_wp_bind, st_wp_modify, st_wp_ret. unfold post. cbn [Z.ltb Z.compare].
    destruct Hc1 as [Hw1 Hlg Hnd Hs Hr Hf]. split; [constructor|]; try done; cbn [config cworld set_config set_cworld set_lists listeners tables caccess_log].
    + eapply world_ok_proper; [done| |done|done|exact (world_ok_get _ _ _ _ x l1 Hw1 Hl1 Hwf)]. by rewrite Hperm.
    + rewrite Hperm. constructor; [set_solver|done].
    + apply (sorted_laddr (cworld s1)); [|done]. intros y _. destruct (decide (y = x)) as [->|]; [|by apply laddr_insert].
      unfold laddr. cbn [wlisteners w2 set_wlisteners]. by rewrite lookup_insert_eq, Hl1.
    + destruct Hu1 as (Hu1 & HL1 & Hnew). split_and!.
      2: { intros y Hy. cbn. rewrite lookup_insert_ne by (intros ->; set_solver). by apply HL1. }
      2: { intros y. cbn [config set_config set_lists listeners]. rewrite Hperm.
           intros [->|Hy]%elem_of_cons; [set_solver|by apply Hnew]. }
      intros y ly. cbn [config set_config set_lists listeners]. rewrite Hperm. cbn [cworld set_config set_cworld w2 wlisteners set_wlisteners].
      rewrite lookup_insert_Some. intros Hin [[_ <-]|[Hne Hy']]; [split; apply Hd1|].
      apply elem_of_cons in Hin as [->|Hy]; [done|]. by apply (Hu1 y).
Qed.

(** ** Tables under construction *)

Lemma config_ok_tables c (w : world pcre) h :
  config_ok c w → counted h ((tables c ++ T) ++ table_refs w) → backends_ok h → config_ok c (set_wtables h w).
Proof. intros [[[] ?] ? ? ? ? ?] Hh Hb. by repeat (constructor; try done). Qed.

Definition in_table (x : loc) s : Prop := cfg_ok s ∧ is_Some (wtables (cworld s) !! x).

Lemma cfg_ok_put_table s x t t' :
  cfg_ok s → wtables (cworld s) !! x = Some t → reference_count t' = reference_count t → Forall backend_ok (backends t') →
  in_table x (set_cworld (set_wtables (<[x := t']> (wtables (cworld s))) (cworld s)) s).
Proof.
  intros [Hc Hu] Ht Hn Hb. split; [split; [|done]|].
  - apply config_ok_tables; [done| |].
    + apply (counted_insert _ _ _ t); [apply (co_world _ _ _ _ _ _ Hc)|done|done].
    + apply backends_insert; [apply (co_world _ _ _ _ _ _ Hc)|done].
  - cbn. rewrite lookup_insert_eq. by eexists.
Qed.

Lemma cnew_table_ok s :
  cfg_ok s → wp (cnew_table e) (λ o s', match o with Some x => in_table x s' | None => cfg_ok s' end) s.
Proof.
  intros [Hc Hu]. unfold cnew_table, new_table. apply st_wp_bind, st_wp_gets. destruct (cmalloc e 56); [|by apply st_wp_ret].
  apply st_wp_bind, st_wp_modify, st_wp_ret. set (x := fresh _).
  assert (wtables (cworld s) !! x = None) as Hx by (apply not_elem_of_dom, is_fresh). split; [split; [|done]|].
  - apply config_ok_tables; [done| |].
    + apply counted_new; [apply (co_world _ _ _ _ _ _ Hc)|done|done].
    + apply backends_insert; [apply (co_world _ _ _ _ _ _ Hc)|constructor].
  - cbn. rewrite lookup_insert_eq. by eexists.
Qed.

Lemma wp_get_table x t Q s : wtables (cworld s) !! x = Some t → Q t s → wp (get_table x) Q s.
Proof. intros Ht HQ. apply st_wp_bind, st_wp_gets. eapply st_wp_lift; [by apply deref_Some|done]. Qed.

Lemma accept_table_arg_ok x w s :
  in_table x s → wp (on_table x (λ t, accept_table_arg (cmalloc e) t w)) (post (in_table x)) s.
Proof.
  intros [Hs [t Ht]]. unfold on_table. apply st_wp_bind, (wp_get_table x t); [done|].
  destruct (accept_table_arg (cmalloc e) t w) as [r t'] eqn:Ha. apply st_wp_bind, st_wp_modify, st_wp_ret.
  assert (reference_count t' = reference_count t ∧ backends t' = backends t) as [Hn Hb].
  { unfold accept_table_arg in Ha. destruct (tname t); [|destruct (cmalloc e _)]; by injection Ha as <- <-. }
  assert (in_table x (set_cworld (set_wtables (<[x := t']> (wtables (cworld s))) (cworld s)) s)) as Hs'.
  { apply (cfg_ok_put_table s x t); [done|done|done|]. rewrite Hb.
    apply (ok_backends _ _ _ _ (co_world _ _ _ _ _ _ (proj1 Hs)) x t Ht). }
  unfold post. destruct (0 <? r); [done|apply Hs'].
Qed.

Lemma end_table_stanza_ok x s : in_table x s → wp (end_table_stanza x) (post cfg_ok) s.
Proof.
  intros [[Hc Hu] Ht]. unfold end_table_stanza. apply st_wp_bind, st_wp_gets, st_wp_bind, st_wp_gets.
  destruct (table_ref_get_counted (wtables (cworld s)) x ((tables (config s) ++ T) ++ table_refs (cworld s)))
    as (h & Hget & Hcount & Hb); [apply (co_world _ _ _ _ _ _ Hc)..|done|].
  eapply st_wp_bind, st_wp_lift. { unfold add_table. by rewrite Hget. }
  apply st_wp_bind, st_wp_modify, st_wp_ret. destruct Hc as [[[] ?] ? ? ? ? ?]. split; [|done]. by repeat (constructor; try done).
Qed.

(** ** Entries under construction *)

Definition in_entry (t x : loc) s : Prop := in_table t s ∧ ∃ b, cbackends s !! x = Some b ∧ backend_ok b.

Definition empty_backend : Backend pcre := mkBackend None None false None.

Lemma accept_backend_arg_ok b w :
  backend_ok b ∨ b = empty_backend → word_ok w →
  ∃ r b', accept_backend_arg (cinet_pton e) (cmalloc e) (have_libudns e) b w = Ok (r, b') ∧ (0 < r → backend_ok b').
Proof.
  intros Hb Hw. unfold accept_backend_arg. destruct (pattern b) as [p|] eqn:Hp.
  - destruct Hb as [[_ Ha]| ->]; [|done]. destruct (address b) as [a|] eqn:Hab.
    + destruct (Ha a eq_refl) as [Hwf Hsmall]. rewrite address_port_wf by done. outcome_simpl. destruct (_ && _).
      * destruct (set_port_str_Ok a w Hwf) as (r & a' & Heq & Ht & Hwf'). rewrite Heq. outcome_simpl. eexists _, _. split; [done|].
        intros _. split; [cbn; congruence|]. intros a2 [= <-]. split; [done|].
        destruct (decide (type a' = PATTERN)); [|by apply wf_small].
        unfold address_set_port_str, address_set_port in Heq. rewrite Ht in *. destruct (_ || _); [by injection Heq as <- <-|].
        replace (type a) with PATTERN in Heq. by injection Heq as <- <-.
      * destruct (_ && _); eexists _, _; (split; [done|]); [|lia]. intros _. split; [cbn; congruence|]. cbn.
        by intros ? [= <-].
    + destruct (word_address w Hw) as (r & -> & Hr). outcome_simpl. destruct r as [a|]; [|eexists _, _; split; [done|lia]].
      destruct (_ && _); eexists _, _; (split; [done|]); [lia|]. intros _. split; [cbn; congruence|]. intros ? [= <-]. by apply Hr.
  - destruct (cmalloc e _); eexists _, _; (split; [done|]); [|lia]. intros _. split; [done|]. cbn.
    destruct Hb as [[Hno _]| ->]; done.
Qed.

Lemma accept_backend_arg_entry t x b w s :
  in_table t s → cbackends s !! x = Some b → backend_ok b ∨ b = empty_backend → word_ok w →
  wp (on_backend x (λ b, accept_backend_arg (cinet_pton e) (cmalloc e) (have_libudns e) b w)) (post (in_entry t x)) s.
Proof.
  intros Hs Hx Hb Hw. unfold on_backend, get_backend. apply st_wp_bind, st_wp_bind, st_wp_gets. eapply st_wp_lift; [by apply deref_Some|].
  destruct (accept_backend_arg_ok b w Hb Hw) as (r & b' & Heq & Hb'). eapply st_wp_bind, st_wp_lift; [exact Heq|].
  apply st_wp_bind, st_wp_modify, st_wp_ret. unfold post. destruct (Z.ltb_spec 0 r); [|apply Hs]. split; [apply Hs|].
  exists b'. cbn. rewrite lookup_insert_eq. auto.
Qed.

Lemma end_backend_ok t x s : in_entry t x s → wp (end_backend t x) (post (in_table t)) s.
Proof.
  intros [[Hs [tb Ht]] (b & Hb & Hok)]. unfold end_backend, get_backend. apply st_wp_bind, st_wp_bind, st_wp_gets.
  eapply st_wp_lift; [by apply deref_Some|]. apply st_wp_bind, (wp_get_table t tb); [done|].
  apply st_wp_bind, st_wp_modify, st_wp_bind, st_wp_modify, st_wp_ret.
  set (t' := mkTable _ _ _ _). refine (cfg_ok_put_table s t tb t' Hs Ht eq_refl _). cbn. unfold add_backend. apply Forall_app. split; [|by constructor; [|constructor]].
  apply (ok_backends _ _ _ _ (co_world _ _ _ _ _ _ (proj1 Hs)) t tb Ht).
Qed.

(** ** Loggers under construction *)

Record builder_ok (lb : LoggerBuilder) : Prop := {
  bo_priority : LOG_EMERG ≤ lbpriority lb ≤ LOG_DEBUG;
  bo_filename : 0 ∉ default [] (lbfilename lb)
}.

(** [P] is what holds around the block. *)
Definition in_logger (P : cfg_state pcre → Prop) (x : loc) s : Prop :=
  P s ∧ ∃ lb, builders s !! x = Some lb ∧ builder_ok lb.

(** [P] does not look at the builders, and implies that the configuration is fine. *)
Record block (P : cfg_state pcre → Prop) : Prop := {
  bl_ok s : P s → cfg_ok s;
  bl_builders s m : P s → P (set_builders m s);
  bl_log s g : P s → cfg_ok (set_cworld (set_wlog g (cworld s)) s) → P (set_cworld (set_wlog g (cworld s)) s)
}.

Lemma block_global : block cfg_ok.
Proof. by constructor. Qed.

Lemma block_listener x : block (in_listener x).
Proof. constructor; [by intros s []|by intros s m []|]. by intros s g [_ Hd] Hs. Qed.

Section logger.
Context (P : cfg_state pcre → Prop) (HP : block P).

Lemma block_steps s g :
  P s → log_steps (log_held (config s) (cworld s)) (wlog (cworld s)) g → P (set_cworld (set_wlog g (cworld s)) s).
Proof. intros Hs Hg. apply bl_log; [done|done|]. apply cfg_ok_log; [by apply (bl_ok P)|done]. Qed.

Lemma new_logger_builder_ok s :
  P s → wp (new_logger_builder e) (λ o s', match o with Some x => in_logger P x s' | None => cfg_ok s' end) s.
Proof.
  intros Hs. unfold new_logger_builder. destruct (cmalloc e 24).
  - apply st_wp_bind, st_wp_gets, st_wp_bind, st_wp_modify, st_wp_ret. split; [by apply bl_builders|]. eexists. cbn. rewrite lookup_insert_eq.
    split; [done|]. constructor; [done|apply not_elem_of_nil].
  - apply st_wp_bind, wp_cerr; [by apply (bl_ok P)|no_nul|]. intros g Hg. apply st_wp_ret, cfg_ok_log; [by apply (bl_ok P)|done].
Qed.

Lemma wp_get_builder x lb Q s : builders s !! x = Some lb → Q lb s → wp (get_builder x) Q s.
Proof. intros Hx HQ. apply st_wp_bind, st_wp_gets. eapply st_wp_lift; [by apply deref_Some|done]. Qed.

(** A changed builder. *)
Lemma put_builder_ok x lb s : P s → builder_ok lb → in_logger P x (set_builders (<[x := lb]> (builders s)) s).
Proof. intros Hs Hb. split; [by apply bl_builders|]. exists lb. cbn. by rewrite lookup_insert_eq. Qed.

Lemma accept_logger_ok x w s :
  in_logger P x s → word_ok w →
  wp (accept_logger_filename e x w) (post (in_logger P x)) s ∧
  wp (accept_logger_syslog_facility e x w) (post (in_logger P x)) s ∧
  wp (accept_logger_priority x w) (post (in_logger P x)) s.
Proof.
  intros [Hs (lb & Hx & [Hp Hf])] [_ Hw].
  assert (0 ∉ default [] (strdup e w)) as Hdup.
  { unfold strdup. destruct (cmalloc e _); [done|apply not_elem_of_nil]. }
  assert (∀ lb', builder_ok lb' → in_logger P x (set_builders (<[x := lb']> (builders s)) s)) as Hput
    by (intros; by apply put_builder_ok).
  split_and!.
  - unfold accept_logger_filename. apply st_wp_bind, (wp_get_builder x lb); [done|]. apply st_wp_bind, st_wp_modify.
    assert (builder_ok (mkBuilder (strdup e w) (syslog_facility lb) (lbpriority lb))) as Hlb by by constructor.
    destruct (strdup e w); [by apply st_wp_ret, Hput|]. apply wp_cerr_refuse; [|no_nul|done]. by apply (bl_ok P HP), Hput.
  - unfold accept_logger_syslog_facility. apply st_wp_bind, (wp_get_builder x lb); [done|]. apply st_wp_bind, st_wp_modify.
    assert (builder_ok (mkBuilder (lbfilename lb) (strdup e w) (lbpriority lb))) as Hlb by by constructor.
    destruct (strdup e w); [by apply st_wp_ret, Hput|]. apply wp_cerr_refuse; [|no_nul|done]. by apply (bl_ok P HP), Hput.
  - unfold accept_logger_priority. destruct (List.find _ priorities) as [p|] eqn:Hfind; [|by apply st_wp_ret, (bl_ok P HP)].
    apply find_some in Hfind as [Hin _]. apply st_wp_bind, (wp_get_builder x lb); [done|]. apply st_wp_bind, st_wp_modify, st_wp_ret, Hput.
    constructor; [|done]. cbn. unfold LOG_EMERG, LOG_DEBUG.
    cbn in Hin. repeat destruct Hin as [<-|Hin]; cbn; try done.
Qed.

Lemma build_logger_ok lb s :
  cfg_ok s → builder_ok lb →
  wp (build_logger e lb) (λ o s', ∃ g, s' = set_cworld (set_wlog g (cworld s)) s ∧
    log_steps (log_held (config s) (cworld s)) (wlog (cworld s)) g ∧
    ∀ x, o = Some x → is_Some (loggers g !! x) ∧ x ∉ log_held (config s) (cworld s)) s.
Proof.
  intros Hs Hb. pose proof Hs as [Hc Hu]. pose proof (config_log_ok _ _ Hc) as Hlog. unfold build_logger.
  assert (wp (cerr e (bytes "Logger can not be both file logger and syslog logger") ≫= λ _, mret None)
    (λ o s', ∃ g, s' = set_cworld (set_wlog g (cworld s)) s ∧
    log_steps (log_held (config s) (cworld s)) (wlog (cworld s)) g ∧
    ∀ x, o = Some x → is_Some (loggers g !! x) ∧ x ∉ log_held (config s) (cworld s)) s) as Hno.
  { apply st_wp_bind, wp_cerr; [done|no_nul|]. intros g Hg. apply st_wp_ret. by exists g. }
  pose proof (bo_filename _ Hb) as Hf.
  destruct (lbfilename lb) as [f|] eqn:Hfile, (syslog_facility lb) as [fac|]; [done| | |done].
  - destruct (new_file_logger_spec (clog e) (log_held (config s) (cworld s)) (wlog (cworld s)) (Some f))
      as (o & g & Heq & Hg & Ho); [apply He|done|apply Hc|done|]. eapply wp_log; [exact Heq|]. by exists g.
  - destruct (new_syslog_logger_spec (clog e) (log_held (config s) (cworld s)) (wlog (cworld s)) fac)
      as (o & g & Heq & Hg & Ho); [done|]. eapply wp_log; [exact Heq|]. by exists g.
Qed.
End logger.

(** Replacing a reference to a logger by one to a new logger. *)
Lemma swap_logger R g old y :
  log_ok (option_list old ++ R) g → is_Some (loggers g !! y) → old ≠ Some y →
  ∃ g1 g2, logger_ref_put old g = Ok ((), g1) ∧ logger_ref_get (Some y) g1 = Ok ((), g2) ∧
    log_ok (y :: R) g2 ∧ default_logger g2 = default_logger g.
Proof.
  intros Hok [ly Hy] Hne.
  assert (∃ g1, logger_ref_put old g = Ok ((), g1) ∧ log_ok R g1 ∧ default_logger g1 = default_logger g ∧
    loggers g1 !! y = Some ly) as (g1 & Hput & Hok1 & Hd1 & Hy1).
  { destruct old as [o|]; [|by exists g]. destruct (logger_ref_put_spec R g o Hok) as (g1 & ? & ? & ? & Hf).
    exists g1. split_and!; try done. rewrite Hf; [done|congruence]. }
  destruct (logger_ref_get_spec R g1 y ly Hok1 Hy1) as (g2 & ? & ? & Hd2). exists g1, g2. split_and!; try done. congruence.
Qed.

(** The start of the three functions that end a logger block: [Q] is what the rest needs. *)
Lemma built_logger_ok P x s (k : option loc → LoggerBuilder → ST (cfg_state pcre) Z) Q :
  block P → in_logger P x s →
  (∀ s', P s' → wp (free_builder x ≫= λ _, mret (-1)) Q s') →
  (∀ y lb g, log_ok (log_held (config s) (cworld s)) g → is_Some (loggers g !! y) → (y ∉ log_held (config s) (cworld s)) →
     P (set_cworld (set_wlog g (cworld s)) s) →
     wp (k (Some y) lb) Q (set_cworld (set_wlog g (cworld s)) s)) →
  wp (lb ← get_builder x;
      logger ← build_logger e lb;
      match logger with
      | None => free_builder x ≫= λ _, mret (-1)
      | Some _ => on_world (on_log (set_logger_priority logger (lbpriority lb))) ≫= λ _, k logger lb
      end) Q s.
Proof.
  intros HP [Hs (lb & Hx & Hb)] Hnone Hsome. apply st_wp_bind, (wp_get_builder x lb); [done|]. apply st_wp_bind.
  eapply st_wp_mono; [apply build_logger_ok; [by apply (bl_ok P HP)|done]|]. intros o s' (g & -> & Hg & Ho).
  assert (P (set_cworld (set_wlog g (cworld s)) s)) as Hs1 by by apply block_steps.
  destruct o as [y|]; [|by apply Hnone]. destruct (Ho y eq_refl) as [Hy Hnew].
  destruct (set_logger_priority_spec (log_held (config s) (cworld s)) g y (lbpriority lb)) as (g2 & Hprio & Hg2);
    [apply Hg|done|apply Hb|].
  apply st_wp_bind. eapply wp_log; [exact Hprio|]. cbn [cworld set_cworld set_wlog].
  change (set_cworld (set_wlog g2 (set_wlog g (cworld s))) (set_cworld (set_wlog g (cworld s)) s))
    with (set_cworld (set_wlog g2 (cworld s)) s).
  apply Hsome; [apply Hg2|by apply Hg2|done|].
  refine (block_steps P HP (set_cworld (set_wlog g (cworld s)) s) g2 Hs1 _). exact Hg2.
Qed.

Lemma end_error_logger_stanza_ok x s : in_logger cfg_ok x s → wp (end_error_logger_stanza e x) (post cfg_ok) s.
Proof.
  intros Hs. apply (built_logger_ok cfg_ok x s (λ logger _,
    on_world (on_log (set_default_logger logger)) ≫= λ _, free_builder x ≫= λ _, mret 1) _ block_global Hs).
  { intros s' Hs'. apply st_wp_bind, st_wp_modify, st_wp_ret, post_refused; [done|]. by apply (bl_builders _ block_global). }
  intros y lb g Hg Hy _ Hs'. destruct (set_default_logger_spec _ g y Hg Hy) as (g2 & Hset & Hg2 & Hd2).
  apply st_wp_bind. eapply wp_log; [exact Hset|]. apply st_wp_bind, st_wp_modify, st_wp_ret.
  destruct Hs' as [Hc Hu]. split; [|done]. apply (config_ok_log (config s) (set_wlog g (cworld s)) g2); [done|done|].
  left. by rewrite Hd2.
Qed.

(** The global access log is replaced. *)
Lemma config_ok_access_log c (w : world pcre) y g :
  config_ok c w → log_ok (y :: G ++ log_refs w) g → default_logger g = default_logger (wlog w) →
  config_ok (set_caccess_log (Some y) c) (set_wlog g w).
Proof.
  intros [[[] ?] Hcan ? ? ? ?] Hg Hd. constructor; try done.
  unfold can_log in *. cbn. by rewrite Hd.
Qed.

Lemma end_global_access_logger_stanza_ok x s :
  in_logger cfg_ok x s → wp (end_global_access_logger_stanza e x) (post cfg_ok) s.
Proof.
  intros Hs. apply (built_logger_ok cfg_ok x s (λ logger _,
    c ← gets config;
    on_world (on_log (logger_ref_put (caccess_log c))) ≫= λ _,
    on_world (on_log (logger_ref_get logger)) ≫= λ _,
    modify (set_config (set_caccess_log logger c)) ≫= λ _, free_builder x ≫= λ _, mret 1) _ block_global Hs).
  { intros s' Hs'. apply st_wp_bind, st_wp_modify, st_wp_ret, post_refused; [done|]. by apply (bl_builders _ block_global). }
  intros y lb g Hg Hy Hnew [Hc Hu]. apply st_wp_bind, st_wp_gets.
  destruct (swap_logger (G ++ log_refs (cworld s)) g (caccess_log (config s)) y) as (g1 & g2 & Hput & Hget & Hok & Hd).
  { unfold log_held in Hg. by rewrite <- (assoc_L (++)) in Hg. }
  { done. }
  { intros Heq. apply Hnew. unfold log_held. rewrite Heq. set_solver. }
  apply st_wp_bind. eapply wp_log; [exact Hput|]. apply st_wp_bind. eapply wp_log; [exact Hget|].
  apply st_wp_bind, st_wp_modify, st_wp_bind, st_wp_modify, st_wp_ret. split; [|done].
  by apply (config_ok_access_log (config s) (set_wlog g (cworld s)) y g2).
Qed.

(** The access log of a listener under construction is replaced. *)
Lemma config_ok_listener_log c (w : world pcre) x l y g :
  config_ok c w → settled c w → wlisteners w !! x = Some l → lreference_count l = 0 →
  log_ok (y :: (option_list (caccess_log c) ++ G) ++ holders (λ l, option_list (access_log l)) (delete x (wlisteners w))) g →
  default_logger g = default_logger (wlog w) →
  let w' := set_wlisteners (<[x := set_laccess_log (Some y) l]> (wlisteners w)) (set_wlog g w) in
  config_ok c w' ∧ settled c w'.
Proof.
  intros Hc Hu Hl H0 Hg Hd w'. pose proof (draft_not_listed c w x l Hc Hl H0) as Hx.
  destruct Hc as [[[] Hwf] Hcan Hnd Hs Hr Hf]. split; [constructor|]; try done.
  - split; [constructor|]; cbn [w' wtables wlisteners wlog set_wlisteners set_wlog].
    + unfold table_refs. cbn. by rewrite (holders_same _ _ x l).
    + done.
    + by apply (counted_insert _ _ _ l).
    + unfold log_refs. cbn [w' wlisteners set_wlisteners]. rewrite holders_insert. cbn [access_log set_laccess_log option_list].
      eapply log_ok_proper; [|done|exact Hg]. solve_Permutation.
    + apply wf_insert; [done|]. cbn. lia.
  - unfold can_log in *. cbn. by rewrite Hd.
  - apply (sorted_laddr w); [|done]. intros z Hz. unfold laddr. cbn. rewrite lookup_insert_ne; [done|]. intros ->. set_solver.
  - apply (settled_frame c w _ x Hu Hx). intros z Hz. cbn. by apply lookup_insert_ne.
Qed.

Lemma end_listener_access_logger_stanza_ok l x s :
  in_logger (in_listener l) x s → wp (end_listener_access_logger_stanza e l x) (post (in_listener l)) s.
Proof.
  intros Hs. apply (built_logger_ok (in_listener l) x s (λ logger _,
    listener ← on_world (get_listener l);
    on_world (on_log (logger_ref_put (access_log listener))) ≫= λ _,
    on_world (on_log (logger_ref_get logger)) ≫= λ _,
    on_world (set_listener l (set_laccess_log logger)) ≫= λ _, free_builder x ≫= λ _, mret 1) _ (block_listener l) Hs).
  { intros s' [Hs' _]. apply st_wp_bind, st_wp_modify, st_wp_ret, post_refused; [done|]. by apply (bl_builders _ block_global). }
  intros y lb g Hg Hy Hnew [[Hc Hu] (ll & Hl & Hd)].
  apply st_wp_bind, (wp_get_listener l ll); [done|].
  set (H := holders (λ l, option_list (access_log l)) (delete l (wlisteners (cworld s)))).
  assert (log_refs (cworld s) ≡ₚ option_list (access_log ll) ++ H) as HG by exact (holders_delete _ _ _ _ Hl).
  destruct (swap_logger ((option_list (caccess_log (config s)) ++ G) ++ H) g (access_log ll) y) as (g1 & g2 & Hput & Hget & Hok & Hdef).
  { unfold log_held in Hg. rewrite HG in Hg. by rewrite Permutation_app_swap_app in Hg. }
  { done. }
  { intros Heq. apply Hnew. unfold log_held. rewrite HG, Heq. set_solver. }
  apply st_wp_bind. eapply wp_log; [exact Hput|]. apply st_wp_bind. eapply wp_log; [exact Hget|].
  apply st_wp_bind. eapply (wp_set_listener l ll); [done|]. apply st_wp_bind, st_wp_modify, st_wp_ret. split.
  - by apply (config_ok_listener_log (config s) (set_wlog g (cworld s)) l ll y g2); try done; apply Hd.
  - exists (set_laccess_log (Some y) ll). split; [cbn; apply lookup_insert_eq|]. destruct Hd. by constructor.
Qed.

(** ** The resolver under construction *)

Definition in_resolver (x : loc) s : Prop := cfg_ok s ∧ ∃ r, resolvers s !! x = Some r ∧ resolver_ok e r.

Lemma new_resolver_config_ok s :
  cfg_ok s → wp (new_resolver_config e) (λ o s', match o with Some x => in_resolver x s' | None => cfg_ok s' end) s.
Proof.
  intros Hs. unfold new_resolver_config. destruct (cmalloc e 24); [|by apply st_wp_ret].
  apply st_wp_bind, st_wp_gets, st_wp_bind, st_wp_modify, st_wp_ret. split; [done|]. eexists. cbn. rewrite lookup_insert_eq.
  split; [done|]. by constructor.
Qed.

Lemma wp_get_resolver x r Q s : resolvers s !! x = Some r → Q r s → wp (get_resolver x) Q s.
Proof. intros Hx HQ. apply st_wp_bind, st_wp_gets. eapply st_wp_lift; [by apply deref_Some|done]. Qed.

Lemma append_to_string_vector_ok v string (Q : Z * option (list (list Z)) → cfg_state pcre → Prop) s :
  cfg_ok s →
  (∀ r v' s', cfg_ok s' → resolvers s' = resolvers s → (0 < r → v' = Some (default [] v ++ [string])) → Q (r, v') s') →
  wp (append_to_string_vector e v string) Q s.
Proof.
  intros Hs HQ. unfold append_to_string_vector. destruct (cmalloc e _); cbn [negb].
  - unfold strdup. destruct (cmalloc e _); [by apply st_wp_ret, HQ|].
    apply st_wp_bind, wp_cerr; [done|no_nul|]. intros g Hg. apply st_wp_ret, HQ; [by apply cfg_ok_log|done|done].
  - apply st_wp_bind, wp_cerr; [done|no_nul|]. intros g Hg. apply st_wp_ret, HQ; [by apply cfg_ok_log|done|done].
Qed.

Lemma put_resolver_ok x r s res : cfg_ok s → (0 < res → resolver_ok e r) →
  wp (put_resolver x r ≫= λ _, mret res) (post (in_resolver x)) s.
Proof.
  intros Hs Hr. apply st_wp_bind, st_wp_modify, st_wp_ret. unfold post. destruct (Z.ltb_spec 0 res); [|done]. split; [done|].
  exists r. cbn. rewrite lookup_insert_eq. auto.
Qed.

Lemma address_is_true t a : address_is t a = true → ∃ b, a = Some b ∧ type b = t.
Proof. destruct a as [b|]; [|done]. cbn. case_bool_decide; [|done]. by exists b. Qed.

Lemma accept_resolver_ok x w s :
  in_resolver x s → word_ok w →
  wp (accept_resolver_nameserver e x w) (post (in_resolver x)) s ∧
  wp (accept_resolver_search e x w) (post (in_resolver x)) s ∧
  wp (accept_resolver_mode x w) (post (in_resolver x)) s.
Proof.
  intros [Hs (r & Hx & Hr)] Hw. destruct (word_address w Hw) as (o & Ho & _).
  assert (∀ t, address_is t o = true → is_address e t w) as His.
  { intros t Ht. apply address_is_true in Ht as (a & -> & Ht). by exists a. }
  split_and!.
  - eapply st_wp_bind, st_wp_lift; [exact Ho|]. destruct (address_is_sockaddr o) eqn:Ht; cbn [negb]; [|by apply st_wp_ret].
    apply st_wp_bind, (wp_get_resolver x r); [done|]. apply st_wp_bind, append_to_string_vector_ok; [done|].
    intros res v s' Hs' _ Hv. apply put_resolver_ok; [done|]. intros Hres. rewrite (Hv Hres). destruct Hr. constructor; try done.
    apply Forall_app. split; [done|]. constructor; [by apply His|constructor].
  - eapply st_wp_bind, st_wp_lift; [exact Ho|]. destruct (address_is_hostname o) eqn:Ht; cbn [negb]; [|by apply st_wp_ret].
    apply st_wp_bind, (wp_get_resolver x r); [done|]. apply st_wp_bind, append_to_string_vector_ok; [done|].
    intros res v s' Hs' _ Hv. apply put_resolver_ok; [done|]. intros Hres. rewrite (Hv Hres). destruct Hr. constructor; try done.
    apply Forall_app. split; [done|]. constructor; [by apply His|constructor].
  - unfold accept_resolver_mode. destruct (list_find _ resolver_mode_names) as [[i n]|] eqn:Hi; [|by apply st_wp_ret].
    apply st_wp_bind, (wp_get_resolver x r); [done|]. apply put_resolver_ok; [done|]. intros _.
    apply list_find_Some in Hi as (Hi%lookup_lt_Some & _). destruct Hr. constructor; try done. cbn in *. lia.
Qed.

Lemma end_resolver_stanza_ok x s : in_resolver x s → wp (end_resolver_stanza x) (post cfg_ok) s.
Proof.
  intros [[Hc Hu] (r & Hx & Hr)]. unfold end_resolver_stanza. apply st_wp_bind, (wp_get_resolver x r); [done|].
  apply st_wp_bind, st_wp_modify, st_wp_bind, st_wp_modify, st_wp_ret. destruct Hc. split; [by constructor|done].
Qed.

(** ** The grammar keeps its contract *)

Definition failed (o : outcome (cfg_state pcre)) : Prop :=
  match o with Ok s => cfg_ok s | Fault f => tolerated f end.
Definition holds (P : cfg_state pcre → Prop) (o : outcome (cfg_state pcre)) : Prop := ∃ s, o = Ok s ∧ P s.

Lemma callback_keeps m P s : wp m (post P) s → keeps failed (holds P) (callback m (Ok s)).
Proof.
  unfold wp, callback, keeps, post. destruct (m s) as [[r s']|f]; [|done]. cbn. destruct (0 <? r); [|done]. intros. by exists s'.
Qed.

(** A keyword that only takes arguments for the object of its block. *)
Lemma simple_contract context P name f :
  (∀ w s, word_ok w → P s → keeps failed (holds P) (f context w (Ok s))) →
  keyword_contract failed context (holds P) (simple name f) (λ q o, q = context ∧ holds P o).
Proof.
  intros Hf. constructor; cbn.
  - intros o Ho. by split.
  - intros g q w o [= <-] Hw (-> & s & -> & Hs).
    pose proof (Hf w s Hw Hs) as H. unfold keeps in *. destruct (f context w (Ok s)) as [r s']. cbn in *. by destruct (0 <? r).
  - by intros q o (-> & Ho).
  - by intros q o (-> & Ho).
Qed.

(** What holds of a pointer that [unp] takes apart. *)
Definition at_ptr (unp : cfg_ptr → option loc) (Q : loc → cfg_state pcre → Prop) (q : cfg_ptr)
    (o : outcome (cfg_state pcre)) : Prop :=
  match unp q with Some x => holds (Q x) o | None => False end.

Lemma at_ptr_inv p unp Q q o :
  (∀ q x, unp q = Some x → q = p x) → at_ptr unp Q q o → ∃ x s, q = p x ∧ o = Ok s ∧ Q x s.
Proof. unfold at_ptr. intros Hunp. destruct (unp q) as [x|] eqn:Hq; [|done]. intros (s & -> & Hs). exists x, s. auto. Qed.

(** A keyword that creates an object, with its two pointers. *)
Lemma creating_contract context P name p unp Q new arg block fin :
  (∀ x, unp (p x) = Some x) → (∀ q x, unp q = Some x → q = p x) →
  (∀ s, P s → wp new (λ o s', match o with Some x => Q x s' | None => cfg_ok s' end) s) →
  (∀ f x w s, arg = Some f → word_ok w → Q x s → keeps failed (holds (Q x)) (f (p x) w (Ok s))) →
  (∀ x s, Q x s → keeps failed (holds P) (fin context (p x) (Ok s))) →
  (∀ x s, Q x s → P s) →
  keyword_contract failed context (holds P) (mkKeyword (Some name) (Some (creates p new)) arg block (Some fin)) (at_ptr unp Q).
Proof.
  intros Hunp Hinv Hnew Harg Hfin HPQ.
  assert (∀ x, at_ptr unp Q (p x) = holds (Q x)) as Hat by (intros x; unfold at_ptr; by rewrite Hunp).
  constructor; cbn.
  - intros o (s & -> & Hs). specialize (Hnew s Hs). unfold wp in Hnew. cbn.
    destruct (new s) as [[[x|] s']|f]; cbn; [|done|done]. rewrite Hat. by exists s'.
  - intros g q w o Hg Hw (x & s & -> & -> & Hs)%(at_ptr_inv p); [|done]. rewrite Hat. by apply Harg.
  - intros q o (x & s & -> & -> & Hs)%(at_ptr_inv p); [|done]. by apply Hfin.
  - intros q o (x & s & -> & -> & Hs)%(at_ptr_inv p); [|done]. exists s. eauto.
Qed.

Definition listener_of (q : cfg_ptr) : option loc := match q with PListener x => Some x | _ => None end.
Definition table_of (q : cfg_ptr) : option loc := match q with PTable x => Some x | _ => None end.
Definition backend_of (q : cfg_ptr) : option loc := match q with PBackend x => Some x | _ => None end.
Definition logger_of (q : cfg_ptr) : option loc := match q with PLogger x => Some x | _ => None end.
Definition resolver_of (q : cfg_ptr) : option loc := match q with PResolver x => Some x | _ => None end.

Ltac unptr := let q := fresh in let y := fresh in intros q y; destruct q; cbn; intros; by simplify_eq.

Lemma last_not_found : is_Some (keyword (@last_entry pcre)) ∨ is_Some (create (@last_entry pcre)) → False.
Proof. by intros [[? ?]|[? ?]]. Qed.

(** Every entry of an array, one after the other; the last one is never found. *)
Ltac entries :=
  let k := fresh "k" in let Hk := fresh "Hk" in let Hf := fresh "Hf" in
  constructor;
  [|intros k Hk Hf; repeat (apply elem_of_cons in Hk as [->|Hk]);
    [.. |exfalso; exact (last_not_found Hf) |by apply elem_of_nil in Hk]; clear Hf].

(** A simple keyword has no block. *)
Lemma simple_entry context P name f :
  (∀ w s, word_ok w → P s → keeps failed (holds P) (f context w (Ok s))) →
  ∃ J, keyword_contract failed context (holds P) (simple name f) J ∧
    ∀ b sub o, block_grammar (simple name f) = Some b → J sub o → grammar_contract failed sub (J sub) b.
Proof. intros Hf. eexists. split; [by apply simple_contract|done]. Qed.

Lemma holds_failed P : (∀ s, P s → cfg_ok s) → ∀ o, holds P o → failed o.
Proof. intros HP o (s & -> & Hs). by apply HP. Qed.

Lemma logger_grammar_contract P x :
  block P → grammar_contract failed (PLogger x) (holds (in_logger P x)) (logger_stanza_grammar e).
Proof.
  intros HP. entries; [apply holds_failed; intros s [Hs _]; by apply (bl_ok P HP)|..]; apply simple_entry;
    intros w s Hw Hs; destruct (accept_logger_ok P HP x w s Hs Hw) as (H1 & H2 & H3); apply callback_keeps; assumption.
Qed.

Lemma resolver_grammar_contract x :
  grammar_contract failed (PResolver x) (holds (in_resolver x)) (resolver_stanza_grammar e).
Proof.
  entries; [apply holds_failed; by intros s []|..]; apply simple_entry;
    intros w s Hw Hs; destruct (accept_resolver_ok x w s Hs Hw) as (H1 & H2 & H3); apply callback_keeps; assumption.
Qed.

Lemma listener_callback x f w s :
  (∀ l, draft_ok l → draft_step l (f l w)) → in_listener x s →
  keeps failed (holds (in_listener x)) (for_listener f (PListener x) w (Ok s)).
Proof. intros Hf Hs. apply callback_keeps. exact (on_listener_ok x (λ l, f l w) s Hf Hs). Qed.

Lemma listener_grammar_contract x :
  grammar_contract failed (PListener x) (holds (in_listener x)) (listener_stanza_grammar e).
Proof.
  entries; [apply holds_failed; by intros s []|..].
  7: { eexists. split.
    - apply (creating_contract (PListener x) (in_listener x) _ PLogger logger_of (in_logger (in_listener x))); [done|unptr|..].
      + apply new_logger_builder_ok, block_listener.
      + intros f y w s [= <-] Hw Hs. apply callback_keeps. exact (proj1 (accept_logger_ok _ (block_listener x) y w s Hs Hw)).
      + intros y s Hs. apply callback_keeps. exact (end_listener_access_logger_stanza_ok x y s Hs).
      + by intros y s [].
    - intros b sub o [= <-] (y & ? & -> & _)%(at_ptr_inv PLogger); [|unptr]. apply logger_grammar_contract, block_listener. }
  all: apply simple_entry; intros w s Hw Hs; apply listener_callback; [|done]; intros l Hl.
  - by apply accept_listener_protocol_ok.
  - by apply accept_listener_flags_ok.
  - by apply accept_listener_flags_ok.
  - by apply accept_listener_flags_ok.
  - by apply accept_listener_fallback_ok.
  - by apply accept_listener_source_ok.
  - by apply accept_listener_flags_ok.
Qed.

Lemma table_grammar_contract x :
  grammar_contract failed (PTable x) (holds (in_table x)) (table_stanza_grammar e).
Proof.
  entries; [apply holds_failed; by intros s []|]. exists (at_ptr backend_of (in_entry x)). split; [|done].
  assert (∀ y, at_ptr backend_of (in_entry x) (PBackend y) = holds (in_entry x y)) as Hat by done.
  constructor; cbn [create keyword parse_arg].
  - intros o (s & -> & Hs). cbn. unfold cnew_backend, new_backend. destruct (cmalloc e 48); cbn; [|apply Hs].
    intros w Hw. apply callback_keeps. eapply accept_backend_arg_entry; [|cbn; apply lookup_insert_eq|by right|done].
    by destruct Hs.
  - intros g q w o [= <-] Hw (y & s & -> & -> & Hs & b & Hb & Hok)%(at_ptr_inv PBackend); [|unptr]. rewrite Hat.
    apply callback_keeps. eapply accept_backend_arg_entry; [done|done|by left|done].
  - intros q o (y & s & -> & -> & Hs)%(at_ptr_inv PBackend); [|unptr]. apply callback_keeps. exact (end_backend_ok x y s Hs).
  - intros q o (y & s & -> & -> & Hs & _)%(at_ptr_inv PBackend); [|unptr]. by exists s.
Qed.

Lemma config_callback f w s :
  wp (f w) (post cfg_ok) s → keeps failed (holds cfg_ok) (on_config f PConfig w (Ok s)).
Proof. intros Hf. apply callback_keeps. exact Hf. Qed.

Lemma global_grammar_contract : grammar_contract failed PConfig (holds cfg_ok) (global_grammar e).
Proof.
  entries; [by apply holds_failed|..].
  - apply simple_entry. intros w s Hw Hs. apply config_callback. by apply accept_string_ok; [unfold names_ok; cbn; naive_solver|no_nul|no_nul|..].
  - apply simple_entry. intros w s Hw Hs. apply config_callback. by apply accept_string_ok; [unfold names_ok; cbn; naive_solver|no_nul|no_nul|..].
  - apply simple_entry. intros w s Hw Hs. apply config_callback. by apply accept_string_ok; [unfold names_ok; cbn; naive_solver|no_nul|no_nul|..].
  - eexists. split.
    + apply (creating_contract PConfig cfg_ok _ PResolver resolver_of in_resolver); [done|unptr|..].
      * apply new_resolver_config_ok.
      * done.
      * intros x s Hs. apply callback_keeps. exact (end_resolver_stanza_ok x s Hs).
      * by intros x s [].
    + intros b sub o [= <-] (x & ? & -> & _)%(at_ptr_inv PResolver); [|unptr]. apply resolver_grammar_contract.
  - eexists. split.
    + apply (creating_contract PConfig cfg_ok _ PLogger logger_of (in_logger cfg_ok)); [done|unptr|..].
      * apply new_logger_builder_ok, block_global.
      * done.
      * intros x s Hs. apply callback_keeps. exact (end_error_logger_stanza_ok x s Hs).
      * by intros x s [].
    + intros b sub o [= <-] (x & ? & -> & _)%(at_ptr_inv PLogger); [|unptr]. apply logger_grammar_contract, block_global.
  - eexists. split.
    + apply (creating_contract PConfig cfg_ok _ PLogger logger_of (in_logger cfg_ok)); [done|unptr|..].
      * apply new_logger_builder_ok, block_global.
      * done.
      * intros x s Hs. apply callback_keeps. exact (end_global_access_logger_stanza_ok x s Hs).
      * by intros x s [].
    + intros b sub o [= <-] (x & ? & -> & _)%(at_ptr_inv PLogger); [|unptr]. apply logger_grammar_contract, block_global.
  - eexists. split.
    + apply (creating_contract PConfig cfg_ok _ PListener listener_of in_listener); [done|unptr|..].
      * apply cnew_listener_ok.
      * intros f x w s [= <-] Hw Hs. apply listener_callback; [|done]. intros l Hl. by apply accept_listener_arg_ok.
      * intros x s Hs. apply callback_keeps. exact (end_listener_stanza_ok x s Hs).
      * by intros x s [].
    + intros b sub o [= <-] (x & ? & -> & _)%(at_ptr_inv PListener); [|unptr]. apply listener_grammar_contract.
  - eexists. split.
    + apply (creating_contract PConfig cfg_ok _ PTable table_of in_table); [done|unptr|..].
      * apply cnew_table_ok.
      * intros f x w s [= <-] Hw Hs. apply callback_keeps. exact (accept_table_arg_ok x w s Hs).
      * intros x s Hs. apply callback_keeps. exact (end_table_stanza_ok x s Hs).
      * by intros x s [].
    + intros b sub o [= <-] (x & ? & -> & _)%(at_ptr_inv PTable); [|unptr]. apply table_grammar_contract.
Qed.
End typed.

(** * The whole configuration *)

Lemma global_grammar_ok {pcre} e : grammar_ok (@global_grammar pcre e).
Proof.
  assert (grammar_ok [@last_entry pcre]) as Hlast by by apply go_last.
  assert (grammar_ok (@logger_stanza_grammar pcre e)) as Hlogger by (do 3 (apply go_cons; [done|]); done).
  assert (grammar_ok (@resolver_stanza_grammar pcre e)) as Hresolver by (do 3 (apply go_cons; [done|]); done).
  assert (grammar_ok (@table_stanza_grammar pcre e)) as Htable by by apply go_last.
  assert (grammar_ok (@listener_stanza_grammar pcre e)) as Hlistener.
  { do 6 (apply go_cons; [done|]). apply go_cons; [by intros b [= <-]|]. by apply go_cons. }
  do 3 (apply go_cons; [done|]). do 5 (apply go_cons; [by intros b [= <-]|]). done.
Qed.

Lemma held_has_addr {pcre} T Ls G (w : world pcre) x :
  world_ok T Ls G w → x ∈ Ls → has_addr (wlisteners w) (laddr w) x.
Proof.
  intros Hw Hx. destruct (listener_held _ _ _ _ x Hw Hx) as (l & Hl & Hpos).
  destruct (wf_address _ (ok_wf _ _ _ _ Hw x l Hl Hpos)) as (a & Ha & Hwf & _).
  assert (laddr w x = a) as Heq by (unfold laddr; rewrite Hl; cbn; by rewrite Ha).
  unfold has_addr. rewrite Heq. split; [done|]. by exists l.
Qed.

Section whole.
Context {pcre : Type} (e : cfg_env) (He : cfg_env_ok e).
Implicit Types (c : Config) (w : world pcre) (T Ls G : list loc).

(** A message. *)
Lemma log_message_ok T Ls G c w prio text :
  config_ok e T Ls G c w → 0 ∉ text →
  ∃ g, on_log (log_default (clog e) prio text) w = Ok ((), set_wlog g w) ∧ config_ok e T Ls G c (set_wlog g w).
Proof.
  intros Hc Ht. destruct (log_default_spec (clog e) (log_held G c w) (wlog w) prio text) as (g & Hg & Hsteps);
    [apply He|by eapply config_log_ok|apply Hc|done|].
  exists g. rewrite on_log_eq, Hg. split; [done|]. apply (config_ok_log e T Ls G c w g); [done|apply Hsteps|].
  eapply can_log_steps; [apply Hc|exact Hsteps].
Qed.

Lemma log_messages_ok T Ls G c w texts :
  config_ok e T Ls G c w → Forall (λ t, 0 ∉ t) texts →
  ∃ g, for_each (werr e) texts w = Ok ((), set_wlog g w) ∧ config_ok e T Ls G c (set_wlog g w).
Proof.
  intros Hc Hts. revert w Hc. induction Hts as [|t ts Ht _ IH]; intros w Hc.
  { exists (wlog w). cbn. rewrite ret_eq. by destruct w. }
  destruct (log_message_ok T Ls G c w LOG_ERR t Hc Ht) as (g & Hg & Hc1). cbn [for_each]. st_simpl.
  unfold werr at 1, err. rewrite Hg. destruct (IH (set_wlog g w) Hc1) as (g2 & -> & Hc2). by exists g2.
Qed.

Lemma empty_config_ok T Ls G name w :
  world_ok T Ls G w → can_log (clog e) (wlog w) → 0 ∉ default [] name → config_ok e T Ls G (empty_config name) w.
Proof.
  intros Hw Hcan Hn. constructor; cbn; try done;
    first [by apply NoDup_nil_2 | by split_and!; [|apply not_elem_of_nil..] | by intros ? ?%elem_of_nil | by constructor].
Qed.

Lemma empty_config_world T Ls G name w :
  config_ok e T Ls G (empty_config name) w → world_ok T Ls G w ∧ can_log (clog e) (wlog w).
Proof. by intros []. Qed.

(** Freeing gives back exactly the references of the configuration. *)
Lemma free_config_spec T Ls G c w :
  world_ok (tables c ++ T) (listeners c ++ Ls) (option_list (caccess_log c) ++ G) w → NoDup (listeners c) →
  ∃ w', free_config c w = Ok ((), w') ∧ world_ok T Ls G w' ∧ default_logger (wlog w') = default_logger (wlog w) ∧
    (∀ y, y ∉ listeners c → wlisteners w' !! y = wlisteners w !! y) ∧ ∀ x, x ∈ listeners c → removed w' x.
Proof.
  intros Hw Hnd. unfold free_config. st_simpl. rewrite on_log_eq.
  destruct (logger_ref_put_counted (G ++ log_refs w) (wlog w) (caccess_log c)) as (g & Hput & Hg).
  { rewrite (assoc_L (++)). apply Hw. }
  rewrite Hput. st_simpl. apply logger_ref_put_keeps in Hput.
  assert (world_ok (tables c ++ T) (listeners c ++ Ls) G (set_wlog g w)) as Hw1.
  { destruct Hw as [[] ?]. split; [by constructor|done]. }
  destruct (free_listeners_spec _ _ _ _ _ Hw1 Hnd) as (w2 & Hfree & Hw2 & Hsame & Hrem). rewrite Hfree. st_simpl.
  apply kd_free_listeners in Hfree. rewrite on_tables_eq.
  destruct (free_tables_counted (wtables w2) (tables c) (T ++ table_refs w2)) as (h & -> & Hh & Hb).
  { rewrite (assoc_L (++)). apply Hw2. }
  { apply Hw2. }
  eexists. split; [done|]. split_and!.
  - destruct Hw2 as [[] ?]. split; [by constructor|done].
  - cbn. rewrite Hfree. done.
  - intros y Hy. cbn. by rewrite Hsame.
  - exact Hrem.
Qed.

(** A listener of the configuration takes over the global access log. *)
Lemma inherit_one T Ls G L0 c w x a :
  config_ok e T Ls G c w → settled Ls L0 c w → x ∈ listeners c → caccess_log c = Some a →
  ∃ w', (l ← get_listener x;
    match access_log l with
    | Some _ => mret ()
    | None => on_log (logger_ref_get (caccess_log c)) ≫= λ _, set_listener x (set_laccess_log (caccess_log c))
    end) w = Ok ((), w') ∧ config_ok e T Ls G c w' ∧ settled Ls L0 c w'.
Proof.
  intros Hc Hs Hx Ha. destruct (listener_held _ _ _ _ x (co_world _ _ _ _ _ _ Hc)) as (l & Hl & Hpos); [set_solver|].
  st_simpl. rewrite (get_listener_eq _ _ _ Hl). st_simpl. destruct (access_log l) as [b|] eqn:Hb; [by exists w|].
  destruct (logger_ref_get_counted (log_held G c w) (wlog w) (Some a)) as (g & Hget & Hg).
  { by eapply config_log_ok. }
  { intros y [= <-]. unfold log_held. rewrite Ha. set_solver. }
  st_simpl. rewrite on_log_eq, Ha, Hget. st_simpl. apply logger_ref_get_keeps in Hget.
  rewrite (set_listener_eq _ x l) by done. eexists. split; [done|]. set (l' := set_laccess_log (Some a) l).
  destruct Hc as [[[] Hwf] Hcan Hnd Hso Hr Hf]. split; [constructor|]; try done.
  - split; [constructor|]; cbn [wtables wlisteners wlog set_wlisteners set_wlog].
    + unfold table_refs. cbn. by rewrite (holders_same _ _ x l).
    + done.
    + by apply (counted_insert _ _ _ l).
    + unfold log_refs, log_held, log_refs in *. cbn [wlisteners set_wlisteners].
      rewrite (holders_delete _ _ x l Hl), Hb in Hg. rewrite holders_insert. cbn [access_log l' set_laccess_log option_list app] in *.
      eapply log_ok_proper; [|done|exact Hg]. solve_Permutation.
    + apply wf_insert; [done|]. intros _. destruct (Hwf x l Hl Hpos). by constructor.
  - unfold can_log in *. cbn. by rewrite Hget.
  - apply (sorted_laddr w); [|done]. intros y _. unfold laddr. cbn.
    destruct (decide (y = x)) as [->|]; [by rewrite lookup_insert_eq, Hl|by rewrite lookup_insert_ne].
  - destruct Hs as (Hu & HL & Hnew). split_and!; [| |done].
    + intros y ly Hy. cbn. rewrite lookup_insert_Some. intros [[<- <-]|[_ Hly]]; [by apply (Hu x l)|by apply (Hu y)].
    + intros y Hy. cbn. rewrite lookup_insert_ne; [by apply HL|]. intros <-. by apply (Hnew x).
Qed.

Lemma inherit_access_log_ok T Ls G L0 c w :
  config_ok e T Ls G c w → settled Ls L0 c w →
  ∃ w', inherit_access_log c w = Ok ((), w') ∧ config_ok e T Ls G c w' ∧ settled Ls L0 c w'.
Proof.
  intros Hc Hs. unfold inherit_access_log. destruct (caccess_log c) as [a|] eqn:Ha; [|by exists w].
  match goal with |- context [for_each ?f _] =>
    destruct (triple_for_each (λ w, config_ok e T Ls G c w ∧ settled Ls L0 c w) f (listeners c)) with (s := w)
      as ([[] w'] & Hrun & Hw') end; [|done|by exists w'].
  intros x Hx w1 [Hc1 Hs1]. destruct (inherit_one T Ls G L0 c w1 x a) as (w2 & Hrun & Hw2); [done..|].
  rewrite Ha in Hrun. by exists ((), w2).
Qed.

(** What [init_config] leaves: a configuration, or nothing but a log. *)
Definition initialised_config T Ls G (L0 : gmap loc Listener) (o : option Config) w : Prop :=
  match o with
  | Some c => config_ok e T Ls G c w ∧ settled Ls L0 c w
  | None => world_ok T Ls G w ∧ can_log (clog e) (wlog w) ∧ ∀ y, y ∈ Ls → wlisteners w !! y = L0 !! y
  end.

Lemma near_lines_nul_free n pos file : 0 ≤ pos → Forall (λ t, 0 ∉ t) (near_lines e n pos file).
Proof.
  revert pos file. induction n as [|n IH]; intros pos file Hpos; [constructor|]. cbn [near_lines].
  destruct (fgets 255 file) as [line rest]. constructor; [|apply IH; unfold Zlen; lia].
  rewrite !not_elem_of_app. split_and!; [no_nul| |no_nul|].
  - apply decimal_nul_free. destruct (ftell_first e); unfold Zlen; lia.
  - case_bool_decide; [no_nul|apply until_nul_free].
Qed.

Lemma parse_error_messages_nul_free fname file rest :
  0 ∉ fname → Forall (λ t, 0 ∉ t) (parse_error_messages e fname file rest).
Proof.
  intros Hname. constructor; [|apply near_lines_nul_free; lia].
  rewrite !not_elem_of_app. split_and!; [no_nul|done|no_nul|apply decimal_nul_free; lia|no_nul].
Qed.

(** Giving up: the messages are written and the configuration is freed. *)
Lemma give_up_ok T Ls G L0 c w texts :
  config_ok e T Ls G c w → settled Ls L0 c w → Forall (λ t, 0 ∉ t) texts →
  wp (for_each (werr e) texts ≫= λ _, free_config c ≫= λ _, mret None) (initialised_config T Ls G L0) w.
Proof.
  intros Hc (Hu & HL & Hnew) Hts. destruct (log_messages_ok T Ls G c w texts Hc Hts) as (g & Hg & Hc1).
  apply st_wp_bind. eapply st_wp_eq; [exact Hg|]. apply st_wp_bind.
  destruct (free_config_spec T Ls G c (set_wlog g w)) as (w' & Hfree & Hw' & Hd & Hsame & _); [apply Hc1..|].
  eapply st_wp_eq; [exact Hfree|]. apply st_wp_ret. split_and!; [done| |].
  - pose proof (co_log _ _ _ _ _ _ Hc1) as Hcan. unfold can_log in *. by rewrite Hd.
  - intros y Hy. rewrite Hsame; [by apply HL|]. intros Hin. by apply (Hnew y).
Qed.

Lemma init_config_ok T Ls G w fname :
  world_ok T Ls G w → can_log (clog e) (wlog w) → 0 ∉ fname →
  wp (init_config e fname) (initialised_config T Ls G (wlisteners w)) w.
Proof.
  intros Hw Hcan Hname. unfold init_config.
  assert (∀ name, config_ok e T Ls G (empty_config name) w → settled Ls (wlisteners w) (empty_config name) w) as Hset.
  { intros name _. split_and!; [by intros x l ?%elem_of_nil|done|by intros x ?%elem_of_nil]. }
  assert (∀ name text, 0 ∉ default [] name → 0 ∉ text →
    wp (werr e text ≫= λ _, free_config (empty_config name) ≫= λ _, mret None) (initialised_config T Ls G (wlisteners w)) w) as Hgive.
  { intros name text Hn Ht. pose proof (empty_config_ok T Ls G name w Hw Hcan Hn) as Hc.
    pose proof (give_up_ok T Ls G (wlisteners w) (empty_config name) w [text] Hc (Hset _ Hc)) as Hg.
    unfold wp in *. cbn [for_each] in Hg. rewrite !bind_eq in Hg. rewrite bind_eq.
    destruct (werr e text w) as [[[] w1]|]; [|by apply Hg, Forall_singleton]. by apply Hg, Forall_singleton. }
  destruct (cmalloc e 88); cbn [negb].
  2: { pose proof (empty_config_ok T Ls G None w Hw Hcan (not_elem_of_nil _)) as Hc.
       destruct (log_message_ok T Ls G _ w LOG_ERR (bytes "init_config: malloc") Hc) as (g & Hg & Hc1); [no_nul|].
       apply st_wp_bind. eapply st_wp_eq; [exact Hg|]. apply st_wp_ret. destruct (empty_config_world _ _ _ _ _ Hc1). done. }
  unfold strdup. destruct (cmalloc e _); [|by apply Hgive; [apply not_elem_of_nil|no_nul]].
  destruct (ctext e fname) as [file|]; [|apply Hgive; [done|apply not_elem_of_app; split; [no_nul|done]]].
  apply st_wp_bind, st_wp_gets. pose proof (empty_config_ok T Ls G (Some fname) w Hw Hcan Hname) as Hc.
  destruct (parse_config_contract (failed e T Ls G (wlisteners w)) (cbuffer e) PConfig
    (holds (cfg_ok e T Ls G (wlisteners w))) (global_grammar e) file (Ok (mkCfg w (empty_config (Some fname)) ∅ ∅ ∅)))
    as (r & rest & o & Hparse & Hres).
  { apply He. }
  { apply global_grammar_ok. }
  { by apply global_grammar_contract. }
  { eexists. split; [done|]. split; [done|by apply Hset]. }
  eapply st_wp_bind, st_wp_lift; [exact Hparse|]. destruct o as [s|f].
  2: { destruct (0 <? r); [by destruct Hres as (? & ? & _)|]. unfold wp. by rewrite bind_eq. }
  eapply st_wp_bind, st_wp_lift; [done|]. apply st_wp_bind, st_wp_modify. destruct (Z.leb_spec r 0).
  - rewrite (proj2 (Z.ltb_ge 0 r)) in Hres by done. apply give_up_ok; [apply Hres..|by apply parse_error_messages_nul_free].
  - rewrite (proj2 (Z.ltb_lt 0 r)) in Hres by done. destruct Hres as (s' & [= <-] & Hc1 & Hs1).
    destruct (inherit_access_log_ok T Ls G (wlisteners w) (config s) (cworld s) Hc1 Hs1) as (w' & Hin & Hw').
    apply st_wp_bind. eapply st_wp_eq; [exact Hin|]. by apply st_wp_ret.
Qed.

(** The access log of the running configuration is replaced by the one of the new. *)
Lemma reload_access_log T Ls G old new w :
  world_ok T Ls (option_list new ++ option_list old ++ G) w →
  ∃ w', (on_log (logger_ref_put old) ≫= λ _, on_log (logger_ref_get new)) w = Ok ((), w') ∧
    world_ok T Ls (option_list new ++ option_list new ++ G) w' ∧
    wlisteners w' = wlisteners w ∧ wtables w' = wtables w ∧ default_logger (wlog w') = default_logger (wlog w).
Proof.
  intros Hw. st_simpl. rewrite on_log_eq.
  destruct (logger_ref_put_counted (option_list new ++ G ++ log_refs w) (wlog w) old) as (g1 & Hput & Hg1).
  { eapply log_ok_proper; [|done|apply Hw]. rewrite <- !(assoc_L (++)). apply Permutation_app_swap_app. }
  rewrite Hput. st_simpl. rewrite on_log_eq. cbn [wlog set_wlog].
  destruct (logger_ref_get_counted (option_list new ++ G ++ log_refs w) g1 new) as (g2 & Hget & Hg2); [done| |].
  { intros x ->. set_solver. }
  rewrite Hget. eexists. split; [done|]. split_and!; [|done|done|].
  - destruct Hw as [[] ?]. split; [constructor|]; try done. eapply log_ok_proper; [|done|exact Hg2]. by rewrite <- !(assoc_L (++)).
  - cbn. apply logger_ref_put_keeps in Hput. apply logger_ref_get_keeps in Hget. congruence.
Qed.

(** The tables of both configurations are merged into the running one. *)
Lemma world_reload_tables pcre_compile T Ls G old new w :
  world_ok (new ++ old ++ T) Ls G w →
  ∃ h ts, reload_tables pcre_compile (wtables w) old new = Ok (h, ts) ∧ world_ok (ts ++ T) Ls G (set_wtables h w).
Proof.
  intros Hw. destruct (reload_tables_counted pcre_compile (wtables w) old new (T ++ table_refs w)) as (h & ts & Heq & Hh & Hb).
  { eapply counted_proper; [|apply Hw]. rewrite <- !(assoc_L (++)). apply Permutation_app_swap_app. }
  { apply Hw. }
  exists h, ts. split; [done|]. destruct Hw as [[] ?]. split; [constructor|]; try done. cbn. by rewrite <- (assoc_L (++)).
Qed.

(** An entry of the reloaded list has the address it had before. *)
Lemma entry_laddr addr (w w' : world pcre) old new x n :
  entry addr w w' old new x n → laddr w' x = laddr w x.
Proof.
  unfold laddr. intros [_ [(-> & ln & l' & -> & -> & Hl & _)|(_ & _ & le & ln & t & -> & _ & ->)]]; cbn; [by rewrite Hl|done].
Qed.

Lemma sorted_fmap_le (f g : loc → Address) ls ls' :
  f <$> ls = g <$> ls' → Sorted (addr_le g) ls' → Sorted (addr_le f) ls.
Proof.
  revert ls'. induction ls as [|x ls IH]; intros [|y ls'] Heq; [constructor|done|done|]. injection Heq as Hxy Heq.
  intros [Hs Hhd]%Sorted_inv. constructor; [by eapply IH|]. destruct ls as [|x2 ls], ls' as [|y2 ls']; try done.
  injection Heq as Hxy2 _. apply HdRel_inv in Hhd. constructor. unfold addr_le in *. by rewrite Hxy, Hxy2.
Qed.

(** The listeners of the new configuration take the place of the running ones. *)
Lemma world_reload_listeners ge pcre_compile hr hv inet_ntop se T Ls G ts old new w :
  log_env_ok ge → can_log ge (wlog w) → world_ok (ts ++ T) (new ++ old ++ Ls) G w → NoDup old → NoDup new →
  (∀ x, x ∈ new → x ∉ old ++ Ls) →
  (∀ x l, x ∈ new → wlisteners w !! x = Some l → ltable l = None) → Sorted (addr_le (laddr w)) new →
  ∃ res kept w', with_messages ge (listeners_reload pcre_compile hr hv inet_ntop se old new ts) w = Ok ((res, kept), w') ∧
    world_ok (ts ++ T) (kept ++ res ++ Ls) G w' ∧ NoDup (res ++ kept) ∧
    laddr w' <$> res = laddr w <$> new ∧ can_log ge (wlog w') ∧
    (∀ x, x ∈ kept → x ∈ new) ∧ tables_kept (old ++ Ls) w w' ∧
    (all_tabled old w → (∀ n l, n ∈ new → wlisteners w !! n = Some l → watched l = false) → all_tabled res w') ∧
    (∀ x, x ∈ old ++ Ls → x ∉ res → unwatched w' x ∨ x ∉ old ∧ wlisteners w' !! x = wlisteners w !! x).
Proof.
  intros Hge Hcan Hw N1 N2 Hnew Htab Hs.
  destruct (listeners_reload_spec (laddr w) pcre_compile hr hv inet_ntop se (ts ++ T) Ls G ts old new w)
    as (res & kept & w' & Heq & Hd & Ha).
  { eapply world_ok_proper; [done| |done|done|exact Hw]. apply Permutation_app_swap_app. }
  { apply NoDup_app. split_and!; [done| |done]. intros x Hx Hx'. apply (Hnew x Hx'). set_solver. }
  { intros x Hx. eapply held_has_addr; [done|set_solver]. }
  { done. }
  { done. }
  { set_solver. }
  assert (can_log ge (wlog w')) as Hcan' by (unfold can_log; by rewrite (kd_listeners_reload _ _ _ _ _ _ _ _ _ _ _ Heq)).
  destruct (with_messages_spec ge _ _ _ _ w _ w' Hge Heq (md_world _ _ _ _ _ _ _ _ _ _ _ _ Hd) Hcan') as (g & Hrun & Hw' & Hg).
  exists res, kept, (set_wlog g w'). split_and!; [exact Hrun| |apply Hd| |by eapply can_log_steps|apply Hd| | |].
  - eapply world_ok_proper; [done| |done|done|exact Hw']. cbn [app]. apply Permutation_app_swap_app.
  - rewrite <- Ha. apply list_fmap_ext. intros i x Hx.
    destruct (Forall2_lookup_l _ _ _ _ _ (md_entries _ _ _ _ _ _ _ _ _ _ _ _ Hd) Hx) as (n & _ & Hn). by eapply entry_laddr.
  - intros x l l' Hx. apply (md_tables _ _ _ _ _ _ _ _ _ _ _ _ Hd). intros Hin. by apply (Hnew x).
  - intros Hall Hina x l' Hx Hl'. change (wlisteners w' !! x = Some l') in Hl'. pose proof Hx as (i & Hi)%list_elem_of_lookup.
    destruct (Forall2_lookup_l _ _ _ _ _ (md_entries _ _ _ _ _ _ _ _ _ _ _ _ Hd) Hi)
      as (n & _ & Hn & [(-> & ln & _ & Hln & _)|(Hr & _ & le & ln & t & Hle & _ & Hx')]).
    + apply (md_started _ _ _ _ _ _ _ _ _ _ _ _ Hd n ln l'); [done..|]. by eapply Hina.
    + simplify_eq. intros Hact. eapply (md_tables _ _ _ _ _ _ _ _ _ _ _ _ Hd x le); [|done..|].
      * intros Hin. apply (Hnew x Hin). set_solver.
      * by apply (Hall x le Hr Hle).
  - intros x Hx Hr. destruct (decide (x ∈ old)) as [Ho|Ho].
    + left. intros l Hl. destruct (md_removed _ _ _ _ _ _ _ _ _ _ _ _ Hd x Ho Hr l Hl) as (_ & Ha1 & Ha2 & _).
      unfold watched. by rewrite Ha1, Ha2.
    + right. split; [done|]. apply (md_frame _ _ _ _ _ _ _ _ _ _ _ _ Hd); [done|]. intros Hn. by apply (Hnew x).
Qed.

(** The running configuration after a reload. *)
Definition reloaded_config T Ls G c w (c' : Config) w' : Prop :=
  config_ok e T Ls G c' w' ∧
  ((c' = c ∧ ∀ x, x ∈ listeners c ++ Ls → wlisteners w' !! x = wlisteners w !! x) ∨
   ∃ name g new w1, filename c = Some name ∧ init_config e name (set_wlog g w) = Ok (Some new, w1) ∧
     caccess_log c' = caccess_log new ∧ laddr w' <$> listeners c' = laddr w1 <$> listeners new) ∧
  tables_kept (listeners c ++ Ls) w w' ∧ (all_tabled (listeners c) w → all_tabled (listeners c') w') ∧
  left_alone (listeners c ++ Ls) c c' w w'.

(** The steps after the new configuration was read. *)
Lemma install_config_ok pcre_compile se T Ls G c w new :
  config_ok e (tables c ++ T) (listeners c ++ Ls) (option_list (caccess_log c) ++ G) new w → unstarted new w →
  (∀ x, x ∈ listeners new → x ∉ listeners c ++ Ls) → NoDup (listeners c) → resolver_ok e (resolver c) → names_ok c →
  ∃ c' w', (on_log (logger_ref_put (caccess_log c)) ≫= λ _,
      on_log (logger_ref_get (caccess_log new)) ≫= λ _,
      h ← gets wtables;
      '(h, ts) ← lift (reload_tables pcre_compile h (tables c) (tables new));
      modify (set_wtables h) ≫= λ _,
      '(ls, ls_new) ← with_messages (clog e)
          (listeners_reload pcre_compile (chave_reuseport e) (chave_v6only e) (cinet_ntop e) se
             (listeners c) (listeners new) ts);
      free_config (set_lists ls_new [] new) ≫= λ _,
      mret (set_lists ls ts (set_caccess_log (caccess_log new) c), true)) w = Ok ((c', true), w') ∧
    config_ok e T Ls G c' w' ∧ caccess_log c' = caccess_log new ∧
    laddr w' <$> listeners c' = laddr w <$> listeners new ∧
    tables_kept (listeners c ++ Ls) w w' ∧ (all_tabled (listeners c) w → all_tabled (listeners c') w') ∧
    left_alone (listeners c ++ Ls) c c' w w'.
Proof.
  intros Hn Hu Hnew Hnd Hres Hfile. pose proof (co_world _ _ _ _ _ _ Hn) as Hw.
  destruct (reload_access_log _ _ G (caccess_log c) (caccess_log new) w Hw) as (w1 & Hlog & Hw1 & Hl1 & Ht1 & Hd1).
  destruct (world_reload_tables pcre_compile T _ _ (tables c) (tables new) w1 Hw1) as (h & ts & Htab & Hw2).
  set (w2 := set_wtables h w1) in *.
  assert (∀ x, laddr w2 x = laddr w x) as Hla by (intros x; unfold laddr; cbn; by rewrite Hl1).
  assert (can_log (clog e) (wlog w2)) as Hcan2 by (unfold can_log; cbn; rewrite Hd1; apply Hn).
  destruct (world_reload_listeners (clog e) pcre_compile (chave_reuseport e) (chave_v6only e) (cinet_ntop e) se T Ls _ ts
      (listeners c) (listeners new) w2 (ce_log _ He) Hcan2 Hw2)
    as (res & kept & w3 & Hlist & Hw3 & Hndr & Haddr & Hd3 & Hkept & Htk & Htt & Hlv); [done|apply Hn|done| | |].
  { intros x l Hx. cbn. rewrite Hl1. by apply Hu. }
  { apply (sorted_laddr w); [|apply Hn]. intros x _. apply Hla. }
  destruct (free_config_spec (ts ++ T) (res ++ Ls) (option_list (caccess_log new) ++ G) (set_lists kept [] new) w3)
    as (w4 & Hfree & Hw4 & Hd4 & Hsame & _); [done|by apply NoDup_app in Hndr as (_ & _ & ?)|].
  eexists _, w4. split.
  { revert Hlog. st_simpl. destruct (on_log (logger_ref_put (caccess_log c)) w) as [[u wa]|]; [|done]. cbv beta iota.
    intros Hlog. rewrite bind_eq, Hlog. st_simpl. rewrite Htab. st_simpl. fold w2. rewrite Hlist. st_simpl. rewrite Hfree. done. }
  assert (laddr w4 <$> res = laddr w <$> listeners new) as Hfinal.
  { transitivity (laddr w3 <$> res); [|rewrite Haddr; by apply list_fmap_ext].
    apply list_fmap_ext. intros i x Hx%list_elem_of_lookup_2. unfold laddr. rewrite Hsame; [done|].
    cbn. intros Hin. apply NoDup_app in Hndr as (_ & Hdis & _). by apply (Hdis x). }
  assert (∀ x, x ∉ kept → wlisteners w4 !! x = wlisteners w3 !! x) as Hsame4 by (intros; by apply Hsame).
  split; [|split_and!; [done|done| | |]].
  2: { intros x l l' Hx. rewrite <- Hl1, Hsame4 by (intros Hin; apply (Hnew x); [by apply Hkept|done]). by apply Htk. }
  2: { intros Hall x l' Hx. cbn in Hx. rewrite Hsame4 by (intros Hin; apply NoDup_app in Hndr as (_ & Hdis & _); by apply (Hdis x)).
       apply Htt; [|intros n l Hin; cbn; rewrite Hl1; by apply Hu|done]. intros y l Hy. cbn. rewrite Hl1. by apply Hall. }
  2: { intros x Hx Hr. cbn in Hr. destruct (Hlv x Hx Hr) as [Hun|[Ho Heq]]; [left|right; split; [done|]].
       - intros l. rewrite Hsame4 by (intros Hin; apply (Hnew x); [by apply Hkept|done]). apply Hun.
       - rewrite Hsame4 by (intros Hin; apply (Hnew x); [by apply Hkept|done]). by rewrite Heq, <- Hl1. }
  constructor; try done; cbn.
  - unfold can_log. by rewrite Hd4.
  - by apply NoDup_app in Hndr as (? & _).
  - eapply sorted_fmap_le; [exact Hfinal|apply Hn].
Qed.

Lemma reload_config_ok pcre_compile se T Ls G c w :
  config_ok e T Ls G c w → wp (reload_config e pcre_compile se c) (λ r, reloaded_config T Ls G c w (fst r)) w.
Proof.
  intros Hc. unfold reload_config. destruct (filename c) as [name|] eqn:Hname.
  2: { unfold wp, not_null. st_simpl. by left. }
  pose proof (proj1 (co_names _ _ _ _ _ _ Hc)) as H0. rewrite Hname in H0. cbn in H0.
  eapply st_wp_bind, st_wp_lift; [done|].
  destruct (log_message_ok T Ls G c w LOG_NOTICE (bytes "reloading configuration from " ++ name) Hc) as (g & Hg & Hc1).
  { apply not_elem_of_app. split; [no_nul|done]. }
  apply st_wp_bind. eapply st_wp_eq; [exact Hg|]. apply st_wp_bind.
  pose proof (init_config_ok _ _ _ (set_wlog g w) name (co_world _ _ _ _ _ _ Hc1) (co_log _ _ _ _ _ _ Hc1) H0) as Hinit.
  unfold wp in Hinit |- *. destruct (init_config e name (set_wlog g w)) as [[[new|] w1]|f] eqn:Hrun; [| |done].
  - destruct Hinit as (Hn & Hu & Hsame1 & Hnew). cbn in Hsame1.
    destruct (install_config_ok pcre_compile se T Ls G c w1 new Hn Hu Hnew) as (c' & w' & -> & Hc' & Ha & Hl & Htk & Htt & Hlv);
      [apply Hc..|]. split; [done|]. split; [right; by exists name, g, new, w1|].
    split_and!.
    + intros x l l' Hx Hlx Hl' Hlt. apply (Htk x l l'); try done. by rewrite Hsame1.
    + intros Hall. apply Htt. intros x l Hx. rewrite Hsame1 by set_solver. by apply Hall.
    + intros x Hx Hr. destruct (Hlv x Hx Hr) as [?|[? Heq]]; [by left|right]. by rewrite Heq, Hsame1.
  - destruct Hinit as (Hw1 & Hcan1 & Hsame).
    assert (config_ok e T Ls G c w1) as Hc2.
    { destruct Hc. constructor; try done. apply (sorted_laddr w); [|done]. intros x Hx. unfold laddr. rewrite Hsame; [done|set_solver]. }
    destruct (log_message_ok T Ls G c w1 LOG_ERR (bytes "failed to reload " ++ name) Hc2) as (g2 & Hg2 & Hc3).
    { apply not_elem_of_app. split; [no_nul|done]. }
    rewrite bind_eq. unfold werr, err. rewrite Hg2. split; [done|].
    split; [left; split; [done|]; intros x Hx; cbn; by rewrite Hsame|].
    destruct (same_tabled (listeners c ++ Ls) w (set_wlog g2 w1)) as [Hk1 _]; [done|]. split; [done|].
    split; [apply same_tabled; intros x Hx; cbn; apply Hsame; set_solver|].
    intros x Hx Hr. right. split; [done|]. cbn. by apply Hsame.
Qed.

(** ** Output *)

Lemma print_all_Ok f ls : (∀ x, x ∈ ls → ∃ t, f x = Ok t) → ∃ t, print_all f ls = Ok t.
Proof.
  induction ls as [|x ls IH]; intros Hf; [by eexists|]. cbn. destruct (Hf x) as (t & ->); [left|]. outcome_simpl.
  destruct IH as (r & ->); [intros; apply Hf; by right|]. by eexists.
Qed.

Lemma print_table_config_Ok (t : Table pcre) :
  Forall backend_ok (backends t) → ∃ s, print_table_config (cinet_ntop e) t = Ok s.
Proof.
  intros Hb. unfold print_table_config. assert (∃ s, print_backends (cinet_ntop e) (backends t) = Ok s) as (s & ->); [|by eexists].
  induction Hb as [|b bs [_ Ha] _ (r & IH)]; [by eexists|]. cbn [print_backends].
  assert (∃ s, print_backend_config (cinet_ntop e) b = Ok s) as (s & ->).
  { unfold print_backend_config. destruct (address b) as [a|]; [|by eexists].
    destruct (display_address_Ok (cinet_ntop e) a ADDRESS_BUFFER_SIZE) as (d & ->); [by apply Ha|]. by eexists. }
  outcome_simpl. rewrite IH. by eexists.
Qed.

Lemma print_config_Ok T Ls G c w : config_ok e T Ls G c w → ∃ t, print_config e c w = Ok t.
Proof.
  intros Hc. pose proof (co_world _ _ _ _ _ _ Hc) as Hw. unfold print_config, print_resolver_config.
  pose proof (ro_mode _ _ (co_resolver _ _ _ _ _ _ Hc)) as Hmode.
  destruct (lookup_lt_is_Some_2 resolver_mode_names (Z.to_nat (rmode (resolver c)))) as [n ->]; [cbn; lia|].
  rewrite (proj2 (Z.leb_le 0 _)) by lia. outcome_simpl.
  match goal with |- context [print_all ?f (listeners c)] => destruct (print_all_Ok f (listeners c)) as (t1 & ->) end.
  { intros x Hx. destruct (listener_held _ _ _ _ x Hw) as (l & Hl & Hpos); [set_solver|]. rewrite (deref_Some _ _ _ Hl). outcome_simpl.
    destruct (ok_wf _ _ _ _ Hw x l Hl Hpos) as [(a & Ha & Hwf & _) Hf Hs _].
    apply print_listener_config_Ok; [intros ? ?; by simplify_eq|intros ? ?%Hf; naive_solver|intros ? ?%Hs; naive_solver]. }
  outcome_simpl.
  match goal with |- context [print_all ?f (tables c)] => destruct (print_all_Ok f (tables c)) as (t2 & ->) end; [|by eexists].
  intros x Hx. destruct (counted_live _ _ (ok_tables _ _ _ _ Hw) x) as [t Ht]; [set_solver|]. rewrite (deref_Some _ _ _ Ht).
  outcome_simpl. apply print_table_config_Ok, (ok_backends _ _ _ _ Hw x t Ht).
Qed.
End whole.

(** * Properties *)

(** C12: reading a configuration file, whatever it contains, ends.  Every callback gets an object
    of the type it is cast to, no freed object is used, no assertion fails and no array is
    left.  Either the file is accepted: then the counts of all tables, listeners and loggers
    are the numbers of references, each listener has a socket address with its access log
    counted and no table yet, the list is sorted by address and has no duplicates, every
    entry of a table has a pattern and a well-formed address, the resolver has only
    addresses as name servers and a mode of its table, and the configuration can be printed.
    Or it is refused, and all references taken are given back; or the program ends in
    [fatal] or by a NULL pointer.  The listeners of others are untouched. *)
Theorem init_config_typed {pcre} e T Ls G (w : world pcre) fname r :
  cfg_env_ok e → world_ok T Ls G w → can_log (clog e) (wlog w) → 0 ∉ fname → init_config e fname w = r →
  match r with
  | Ok (Some c, w') =>
      config_ok e T Ls G c w' ∧ unstarted c w' ∧
      (∀ x l, x ∈ listeners c → wlisteners w' !! x = Some l → listener_wf l) ∧
      (∀ x t, x ∈ tables c → wtables w' !! x = Some t → table_addresses_ok t) ∧
      (∃ text, print_config e c w' = Ok text) ∧
      (∀ y, y ∈ Ls → wlisteners w' !! y = wlisteners w !! y)
  | Ok (None, w') => world_ok T Ls G w' ∧ ∀ y, y ∈ Ls → wlisteners w' !! y = wlisteners w !! y
  | Fault f => f = NullDereference ∨ f = Exit
  end.
Proof.
  intros He Hw Hcan Hname <-. pose proof (init_config_ok e He T Ls G w fname Hw Hcan Hname) as Hi. unfold wp in Hi.
  destruct (init_config e fname w) as [[[c|] w']|f]; [| |done].
  - destruct Hi as (Hc & Hu & HL & Hnew). pose proof (co_world _ _ _ _ _ _ Hc) as Hw'. split_and!; try done.
    + intros x l Hx Hl. apply (ok_wf _ _ _ _ Hw' x l Hl). apply (listener_held_pos _ _ _ _ x l Hw'); [set_solver|done].
    + intros x t Hx Ht b a Hb Ha. pose proof (ok_backends _ _ _ _ Hw' x t Ht) as Hall. eapply Forall_forall in Hall as [_ Hok]; [|done].
      by apply Hok.
    + by eapply print_config_Ok.
  - destruct Hi as (? & _ & ?). done.
Qed.


(** Freeing a configuration gives back exactly its references to tables, listeners and
    loggers.  A listener nobody else refers to is freed; one that connections still use is
    closed and stays, with their references; no other listener changes. *)
Theorem free_config_releases {pcre} e T Ls G c (w : world pcre) :
  config_ok e T Ls G c w →
  ∃ w', free_config c w = Ok ((), w') ∧ world_ok T Ls G w' ∧
    (∀ y, y ∉ listeners c → wlisteners w' !! y = wlisteners w !! y) ∧
    (∀ x, x ∈ listeners c → x ∉ Ls → wlisteners w' !! x = None) ∧
    (∀ x, x ∈ listeners c → x ∈ Ls → ∃ l, wlisteners w' !! x = Some l ∧ watcher_fd l < 0 ∧ watcher_active l = false).
Proof.
  intros Hc. destruct (free_config_spec T Ls G c w) as (w' & Hfree & Hw' & _ & Hsame & Hrem); [apply Hc..|].
  exists w'. split_and!; [done|done|done| |].
  - intros x Hx Hno. destruct (wlisteners w' !! x) as [l|] eqn:Hl; [|done]. destruct (Hrem x Hx l Hl) as (_ & _ & _ & Hpos).
    pose proof (counted_count _ _ (ok_listeners _ _ _ _ Hw') x l Hl) as Hcount. cbn in Hcount. rewrite Hcount in Hpos.
    by apply occurrences_pos in Hpos.
  - intros x Hx Hin. destruct (listener_held _ _ _ _ x Hw' Hin) as (l & Hl & _). exists l.
    destruct (Hrem x Hx l Hl) as (? & ? & _). done.
Qed.

(** The first directive of a listener block is its protocol, before any address. *)
Definition protocol_first (p : list Z) (ds more : list directive) : list directive :=
  Directive [bytes "listener"] (Some (Directive [bytes "protocol"; p] None :: ds)) :: more.

Lemma exec_protocol_first {pcre} (e : cfg_env) p ds more (s : cfg_state pcre) :
  (∀ n, cmalloc e n = true) →
  exec_config PConfig (global_grammar e) (protocol_first p ds more) (Ok s) = Ok (-1, Fault NullDereference).
Proof.
  intros Hm.
  set (K := mkKeyword (Some (bytes "listener")) (Some (@creates pcre PListener (cnew_listener e)))
     (Some (for_listener (accept_listener_arg (cinet_pton e) (cmalloc e)))) (Some (listener_stanza_grammar e))
     (Some (λ p q, callback (as_config p (as_listener q (end_listener_stanza e)))))).
  set (l := mkListener None None None tls_protocol_ptr None None false 0 false 0 false 0 (-1) false false None false).
  set (x := fresh (dom (wlisteners (cworld s)))).
  set (s1 := set_cworld (set_wlisteners (<[x := l]> (wlisteners (cworld s))) (cworld s)) s).
  assert (wlisteners (cworld s1) !! x = Some l) as Hx by (cbn; apply lookup_insert_eq).
  assert (parse_word PConfig (global_grammar e) None (bytes "listener") (Ok s) = Ok (1, Some (K, PListener x), Ok s1)) as W1.
  { unfold parse_word. assert (find_keyword (@global_grammar pcre e) (bytes "listener") = Ok (Some K)) as -> by reflexivity.
    outcome_simpl. cbn [create K creates]. unfold cnew_listener, new_listener. by rewrite Hm. }
  set (P := @simple pcre "protocol" (for_listener accept_listener_protocol)).
  assert (parse_word (PListener x) (listener_stanza_grammar e) None (bytes "protocol") (Ok s1)
    = Ok (1, Some (P, PListener x), Ok s1)) as W2.
  { unfold parse_word. by assert (find_keyword (@listener_stanza_grammar pcre e) (bytes "protocol") = Ok (Some P)) as -> by reflexivity. }
  assert (parse_word (PListener x) (listener_stanza_grammar e) (Some (P, PListener x)) p (Ok s1)
    = Ok (-1, Some (P, PListener x), Fault NullDereference)) as W3.
  { unfold parse_word. cbn [parse_arg P simple]. unfold for_listener, callback, as_listener, on_listener. rewrite bind_eq.
    unfold on_world at 1, zoom. rewrite (get_listener_eq _ _ _ Hx). cbv beta iota. rewrite bind_eq.
    assert (accept_listener_protocol l p = Fault NullDereference) as -> by reflexivity. done. }
  cbn [protocol_first exec_config exec_seq exec_directive exec_words]. rewrite W1.
  cbn [mbind outcome_bind Z.leb Z.compare block_grammar K]. rewrite W2. cbn [mbind outcome_bind Z.leb Z.compare].
  by rewrite W3.
Qed.

(** C38: a listener block that begins with its protocol although the listener has no address
    crashes the program while it reads the file, whatever follows: the port of the address
    is looked at through a NULL pointer. *)
Theorem protocol_before_address_crashes {pcre} e (w : world pcre) fname p ds more :
  cfg_env_ok e → (∀ n, cmalloc e n = true) → word_ok p → (∀ d, d ∈ ds → directive_ok d) →
  (∀ d, d ∈ more → directive_ok d) → ctext e fname = Some (CfgParser.print_config (protocol_first p ds more)) →
  init_config e fname w = Fault NullDereference.
Proof.
  intros He Hm Hp Hds Hmore Hfile.
  assert (∀ d, d ∈ protocol_first p ds more → directive_parses (state:=outcome (cfg_state pcre)) (ptr:=cfg_ptr) d) as Hok.
  { intros d Hd. apply directive_parses_ok. apply elem_of_cons in Hd as [->|Hd]; [|by apply Hmore].
    apply do_block; [constructor; [split; [done|no_nul]|constructor]|]. intros d [->|Hd]%elem_of_cons; [|by apply Hds].
    apply do_line. repeat (constructor; [first [done|split; [done|no_nul]]|]). constructor. }
  pose proof (config_parses_all _ Hok (cbuffer e) PConfig (global_grammar e)
    (S (length (CfgParser.print_config (protocol_first p ds more)))) (cbuffer e) []
    (Ok (mkCfg w (empty_config (Some fname)) ∅ ∅ ∅)) (-1) (Fault NullDereference)) as Hparse.
  rewrite app_nil_r in Hparse. destruct Hparse as (rest & Hparse & _); [apply He|apply He|by left|lia|by apply exec_protocol_first|].
  unfold init_config, strdup. rewrite !Hm. cbn [negb]. rewrite Hfile, bind_eq, gets_eq. cbv beta iota. rewrite bind_eq.
  unfold parse_config, id. rewrite Hparse. by st_simpl.
Qed.

(** * Witnesses *)

Definition line (t : string) : list Z := bytes t ++ [LF].

Definition ex_file : list Z :=
  line "username daemon" ++ line "error_log {" ++ line "filename /var/log/sniproxy.log" ++ line "}" ++
  line "access_log {" ++ line "syslog daemon" ++ line "priority info" ++ line "}" ++
  line "resolver {" ++ line "nameserver 127000000001" ++ line "mode ipv6_first" ++ line "}" ++
  line "listener 192000002010:443 {" ++ line "proto tls" ++ line "table hosts" ++ line "fallback 192000002011:8080" ++ line "}" ++
  line "listener 192000002010:80 {" ++ line "proto http" ++ line "table hosts" ++
  line "access_log /var/log/http.log" ++ line "}" ++
  line "table hosts {" ++ line "example.com 192000002020:4343" ++ line "example.net *" ++ line "}".

Definition ex_cfg_env (file : list Z) : cfg_env :=
  mkCfgEnv fixed_pton fixed_ntop (λ _, true) true true true true (ex_log_env true) (λ _, Some file) (replicate 256 0) true.

Lemma ex_cfg_env_ok file : cfg_env_ok (ex_cfg_env file).
Proof. constructor; [apply _|apply ex_log_env_ok|done]. Qed.

Definition ex_empty : world (list Z) := mkWorld ∅ ∅ log_init [].

Lemma ex_empty_ok : world_ok [] [] [] ex_empty.
Proof.
  split; [constructor|]; cbn [wtables wlisteners wlog ex_empty].
  - split; [by intros ?? ?%lookup_empty_Some|by intros ? ?%elem_of_nil].
  - by intros ?? ?%lookup_empty_Some.
  - split; [by intros ?? ?%lookup_empty_Some|by intros ? ?%elem_of_nil].
  - apply log_init_ok.
  - by intros ?? ?%lookup_empty_Some.
Qed.

Lemma ex_can_log : can_log (ex_log_env true) log_init.
Proof. by right. Qed.

Definition ex_name : list Z := bytes "/etc/sniproxy.conf".
Lemma ex_name_nul : 0 ∉ ex_name.
Proof. no_nul. Qed.

(** The configuration that the file describes. *)
Definition ex_loaded : Config * world (list Z) :=
  match init_config (ex_cfg_env ex_file) ex_name ex_empty with
  | Ok (Some c, w) => (c, w)
  | _ => (empty_config None, ex_empty)
  end.

Lemma ex_loaded_eq : init_config (ex_cfg_env ex_file) ex_name ex_empty = Ok (Some (fst ex_loaded), snd ex_loaded).
Proof. by vm_compute. Qed.

Lemma ex_loaded_ok : config_ok (ex_cfg_env ex_file) [] [] [] (fst ex_loaded) (snd ex_loaded).
Proof.
  pose proof (init_config_ok _ (ex_cfg_env_ok ex_file) [] [] [] ex_empty ex_name ex_empty_ok ex_can_log ex_name_nul) as H.
  exact (proj1 (st_wp_Ok _ _ _ _ _ H ex_loaded_eq)).
Qed.

Lemma init_config_typed_witness :
  init_config (ex_cfg_env ex_file) ex_name ex_empty = Ok (Some (fst ex_loaded), snd ex_loaded) ∧
  length (listeners (fst ex_loaded)) = 2%nat ∧ length (tables (fst ex_loaded)) = 1%nat ∧
  config_ok (ex_cfg_env ex_file) [] [] [] (fst ex_loaded) (snd ex_loaded).
Proof.
  split; [apply ex_loaded_eq|]. split; [by vm_compute|]. split; [by vm_compute|].
  exact (proj1 (init_config_typed (ex_cfg_env ex_file) [] [] [] ex_empty ex_name _ (ex_cfg_env_ok ex_file) ex_empty_ok
    ex_can_log ex_name_nul ex_loaded_eq)).
Defined.

(** The same file is read again, with one listener on another port. *)
Definition ex_file2 : list Z :=
  line "listener 192000002010:8443 {" ++ line "table hosts" ++ line "}" ++
  line "listener 192000002010:80 {" ++ line "proto http" ++ line "table hosts" ++ line "}" ++
  line "table hosts {" ++ line "example.org *" ++ line "}".

Lemma ex_loaded_ok2 : config_ok (ex_cfg_env ex_file2) [] [] [] (fst ex_loaded) (snd ex_loaded).
Proof. destruct ex_loaded_ok as [? ? ? ? [] ?]. constructor; done. Qed.

Definition ex_reloaded : Config * world (list Z) :=
  match reload_config (ex_cfg_env ex_file2) Some ex_sock_env (fst ex_loaded) (snd ex_loaded) with
  | Ok (c, _, w) => (c, w)
  | _ => (empty_config None, ex_empty)
  end.

Lemma ex_reloaded_eq :
  reload_config (ex_cfg_env ex_file2) Some ex_sock_env (fst ex_loaded) (snd ex_loaded) = Ok ((fst ex_reloaded, true), snd ex_reloaded).
Proof. by vm_compute. Qed.


Lemma free_config_releases_witness :
  ∃ w', free_config (fst ex_loaded) (snd ex_loaded) = Ok ((), w') ∧ world_ok [] [] [] w' ∧
        wlisteners w' !! 1%positive = None ∧ wlisteners w' !! 2%positive = None.
Proof.
  destruct (free_config_releases (ex_cfg_env ex_file) [] [] [] (fst ex_loaded) (snd ex_loaded) ex_loaded_ok)
    as (w' & H1 & H2 & _ & H3 & _).
  exists w'. split; [done|]. split; [done|]. split; apply H3; first [apply not_elem_of_nil|apply (bool_decide_unpack _); by vm_compute].
Defined.

Lemma protocol_before_address_crashes_witness :
  init_config (ex_cfg_env (CfgParser.print_config (protocol_first (bytes "tls") [] []))) ex_name ex_empty = Fault NullDereference.
Proof.
  apply (protocol_before_address_crashes _ ex_empty ex_name (bytes "tls") [] []).
  - apply ex_cfg_env_ok.
  - done.
  - split; [done|no_nul].
  - by intros d ?%elem_of_nil.
  - by intros d ?%elem_of_nil.
  - done.
Defined.
