(* ===== verification/ConnectionsOk.v ===== *)
(** What holds of all connections together (src/connection.c): every connection is in the queue
    once, keeps the invariant of the file Relay and holds one reference on a listener that has
    a table; accepting, the callbacks, the answers of the resolver and the end of the program
    keep this true. *)

From S2P Require Import Prelude CString Protocol Buffer Tls Http Address Resolv Backend Table Listener BadRequest Connection Relay.
From S2P Require Import RefCount Logger ListenerReload Connections Config ConfigOk.
From stdpp Require Import list gmap.

#[local] Open Scope Z_scope.

(** * Text *)

Section text.
Context (inet_ntop : Z → list Z → list Z).

Lemma show_prefix_Ok prec s : (∀ h, s = Some h → 0 ∈ h) → ∃ t, show_prefix prec s = Ok t ∧ 0 ∉ t.
Proof.
  intros Hs. unfold show_prefix. destruct s as [h|].
  2: { eexists. split; [done|]. destruct (_ || _); no_nul. }
  destruct (_ && _); [eexists; split; [done|apply until_nul_free]|].
  unfold c_string. rewrite bool_decide_true by (apply (Hs h eq_refl)). outcome_simpl.
  eexists. split; [done|]. pose proof (until_nul_free (drop (Z.to_nat 0) h)) as Hf. destruct (prec <? 0); [done|].
  intros Hin. apply Hf. by eapply elem_of_take in Hin as (? & ?%list_elem_of_lookup_2 & _).
Qed.

Lemma show_seconds_nul_free d : 0 ∉ show_seconds d.
Proof.
  unfold show_seconds. rewrite !not_elem_of_app. split_and!.
  - destruct (d <? 0); no_nul.
  - apply decimal_nul_free. apply Z.div_pos; lia.
  - no_nul.
  - rewrite !not_elem_of_cons. pose proof (Z.mod_pos_bound (Z.abs d / 100) 10). pose proof (Z.mod_pos_bound (Z.abs d / 10) 10).
    pose proof (Z.mod_pos_bound (Z.abs d) 10). split_and!; [lia..|apply not_elem_of_nil].
Qed.

Lemma connection_line_Ok hdr c t :
  mid_inv hdr c t → ∃ s, connection_line inet_ntop c = Ok s ∧ 0 ∉ s.
Proof.
  intros Hinv. destruct (mi_names _ _ _ Hinv) as [Hn1 Hn3], (mi_local _ _ _ Hinv) as [Hl2 Hn2]. unfold connection_line.
  destruct (show_sockaddr_Ok inet_ntop (paddr (client c)) ADDRESS_BUFFER_SIZE) as (s1 & -> & H1); [apply Hinv|done|]. outcome_simpl.
  destruct (show_sockaddr_Ok inet_ntop (plocal (client c)) ADDRESS_BUFFER_SIZE) as (s2 & -> & H2); [done|done|]. outcome_simpl.
  destruct (show_sockaddr_Ok inet_ntop (paddr (server c)) ADDRESS_BUFFER_SIZE) as (s3 & -> & H3); [apply Hinv|done|]. outcome_simpl.
  destruct (show_prefix_Ok (c_int (hostname_len c)) (hostname c)) as (s4 & -> & H4); [apply Hinv|]. outcome_simpl.
  assert (∀ b, buf_ok b → 0 ∉ decimal (tx_bytes b) ∧ 0 ∉ decimal (rx_bytes b)) as Hd.
  { intros b [Hwf _]. split; apply decimal_nul_free; [apply Hwf|rewrite (wf_rx _ Hwf); apply size_t_range]. }
  destruct (Hd (cbuf c)) as [D1 D2]; [apply Hinv|]. destruct (Hd (sbuf c)) as [D3 D4]; [apply Hinv|].
  eexists. split; [done|]. rewrite !not_elem_of_app. split_and!; try done; try no_nul. apply show_seconds_nul_free.
Qed.
End text.

(** * The invariant *)

(** The references the connections hold. *)
Definition held (m : gmap loc conn_entry) : list loc := holders (λ en, [elistener en]) m.

(** [Ls] are the references to listeners that others hold. *)
Record conns_ok {pcre} (T Ls G : list loc) (p : prog pcre) : Prop := {
  pk_world : world_ok T (held (pconns p) ++ Ls) G (pworld p);
  pk_nodup : NoDup (pqueue p);
  pk_queue x : x ∈ pqueue p ↔ is_Some (pconns p !! x);
  pk_conn x en : pconns p !! x = Some en → ∃ hdr, conn_inv hdr (econn en) (etrace en);
  pk_table x en l : pconns p !! x = Some en → wlisteners (pworld p) !! elistener en = Some l → ltable l ≠ None
}.

(** Listeners change in their counts only, or are freed; and there still is a default logger. *)
Definition recounted {pcre} (w w' : world pcre) : Prop :=
  (∀ x l', wlisteners w' !! x = Some l' →
     ∃ l, wlisteners w !! x = Some l ∧ l' = set_lrefs (lreference_count l') l ∧
       (0 < lreference_count l' ↔ 0 < lreference_count l)) ∧
  (default_logger (wlog w) ≠ None → default_logger (wlog w') ≠ None).

Lemma recounted_log {pcre} (w : world pcre) s : log_kept (wlog w) s → recounted w (set_wlog s w).
Proof. intros [_ Hd]. split; [|cbn; by intros H; rewrite Hd]. intros x l Hl. exists l. split_and!; [done|by destruct l|done]. Qed.

Lemma recounted_refl {pcre} (w : world pcre) : recounted w w.
Proof. split; [|done]. intros x l Hl. exists l. split_and!; [done|by destruct l|done]. Qed.

Lemma recounted_trans {pcre} (w1 w2 w3 : world pcre) : recounted w1 w2 → recounted w2 w3 → recounted w1 w3.
Proof.
  intros [H12 D12] [H23 D23]. split; [|by auto]. intros x l3 Hl3. destruct (H23 x l3 Hl3) as (l2 & Hl2 & Heq2 & Hp2).
  destruct (H12 x l2 Hl2) as (l1 & Hl1 & Heq1 & Hp1). exists l1. split_and!; [done| |by rewrite Hp2]. by rewrite Heq2, Heq1.
Qed.

Lemma recounted_table {pcre} (w w' : world pcre) x l' :
  recounted w w' → wlisteners w' !! x = Some l' → ∃ l, wlisteners w !! x = Some l ∧ ltable l' = ltable l.
Proof. intros [H _] Hl'. destruct (H x l' Hl') as (l & Hl & -> & _). by exists l. Qed.

Lemma held_in (m : gmap loc conn_entry) x en : m !! x = Some en → elistener en ∈ held m.
Proof. intros Hx. apply elem_of_holders. exists x, en. split; [done|]. by apply list_elem_of_singleton. Qed.

Section world.
Context {pcre : Type}.
Implicit Types w : world pcre.

Lemma ref_get_ok T Ls G w x :
  world_ok T Ls G w → x ∈ Ls →
  ∃ w', on_listeners (λ h, h ← listener_ref_get h x; Ok ((), h)) w = Ok ((), w') ∧ world_ok T (x :: Ls) G w' ∧
    recounted w w'.
Proof.
  intros Hw Hx. destruct (listener_held _ _ _ _ x Hw Hx) as (l & Hl & Hpos).
  eexists. split; [|split; [by apply (world_ok_get T Ls G w x l Hw Hl), (ok_wf _ _ _ _ Hw x)|split; [|done]]].
  { unfold on_listeners, zoom, listener_ref_get. rewrite (deref_Some _ _ _ Hl). done. }
  intros y ly. cbn. rewrite lookup_insert. case_decide as Hxy; [subst|intros; exists ly; split_and!; [done|by destruct ly|done]]. intros [= <-]. exists l. cbn. split_and!; [done|done|lia].
Qed.

Lemma ref_put_ok T Ls G w x :
  world_ok T (x :: Ls) G w →
  ∃ w', listener_ref_put (Some x) w = Ok ((), w') ∧ world_ok T Ls G w' ∧ recounted w w'.
Proof.
  intros Hw. destruct (listener_ref_put_spec T Ls G w x Hw) as (l & w' & Hl & Heq & Hw' & Hsame & Hx & _).
  assert (0 < lreference_count l) as Hpos by (apply (listener_held_pos _ _ _ _ x l Hw); [left|done]).
  exists w'. split; [done|]. split; [done|]. split; [|by rewrite (kd_listener_ref_put _ _ _ _ Heq)]. intros y ly Hy. destruct (decide (y = x)) as [->|Hne].
  - rewrite Hx in Hy. destruct (Z.eqb_spec (lreference_count l) 1); [done|]. injection Hy as <-. exists l. cbn. split_and!; [done|done|lia].
  - rewrite Hsame in Hy by done. exists ly. split_and!; [done|by destruct ly|done].
Qed.

(** The access log is there as long as its listener. *)
Lemma log_msg_ok ge T Ls G w x l text :
  log_env_ok ge → world_ok T Ls G w → wlisteners w !! x = Some l → access_log l ≠ None → 0 ∉ text →
  ∃ s, on_log (log_msg ge (access_log l) LOG_NOTICE text) w = Ok ((), set_wlog s w) ∧ world_ok T Ls G (set_wlog s w) ∧
    log_kept (wlog w) s.
Proof.
  intros Hge Hw Hl Hne Ht. destruct (access_log l) as [g|] eqn:Hg; [|done].
  assert (is_Some (loggers (wlog w) !! g)) as Hlive.
  { eapply log_ok_live; [apply (ok_log _ _ _ _ Hw)|]. apply elem_of_app. right. apply elem_of_holders. exists x, l.
    split; [done|]. rewrite Hg. by apply list_elem_of_singleton. }
  destruct (vlog_msg_spec ge _ (wlog w) g LOG_NOTICE text Hge (ok_log _ _ _ _ Hw) Hlive Ht) as (s & Hs & Hok & Hkept).
  exists s. rewrite on_log_eq. unfold log_msg. rewrite Hs. split_and!; [done| |done].
  destruct Hw as [[] ?]. split; [constructor|]; done.
Qed.
End world.

(** * The operations keep it *)

Section ops.
Context {pcre : Type}.
Context (pcre_exec : pcre → list Z → Z → Z * list Z).
Context (pcre_copy_substring : list Z → list Z → Z → Z → Z → Z * list Z).
Context (inet_pton : Z → list Z → option (list Z)) (inet_ntop : Z → list Z → list Z).
Context (have_libudns have_transparent : bool).
Context `{!InetText inet_pton inet_ntop}.
Context (ge : log_env) (Hge : log_env_ok ge).
Implicit Types p : prog pcre.

Lemma with_world_eq {A} (m : ST (world pcre) A) p :
  with_world m p = match m (pworld p) with Ok (a, w) => Ok (a, set_pworld w p) | Fault f => Fault f end.
Proof. done. Qed.

(** The environment of a callback, with the listener and the table it finds. *)
Definition at_listener (e : env pcre) (l : Listener) (t : Table pcre) : env pcre :=
  mkEnv pcre (now e) (recv_ret_of e) (send_ret_of e) (alloc e) l (Some t) (scratch e) (query_ok e)
    (socket_ret e) (sockopt_ret e) (bind_ret e) (connect_ret e) (sockname e) (errors e) (sys_errno e) (discard_err e).

Lemma env_at_ok T Ls G p e x l :
  world_ok T Ls G (pworld p) → x ∈ Ls → wlisteners (pworld p) !! x = Some l → ltable l ≠ None →
  ∃ tx t, ltable l = Some tx ∧ wtables (pworld p) !! tx = Some t ∧ env_at e x p = Ok (at_listener e l t, p).
Proof.
  intros Hw Hx Hl Ht. destruct (ltable l) as [tx|] eqn:Htx; [|done].
  destruct (counted_live _ _ (ok_tables _ _ _ _ Hw) tx) as [t Htab].
  { apply elem_of_app. right. apply elem_of_holders. exists x, l. split; [done|]. rewrite Htx. by apply list_elem_of_singleton. }
  exists tx, t. split_and!; [done|done|]. unfold env_at. st_simpl. rewrite (deref_Some _ _ _ Hl). st_simpl. rewrite Htx. st_simpl.
  rewrite (deref_Some _ _ _ Htab). done.
Qed.

(** The listener of a connection. *)
Lemma conn_listener T Ls G p x en :
  conns_ok T Ls G p → pconns p !! x = Some en →
  ∃ l, wlisteners (pworld p) !! elistener en = Some l ∧ listener_wf l ∧ ltable l ≠ None.
Proof.
  intros Hp Hx. pose proof (pk_world _ _ _ _ Hp) as Hw.
  destruct (listener_held _ _ _ _ (elistener en) Hw) as (l & Hl & Hpos).
  { apply elem_of_app. left. by eapply held_in. }
  exists l. split_and!; [done|by apply (ok_wf _ _ _ _ Hw (elistener en))|by eapply pk_table].
Qed.

(** ** Changes of the two stores *)

Lemma conns_put T Ls G p x en en' :
  conns_ok T Ls G p → pconns p !! x = Some en → elistener en' = elistener en →
  (∃ hdr, conn_inv hdr (econn en') (etrace en')) → conns_ok T Ls G (set_pconns (<[x := en']> (pconns p)) p).
Proof.
  intros [Hw Hnd Hq Hc Ht] Hx Hel Hinv. constructor; cbn.
  - eapply world_ok_proper; [done| |done|done|exact Hw]. apply Permutation_app_tail. unfold held.
    apply holders_same with en; [done|]. by rewrite Hel.
  - done.
  - intros y. rewrite Hq, lookup_insert. case_decide; [subst; rewrite Hx; by split|done].
  - intros y eny. rewrite lookup_insert. case_decide; [by intros [= <-]|exact (Hc y eny)].
  - intros y eny l. rewrite lookup_insert. case_decide; [|by apply Ht]. intros [= <-]. rewrite Hel. by apply (Ht x).
Qed.

Lemma conns_delete T Ls G p x q w :
  conns_ok T Ls G p → NoDup q → (∀ y, y ∈ q ↔ y ∈ pqueue p ∧ y ≠ x) →
  world_ok T (held (delete x (pconns p)) ++ Ls) G w → recounted (pworld p) w →
  conns_ok T Ls G (mkProg w (delete x (pconns p)) q).
Proof.
  intros [Hw Hnd Hq Hc Ht] Hndq Hqx Hw' Hre. constructor; cbn; try done.
  - intros y. rewrite Hqx, Hq, lookup_delete. case_decide; [subst; split; [by intros []|by intros [? ?]]|naive_solver].
  - intros y en [_ Hy]%lookup_delete_Some. exact (Hc y en Hy).
  - intros y en l [_ Hy]%lookup_delete_Some Hl. destruct (recounted_table _ _ _ _ Hre Hl) as (l0 & Hl0 & ->). by eapply Ht.
Qed.

Lemma conns_world T Ls G p w :
  conns_ok T Ls G p → world_ok T (held (pconns p) ++ Ls) G w → recounted (pworld p) w → conns_ok T Ls G (set_pworld w p).
Proof.
  intros [Hw Hnd Hq Hc Ht] Hw' Hre. constructor; cbn; try done.
  intros y en l Hy Hl. destruct (recounted_table _ _ _ _ Hre Hl) as (l0 & Hl0 & ->). by eapply Ht.
Qed.

Lemma conns_requeue T Ls G p q :
  conns_ok T Ls G p → q ≡ₚ pqueue p → conns_ok T Ls G (set_pqueue q p).
Proof. intros [Hw Hnd Hq Hc Ht] Hp. constructor; cbn; try done; [by rewrite Hp|]. intros y. by rewrite Hp. Qed.

Lemma dequeue_ok p x :
  NoDup (pqueue p) → x ∈ pqueue p →
  ∃ q, dequeue x p = Ok ((), set_pqueue q p) ∧ NoDup q ∧ (∀ y, y ∈ q ↔ y ∈ pqueue p ∧ y ≠ x) ∧ x :: q ≡ₚ pqueue p.
Proof.
  intros Hnd Hx. destruct (slist_remove_spec (pqueue p) x Hx Hnd) as (q & Heq & Hq & Hin).
  exists q. unfold dequeue. st_simpl. rewrite Heq. split_and!; [done|done|done|].
  apply NoDup_Permutation; [constructor; [|done]; rewrite Hin; by intros []|done|].
  intros y. rewrite elem_of_cons, Hin. destruct (decide (y = x)) as [->|]; naive_solver.
Qed.

Lemma move_to_head_ok T Ls G p x :
  conns_ok T Ls G p → x ∈ pqueue p →
  ∃ q, move_to_head x p = Ok ((), set_pqueue (x :: q) p) ∧ conns_ok T Ls G (set_pqueue (x :: q) p).
Proof.
  intros Hp Hx. destruct (dequeue_ok p x) as (q & Heq & _ & _ & Hperm); [apply Hp|done|].
  exists q. unfold move_to_head. st_simpl. rewrite Heq. split; [done|]. by apply conns_requeue.
Qed.

Lemma free_connection_ok T Ls G p x en :
  world_ok T (held (pconns p) ++ Ls) G (pworld p) → pconns p !! x = Some en →
  ∃ w, free_connection x p = Ok ((), mkProg w (delete x (pconns p)) (pqueue p)) ∧
    world_ok T (held (delete x (pconns p)) ++ Ls) G w ∧ recounted (pworld p) w.
Proof.
  intros Hw Hx. destruct (ref_put_ok T (held (delete x (pconns p)) ++ Ls) G (pworld p) (elistener en)) as (w & Heq & Hw' & Hre).
  { eapply world_ok_proper; [done| |done|done|exact Hw].
    change (elistener en :: held (delete x (pconns p)) ++ Ls) with (([elistener en] ++ held (delete x (pconns p))) ++ Ls).
    symmetry. apply Permutation_app_tail. unfold held. by apply (holders_delete (λ en, [elistener en])). }
  exists w. unfold free_connection, get_conn. st_simpl. rewrite (deref_Some _ _ _ Hx). st_simpl. rewrite with_world_eq, Heq. done.
Qed.

(** ** Messages *)

Lemma can_log_recounted (w w' : world pcre) : can_log ge (wlog w) → recounted w w' → can_log ge (wlog w').
Proof. intros [Hd|Hm] [_ Hr]; [left; by apply Hr|by right]. Qed.

(** What the handlers say reaches the default logger. *)
Lemma write_log_ok T Ls G p t :
  world_ok T Ls G (pworld p) → can_log ge (wlog (pworld p)) → Forall printable t →
  ∃ g, write_log ge t p = Ok ((), set_pworld (set_wlog g (pworld p)) p) ∧
    world_ok T Ls G (set_wlog g (pworld p)) ∧ log_kept (wlog (pworld p)) g.
Proof.
  intros Hw Hcan Ht. revert p Hw Hcan. induction Ht as [|ev t Hev Ht IH]; intros p Hw Hcan.
  { exists (wlog (pworld p)). destruct p as [[] ? ?]. split_and!; [done|done|]. by apply log_kept_same. }
  assert (match ev with IoLog _ _ => True | _ => write_log (pcre := pcre) ge (ev :: t) = write_log ge t end) as Hskip by (by destruct ev).
  destruct ev as [| | | | | | | |prio text]; try (rewrite Hskip; by apply IH).
  destruct (log_default_spec ge _ (wlog (pworld p)) prio text Hge (ok_log _ _ _ _ Hw) Hcan Hev) as (g & Hg & Hok & Hkept).
  cbn [write_log]. rewrite bind_eq, with_world_eq, on_log_eq, Hg.
  destruct (IH (set_pworld (set_wlog g (pworld p)) p)) as (g' & Heq & Hw' & Hkept').
  - destruct Hw as [[] ?]. split; [constructor|]; done.
  - eapply can_log_recounted; [exact Hcan|by apply recounted_log].
  - exists g'. split_and!; [by rewrite Heq|done|by eapply log_kept_trans].
Qed.

(** ** Accepting *)

(** What the system promises to [accept_connection], whatever the listener. *)
Definition accept_env (e : env pcre) (accepted : option (Z * list Z * Z)) : Prop :=
  ∀ l t, accept_ok (at_listener e l t) accepted.

Lemma accept_client_ok T Ls G p e sa accepted l :
  conns_ok T Ls G p → l ∈ Ls → (∀ ll, wlisteners (pworld p) !! l = Some ll → ltable ll ≠ None) →
  accept_env e accepted → can_log ge (wlog (pworld p)) →
  ∃ r p', accept_client inet_ntop ge e sa accepted l p = Ok (r, p') ∧ conns_ok T Ls G p' ∧ recounted (pworld p) (pworld p').
Proof.
  intros Hp Hl Htab Hacc Hcan. unfold accept_client. destruct (new_connection e sa) as [c0|] eqn:Hnew.
  2: { destruct (write_log_ok T (held (pconns p) ++ Ls) G p [IoLog LOG_ERR (bytes "new_connection failed")]) as (g & Hg & Hwg & Hk);
         [apply Hp|done|constructor; [text_ok|done]|].
       rewrite bind_eq, Hg. apply recounted_log in Hk. eexists 0, _. split; [done|]. split; [by apply conns_world|done]. }
  destruct (ref_get_ok T (held (pconns p) ++ Ls) G (pworld p) l (pk_world _ _ _ _ Hp)) as (w1 & Hget & Hw1 & Hre1); [set_solver|].
  st_simpl. rewrite with_world_eq, Hget. st_simpl.
  destruct (listener_held _ _ _ _ l Hw1) as (ll & Hll & _); [left|].
  assert (ltable ll ≠ None) as Hlt.
  { destruct (recounted_table _ _ _ _ Hre1 Hll) as (l0 & Hl0 & ->). by apply Htab. }
  destruct (env_at_ok T (l :: held (pconns p) ++ Ls) G (set_pworld w1 p) e l ll) as (tx & t & Htx & _ & Henv); [done|left|done|done|].
  rewrite Henv. st_simpl.
  destruct (accept_run (at_listener e ll t) inet_pton inet_ntop sa accepted (Hacc ll t)) as (o & tr & Ho & Hfail & Hspec).
  rewrite Ho. st_simpl. destruct o as [c|].
  - destruct (Hspec c eq_refl) as (-> & Hinv & _ & _). cbn [write_log]. st_simpl. set (x := fresh _).
    assert (pconns p !! x = None) as Hx by (apply not_elem_of_dom, is_fresh).
    unfold put_conn. st_simpl. eexists 1, _. split; [done|]. cbn. split; [|done].
    destruct Hp as [Hw Hnd Hq Hc Ht]. constructor; cbn.
    + eapply world_ok_proper; [done| |done|done|exact Hw1]. unfold held at 1.
      rewrite (holders_insert_new (λ en, [elistener en])) by done. done.
    + constructor; [|done]. rewrite Hq, Hx. by intros [? ?].
    + intros y. rewrite elem_of_cons, Hq, lookup_insert. case_decide; [subst; split; [by eexists|by left]|naive_solver].
    + intros y eny. rewrite lookup_insert. case_decide; [|exact (Hc y eny)]. intros [= <-]. by eexists.
    + intros y eny ly. rewrite lookup_insert. case_decide.
      * intros [= <-]. cbn. intros Hly. by simplify_eq.
      * intros Hy Hly. destruct (recounted_table _ _ _ _ Hre1 Hly) as (l0 & Hl0 & ->). by eapply Ht.
  - destruct (Hfail eq_refl) as (prio & text & -> & Htext).
    destruct (write_log_ok T (l :: held (pconns p) ++ Ls) G (set_pworld w1 p) [IoLog prio text]) as (g & Hg & Hwg & Hk);
      [done|by eapply can_log_recounted|by constructor|].
    apply recounted_log in Hk. rewrite Hg. st_simpl.
    destruct (ref_put_ok T (held (pconns p) ++ Ls) G _ l Hwg) as (w2 & Hput & Hw2 & Hre2).
    rewrite with_world_eq. cbn [pworld set_pworld] in *. rewrite Hput. st_simpl.
    pose proof (recounted_trans _ _ _ (recounted_trans _ _ _ Hre1 Hk) Hre2) as Hre. eexists 0, _. split; [done|]. split; [|done].
    by apply (conns_world T Ls G p w2).
Qed.

(** ** Callbacks *)

(** What a callback relies on: memory of the size asked for, a resolver that takes queries, and
    a configuration that leads to usable addresses. *)
Record callback_env (e : env pcre) (l : Listener) (t : Table pcre) : Prop := {
  ce_alloc n m : 0 ≤ n → alloc e n = Some m → Zlen m = n ∧ Forall is_byte m;
  ce_routes result h : parse_result_ok (result, h) →
    yields (listener_lookup_server_address inet_pton (malloc_of e) pcre_exec pcre_copy_substring
              l t (scratch e) h (size_t result)) (λ r, ∀ a, raddress r = Some a → Listener.usable a);
  ce_query : query_ok e = true
}.

Lemma callback_env_ok e l t :
  callback_env e l t → listener_wf l → env_ok (at_listener e l t) pcre_exec pcre_copy_substring inet_pton.
Proof.
  intros [] Hwf. constructor; [done|by exists t|done|apply Hwf|]. intros _.
  destruct (wf_address _ Hwf) as (a & ? & _ & ?). by exists a.
Qed.

(** What holds of the listener at [x] and its table. *)
Definition at_routes (p : prog pcre) (x : loc) (Q : Listener → Table pcre → Prop) : Prop :=
  ∀ l tx t, wlisteners (pworld p) !! x = Some l → ltable l = Some tx → wtables (pworld p) !! tx = Some t → Q l t.

Lemma log_connection_ok T Ls G p hdr en :
  world_ok T Ls G (pworld p) → elistener en ∈ Ls → mid_inv hdr (econn en) (etrace en) →
  ∃ w, log_connection inet_ntop ge en p = Ok ((), set_pworld w p) ∧ world_ok T Ls G w ∧ recounted (pworld p) w.
Proof.
  intros Hw Hel Hinv. destruct (listener_held _ _ _ _ (elistener en) Hw Hel) as (l & Hl & _).
  unfold log_connection. st_simpl. rewrite with_world_eq, (get_listener_eq _ _ _ Hl). st_simpl.
  destruct (access_log l) as [g|] eqn:Hg; cbn [non_null].
  2: { exists (pworld p). rewrite when_false_eq, ret_eq. split; [done|]. split; [done|apply recounted_refl]. }
  destruct (connection_line_Ok inet_ntop hdr _ _ Hinv) as (text & Htext & Hnul). rewrite when_true_eq. st_simpl.
  rewrite Htext. st_simpl. rewrite with_world_eq. cbn [pworld set_pworld].
  destruct (log_msg_ok ge T Ls G (pworld p) (elistener en) l text) as (s & Hs & Hw' & Hk); [done|done|done|by rewrite Hg|done|].
  rewrite Hg in Hs. rewrite Hs. eexists. split; [done|]. split; [done|by apply recounted_log].
Qed.

(** What a handler adds to the trace of a connection is written to the log. *)
Lemma conns_said T Ls G p hdr c tr en :
  conns_ok T Ls G p → can_log ge (wlog (pworld p)) → mid_inv hdr c tr →
  ∃ w, write_log ge (news en tr) p = Ok ((), set_pworld w p) ∧ conns_ok T Ls G (set_pworld w p) ∧ recounted (pworld p) w.
Proof.
  intros Hp Hcan Hinv. destruct (write_log_ok T (held (pconns p) ++ Ls) G p (news en tr)) as (g & Hg & Hw & Hk);
    [apply Hp|done|by apply Forall_drop, (mi_log _ _ _ Hinv)|].
  apply recounted_log in Hk. eexists. split; [exact Hg|]. split; [by apply conns_world|done].
Qed.

Lemma start_query_same e c tr en :
  let en' := start_query pcre_exec pcre_copy_substring inet_pton e c tr en in
  elistener en' = elistener en ∧ econn en' = c ∧ etrace en' = tr.
Proof. unfold start_query. by destruct (_ && _). Qed.

Lemma on_connection_ok T Ls G p e x en s revents :
  conns_ok T Ls G p → pconns p !! x = Some en → wactive (watcher (side s (econn en))) = true →
  at_routes p (elistener en) (λ l t, callback_env e l t ∧ transfers_ok (at_listener e l t) s (econn en)) →
  can_log ge (wlog (pworld p)) →
  ∃ p', on_connection pcre_exec pcre_copy_substring inet_pton inet_ntop have_libudns have_transparent ge e x s revents p
          = Ok ((), p') ∧ conns_ok T Ls G p' ∧ recounted (pworld p) (pworld p').
Proof.
  intros Hp Hx Hact Henv Hcan. destruct (conn_listener _ _ _ _ _ _ Hp Hx) as (l & Hl & Hwf & Ht).
  assert (elistener en ∈ held (pconns p) ++ Ls) as Hin by (apply elem_of_app; left; by eapply held_in).
  destruct (env_at_ok _ _ _ p e _ l (pk_world _ _ _ _ Hp) Hin Hl Ht) as (tx & t & Htx & Htab & Hat).
  destruct (Henv l tx t Hl Htx Htab) as [Hcb Hto]. destruct (pk_conn _ _ _ _ Hp x en Hx) as [hdr Hinv].
  unfold on_connection, get_conn. st_simpl. rewrite (deref_Some _ _ _ Hx). st_simpl. rewrite Hat. st_simpl.
  destruct (connection_cb_run (at_listener e l t) inet_ntop pcre_exec pcre_copy_substring inet_pton have_libudns have_transparent
    (callback_env_ok e l t Hcb Hwf) hdr s revents (econn en) (etrace en)) as (freed & c & tr & Hrun & Hmid & Hend); [done..|].
  rewrite Hrun. st_simpl.
  destruct (conns_said T Ls G p hdr c tr en) as (w & Hsaid & Hp0 & Hre0); [done..|]. rewrite Hsaid. clear Hsaid. st_simpl.
  set (p0 := set_pworld w p) in *. assert (pconns p0 !! x = Some en) as Hx0 by done.
  unfold put_conn. st_simpl.
  set (en' := start_query _ _ _ _ _ _ _). destruct (start_query_same (at_listener e l t) c tr en) as (Hel & Hec & Het).
  change (start_query _ _ _ _ c tr en) with en' in Hel, Hec, Het. clearbody en'. destruct freed.
  2: { assert (conns_ok T Ls G (set_pconns (<[x := en']> (pconns p0)) p0)) as Hp1.
       { apply (conns_put _ _ _ _ _ en); [done..|]. exists hdr. rewrite Hec, Het. apply Hend. }
       destruct (move_to_head_ok T Ls G _ x Hp1) as (q & Hq & Hp2); [apply (pk_queue _ _ _ _ Hp0); by rewrite Hx0|].
       rewrite Hq. eexists. split; [done|]. split; [done|exact Hre0]. }
  set (p1 := set_pconns _ p0). assert (world_ok T (held (pconns p1) ++ Ls) G (pworld p1)) as Hw1.
  { eapply world_ok_proper; [done| |done|done|apply Hp0]. apply Permutation_app_tail. apply holders_same with en; [done|by rewrite Hel]. }
  assert (pconns p1 !! x = Some en') as Hx1 by apply lookup_insert_eq.
  destruct (dequeue_ok p1 x) as (q & Hdeq & Hndq & Hinq & _); [apply Hp0|apply (pk_queue _ _ _ _ Hp0); by rewrite Hx0|].
  st_simpl. rewrite Hdeq. st_simpl.
  destruct (log_connection_ok T (held (pconns p1) ++ Ls) G (set_pqueue q p1) hdr en' Hw1) as (w2 & Hlog & Hw2 & Hre2);
    [apply elem_of_app; left; by eapply held_in|by rewrite Hec, Het|].
  rewrite Hlog. st_simpl.
  destruct (free_connection_ok T Ls G (set_pworld w2 (set_pqueue q p1)) x en' Hw2 Hx1) as (w3 & Hfree & Hw3 & Hre3).
  rewrite Hfree. pose proof (recounted_trans _ _ _ Hre2 Hre3) as Hre. eexists. split; [done|].
  split; [|by eapply recounted_trans; [exact Hre0|]].
  cbn [pconns set_pworld set_pqueue set_pconns p1 pqueue] in Hw3 |- *. rewrite delete_insert_eq in Hw3 |- *.
  by apply (conns_delete T Ls G p0 x q w3).
Qed.

Lemma on_answer_ok T Ls G p e x en a result :
  conns_ok T Ls G p → pconns p !! x = Some en → state (econn en) = RESOLVING → query_handle (econn en) = Some a →
  answer_ok result → address_freed (pworld p) en = false → at_routes p (elistener en) (callback_env e) →
  can_log ge (wlog (pworld p)) →
  ∃ p', on_answer inet_ntop have_transparent ge e x a result p = Ok ((), p') ∧ conns_ok T Ls G p' ∧
    recounted (pworld p) (pworld p').
Proof.
  intros Hp Hx Hst Hq Hans Hlive Henv Hcan. destruct (conn_listener _ _ _ _ _ _ Hp Hx) as (l & Hl & Hwf & Ht).
  assert (elistener en ∈ held (pconns p) ++ Ls) as Hin by (apply elem_of_app; left; by eapply held_in).
  destruct (env_at_ok _ _ _ p e _ l (pk_world _ _ _ _ Hp) Hin Hl Ht) as (tx & t & Htx & Htab & Hat).
  destruct (pk_conn _ _ _ _ Hp x en Hx) as [hdr Hinv].
  destruct (mi_query _ _ _ (ci_mid _ _ _ Hinv) Hst) as (a' & Ha' & Hawf). rewrite Hq in Ha'. injection Ha' as <-.
  unfold on_answer, get_conn. st_simpl. rewrite (deref_Some _ _ _ Hx). st_simpl. rewrite Hat. st_simpl.
  rewrite Hlive, andb_false_r. st_simpl.
  destruct (resolv_cb_run (at_listener e l t) inet_ntop pcre_exec pcre_copy_substring inet_pton have_transparent
    (callback_env_ok e l t (Henv l tx t Hl Htx Htab) Hwf) hdr a result (econn en) (etrace en))
    as (u & c & tr & Hrun & Hinv' & _); [done..|].
  rewrite Hrun. st_simpl.
  destruct (conns_said T Ls G p hdr c tr en) as (w & Hsaid & Hp0 & Hre0); [done|done|apply Hinv'|]. rewrite Hsaid. st_simpl.
  set (p0 := set_pworld w p) in *. assert (pconns p0 !! x = Some en) as Hx0 by done.
  unfold put_conn. st_simpl. rewrite bool_decide_true, when_true_eq by done.
  set (en' := update_entry c tr en).
  assert (conns_ok T Ls G (set_pconns (<[x := en']> (pconns p0)) p0)) as Hp1.
  { apply (conns_put _ _ _ _ _ en); [done..|]. by exists hdr. }
  destruct (move_to_head_ok T Ls G _ x Hp1) as (q & Hmv & Hp2); [apply (pk_queue _ _ _ _ Hp0); by rewrite Hx0|].
  rewrite Hmv. by eexists.
Qed.

(** ** The end *)

Lemma close_all_ok errs T Ls G p q :
  conns_ok T Ls G p → pqueue p = q → can_log ge (wlog (pworld p)) →
  ∃ w, close_all ge errs q p = Ok ((), mkProg w ∅ []) ∧ world_ok T Ls G w ∧ recounted (pworld p) w.
Proof.
  revert p. induction q as [|x q IH]; intros p Hp Hq Hcan.
  { assert (pconns p = ∅) as Hm.
    { apply map_empty. intros y. apply eq_None_not_Some. rewrite <- (pk_queue _ _ _ _ Hp), Hq. apply not_elem_of_nil. }
    exists (pworld p). destruct p as [w m q']. cbn in *. subst. split; [done|]. split; [|apply recounted_refl].
    apply (pk_world _ _ _ _ Hp). }
  pose proof (pk_nodup _ _ _ _ Hp) as Hnd. rewrite Hq in Hnd. apply NoDup_cons in Hnd as [Hxq Hnd].
  destruct (proj1 (pk_queue _ _ _ _ Hp x)) as [en Hx]; [rewrite Hq; left|].
  destruct (pk_conn _ _ _ _ Hp x en Hx) as [hdr Hinv].
  destruct (close_connection_run (errs x) hdr (econn en) (etrace en) (ci_mid _ _ _ Hinv)) as (u & c & t & Hclose & Hmid & _ & _).
  cbn [close_all]. unfold get_conn. st_simpl. cbn [pconns set_pqueue]. rewrite (deref_Some _ _ _ Hx). st_simpl. rewrite Hclose. st_simpl.
  destruct (write_log_ok T (held (pconns p) ++ Ls) G (set_pqueue q p) (news en t)) as (g & Hg & Hwg & Hk);
    [apply Hp|done|by apply Forall_drop, (mi_log _ _ _ Hmid)|]. rewrite Hg. st_simpl.
  apply recounted_log in Hk. cbn [pworld set_pqueue] in Hwg, Hk |- *. set (w0 := set_wlog g (pworld p)) in *.
  unfold put_conn. st_simpl. set (en' := update_entry c t en).
  set (p1 := set_pconns _ (set_pworld w0 (set_pqueue q p))). assert (pconns p1 !! x = Some en') as Hx1 by apply lookup_insert_eq.
  destruct (free_connection_ok T Ls G p1 x en') as (w & Hfree & Hw & Hre); [|done|].
  { eapply world_ok_proper; [done| |done|done|exact Hwg]. apply Permutation_app_tail. by apply holders_same with en. }
  rewrite Hfree. st_simpl. cbn [pconns p1 set_pconns set_pqueue set_pworld pqueue] in Hw |- *. rewrite delete_insert_eq in Hw |- *.
  assert (recounted (pworld p) w) as Hre0 by (eapply recounted_trans; [exact Hk|exact Hre]).
  destruct (IH (mkProg w (delete x (pconns p)) q)) as (w' & Heq & Hw' & Hre'); [|done|by eapply can_log_recounted|].
  { apply conns_delete; [done|done| |done|done]. intros y. rewrite Hq, elem_of_cons. naive_solver. }
  exists w'. split; [exact Heq|]. split; [done|]. by eapply recounted_trans.
Qed.

Lemma free_connections_ok errs T Ls G p :
  conns_ok T Ls G p → can_log ge (wlog (pworld p)) →
  ∃ w, free_connections ge errs p = Ok ((), mkProg w ∅ []) ∧ world_ok T Ls G w ∧ recounted (pworld p) w.
Proof. intros Hp Hcan. unfold free_connections. st_simpl. by apply close_all_ok. Qed.

(** ** The listing *)

Lemma print_connection_Ok hdr c t : mid_inv hdr c t → ∃ s, print_connection inet_ntop c = Ok s.
Proof.
  intros Hinv. destruct (mi_names _ _ _ Hinv) as [Hn1 Hn3].
  assert (∃ s, print_peer inet_ntop (client c) = Ok s) as (s1 & H1).
  { unfold print_peer. destruct (show_sockaddr_Ok inet_ntop (paddr (client c)) PEER_BUFFER_SIZE) as (s & -> & _); [apply Hinv|done|]. by eexists. }
  assert (∃ s, print_peer inet_ntop (server c) = Ok s) as (s2 & H2).
  { unfold print_peer. destruct (show_sockaddr_Ok inet_ntop (paddr (server c)) PEER_BUFFER_SIZE) as (s & -> & _); [apply Hinv|done|]. by eexists. }
  unfold print_connection. rewrite H1, H2. destruct (state c); by eexists.
Qed.

Lemma print_entries_ok T Ls G p q :
  conns_ok T Ls G p → (∀ x, x ∈ q → x ∈ pqueue p) → ∃ s, print_entries inet_ntop q p = Ok (s, p).
Proof.
  intros Hp. induction q as [|x q IH]; intros Hq; [by eexists|].
  destruct (proj1 (pk_queue _ _ _ _ Hp x)) as [en Hx]; [apply Hq; left|].
  destruct (pk_conn _ _ _ _ Hp x en Hx) as [hdr Hinv].
  destruct (print_connection_Ok hdr _ _ (ci_mid _ _ _ Hinv)) as (s & Hs).
  destruct IH as (r & Hr); [intros; apply Hq; by right|].
  cbn [print_entries]. unfold get_conn. st_simpl. rewrite (deref_Some _ _ _ Hx). st_simpl. rewrite Hs. st_simpl. rewrite Hr. by eexists.
Qed.

(** ** A new configuration *)

Lemma held_fmap (f : conn_entry → conn_entry) m : (∀ en, elistener (f en) = elistener en) → held (f <$> m) = held m.
Proof.
  intros Hf. unfold held, holders. rewrite map_to_list_fmap, <- !list_fmap_compose. f_equal.
  apply list_fmap_ext. intros i [k en] _. cbn. by rewrite Hf.
Qed.

Lemma free_old_addresses_ok T Ls G p ls ts :
  conns_ok T Ls G p →
  ∃ m, free_old_addresses ls ts p = Ok ((), set_pconns m p) ∧ held m = held (pconns p) ∧ conns_ok T Ls G (set_pconns m p).
Proof.
  intros [Hw Hnd Hq Hc Ht]. unfold free_old_addresses. rewrite modify_eq.
  match goal with |- context [?f <$> pconns p] => set (fe := f) end.
  assert (held (fe <$> pconns p) = held (pconns p)) as Hheld by (by apply held_fmap).
  eexists. split; [done|]. split; [done|]. constructor; cbn; [by rewrite Hheld|done| | |].
  - intros x. by rewrite Hq, lookup_fmap, fmap_is_Some.
  - intros x en. rewrite lookup_fmap, fmap_Some. intros (en0 & H0 & ->). exact (Hc x en0 H0).
  - intros x en l. rewrite lookup_fmap, fmap_Some. intros (en0 & H0 & ->). exact (Ht x en0 l H0).
Qed.
End ops.
