(* ===== verification/Sniproxy.v ===== *)
(** The program (src/sniproxy.c): the options, the start, the signals, the event loop as a
    sequence of events, and the end.  Its state puts together the stores of the other
    components: tables, listeners, loggers, connections and the configuration. *)

From S2P Require Import Prelude CString Protocol Buffer Tls Http Address Resolv Backend Table Listener Connection.
From S2P Require Import RefCount Logger ListenerReload Binder Connections CfgTokenizer CfgParser Config.
From stdpp Require Import list gmap.

#[local] Open Scope Z_scope.

(** * Data *)

Definition EXIT_SUCCESS : Z := 0.
Definition EXIT_FAILURE : Z := 1.
Definition SIGHUP : Z := 1.
Definition SIGINT : Z := 2.
Definition SIGUSR1 : Z := 10.
Definition SIGPIPE : Z := 13.
Definition SIGTERM : Z := 15.
Definition EV_SIGNAL : Z := 1024.

(** The local variables of [main] that the options set. *)
Record options := mkOptions {
  config_file     : list Z;
  background_flag : bool;
  max_nofiles     : Z
}.

(** The identity of the process. *)
Record creds := mkCreds { cuid : Z; cgid : Z; cgroups : list Z }.

(** What the program asks of the system, apart from sockets and logs. *)
Inductive sys_call : Type :=
  | SysIgnore (signum : Z)
  | SysRemove (path : list Z)
  | SysDaemon
  | SysFork
  | SysSetsid
  | SysChdir (path : list Z)
  | SysReopen (stream : Z)                    (* freopen("/dev/null") of a standard stream *)
  | SysUmask (mask : Z)
  | SysPidfile (path text : list Z)           (* the file written *)
  | SysLimit (nofiles : Z)
  | SysSetgroups (gid : Z)
  | SysSetgid (gid : Z)
  | SysSetuid (uid : Z)
  | SysWatch (signum : Z)                     (* ev_signal_start *)
  | SysBinder (ev : parent_event)             (* start_binder and stop_binder *)
  | SysListen                                 (* init_listeners *)
  | SysResolver (evs : list dns_event).

Record sys (pcre : Type) := mkSys {
  sprog    : prog pcre;
  sconfig  : option Config;       (* config *)
  sbinder  : Binder;              (* binder_sock and binder_pid *)
  screds   : creds;
  scalls   : list sys_call;
  srunning : bool                 (* ev_run goes on *)
}.
Arguments mkSys {pcre} _ _ _ _ _ _.
Arguments sprog {pcre} _.
Arguments sconfig {pcre} _.
Arguments sbinder {pcre} _.
Arguments screds {pcre} _.
Arguments scalls {pcre} _.
Arguments srunning {pcre} _.

Definition set_sprog {pcre} (p : prog pcre) (s : sys pcre) : sys pcre :=
  mkSys p (sconfig s) (sbinder s) (screds s) (scalls s) (srunning s).
Definition set_sconfig {pcre} (c : option Config) (s : sys pcre) : sys pcre :=
  mkSys (sprog s) c (sbinder s) (screds s) (scalls s) (srunning s).
Definition set_sbinder {pcre} (b : Binder) (s : sys pcre) : sys pcre :=
  mkSys (sprog s) (sconfig s) b (screds s) (scalls s) (srunning s).
Definition set_screds {pcre} (i : creds) (s : sys pcre) : sys pcre :=
  mkSys (sprog s) (sconfig s) (sbinder s) i (scalls s) (srunning s).
Definition add_call {pcre} (x : sys_call) (s : sys pcre) : sys pcre :=
  mkSys (sprog s) (sconfig s) (sbinder s) (screds s) (scalls s ++ [x]) (srunning s).
Definition set_running {pcre} (b : bool) (s : sys pcre) : sys pcre :=
  mkSys (sprog s) (sconfig s) (sbinder s) (screds s) (scalls s) b.

(** What the system answers.  [passwd] and [group_entry] are [errno] and the entry. *)
Record sys_env := mkSysEnv {
  have_daemon   : bool;
  daemon_ret    : Z;
  fork_ret      : nat → Z;
  setsid_ret    : Z;
  chdir_ret     : Z;
  reopen_null   : Z → bool;
  getpid        : Z;
  pidfile_opens : bool;
  setrlimit_ret : Z;
  passwd        : list Z → Z * option (Z * Z);     (* uid and gid of a user *)
  group_entry   : list Z → Z * option Z;           (* gid of a group *)
  setgroups_ret : Z;
  setgid_ret    : Z;
  setuid_ret    : Z;
  dns_open_ret  : Z;
  binder_start  : start_env;
  waitpid_ret   : Z;
  sys_strerror  : list Z;
  close_errors  : loc → sys_errors                 (* of the connections that are left at the end *)
}.

(** * Options *)

(** [strtoul(s, NULL, 10)] of a 64-bit long: saturates, and negates in [unsigned long]. *)
Definition strtoul (s : list Z) : Z :=
  let t := skip_while isspace s in
  let v := digits_value (take_digits (skip_sign t)) in
  if 2 ^ 64 <=? v then 2 ^ 64 - 1
  else match t with c :: _ => if c =? 45 then (- v) mod 2 ^ 64 else v | [] => v end.

Definition default_options : options := mkOptions (bytes "/etc/sniproxy.conf") true 65536.

(** The loop over the results of getopt: an option character and its argument.  The program
    goes on with the options, or ends with a status. *)
Fixpoint parse_options (opts : list (Z * list Z)) (o : options) : options + Z :=
  match opts with
  | [] => inl o
  | (opt, optarg) :: rest =>
      if opt =? 99 (* c *) then parse_options rest (mkOptions optarg (background_flag o) (max_nofiles o))
      else if opt =? 102 (* f *) then parse_options rest (mkOptions (config_file o) false (max_nofiles o))
      else if opt =? 110 (* n *) then parse_options rest (mkOptions (config_file o) (background_flag o) (strtoul optarg))
      else if opt =? 86 (* V *) then inr EXIT_SUCCESS
      else inr EXIT_FAILURE
  end.

(** * The parts of main *)

Section sniproxy.
Context {pcre : Type}.
Context (pcre_compile : list Z → option pcre).
Context (pcre_exec : pcre → list Z → Z → Z * list Z).
Context (pcre_copy_substring : list Z → list Z → Z → Z → Z → Z * list Z).
Context (ce : cfg_env) (se : sock_env) (ye : sys_env).
Local Abbreviation Y := (ST (sys pcre)).

Definition on_prog {A} (m : ST (prog pcre) A) : Y A := zoom sprog set_sprog m.
Definition in_world {A} (m : ST (world pcre) A) : Y A := on_prog (with_world m).
Definition call (x : sys_call) : Y unit := modify (add_call x).

(** [fatal] and [perror_exit]: the program ends. *)
Definition sys_fatal {A} (text : list Z) : Y A := in_world (on_log (fatal (clog ce) text)) ≫= λ _, raise Exit.
Definition perror_exit {A} : Y A := raise Exit.

(** A call whose failure ends the program. *)
Definition required (x : sys_call) (ok : bool) : Y unit :=
  call x ≫= λ _, if ok then mret () else perror_exit.

(** One of the two forks: the parent exits, the child goes on. *)
Definition fork_and_exit (n : nat) : Y unit :=
  call SysFork ≫= λ _,
  if fork_ret ye n <? 0 then perror_exit
  else if negb (fork_ret ye n =? 0) then raise Exit
  else mret ().

Definition daemonize : Y unit :=
  (if have_daemon ye then required SysDaemon (negb (daemon_ret ye <? 0))
   else
     fork_and_exit 0 ≫= λ _,
     required SysSetsid (negb (setsid_ret ye <? 0)) ≫= λ _,
     required (SysChdir (bytes "/")) (negb (chdir_ret ye <? 0)) ≫= λ _,
     required (SysReopen 0) (reopen_null ye 0) ≫= λ _,
     required (SysReopen 1) (reopen_null ye 1) ≫= λ _,
     required (SysReopen 2) (reopen_null ye 2) ≫= λ _,
     fork_and_exit 1) ≫= λ _,
  call (SysUmask 18) ≫= λ _,
  call (SysIgnore SIGHUP).

Definition write_pidfile (path : list Z) (pid : Z) : Y unit :=
  when (pidfile_opens ye) (call (SysPidfile path (decimal pid ++ [LF]))).

Definition set_limits (nofiles : Z) : Y unit :=
  call (SysLimit nofiles) ≫= λ _,
  when (setrlimit_ret ye <? 0)
    (in_world (on_log (warn (clog ce) (bytes "Failed to set file handle limit: " ++ sys_strerror ye)))).

(** What the binder's functions do in this process. *)
Definition run_parent (ev : parent_event) : Y unit :=
  match ev with
  | PErr text => in_world (on_log (err (clog ce) text))
  | _ => call (SysBinder ev)
  end.

Definition start_binder_process : Y unit :=
  b ← gets sbinder;
  let '(b, evs) := start_binder b (binder_start ye) in
  for_each run_parent evs ≫= λ _,
  modify (set_sbinder b).

(** The group of the process: that of the user, or the one that was named. *)
Definition target_gid (pw_gid : Z) (groupname : option (list Z)) : Y Z :=
  match groupname with
  | None => mret pw_gid
  | Some g =>
      let '(errno, entry) := group_entry ye g in
      if negb (errno =? 0) then sys_fatal (bytes "getgrnam(): " ++ sys_strerror ye)
      else match entry with
           | None => sys_fatal (bytes "getgrnam(): group " ++ g ++ bytes " does not exist")
           | Some gid => mret gid
           end
  end.

Definition drop_perms (username : list Z) (groupname : option (list Z)) : Y unit :=
  i ← gets screds;
  if negb (cuid i =? 0) then mret () else
  let '(errno, entry) := passwd ye username in
  if negb (errno =? 0) then sys_fatal (bytes "getpwnam(): " ++ sys_strerror ye) else
  match entry with
  | None => sys_fatal (bytes "getpwnam(): user " ++ username ++ bytes " does not exist")
  | Some (pw_uid, pw_gid) =>
      gid ← target_gid pw_gid groupname;
      call (SysSetgroups gid) ≫= λ _,
      if setgroups_ret ye <? 0 then sys_fatal (bytes "setgroups(): " ++ sys_strerror ye) else
      modify (λ s, set_screds (mkCreds (cuid (screds s)) (cgid (screds s)) [gid]) s) ≫= λ _,
      call (SysSetgid gid) ≫= λ _,
      if setgid_ret ye <? 0 then sys_fatal (bytes "setgid(): " ++ sys_strerror ye) else
      modify (λ s, set_screds (mkCreds (cuid (screds s)) gid (cgroups (screds s))) s) ≫= λ _,
      call (SysSetuid pw_uid) ≫= λ _,
      if setuid_ret ye <? 0 then sys_fatal (bytes "setuid(): " ++ sys_strerror ye) else
      modify (λ s, set_screds (mkCreds pw_uid (cgid (screds s)) (cgroups (screds s))) s)
  end.

Definition start_resolver (r : ResolverConfig) : Y unit :=
  let '(evs, started) := resolv_init (nameservers r) (search r) (rmode r) (dns_open_ret ye) in
  call (SysResolver evs) ≫= λ _,
  match started with
  | None => sys_fatal (bytes "Failed to open DNS resolver socket: " ++ sys_strerror ye)
  | Some _ => mret ()
  end.

(** * Before the event loop

    The result is [Some] status when [main] returns, [None] when it enters the loop. *)
Definition main_start (opts : list (Z * list Z)) : Y (option Z) :=
  match parse_options opts default_options with
  | inr status => mret (Some status)
  | inl o =>
      loaded ← in_world (init_config ce (config_file o));
      match loaded with
      | None => mret (Some EXIT_FAILURE)
      | Some c =>
          modify (set_sconfig (Some c)) ≫= λ _,
          call (SysIgnore SIGPIPE) ≫= λ _,
          when (background_flag o)
            (match pidfile c with Some f => call (SysRemove f) | None => mret () end ≫= λ _,
             daemonize ≫= λ _,
             match pidfile c with Some f => write_pidfile f (getpid ye) | None => mret () end) ≫= λ _,
          start_binder_process ≫= λ _,
          set_limits (max_nofiles o) ≫= λ _,
          call SysListen ≫= λ _,
          failed ← in_world (with_messages (clog ce)
                      (init_listeners pcre_compile (chave_reuseport ce) (chave_v6only ce) (cinet_ntop ce) se
                         (listeners c) (tables c)));
          if failed : bool then raise Exit else
          drop_perms (default (bytes "daemon") (user c)) (group c) ≫= λ _,
          for_each (λ n, call (SysWatch n)) [SIGHUP; SIGUSR1; SIGINT; SIGTERM] ≫= λ _,
          start_resolver (resolver c) ≫= λ _,
          on_prog init_connections ≫= λ _,
          modify (set_running true) ≫= λ _,
          mret None
      end
  end.

(** * Signals *)

(** [dump] is the file for the connections. *)
Definition signal_cb (signum revents : Z) (dump : dump_file) : Y unit :=
  when (negb (Z.land revents EV_SIGNAL =? 0))
    (if signum =? SIGHUP then
       in_world (on_log (reopen_loggers (clog ce))) ≫= λ _,
       c ← gets sconfig;
       c ← not_null c;
       '(c, replaced) ← in_world (reload_config ce pcre_compile se c);
       when replaced (on_prog (free_old_addresses (listeners c) (tables c))) ≫= λ _,
       modify (set_sconfig (Some c))
     else if signum =? SIGUSR1 then
       on_prog (print_connections (cinet_ntop ce) (clog ce) dump) ≫= λ _, mret ()
     else if (signum =? SIGINT) || (signum =? SIGTERM) then modify (set_running false)
     else mret ()).

(** * The event loop *)

(** What libev and the resolver call. *)
Inductive event : Type :=
  | EvListener (e : env pcre) (struct_alloc : bool) (accepted : option (Z * list Z * Z)) (l : loc) (revents : Z)
  | EvBackoff (l : loc) (revents : Z)
  | EvConnection (e : env pcre) (x : loc) (is_client : bool) (revents : Z)
  | EvAnswer (e : env pcre) (x : loc) (cb_address : Address) (result : option Address)
  | EvSignal (signum revents : Z) (dump : dump_file).

Definition handle (ev : event) : Y unit :=
  match ev with
  | EvListener e struct_alloc accepted l revents =>
      on_prog (listener_cb (cinet_ntop ce) (clog ce) e struct_alloc accepted l revents)
  | EvBackoff l revents => in_world (backoff_timer_cb l revents)
  | EvConnection e x is_client revents =>
      on_prog (on_connection pcre_exec pcre_copy_substring (cinet_pton ce) (cinet_ntop ce) (have_libudns ce)
                 (have_transparent ce) (clog ce) e x is_client revents)
  | EvAnswer e x cb_address result =>
      on_prog (on_answer (cinet_ntop ce) (have_transparent ce) (clog ce) e x cb_address result)
  | EvSignal signum revents dump => signal_cb signum revents dump
  end.

(** * After the event loop *)

Definition main_end : Y Z :=
  c ← gets sconfig;
  c ← not_null c;
  on_prog (free_connections (clog ce) (close_errors ye)) ≫= λ _,
  call (SysResolver [DnsClose]) ≫= λ _,
  in_world (free_config c) ≫= λ _,
  b ← gets sbinder;
  for_each run_parent (stop_binder b (waitpid_ret ye) (sys_strerror ye)) ≫= λ _,
  mret EXIT_SUCCESS.
End sniproxy.
