(* ===== verification/SniproxyOk.v ===== *)
(** What holds of the program as a whole (src/sniproxy.c): from the start to the end, whatever
    the event loop delivers and in whatever order, the stores of tables, listeners, loggers and
    connections fit together, and the end gives everything back. *)

From S2P Require Import Prelude CString Protocol Buffer Tls Http Address Resolv Backend Table Listener Connection Relay.
From S2P Require Import RefCount Logger ListenerReload Binder Connections CfgTokenizer CfgParser Config ConfigOk ConnectionsOk Sniproxy.
From stdpp Require Import list gmap.

#[local] Open Scope Z_scope.

(** * The invariant *)

Section invariant.
Context {pcre : Type} (ce : cfg_env).

(** The configuration [c] runs: its references and those of the connections are all there
    are, the listeners that accept have a table, and the others do not accept. *)
Record sys_ok (c : Config) (s : sys pcre) : Prop := {
  sk_running : sconfig s = Some c;
  sk_config : config_ok ce [] (held (pconns (sprog s))) [] c (pworld (sprog s));
  sk_conns : conns_ok (tables c) (listeners c) (option_list (caccess_log c)) (sprog s);
  sk_tabled : all_tabled (listeners c) (pworld (sprog s));
  sk_others x l : wlisteners (pworld (sprog s)) !! x = Some l → 0 < lreference_count l → x ∉ listeners c → watched l = false
}.

Lemma sys_live c s x l :
  sys_ok c s → wlisteners (pworld (sprog s)) !! x = Some l → 0 < lreference_count l → watched l = true →
  x ∈ listeners c ∧ ltable l ≠ None.
Proof.
  intros Hs Hl Hpos Hw. destruct (decide (x ∈ listeners c)) as [Hx|Hx].
  - split; [done|]. by apply (sk_tabled _ _ Hs x l).
  - rewrite (sk_others _ _ Hs x l) in Hw; done.
Qed.

(** The same world, seen from the connections and from the configuration. *)
Lemma conns_world_config c (p : prog pcre) :
  conns_ok (tables c) (listeners c) (option_list (caccess_log c)) p →
  world_ok (tables c ++ []) (listeners c ++ held (pconns p)) (option_list (caccess_log c) ++ []) (pworld p).
Proof. intros Hp. eapply world_ok_proper; [| | |done|apply Hp]; [by rewrite app_nil_r|by rewrite Permutation_app_comm|by rewrite app_nil_r]. Qed.

Lemma config_world_conns c m (w : world pcre) :
  config_ok ce [] (held m) [] c w → world_ok (tables c) (held m ++ listeners c) (option_list (caccess_log c)) w.
Proof. intros Hc. eapply world_ok_proper; [| | |done|apply Hc]; [by rewrite app_nil_r|by rewrite Permutation_app_comm|by rewrite app_nil_r]. Qed.

(** A step of the connections. *)
Lemma sys_recounted c s p :
  sys_ok c s → conns_ok (tables c) (listeners c) (option_list (caccess_log c)) p →
  recounted (pworld (sprog s)) (pworld p) → sys_ok c (set_sprog p s).
Proof.
  intros [Hrun [Hw Hlog Hnd Hsort Hres Hnames] Hconns Htab Hoth] Hp Hre. pose proof (conns_world_config c p Hp) as Hw'.
  destruct Hre as [Hre Hd]. constructor; cbn; [done| |done| |].
  - constructor; try done; [destruct Hlog as [?|?]; [left; auto|by right]|].
    apply (sorted_laddr (pworld (sprog s))); [|done]. intros x Hx.
    destruct (listener_held _ _ _ _ x Hw') as (l' & Hl' & _); [set_solver|].
    destruct (Hre x l' Hl') as (l & Hl & Heq & _). unfold laddr. rewrite Hl, Hl'. cbn. by rewrite Heq.
  - intros x l' Hx Hl'. destruct (Hre x l' Hl') as (l & Hl & -> & _). exact (Htab x l Hx Hl).
  - intros x l' Hl' Hpos Hx. destruct (Hre x l' Hl') as (l & Hl & Heq & Hp'). rewrite Heq. exact (Hoth x l Hl (proj1 Hp' Hpos) Hx).
Qed.

(** The watcher of a running listener, and the timer of its back-off, take turns. *)
Lemma sys_watch c s x l active backoff :
  sys_ok c s → wlisteners (pworld (sprog s)) !! x = Some l → 0 < lreference_count l → watched l = true →
  let w := pworld (sprog s) in
  sys_ok c (set_sprog (set_pworld (set_wlisteners (<[x := set_watch (watcher_fd l) active backoff l]> (wlisteners w)) w) (sprog s)) s).
Proof.
  intros Hs Hl Hpos Hw. destruct (sys_live c s x l Hs Hl Hpos Hw) as [Hx Ht].
  destruct Hs as [Hrun [Hwo Hlog Hnd Hsort Hres Hnames] [Hpw Hpn Hpq Hpc Hpt] Htab Hoth]. cbv zeta. set (l' := set_watch _ _ _ l).
  assert (listener_wf l') as Hwf.
  { pose proof (ok_wf _ _ _ _ Hwo x l Hl Hpos) as H. apply wf_watch; [done|]. intros _. by apply (wf_watcher _ H). }
  assert (∀ T Ls G, world_ok T Ls G (pworld (sprog s)) →
    world_ok T Ls G (set_wlisteners (<[x := l']> (wlisteners (pworld (sprog s)))) (pworld (sprog s)))) as Hupd.
  { intros T Ls G H. by apply (world_ok_update T Ls G _ x l). }
  constructor; cbn; [done| | | |].
  - constructor; try done; [by apply Hupd|]. apply (sorted_laddr (pworld (sprog s))); [|done]. intros y _. unfold laddr. cbn.
    rewrite lookup_insert. case_decide as Heq; [subst; by rewrite Hl|done].
  - constructor; cbn; try done; [by apply Hupd|]. intros y en ly Hy. rewrite lookup_insert. case_decide; [by intros [= <-]|]. by eapply Hpt.
  - intros y ly Hy. cbn. rewrite lookup_insert. case_decide; [by intros [= <-] _|]. by apply Htab.
  - intros y ly. rewrite lookup_insert. case_decide; [by subst|]. by apply Hoth.
Qed.

(** Logging. *)
Lemma sys_log c s g :
  sys_ok c s → config_ok ce [] (held (pconns (sprog s))) [] c (set_wlog g (pworld (sprog s))) →
  sys_ok c (set_sprog (set_pworld (set_wlog g (pworld (sprog s))) (sprog s)) s).
Proof.
  intros [Hrun Hcfg [Hpw Hpn Hpq Hpc Hpt] Htab Hoth] Hc. constructor; try done. constructor; try done.
  cbn. by apply config_world_conns.
Qed.

(** Only the connections change, and not what they hold. *)
Lemma sys_entries c s m :
  sys_ok c s → held m = held (pconns (sprog s)) →
  conns_ok (tables c) (listeners c) (option_list (caccess_log c)) (set_pconns m (sprog s)) →
  sys_ok c (set_sprog (set_pconns m (sprog s)) s).
Proof. intros [] Hm Hp. constructor; try done. cbn. by rewrite Hm. Qed.

(** A new configuration. *)
Lemma sys_reloaded c c' s w :
  sys_ok c s → reloaded_config ce [] (held (pconns (sprog s))) [] c (pworld (sprog s)) c' w →
  sys_ok c' (set_sconfig (Some c') (set_sprog (set_pworld w (sprog s)) s)).
Proof.
  intros [Hrun Hcfg [Hpw Hpn Hpq Hpc Hpt] Htab Hoth] (Hc' & _ & Htk & Hat & Hleft). constructor; cbn; try done; [| |].
  - constructor; cbn; try done; [by apply config_world_conns|]. intros y en l' Hy Hl'. pose proof (held_in _ _ _ Hy) as Hin.
    destruct (listener_held _ _ _ _ (elistener en) (co_world _ _ _ _ _ _ Hcfg)) as (l & Hl & _); [set_solver|].
    apply (Htk (elistener en) l l'); [set_solver|done|done|by eapply Hpt].
  - by apply Hat.
  - intros x l' Hl' Hpos Hx. assert (x ∈ held (pconns (sprog s))) as Hin.
    { assert (x ∈ listeners c' ++ held (pconns (sprog s))) as Hin; [|set_solver].
      apply occurrences_pos. rewrite <- (counted_count _ _ (ok_listeners _ _ _ _ (co_world _ _ _ _ _ _ Hc')) x l' Hl'). exact Hpos. }
    destruct (Hleft x) as [Hun|[Hxc Heq]]; [set_solver|done|by apply Hun|].
    rewrite Heq in Hl'. by apply (Hoth x).
Qed.
End invariant.

(** * Starting the listeners *)

(** The listeners get their tables, in the order of the list. *)
Lemma init_listeners_ok {pcre} (pcre_compile : list Z → option pcre) se hr hv inet_ntop T Ls G ts ls (w : world pcre) :
  world_ok T Ls G w → NoDup ls → (∀ x, x ∈ ls → x ∈ Ls) → (∀ t, t ∈ ts → t ∈ T) →
  (∀ x l, x ∈ ls → wlisteners w !! x = Some l → ltable l = None ∧ watched l = false) →
  ∃ b w', init_listeners pcre_compile hr hv inet_ntop se ls ts w = Ok (b, w') ∧ world_ok T Ls G w' ∧
    (∀ x, laddr w' x = laddr w x) ∧ default_logger (wlog w') = default_logger (wlog w) ∧
    (∀ x, x ∉ ls → wlisteners w' !! x = wlisteners w !! x) ∧
    (b = false → ∀ x l, x ∈ ls → wlisteners w' !! x = Some l → watcher_active l = true ∧ ltable l ≠ None).
Proof.
  revert w. induction ls as [|x ls IH]; intros w Hw Hnd Hls Hts Hnew.
  { exists false, w. cbn [init_listeners]. rewrite ret_eq. split_and!; try done. by intros _ ? ? ?%elem_of_nil. }
  apply NoDup_cons in Hnd as [Hx Hnd]. destruct (listener_held _ _ _ _ x Hw) as (l & Hl & Hpos); [apply Hls; left|].
  destruct (Hnew x l) as [Hnone Hun]; [left|done|].
  destruct (init_listener_spec pcre_compile hr hv inet_ntop se T Ls G w x l ts Hw Hl Hpos Hnone Hts)
    as (r & w1 & l1 & evs & Hrun & Hw1 & Hlist & Hfrom & _ & _ & Hgood & _).
  cbn [init_listeners]. st_simpl. rewrite Hrun. apply kd_init_listener in Hrun. st_simpl.
  assert (∀ y, laddr w1 y = laddr w y) as Hla.
  { intros y. unfold laddr. rewrite Hlist, lookup_insert. case_decide; [|done]. subst. rewrite Hl. cbn. by rewrite (proj1 Hfrom). }
  destruct (Z.ltb_spec r 0).
  { assert (wlisteners w1 !! x = Some l1) as Hl1 by by rewrite Hlist, lookup_insert_eq.
    st_simpl. rewrite (get_listener_eq _ _ _ Hl1). st_simpl.
    destruct (show_address_Ok inet_ntop (laddress l1)) as (text & ->).
    { destruct (listener_held _ _ _ _ x Hw1) as (l2 & Hl2 & Hpos2); [apply Hls; left|].
      simplify_eq. by apply wf_laddress, (ok_wf _ _ _ _ Hw1 x). }
    unfold sock_say, emit_sock. st_simpl. eexists true, _. split; [done|].
    split_and!; try done; [by apply world_ok_sock|]. intros y Hy. cbn. rewrite Hlist, lookup_insert_ne; [done|]. set_solver. }
  destruct (IH w1) as (b & w2 & -> & Hw2 & Hla2 & Hd2 & Hsame & Htab); [done|done|set_solver|done| |].
  { intros y ly Hy. rewrite Hlist, lookup_insert_ne by (by intros ->). apply Hnew. by right. }
  exists b, w2. split_and!; [done|done| | | |].
  - intros y. by rewrite Hla2.
  - congruence.
  - intros y Hy. rewrite Hsame by set_solver. rewrite Hlist, lookup_insert_ne; [done|]. set_solver.
  - intros Hb y ly [->|Hy]%elem_of_cons Hly; [|by apply (Htab Hb y)]. rewrite Hsame, Hlist, lookup_insert_eq in Hly by done.
    injection Hly as <-. destruct (Hgood) as (_ & Hact & t & Ht & _); [done|]. by rewrite Ht.
Qed.

(** The same with what is said about it. *)
Lemma listeners_opened {pcre} (pcre_compile : list Z → option pcre) ge se hr hv inet_ntop T Ls G ts ls (w : world pcre) :
  log_env_ok ge → can_log ge (wlog w) →
  world_ok T Ls G w → NoDup ls → (∀ x, x ∈ ls → x ∈ Ls) → (∀ t, t ∈ ts → t ∈ T) →
  (∀ x l, x ∈ ls → wlisteners w !! x = Some l → ltable l = None ∧ watched l = false) →
  ∃ b w', with_messages ge (init_listeners pcre_compile hr hv inet_ntop se ls ts) w = Ok (b, w') ∧ world_ok T Ls G w' ∧
    (∀ x, laddr w' x = laddr w x) ∧ can_log ge (wlog w') ∧
    (b = false → ∀ x l, x ∈ ls → wlisteners w' !! x = Some l → watcher_active l = true ∧ ltable l ≠ None).
Proof.
  intros Hge Hcan Hw Hnd Hls Hts Hnew.
  destruct (init_listeners_ok pcre_compile se hr hv inet_ntop T Ls G ts ls w) as (b & w1 & Hrun & Hw1 & Hla & Hd & _ & Htab); [done..|].
  assert (can_log ge (wlog w1)) as Hcan1 by (unfold can_log; by rewrite Hd).
  destruct (with_messages_spec ge T Ls G _ w b w1 Hge Hrun Hw1 Hcan1) as (g & Hrun' & Hw' & Hg).
  exists b, (set_wlog g w1). split_and!; [done|done|done|by eapply can_log_steps|done].
Qed.

(** * Events *)

Section events.
Context {pcre : Type}.
Context (pcre_compile : list Z → option pcre).
Context (pcre_exec : pcre → list Z → Z → Z * list Z).
Context (pcre_copy_substring : list Z → list Z → Z → Z → Z → Z * list Z).
Context (ce : cfg_env) (se : sock_env) (ye : sys_env).
Context (Hce : cfg_env_ok ce) `{!InetText (cinet_pton ce) (cinet_ntop ce)}.
Implicit Types s : sys pcre.
Local Abbreviation handle := (handle pcre_compile pcre_exec pcre_copy_substring ce se).

(** The listener at [x] is in use. *)
Definition in_use s (x : loc) (Q : Listener → Prop) : Prop :=
  ∃ l, wlisteners (pworld (sprog s)) !! x = Some l ∧ 0 < lreference_count l ∧ Q l.

(** What libev, the resolver and the system promise: only watchers that were started are
    called, a query is answered once, and the calls return what their manuals say.  The answer
    to a query whose address a reload has freed is left out: see
    [reload_frees_pending_address]. *)
Definition event_ok s (ev : event) : Prop :=
  match ev with
  | EvListener e _ accepted x _ => in_use s x (λ l, watcher_active l = true) ∧ accept_env e accepted
  | EvBackoff x _ => in_use s x (λ l, backoff_active l = true)
  | EvConnection e x is_client _ =>
      ∃ en, pconns (sprog s) !! x = Some en ∧ wactive (watcher (Connection.side is_client (econn en))) = true ∧
        at_routes (sprog s) (elistener en) (λ l t, callback_env pcre_exec pcre_copy_substring (cinet_pton ce) e l t ∧
          transfers_ok (at_listener e l t) is_client (econn en))
  | EvAnswer e x a result =>
      ∃ en, pconns (sprog s) !! x = Some en ∧ state (econn en) = RESOLVING ∧ query_handle (econn en) = Some a ∧
        answer_ok result ∧ address_freed (pworld (sprog s)) en = false ∧
        at_routes (sprog s) (elistener en) (callback_env pcre_exec pcre_copy_substring (cinet_pton ce) e)
  | EvSignal _ _ dump => 0 ∉ dump_name dump ∧ 0 ∉ dump_strerror dump
  end.

(** Only a reload can end the program, or crash it: see [reload_config]. *)
Definition may_end (ev : event (pcre := pcre)) : Prop :=
  match ev with EvSignal signum _ _ => signum = SIGHUP | _ => False end.

Definition handled s (ev : event) (P : sys pcre → Prop) : Prop :=
  match handle ev s with Ok (_, s') => P s' | Fault f => may_end ev ∧ tolerated f end.

Lemma on_prog_eq {A} (m : ST (prog pcre) A) s :
  on_prog m s = match m (sprog s) with Ok (a, p) => Ok (a, set_sprog p s) | Fault f => Fault f end.
Proof. done. Qed.

Lemma in_world_eq {A} (m : ST (world pcre) A) s :
  in_world m s = match m (pworld (sprog s)) with
                 | Ok (a, w) => Ok (a, set_sprog (set_pworld w (sprog s)) s)
                 | Fault f => Fault f
                 end.
Proof. unfold in_world. rewrite on_prog_eq, with_world_eq. by destruct (m _) as [[]|]. Qed.

Lemma set_sprog_id s : set_sprog (sprog s) s = s.
Proof. by destruct s. Qed.

(** Events of sockets and log lines change nothing else. *)
Lemma sys_world c s w :
  sys_ok ce c s → recounted (pworld (sprog s)) w →
  world_ok (tables c) (held (pconns (sprog s)) ++ listeners c) (option_list (caccess_log c)) w →
  sys_ok ce c (set_sprog (set_pworld w (sprog s)) s).
Proof. intros Hs Hre Hw. apply sys_recounted; [done|by apply conns_world; [apply Hs|..]|done]. Qed.

Lemma recounted_sock (w : world pcre) ev : recounted w (sock_emit ev w).
Proof. destruct (recounted_refl w) as [? ?]. by split. Qed.

(** A listener that must wait is suspended, and that is said. *)
Lemma accept_cb_ok c s x l revents result errno :
  sys_ok ce c s → wlisteners (pworld (sprog s)) !! x = Some l → 0 < lreference_count l → watched l = true →
  ∃ w, with_messages (clog ce) (listener_accept_cb (cinet_ntop ce) x revents result errno) (pworld (sprog s)) = Ok ((), w) ∧
    sys_ok ce c (set_sprog (set_pworld w (sprog s)) s).
Proof.
  intros Hs Hl Hpos Hwatch.
  assert (∃ w, listener_accept_cb (cinet_ntop ce) x revents result errno (pworld (sprog s)) = Ok ((), w) ∧
    sys_ok ce c (set_sprog (set_pworld w (sprog s)) s)) as (w & Hrun & Hw).
  { unfold listener_accept_cb. match goal with |- context [when ?b _] => destruct b end; rewrite ?when_false_eq, ?when_true_eq.
    2: { rewrite ret_eq. eexists. split; [done|]. by destruct s as [[]]. }
    rewrite bind_eq, (get_listener_eq _ _ _ Hl). st_simpl.
    pose proof (pk_world _ _ _ _ (sk_conns _ _ _ Hs)) as Hw.
    destruct (show_address_Ok (cinet_ntop ce) (laddress l)) as (text & ->); [by apply wf_laddress, (ok_wf _ _ _ _ Hw x)|].
    unfold sock_say, emit_sock. st_simpl. rewrite (set_listener_eq _ _ l) by done. eexists. split; [done|].
    match goal with |- context [sock_emit ?ev _] => set (w1 := sock_emit ev _) end.
    apply (sys_watch ce c (set_sprog (set_pworld w1 (sprog s)) s) x l false true); [|done..].
    apply sys_world; [done|apply recounted_sock|by apply world_ok_sock]. }
  destruct (with_messages_spec (clog ce) _ _ _ _ _ _ w (ce_log _ Hce) Hrun (pk_world _ _ _ _ (sk_conns _ _ _ Hw))
    (co_log _ _ _ _ _ _ (sk_config _ _ _ Hw))) as (g & Hrun' & Hw' & Hg).
  exists (set_wlog g w). split; [exact Hrun'|]. apply (sys_world c (set_sprog (set_pworld w (sprog s)) s)); [done| |done].
  apply recounted_log, Hg.
Qed.

Lemma listener_event_ok c s e sa accepted x revents :
  sys_ok ce c s → in_use s x (λ l, watcher_active l = true) → accept_env e accepted →
  ∃ s', handle (EvListener e sa accepted x revents) s = Ok ((), s') ∧ sys_ok ce c s' ∧ screds s' = screds s.
Proof.
  intros Hs (l & Hl & Hpos & Hact) Henv. cbn [Sniproxy.handle]. rewrite on_prog_eq. unfold listener_cb.
  destruct (Z.land revents 1 =? 0); cbn [negb]; rewrite ?when_false_eq, ?when_true_eq.
  { rewrite ret_eq, set_sprog_id. by eexists. }
  assert (watched l = true) as Hw by (unfold watched; by rewrite Hact).
  destruct (sys_live ce c s x l Hs Hl Hpos Hw) as [Hx Ht].
  destruct (accept_client_ok (cinet_pton ce) (cinet_ntop ce) (clog ce) (ce_log _ Hce) (tables c) (listeners c) (option_list (caccess_log c)) (sprog s) e sa accepted x)
    as (r & p & Hrun & Hp & Hre); [apply Hs|done|intros ? ?; by simplify_eq|done|apply (co_log _ _ _ _ _ _ (sk_config _ _ _ Hs))|].
  rewrite bind_eq, Hrun. pose proof (sys_recounted ce c s p Hs Hp Hre) as Hs1. rewrite with_world_eq.
  destruct (listener_held _ _ _ _ x (pk_world _ _ _ _ Hp)) as (l1 & Hl1 & Hpos1); [set_solver|].
  destruct (accept_cb_ok c (set_sprog p s) x l1 revents r (sys_errno e) Hs1 Hl1 Hpos1) as (w & Hcb & Hw').
  { destruct Hre as [Hre _]. destruct (Hre x l1 Hl1) as (l0 & Hl0 & -> & _). by simplify_eq. }
  cbn [sprog set_sprog] in Hcb. rewrite Hcb. eexists. split; [done|]. by split.
Qed.

Lemma backoff_event_ok c s x revents :
  sys_ok ce c s → in_use s x (λ l, backoff_active l = true) →
  ∃ s', handle (EvBackoff x revents) s = Ok ((), s') ∧ sys_ok ce c s' ∧ screds s' = screds s.
Proof.
  intros Hs (l & Hl & Hpos & Hact). cbn [Sniproxy.handle]. rewrite in_world_eq. unfold backoff_timer_cb.
  destruct (Z.land revents EV_TIMER =? 0); cbn [negb]; rewrite ?when_false_eq, ?when_true_eq.
  { rewrite ret_eq. exists s. split; [by destruct s as [[]]|done]. }
  rewrite (set_listener_eq _ _ _ _ Hl). eexists. split; [done|]. split; [|done].
  apply (sys_watch ce c s x l true false); [done..|]. unfold watched. rewrite Hact. by destruct (watcher_active l).
Qed.

Lemma connection_event_ok c s e x side revents :
  sys_ok ce c s → event_ok s (EvConnection e x side revents) →
  ∃ s', handle (EvConnection e x side revents) s = Ok ((), s') ∧ sys_ok ce c s' ∧ screds s' = screds s.
Proof.
  intros Hs (en & Hx & Hact & Henv). cbn [Sniproxy.handle]. rewrite on_prog_eq.
  destruct (on_connection_ok pcre_exec pcre_copy_substring (cinet_pton ce) (cinet_ntop ce) (have_libudns ce) (have_transparent ce)
    (clog ce) (ce_log _ Hce) _ _ _ (sprog s) e x en side revents (sk_conns _ _ _ Hs) Hx Hact Henv (co_log _ _ _ _ _ _ (sk_config _ _ _ Hs))) as (p & -> & Hp & Hre).
  eexists. split; [done|]. split; [|done]. by apply sys_recounted.
Qed.

Lemma answer_event_ok c s e x a result :
  sys_ok ce c s → event_ok s (EvAnswer e x a result) →
  ∃ s', handle (EvAnswer e x a result) s = Ok ((), s') ∧ sys_ok ce c s' ∧ screds s' = screds s.
Proof.
  intros Hs (en & Hx & Hst & Hq & Hans & Hlive & Henv). cbn [Sniproxy.handle]. rewrite on_prog_eq.
  destruct (on_answer_ok pcre_exec pcre_copy_substring (cinet_pton ce) (cinet_ntop ce) (have_transparent ce) (clog ce) (ce_log _ Hce)
    _ _ _ (sprog s) e x en a result (sk_conns _ _ _ Hs) Hx Hst Hq Hans Hlive Henv (co_log _ _ _ _ _ _ (sk_config _ _ _ Hs))) as (p & -> & Hp & Hre).
  eexists. split; [done|]. split; [|done]. by apply sys_recounted.
Qed.
Lemma on_prog_bind {A B} (m : ST (prog pcre) A) (f : A → ST (prog pcre) B) s :
  on_prog (m ≫= f) s = (on_prog m ≫= λ a, on_prog (f a)) s.
Proof. rewrite on_prog_eq, !bind_eq, on_prog_eq. destruct (m (sprog s)) as [[a p]|]; [|done]. by rewrite on_prog_eq. Qed.

(** A message leaves all but the log as it is. *)
Lemma log_event_ok c s prio text :
  sys_ok ce c s → 0 ∉ text →
  ∃ s', on_prog (with_world (on_log (log_default (clog ce) prio text))) s = Ok ((), s') ∧ sys_ok ce c s' ∧ screds s' = screds s.
Proof.
  intros Hs Ht. destruct (log_message_ok ce Hce _ _ _ c _ prio text (sk_config _ _ _ Hs) Ht) as (g & Hg & Hc).
  rewrite on_prog_eq, with_world_eq, Hg. eexists. split; [done|]. split; [|done]. by apply sys_log.
Qed.

Lemma listing_ok c s d :
  sys_ok ce c s → 0 ∉ dump_name d → 0 ∉ dump_strerror d →
  ∃ r s', on_prog (print_connections (cinet_ntop ce) (clog ce) d) s = Ok (r, s') ∧ sys_ok ce c s' ∧ screds s' = screds s.
Proof.
  intros Hs Hname Herr. assert (∀ what : string, 0 ∉ bytes what → 0 ∉ bytes what ++ bytes " failed: " ++ dump_strerror d) as Htext.
  { intros what H. rewrite !not_elem_of_app. split_and!; [done|no_nul|done]. }
  unfold print_connections, warn, notice. destruct (mkstemp_ret d <? 0); [|destruct (fdopen_ok d); cbn [negb]].
  - rewrite on_prog_bind, bind_eq. destruct (log_event_ok c s LOG_WARNING (bytes "mkstemp" ++ bytes " failed: " ++ dump_strerror d))
      as (s' & -> & Hs' & Hcr); [done|apply Htext; no_nul|]. eexists _, _. split; [done|]. by rewrite set_sprog_id.
  - rewrite on_prog_bind, bind_eq, on_prog_eq, gets_eq, set_sprog_id, on_prog_bind, bind_eq, on_prog_eq.
    destruct (print_entries_ok (cinet_ntop ce) _ _ _ (sprog s) (pqueue (sprog s)) (sk_conns _ _ _ Hs)) as (t & ->); [done|].
    rewrite set_sprog_id, on_prog_bind, bind_eq.
    assert (∃ s1, on_prog (when (fclose_ret d <? 0) (with_world (on_log (log_default (clog ce) LOG_WARNING
      (bytes "fclose" ++ bytes " failed: " ++ dump_strerror d))))) s = Ok ((), s1) ∧ sys_ok ce c s1 ∧ screds s1 = screds s) as (s1 & -> & Hs1 & Hc1).
    { destruct (fclose_ret d <? 0); [apply log_event_ok; [done|apply Htext; no_nul]|]. exists s. by rewrite when_false_eq, on_prog_eq, ret_eq, set_sprog_id. }
    rewrite on_prog_bind, bind_eq.
    destruct (log_event_ok c s1 LOG_NOTICE (bytes "Dumped connections to " ++ dump_name d)) as (s2 & -> & Hs2 & Hc2);
      [done|rewrite not_elem_of_app; split; [no_nul|done]|].
    eexists _, _. split; [done|]. rewrite set_sprog_id. split; [done|congruence].
  - rewrite on_prog_bind, bind_eq. destruct (log_event_ok c s LOG_WARNING (bytes "fdopen" ++ bytes " failed: " ++ dump_strerror d))
      as (s' & -> & Hs' & Hcr); [done|apply Htext; no_nul|]. eexists _, _. split; [done|]. by rewrite set_sprog_id.
Qed.

(** The log files are opened again, and the configuration is read again. *)
Lemma hangup_ok c s d revents :
  sys_ok ce c s →
  wp (handle (EvSignal SIGHUP revents d)) (λ _ s', (∃ c', sys_ok ce c' s') ∧ screds s' = screds s) s.
Proof.
  intros Hs. cbn [Sniproxy.handle]. unfold signal_cb. destruct (Z.land revents EV_SIGNAL =? 0); cbn [negb]; [by apply st_wp_ret; eauto|].
  change (SIGHUP =? SIGHUP) with true. unfold when. cbv iota. apply st_wp_bind. unfold wp at 1. rewrite in_world_eq, on_log_eq.
  pose proof (sk_config _ _ _ Hs) as Hc.
  destruct (reopen_loggers_spec (clog ce) _ _ (ce_log _ Hce) (config_log_ok ce [] (held (pconns (sprog s))) [] c _ Hc)) as (g & -> & Hg & Hd).
  assert (config_ok ce [] (held (pconns (sprog s))) [] c (set_wlog g (pworld (sprog s)))) as Hc1.
  { eapply config_ok_log; [done|exact Hg|]. unfold can_log. rewrite Hd. apply Hc. }
  pose proof (sys_log ce c s g Hs Hc1) as Hs1. set (s1 := set_sprog _ s) in *.
  apply st_wp_bind, st_wp_gets. rewrite (sk_running _ _ _ Hs1). apply st_wp_bind. eapply st_wp_lift; [done|].
  apply st_wp_bind. unfold wp at 1. rewrite in_world_eq.
  pose proof (reload_config_ok ce Hce pcre_compile se [] (held (pconns (sprog s1))) [] c (pworld (sprog s1)) (sk_config _ _ _ Hs1)) as Hr.
  unfold wp in Hr. destruct (reload_config _ _ _ _ _) as [[[c' replaced] w']|f]; [|done].
  pose proof (sys_reloaded ce c c' s1 w' Hs1 Hr) as Hs2. apply st_wp_bind. destruct replaced; unfold when; [|by apply st_wp_ret, st_wp_modify; eauto].
  destruct (free_old_addresses_ok _ _ _ _ (listeners c') (tables c') (sk_conns _ _ _ Hs2)) as (m & Hfree & Hheld & Hp).
  unfold wp at 1. rewrite on_prog_eq. cbn [sprog set_sconfig set_sprog] in Hfree |- *. rewrite Hfree. apply st_wp_modify.
  split; [|done]. exists c'. exact (sys_entries ce c' _ m Hs2 Hheld Hp).
Qed.

Lemma handle_ok c s ev :
  sys_ok ce c s → event_ok s ev → handled s ev (λ s', (∃ c', sys_ok ce c' s') ∧ screds s' = screds s).
Proof.
  assert (∀ ev, (∃ s', handle ev s = Ok ((), s') ∧ sys_ok ce c s' ∧ screds s' = screds s) →
    handled s ev (λ s', (∃ c', sys_ok ce c' s') ∧ screds s' = screds s)) as Hok.
  { intros ev' (s' & Heq & Hs' & Hcr). unfold handled. rewrite Heq. eauto. }
  intros Hs Hev. destruct ev as [e sa acc errno x revents|x revents|e x is_client revents|e x a result|signum revents d].
  - destruct Hev. by apply Hok, listener_event_ok.
  - by apply Hok, backoff_event_ok.
  - by apply Hok, connection_event_ok.
  - by apply Hok, answer_event_ok.
  - destruct (decide (signum = SIGHUP)) as [->|Hne].
    { pose proof (hangup_ok c s d revents Hs) as H. unfold handled. unfold wp in H.
      destruct (handle (EvSignal SIGHUP revents d) s) as [[[] s']|]; done. }
    apply Hok. cbn [Sniproxy.handle]. unfold signal_cb.
    destruct (Z.land revents EV_SIGNAL =? 0); cbn [negb]; unfold when; cbv iota; [by eauto|].
    rewrite (proj2 (Z.eqb_neq signum SIGHUP)) by done. destruct (signum =? SIGUSR1).
    { rewrite bind_eq. destruct Hev as [Hn He]. destruct (listing_ok c s d Hs Hn He) as (r & s' & -> & Hs'). by eauto. }
    destruct (_ || _); [|by eauto]. eexists. split; [done|]. split; [|done]. by destruct Hs.
Qed.

(** * The event loop *)

(** One turn of [ev_run]. *)
Inductive step : sys pcre → sys pcre → Prop :=
  | step_event s ev s' : srunning s = true → event_ok s ev → handle ev s = Ok ((), s') → step s s'.

Lemma steps_ok c s s' :
  sys_ok ce c s → rtc step s s' → (∃ c', sys_ok ce c' s') ∧ screds s' = screds s.
Proof.
  intros Hs Hsteps. assert (∃ c, sys_ok ce c s) as H by eauto. clear c Hs. revert H.
  induction Hsteps as [s|s1 s2 s3 Hstep _ IH]; intros [c Hs]; [by eauto|]. destruct Hstep as [s1 ev s2 _ Hev Heq].
  pose proof (handle_ok c s1 ev Hs Hev) as Hh. unfold handled in Hh. rewrite Heq in Hh. destruct Hh as [H2 Hcr].
  destruct (IH H2) as [H3 Hcr3]. split; [done|congruence].
Qed.

(** * The end *)

Record sys_env_ok : Prop := {
  ye_strerror : 0 ∉ sys_strerror ye;
  ye_binder : 0 ∉ start_strerror (binder_start ye)
}.

(** The binder's functions leave all but the log as it is. *)
Definition logged (g : LogState) (cs : list sys_call) s : sys pcre :=
  mkSys (set_pworld (set_wlog g (pworld (sprog s))) (sprog s)) (sconfig s) (sbinder s) (screds s) (scalls s ++ cs) (srunning s).

Definition clean (ev : parent_event) : Prop := match ev with PErr text => 0 ∉ text | _ => True end.

Lemma run_parent_ok T Ls G c s evs :
  config_ok ce T Ls G c (pworld (sprog s)) → Forall clean evs →
  ∃ g cs, for_each (run_parent ce) evs s = Ok ((), logged g cs s) ∧ config_ok ce T Ls G c (set_wlog g (pworld (sprog s))).
Proof.
  intros Hc Hevs. revert s Hc. induction Hevs as [|ev evs Hev _ IH]; intros s Hc.
  { exists (wlog (pworld (sprog s))), []. cbn. rewrite ret_eq. unfold logged. rewrite app_nil_r. by destruct s as [[[]]]. }
  assert (∃ g cs, run_parent ce ev s = Ok ((), logged g cs s) ∧ config_ok ce T Ls G c (set_wlog g (pworld (sprog s)))) as (g & cs & Hrun & Hc1).
  { assert (∃ g cs, call (SysBinder ev) s = Ok ((), logged g cs s) ∧ config_ok ce T Ls G c (set_wlog g (pworld (sprog s)))) as Hcall.
    { exists (wlog (pworld (sprog s))), [SysBinder ev]. split; [by destruct s as [[[]]]|]. by destruct (pworld (sprog s)). }
    destruct ev as [fd data|text|fd|pid]; try exact Hcall. cbn [run_parent clean] in *.
    destruct (log_message_ok ce Hce T Ls G c _ LOG_ERR text Hc Hev) as (g & Hg & Hc1). exists g, []. split; [|done].
    rewrite in_world_eq. unfold err. rewrite Hg. unfold logged. by rewrite app_nil_r. }
  destruct (IH (logged g cs s) Hc1) as (g2 & cs2 & Hrun2 & Hc2). cbn [for_each]. rewrite bind_eq, Hrun, Hrun2.
  exists g2, (cs ++ cs2). split; [|done]. unfold logged. cbn. by rewrite (assoc_L (++)).
Qed.

Lemma stop_binder_clean b : sys_env_ok → Forall clean (stop_binder b (waitpid_ret ye) (sys_strerror ye)).
Proof.
  intros Hye. unfold stop_binder. repeat constructor. destruct (_ <? 0); repeat constructor. cbn [clean]. rewrite not_elem_of_app.
  split; [no_nul|apply Hye].
Qed.

Lemma start_binder_clean b : sys_env_ok → Forall clean (start_binder b (binder_start ye)).2.
Proof.
  intros Hye. assert (∀ what : string, 0 ∉ bytes what → 0 ∉ bytes what ++ start_strerror (binder_start ye)) as Ht.
  { intros what Hw. rewrite not_elem_of_app. split; [done|apply Hye]. }
  unfold start_binder. destruct (socketpair_ret _) as [[s0 s1]|]; [destruct (_ =? -1)|]; repeat constructor; cbn [clean]; apply Ht; no_nul.
Qed.

Lemma main_end_ok c s :
  sys_env_ok → sys_ok ce c s →
  ∃ s', main_end ce ye s = Ok (EXIT_SUCCESS, s') ∧ pconns (sprog s') = ∅ ∧ pqueue (sprog s') = [] ∧
    world_ok [] [] [] (pworld (sprog s')) ∧
    ∀ x l, wlisteners (pworld (sprog s)) !! x = Some l → 0 < lreference_count l → wlisteners (pworld (sprog s')) !! x = None.
Proof.
  intros Hye Hs. pose proof (sk_conns _ _ _ Hs) as Hp. unfold main_end, call. st_simpl. rewrite (sk_running _ _ _ Hs). unfold not_null. st_simpl.
  rewrite on_prog_eq. destruct (free_connections_ok pcre_copy_substring (clog ce) (ce_log _ Hce) (close_errors ye) _ _ _ _ Hp
    (co_log _ _ _ _ _ _ (sk_config _ _ _ Hs))) as (w1 & -> & Hw1 & Hre & Hd1). st_simpl.
  rewrite in_world_eq. cbn [sprog pworld set_sprog add_call].
  destruct (free_config_spec [] [] [] c w1) as (w2 & -> & Hw2 & Hd2 & Hsame & Hrem).
  { by rewrite !app_nil_r. }
  { apply (sk_config _ _ _ Hs). }
  st_simpl. match goal with |- context [for_each _ _ ?s'] => set (s2 := s') end.
  destruct (run_parent_ok [] [] [] (empty_config None) s2 (stop_binder (sbinder s2) (waitpid_ret ye) (sys_strerror ye))) as (g & cs & -> & Hc).
  { apply empty_config_ok; [done| |apply not_elem_of_nil]. cbn. unfold can_log. rewrite Hd2.
    destruct (co_log _ _ _ _ _ _ (sk_config _ _ _ Hs)) as [?|?]; [left; auto|by right]. }
  { by apply stop_binder_clean. }
  eexists. split; [done|]. cbn. split_and!; [done|done|by apply (empty_config_world ce [] [] [] None)|]. intros x l Hl Hpos.
  destruct (wlisteners w2 !! x) as [l2|] eqn:Hl2; [exfalso|done].
  assert (0 < lreference_count l2) as Hpos2.
  { destruct (decide (x ∈ listeners c)) as [Hx|Hx]; [by apply (Hrem x Hx l2)|]. rewrite Hsame in Hl2 by done.
    destruct (Hre x l2 Hl2) as (l0 & Hl0 & _ & Hiff). simplify_eq. by apply Hiff. }
  change (0 < count l2) in Hpos2. rewrite (counted_count _ _ (ok_listeners _ _ _ _ Hw2) x l2 Hl2) in Hpos2.
  by apply occurrences_pos, elem_of_nil in Hpos2.
Qed.

(** * The start *)

(** The configuration is read, and nothing runs yet. *)
Record loaded (c : Config) (i : creds) (s : sys pcre) : Prop := {
  ld_config : sconfig s = Some c;
  ld_ok : config_ok ce [] [] [] c (pworld (sprog s));
  ld_unstarted : unstarted c (pworld (sprog s));
  ld_conns : pconns (sprog s) = ∅;
  ld_creds : screds s = i
}.

(** Operations that only call the system, or end the program. *)
Definition only_calls {A} (m : ST (sys pcre) A) : Prop :=
  ∀ s, wp m (λ _ s', ∃ cs, s' = mkSys (sprog s) (sconfig s) (sbinder s) (screds s) (scalls s ++ cs) (srunning s)) s.

Lemma only_calls_ret {A} (a : A) : only_calls (mret a).
Proof. intros s. apply st_wp_ret. exists []. rewrite app_nil_r. by destruct s. Qed.
Lemma only_calls_bind {A B} (m : ST (sys pcre) A) (f : A → ST (sys pcre) B) :
  only_calls m → (∀ a, only_calls (f a)) → only_calls (m ≫= f).
Proof.
  intros Hm Hf s. apply st_wp_bind. eapply st_wp_mono; [apply Hm|]. intros a s1 (cs1 & ->).
  eapply st_wp_mono; [apply Hf|]. intros b s2 (cs2 & ->). cbn. exists (cs1 ++ cs2). by rewrite (assoc_L (++)).
Qed.
Lemma only_calls_call x : only_calls (call x).
Proof. intros s. apply st_wp_modify. by exists [x]. Qed.
Lemma only_calls_exit {A} : only_calls (raise Exit : ST (sys pcre) A).
Proof. intros s. by right. Qed.
End events.

Create HintDb calls.
#[export] Hint Resolve only_calls_ret only_calls_call only_calls_exit : calls.

Ltac calls_solve :=
  repeat first
    [ progress eauto with calls
    | apply only_calls_bind; [|intros]
    | match goal with
      | |- only_calls (match ?x with _ => _ end) => destruct x
      | |- only_calls (if ?x then _ else _) => destruct x
      end ].

Section start.
Context {pcre : Type}.
Context (pcre_compile : list Z → option pcre).
Context (ce : cfg_env) (se : sock_env) (ye : sys_env).
Context (Hce : cfg_env_ok ce) (Hye : sys_env_ok ye).
Implicit Types s : sys pcre.

Lemma only_calls_daemonize : only_calls (pcre := pcre) (daemonize ye).
Proof. unfold daemonize, fork_and_exit, required, perror_exit. calls_solve. Qed.

Lemma only_calls_write_pidfile path pid : only_calls (pcre := pcre) (write_pidfile ye path pid).
Proof. unfold write_pidfile, when. calls_solve. Qed.
#[local] Hint Resolve only_calls_daemonize only_calls_write_pidfile : calls.

Lemma only_calls_background b (o : option (list Z)) :
  only_calls (pcre := pcre) (when b
    (match o with Some f => call (SysRemove f) | None => mret () end ≫= λ _,
     daemonize ye ≫= λ _,
     match o with Some f => write_pidfile ye f (getpid ye) | None => mret () end)).
Proof. unfold when. calls_solve. Qed.

(** Messages and the end by [fatal]. *)
Definition can_report s : Prop :=
  can_log (clog ce) (wlog (pworld (sprog s))) ∧ ∃ R, log_ok R (wlog (pworld (sprog s))).

Lemma config_can_report T Ls G c s : config_ok ce T Ls G c (pworld (sprog s)) → can_report s.
Proof. intros Hc. split; [apply Hc|]. eexists. by eapply config_log_ok. Qed.

Lemma sys_fatal_exits {A} s text : can_report s → 0 ∉ text → (sys_fatal ce text : ST (sys pcre) A) s = Fault Exit.
Proof.
  intros [Hcan [R Hok]] Ht. unfold sys_fatal. rewrite bind_eq, in_world_eq, on_log_eq.
  by destruct (fatal_spec (clog ce) R _ text (ce_log _ Hce) Hok Hcan Ht) as (g & -> & _).
Qed.

(** The group that the process gets. *)
Definition wanted_gid (pw_gid : Z) (groupname : option (list Z)) (gid : Z) : Prop :=
  match groupname with None => gid = pw_gid | Some g => group_entry ye g = (0, Some gid) end.

Lemma target_gid_ok s pw_gid groupname :
  can_report s → 0 ∉ default [] groupname →
  (∃ gid, target_gid ce ye pw_gid groupname s = Ok (gid, s) ∧ wanted_gid pw_gid groupname gid) ∨
  target_gid ce ye pw_gid groupname s = Fault Exit.
Proof.
  intros Hcan Hg. unfold target_gid, wanted_gid. destruct groupname as [g|]; [|left; by eexists].
  destruct (group_entry ye g) as [errno entry] eqn:He. destruct (Z.eqb_spec errno 0) as [->|]; cbn [negb].
  - destruct entry as [gid|]; [left; by exists gid|right]. apply sys_fatal_exits; [done|]. rewrite !not_elem_of_app. by split_and!; [no_nul| |no_nul].
  - right. apply sys_fatal_exits; [done|]. rewrite !not_elem_of_app. split; [no_nul|apply Hye].
Qed.

(** The identity of a process that gave up its privileges, and the calls that did it. *)
Definition dropped (username : list Z) (groupname : option (list Z)) s s' : Prop :=
  ∃ uid pw_gid gid, passwd ye username = (0, Some (uid, pw_gid)) ∧ wanted_gid pw_gid groupname gid ∧
    0 ≤ setgroups_ret ye ∧ 0 ≤ setgid_ret ye ∧ 0 ≤ setuid_ret ye ∧
    s' = mkSys (sprog s) (sconfig s) (sbinder s) (mkCreds uid gid [gid])
           (scalls s ++ [SysSetgroups gid; SysSetgid gid; SysSetuid uid]) (srunning s).

Lemma drop_perms_ok s username groupname :
  can_report s → 0 ∉ username → 0 ∉ default [] groupname →
  match drop_perms ce ye username groupname s with
  | Ok (_, s') => (cuid (screds s) ≠ 0 ∧ s' = s) ∨ (cuid (screds s) = 0 ∧ dropped username groupname s s')
  | Fault f => f = Exit
  end.
Proof.
  intros Hcan Hu Hg. pose proof (ye_strerror _ Hye) as Hstr.
  assert (∀ what : string, 0 ∉ bytes what → 0 ∉ bytes what ++ sys_strerror ye) as Htext by (intros; rewrite not_elem_of_app; done).
  unfold drop_perms. st_simpl. destruct (Z.eqb_spec (cuid (screds s)) 0) as [Hroot|Hroot]; cbn [negb].
  2: { rewrite ret_eq. by left. }
  destruct (passwd ye username) as [errno entry] eqn:Hpw. destruct (Z.eqb_spec errno 0) as [->|]; cbn [negb].
  2: { by rewrite sys_fatal_exits by (done || apply Htext; no_nul). }
  destruct entry as [[uid pw_gid]|].
  2: { rewrite sys_fatal_exits; [done|done|]. rewrite !not_elem_of_app. by split_and!; [no_nul| |no_nul]. }
  rewrite bind_eq. destruct (target_gid_ok s pw_gid groupname Hcan Hg) as [(gid & -> & Hgid)| ->]; [|done].
  unfold call. rewrite bind_eq, modify_eq. destruct (Z.ltb_spec (setgroups_ret ye) 0).
  { by rewrite sys_fatal_exits by (done || apply Htext; no_nul). }
  rewrite bind_eq, modify_eq, bind_eq, modify_eq. destruct (Z.ltb_spec (setgid_ret ye) 0).
  { by rewrite sys_fatal_exits by (done || apply Htext; no_nul). }
  rewrite bind_eq, modify_eq, bind_eq, modify_eq. destruct (Z.ltb_spec (setuid_ret ye) 0).
  { by rewrite sys_fatal_exits by (done || apply Htext; no_nul). }
  rewrite modify_eq. right. split; [done|]. exists uid, pw_gid, gid. split_and!; try done.
  unfold set_screds, add_call. cbn. by rewrite <- !(assoc_L (++)).
Qed.

Lemma parse_options_names opts o o' :
  Forall (λ x, 0 ∉ snd x) opts → 0 ∉ config_file o → parse_options opts o = inl o' → 0 ∉ config_file o'.
Proof.
  intros Hopts. revert o. induction Hopts as [|[opt arg] opts Harg _ IH]; intros o Ho; cbn [parse_options]; [by intros [= <-]|].
  repeat match goal with |- (if ?b then _ else _) = _ → _ => destruct b end; try done; by apply IH.
Qed.

Lemma loaded_calls {A} (m : ST (sys pcre) A) c i s :
  only_calls m → loaded ce c i s → wp m (λ _ s', loaded ce c i s') s.
Proof. intros Hm []. eapply st_wp_mono; [apply Hm|]. intros _ s' (cs & ->). by constructor. Qed.

Lemma set_limits_ok c i s n : loaded ce c i s → wp (set_limits ce ye n) (λ _ s', loaded ce c i s') s.
Proof.
  intros Hs. unfold set_limits. apply st_wp_bind. eapply st_wp_mono; [apply loaded_calls; [apply only_calls_call|done]|].
  intros u s1 Hs1. unfold when. destruct (setrlimit_ret ye <? 0); [|by apply st_wp_ret]. unfold warn.
  destruct Hs1 as [H1 H2 H3 H4 H5].
  destruct (log_message_ok ce Hce [] [] [] c _ LOG_WARNING (bytes "Failed to set file handle limit: " ++ sys_strerror ye) H2) as (g & Hg & Hc).
  { rewrite not_elem_of_app. split; [no_nul|apply Hye]. }
  unfold wp. rewrite in_world_eq, Hg. by constructor.
Qed.

Lemma start_binder_process_ok c i s : loaded ce c i s → wp (start_binder_process ce ye) (λ _ s', loaded ce c i s') s.
Proof.
  intros [H1 H2 H3 H4 H5]. unfold start_binder_process. apply st_wp_bind, st_wp_gets.
  pose proof (start_binder_clean ye (sbinder s) Hye) as Hclean. destruct (start_binder (sbinder s) (binder_start ye)) as [b evs].
  destruct (run_parent_ok ce Hce [] [] [] c s evs H2 Hclean) as (g & cs & Hrun & Hc). apply st_wp_bind.
  eapply st_wp_eq; [exact Hrun|]. apply st_wp_modify. by constructor.
Qed.

(** The state of a program whose listeners are open, but which has no connections yet. *)
Lemma started_ok c s s' b :
  loaded ce c (screds s) s →
  in_world (with_messages (clog ce)
        (init_listeners pcre_compile (chave_reuseport ce) (chave_v6only ce) (cinet_ntop ce) se (listeners c) (tables c))) s = Ok (b, s') →
  b = false → sys_ok ce c (set_sprog (mkProg (pworld (sprog s')) ∅ []) s') ∧ pconns (sprog s') = ∅ ∧ screds s' = screds s.
Proof.
  intros [Hrun Hc Hun Hm _]. rewrite in_world_eq. pose proof (co_world _ _ _ _ _ _ Hc) as Hw.
  destruct (listeners_opened pcre_compile (clog ce) se (chave_reuseport ce) (chave_v6only ce) (cinet_ntop ce) _ _ _
      (tables c) (listeners c) _ (ce_log _ Hce) (co_log _ _ _ _ _ _ Hc) Hw)
    as (b' & w & -> & Hw' & Hla & Hd & Htab); [apply Hc|set_solver|set_solver|done|].
  intros [= -> <-] ->. split; [|done]. rewrite !app_nil_r in Hw'. cbn.
  assert (∀ x l, wlisteners w !! x = Some l → 0 < lreference_count l → x ∈ listeners c) as Hin.
  { intros x l Hl Hpos. apply occurrences_pos. by rewrite <- (counted_count _ _ (ok_listeners _ _ _ _ Hw') x l Hl). }
  constructor; cbn; [done| | | |].
  - destruct Hc. constructor; try done; [by rewrite !app_nil_r|].
    by apply (sorted_laddr (pworld (sprog s))).
  - constructor; cbn; [done|by apply NoDup_nil_2| | |].
    + intros x. rewrite lookup_empty. split; [by intros ?%elem_of_nil|by intros [? ?]].
    + by intros ? ? ?%lookup_empty_Some.
    + by intros ? ? ? ?%lookup_empty_Some.
  - intros x l Hx Hl _. by apply (Htab eq_refl x).
  - intros x l Hl Hpos Hx. by destruct Hx; eapply Hin.
Qed.

(** What the program is when it enters the event loop. *)
Definition serving (i : creds) s : Prop :=
  ∃ c, sys_ok ce c s ∧ srunning s = true ∧ pconns (sprog s) = ∅ ∧
    if cuid i =? 0 then
      ∃ uid pw_gid gid, passwd ye (default (bytes "daemon") (user c)) = (0, Some (uid, pw_gid)) ∧
        wanted_gid pw_gid (group c) gid ∧ screds s = mkCreds uid gid [gid]
    else screds s = i.

Lemma start_resolver_ok s r :
  can_report s → wp (start_resolver ce ye r) (λ _ s', ∃ cs, s' = mkSys (sprog s) (sconfig s) (sbinder s) (screds s) (scalls s ++ cs) (srunning s)) s.
Proof.
  intros Hcan. unfold start_resolver, resolv_init. destruct (dns_open_ret ye <? 0).
  - unfold wp. rewrite bind_eq. unfold call. rewrite modify_eq, sys_fatal_exits; [by right|done|].
    rewrite not_elem_of_app. split; [no_nul|apply Hye].
  - apply only_calls_bind; [apply only_calls_call|]. intros _. apply only_calls_ret.
Qed.

(** Privileges are dropped after the sockets are open, and before anything is accepted. *)
Lemma enter_loop_ok c i s :
  loaded ce c i s →
  wp (failed ← in_world (with_messages (clog ce)
        (init_listeners pcre_compile (chave_reuseport ce) (chave_v6only ce) (cinet_ntop ce) se (listeners c) (tables c)));
      if failed : bool then raise Exit else
      drop_perms ce ye (default (bytes "daemon") (user c)) (group c) ≫= λ _,
      for_each (λ n, call (SysWatch n)) [SIGHUP; SIGUSR1; SIGINT; SIGTERM] ≫= λ _,
      start_resolver ce ye (resolver c) ≫= λ _,
      on_prog init_connections ≫= λ _,
      modify (set_running true) ≫= λ _,
      mret (None : option Z)) (λ r s', r = None ∧ serving i s') s.
Proof.
  intros Hs. pose proof (ld_creds _ _ _ _ Hs) as Hi. rewrite <- Hi in Hs. apply st_wp_bind. unfold wp at 1.
  destruct (in_world _ s) as [[b s1]|f] eqn:Hrun.
  2: { exfalso. revert Hrun. rewrite in_world_eq. destruct Hs as [_ Hc Hun _ _].
       destruct (listeners_opened pcre_compile (clog ce) se (chave_reuseport ce) (chave_v6only ce) (cinet_ntop ce) _ _ _
           (tables c) (listeners c) _ (ce_log _ Hce) (co_log _ _ _ _ _ _ Hc) (co_world _ _ _ _ _ _ Hc))
         as (b' & w & -> & _); [apply Hc|set_solver|set_solver|done|done]. }
  destruct b; [by right|]. destruct (started_ok c s s1 false Hs Hrun eq_refl) as (Hs1 & Hm1 & Hcr1).
  assert (can_report s1) as Hcan by exact (config_can_report _ _ _ c (set_sprog _ s1) (sk_config _ _ _ Hs1)).
  destruct (co_names _ _ _ _ _ _ (sk_config _ _ _ Hs1)) as (_ & Hu & Hg).
  apply st_wp_bind. unfold wp at 1.
  pose proof (drop_perms_ok s1 (default (bytes "daemon") (user c)) (group c) Hcan) as Hdrop.
  destruct (drop_perms ce ye _ (group c) s1) as [[[] s2]|f].
  2: { right. apply Hdrop; [|done]. destruct (user c); [done|no_nul]. }
  assert (sprog s2 = sprog s1 ∧ sconfig s2 = sconfig s1 ∧ serving i (mkSys (mkProg (pworld (sprog s1)) ∅ []) (sconfig s1) (sbinder s1) (screds s2) [] true))
    as (Hp2 & Hc2 & Hserv).
  { assert (∀ k, sys_ok ce c (mkSys (mkProg (pworld (sprog s1)) ∅ []) (sconfig s1) (sbinder s1) k [] true)) as Hany by (intros k; by destruct Hs1).
    destruct Hdrop as [[Hne ->]|[Hroot (uid & pw & gid & Hpw & Hgid & _ & _ & _ & ->)]]; [destruct (user c); [done|no_nul]|done| |]; cbn.
    - split_and!; [done..|]. exists c. split_and!; [apply Hany|done|done|]. rewrite Hcr1, Hi in Hne |- *. by rewrite (proj2 (Z.eqb_neq _ _)) by done.
    - split_and!; [done..|]. exists c. split_and!; [apply Hany|done|done|]. rewrite Hcr1, Hi in Hroot. rewrite Hroot. by exists uid, pw, gid. }
  apply st_wp_bind. eapply st_wp_mono; [apply (only_calls_bind _ _ (only_calls_call _)); intros _; cbn [for_each]; calls_solve|].
  intros _ s3 (cs3 & ->). apply st_wp_bind. eapply st_wp_mono; [apply start_resolver_ok; unfold can_report; cbn; by rewrite Hp2|].
  intros _ s4 (cs4 & ->). apply st_wp_bind. unfold wp. rewrite on_prog_eq. unfold init_connections. rewrite modify_eq.
  rewrite bind_eq, modify_eq, ret_eq. split; [done|]. unfold set_pqueue. cbn. rewrite Hp2, Hc2, Hm1.
  destruct Hserv as (c0 & [? ? ? ? ?] & ? & ? & ?). exists c0. split_and!; [|done|done|done]. by constructor.
Qed.

(** Before the configuration is read. *)
Record initial s : Prop := {
  in_world_ok : world_ok [] [] [] (pworld (sprog s));
  in_can_log : can_log (clog ce) (wlog (pworld (sprog s)));
  in_conns : pconns (sprog s) = ∅
}.

Lemma main_start_ok opts s :
  initial s → Forall (λ x, 0 ∉ snd x) opts →
  wp (main_start pcre_compile ce se ye opts)
    (λ r s', match r with None => serving (screds s) s' | Some n => n = EXIT_SUCCESS ∨ n = EXIT_FAILURE end) s.
Proof.
  intros [Hw Hcan Hm] Hopts. unfold main_start. destruct (parse_options opts default_options) as [o|n] eqn:Ho.
  2: { apply st_wp_ret. revert Ho. generalize default_options. clear. induction opts as [|[opt arg] opts IH]; intros o; cbn [parse_options]; [done|].
       repeat match goal with |- (if ?b then _ else _) = _ → _ => destruct b end; try (by apply IH); intros [= <-]; auto. }
  apply parse_options_names in Ho; [|done|no_nul].
  apply st_wp_bind. unfold wp at 1. rewrite in_world_eq. pose proof (init_config_ok ce Hce [] [] [] _ (config_file o) Hw Hcan Ho) as Hinit.
  unfold wp in Hinit. destruct (init_config ce (config_file o) (pworld (sprog s))) as [[[c|] w]|f]; [| |done].
  2: { apply st_wp_ret. by right. }
  destruct Hinit as (Hc & Hun & _ & _). apply st_wp_bind, st_wp_modify.
  assert (loaded ce c (screds s) (set_sconfig (Some c) (set_sprog (set_pworld w (sprog s)) s))) as Hs1 by by constructor.
  assert (∀ (m : ST (sys pcre) unit) (k : unit → ST (sys pcre) (option Z)) Q s', only_calls m → loaded ce c (screds s) s' →
    (∀ s'', loaded ce c (screds s) s'' → wp (k ()) Q s'') → wp (m ≫= k) Q s') as Hnext.
  { intros m k Q s' Hcalls Hs' Hk. apply st_wp_bind. eapply st_wp_mono; [by apply (loaded_calls m c (screds s))|]. intros []. apply Hk. }
  apply Hnext; [apply only_calls_call|done|]. intros s2 Hs2. apply Hnext; [apply only_calls_background|done|]. intros s3 Hs3.
  apply st_wp_bind. eapply st_wp_mono; [by apply (start_binder_process_ok c (screds s))|]. intros [] s4 Hs4.
  apply st_wp_bind. eapply st_wp_mono; [by apply (set_limits_ok c (screds s))|].
  intros [] s5 Hs5. apply Hnext; [apply only_calls_call|done|]. intros s6 Hs6.
  eapply st_wp_mono; [by apply (enter_loop_ok c (screds s))|]. by intros r s' [-> ?].
Qed.
End start.

(** * Properties *)




(** C9: privileges are given up completely and in the right order, or the program ends.  A
    process of root becomes the named user with the named group, or else the group of the
    user, and no supplementary group: the groups are set first, then the group, and the user
    last, when the process may still do all three.  If the user or the group does not exist, or
    one of the calls fails, the program ends.  Other processes stay as they are. *)
Theorem drop_perms_complete {pcre} ce ye (s : sys pcre) username groupname :
  cfg_env_ok ce → sys_env_ok ye → can_report ce s → 0 ∉ username → 0 ∉ default [] groupname →
  match drop_perms ce ye username groupname s with
  | Ok (_, s') =>
      (cuid (screds s) ≠ 0 ∧ s' = s) ∨
      (cuid (screds s) = 0 ∧ ∃ uid pw_gid gid,
         passwd ye username = (0, Some (uid, pw_gid)) ∧ wanted_gid ye pw_gid groupname gid ∧
         screds s' = mkCreds uid gid [gid] ∧ scalls s' = scalls s ++ [SysSetgroups gid; SysSetgid gid; SysSetuid uid] ∧
         sprog s' = sprog s ∧ sconfig s' = sconfig s)
  | Fault f => f = Exit
  end.
Proof.
  intros Hce Hye Hcan Hu Hg. pose proof (drop_perms_ok ce ye Hce Hye s username groupname Hcan Hu Hg) as H.
  destruct (drop_perms ce ye username groupname s) as [[u s']|f]; [|done].
  destruct H as [?|[Hroot (uid & pw & gid & ? & ? & _ & _ & _ & ->)]]; [by left|right]. split; [done|]. by exists uid, pw, gid.
Qed.


(** * Examples *)

Definition ex_sys_env : sys_env :=
  mkSysEnv true 0 (λ _, 0) 0 0 (λ _, true) 4711 true 0 (λ _, (0, Some (1, 1))) (λ _, (0, Some 2)) 0 0 0 6 (mkStartEnv (Some (7, 8)) 4712 (bytes "Error")) 4712 (bytes "Error") (λ _, ex_errors).

Lemma ex_sys_env_ok : sys_env_ok ex_sys_env.
Proof. constructor; no_nul. Qed.

Definition ex_boot : sys (list Z) := mkSys (mkProg ex_empty ∅ []) None (mkBinder (-1) (-1)) (mkCreds 0 0 [0; 4]) [] false.

Lemma ex_boot_initial : initial (ex_cfg_env ex_file) ex_boot.
Proof. constructor; [apply ex_empty_ok|apply ex_can_log|done]. Qed.

Local Abbreviation ex_main := (main_start Some (ex_cfg_env ex_file) ex_sock_env ex_sys_env []).

Definition ex_served : sys (list Z) := match ex_main ex_boot with Ok (None, s) => s | _ => ex_boot end.

Lemma ex_served_eq : ex_main ex_boot = Ok (None, ex_served).
Proof. by vm_compute. Qed.


(** A client is accepted, the connections are listed, and the program is told to stop. *)
Local Abbreviation ex_handle := (handle Some prefix_exec vector_copy (ex_cfg_env ex_file) ex_sock_env).
Local Abbreviation ex_step := (step Some prefix_exec vector_copy (ex_cfg_env ex_file) ex_sock_env).

Definition ex_accept : event := EvListener (ex_env ex_data true ex_table) true ex_accepted 1%positive 1.
Definition ex_dump : dump_file := mkDump 9 (bytes "/tmp/sniproxy-connections-abcdef") true 0 (bytes "Error").
Definition ex_usr1 : event (pcre := list Z) := EvSignal SIGUSR1 EV_SIGNAL ex_dump.
Definition ex_term : event (pcre := list Z) := EvSignal SIGTERM EV_SIGNAL ex_dump.

Definition ex_after (ev : event) (s : sys (list Z)) : sys (list Z) :=
  match ex_handle ev s with Ok (_, s') => s' | _ => s end.

Definition ex_s1 : sys (list Z) := ex_after ex_accept ex_served.
Definition ex_s2 : sys (list Z) := ex_after ex_usr1 ex_s1.
Definition ex_s3 : sys (list Z) := ex_after ex_term ex_s2.

Lemma ex_step1 : ex_step ex_served ex_s1.
Proof.
  apply (step_event _ _ _ _ _ _ ex_accept); [by vm_compute| |by vm_compute]. split.
  - destruct (wlisteners (pworld (sprog ex_served)) !! 1%positive) as [l|] eqn:Hl; [|by vm_compute in Hl].
    exists l. split; [done|]. vm_compute in Hl. injection Hl as <-. by vm_compute.
  - intros l t. destruct ex_accept_ok. by constructor.
Qed.

Lemma ex_dump_nul : 0 ∉ dump_name ex_dump ∧ 0 ∉ dump_strerror ex_dump.
Proof. split; no_nul. Qed.

Lemma ex_step2 : ex_step ex_s1 ex_s2.
Proof. apply (step_event _ _ _ _ _ _ ex_usr1); [by vm_compute|apply ex_dump_nul|by vm_compute]. Qed.

Lemma ex_step3 : ex_step ex_s2 ex_s3.
Proof. apply (step_event _ _ _ _ _ _ ex_term); [by vm_compute|apply ex_dump_nul|by vm_compute]. Qed.

Lemma ex_steps : rtc ex_step ex_served ex_s3.
Proof. exact (rtc_l _ _ _ _ ex_step1 (rtc_l _ _ _ _ ex_step2 (rtc_once _ _ ex_step3))). Qed.



Lemma ex_can_report : can_report (ex_cfg_env ex_file) ex_boot.
Proof. split; [apply ex_can_log|]. exists []. apply log_init_ok. Qed.

Lemma drop_perms_complete_witness :
  ∃ s, drop_perms (ex_cfg_env ex_file) ex_sys_env (bytes "daemon") (Some (bytes "nogroup")) ex_boot = Ok ((), s) ∧
    screds s = mkCreds 1 2 [2] ∧ scalls s = [SysSetgroups 2; SysSetgid 2; SysSetuid 1].
Proof.
  pose proof (drop_perms_complete (ex_cfg_env ex_file) ex_sys_env ex_boot (bytes "daemon") (Some (bytes "nogroup"))
    (ex_cfg_env_ok ex_file) ex_sys_env_ok ex_can_report ltac:(no_nul) ltac:(no_nul)) as H.
  destruct (drop_perms _ _ _ _ _) as [[[] s]|f] eqn:Heq; [|by vm_compute in Heq].
  exists s. split; [done|]. destruct H as [[Hne _]|[_ (uid & pw & gid & Hpw & Hgid & Hcr & Hcalls & _)]]; [done|].
  injection Hpw as <- <-. injection Hgid as <-. by rewrite Hcr, Hcalls.
Defined.

(** A client asks for a host whose server must be resolved, and the configuration is read again
    before the answer. *)
Definition ex_file3 : list Z :=
  line "listener 192000002010:80 {" ++ line "proto http" ++ line "table hosts" ++ line "}" ++
  line "table hosts {" ++ line "example.com origin.example:8080" ++ line "}".

Local Abbreviation ex_main3 := (main_start Some (ex_cfg_env ex_file3) ex_sock_env ex_sys_env []).
Local Abbreviation ex_handle3 := (handle Some prefix_exec vector_copy (ex_cfg_env ex_file3) ex_sock_env).
Local Abbreviation ex_step3' := (step Some prefix_exec vector_copy (ex_cfg_env ex_file3) ex_sock_env).

Definition ex_request : recv_result :=
  Received (bytes "GET / HTTP/1.1" ++ [CR; LF] ++ bytes "Host: example.com" ++ [CR; LF; CR; LF]).
Definition ex_read : event := EvConnection (ex_env ex_request true ex_table) 1%positive true 1.

Definition ex_q0 : sys (list Z) := match ex_main3 ex_boot with Ok (None, s) => s | _ => ex_boot end.
Definition ex_q1 : sys (list Z) := match ex_handle3 ex_accept ex_q0 with Ok (_, s) => s | _ => ex_boot end.
Definition ex_q2 : sys (list Z) := match ex_handle3 ex_read ex_q1 with Ok (_, s) => s | _ => ex_boot end.
Definition ex_qc : Config := default (empty_config None) (sconfig ex_q2).

Lemma ex_q0_eq : ex_main3 ex_boot = Ok (None, ex_q0).
Proof. by vm_compute. Qed.

Lemma ex_boot_initial3 : initial (ex_cfg_env ex_file3) ex_boot.
Proof. constructor; [apply ex_empty_ok|apply ex_can_log|done]. Qed.

Lemma ex_q1_step : ex_step3' ex_q0 ex_q1.
Proof.
  apply (step_event _ _ _ _ _ _ ex_accept); [by vm_compute| |by vm_compute]. split.
  - destruct (wlisteners (pworld (sprog ex_q0)) !! 1%positive) as [l|] eqn:Hl; [|by vm_compute in Hl].
    exists l. split; [done|]. vm_compute in Hl. injection Hl as <-. by vm_compute.
  - intros l t. destruct ex_accept_ok. by constructor.
Qed.

(** The only route of the file. *)
Definition ex_route : Address := mkAddress HOSTNAME 14 8080 (bytes "origin.example" ++ [0]).

Lemma ex_route_usable : usable ex_route ∧ Zlen (adata ex_route) < 2 ^ 32.
Proof. split; [|done]. split; [|by left]. apply (wf_hostname (bytes "origin.example") 8080); [|by vm_compute|done].
  split; [by vm_compute|]. apply (labels_dot (bytes "origin") (bytes "example"));
    [|apply labels_last]; apply (bool_decide_unpack _); by vm_compute.
Qed.

Lemma ex_local_wf : address_wf (mkAddress SOCKADDR 16 80 [2; 0; 0; 80; 192; 0; 2; 10; 0; 0; 0; 0; 0; 0; 0; 0]).
Proof.
  pose proof (wf_in 80 [192; 0; 2; 10; 0; 0; 0; 0; 0; 0; 0; 0] eq_refl ltac:(unfold is_port; lia)) as H. vm_compute in H. exact H.
Qed.

Definition ex_q1_entry : conn_entry :=
  default (mkEntry ex_conn 1%positive [] OwnAddress false) (pconns (sprog ex_q1) !! 1%positive).

Lemma ex_q1_entry_eq : pconns (sprog ex_q1) !! 1%positive = Some ex_q1_entry.
Proof. by vm_compute. Qed.

Lemma ex_q1_transfers l t : transfers_ok (at_listener (ex_env ex_request true ex_table) l t) true (econn ex_q1_entry).
Proof.
  split; cbn [at_listener recv_ret_of send_ret_of ex_env ex_request].
  - by vm_compute.
  - by repeat constructor.
  - by vm_compute.
  - intros _. unfold payload_ok. cbn [at_listener Connection.listener]. split; [left; by vm_compute|right].
    destruct (protocol l); by vm_compute.
Qed.

Lemma ex_q1_callback :
  at_routes (sprog ex_q1) 1%positive (callback_env prefix_exec vector_copy fixed_pton (ex_env ex_request true ex_table)).
Proof.
  intros l tx t Hl Htx Ht. vm_compute in Hl. injection Hl as <-. injection Htx as <-. vm_compute in Ht. injection Ht as <-.
  constructor; [apply ex_alloc| |done].
  intros result h _. eapply lookup_fixed_routes; [intros k; reflexivity|reflexivity|exact ex_local_wf|intros a Ha; discriminate Ha|].
  constructor; [|constructor]. split; [discriminate|]. intros a [= <-]. exact ex_route_usable.
Qed.

Lemma ex_q1_listener : elistener ex_q1_entry = 1%positive.
Proof. by vm_compute. Qed.

Lemma ex_q2_step : ex_step3' ex_q1 ex_q2.
Proof.
  apply (step_event _ _ _ _ _ _ ex_read); [by vm_compute| |by vm_compute].
  exists ex_q1_entry. split; [exact ex_q1_entry_eq|]. split; [by vm_compute|]. rewrite ex_q1_listener.
  intros l tx t Hl Htx Ht. split; [exact (ex_q1_callback l tx t Hl Htx Ht)|apply ex_q1_transfers].
Qed.

Lemma ex_q_steps : rtc ex_step3' ex_q0 ex_q2.
Proof. exact (rtc_l _ _ _ _ ex_q1_step (rtc_once _ _ ex_q2_step)). Qed.

Lemma ex_q2_ok : sys_ok (ex_cfg_env ex_file3) ex_qc ex_q2.
Proof.
  pose proof (main_start_ok Some (ex_cfg_env ex_file3) ex_sock_env ex_sys_env (ex_cfg_env_ok ex_file3) ex_sys_env_ok [] ex_boot
    ex_boot_initial3 (Forall_nil_2 _)) as H. destruct (st_wp_Ok _ _ _ _ _ H ex_q0_eq) as (c & Hs & _).
  destruct (steps_ok Some prefix_exec vector_copy (ex_cfg_env ex_file3) ex_sock_env (ex_cfg_env_ok ex_file3) c ex_q0 ex_q2 Hs ex_q_steps)
    as [[c2 Hs2] _].
  unfold ex_qc. pose proof (sk_running _ _ _ Hs2) as Hc. rewrite Hc. exact Hs2.
Qed.

Definition ex_q2_entry : conn_entry := default ex_q1_entry (pconns (sprog ex_q2) !! 1%positive).

Lemma ex_q2_entry_eq : pconns (sprog ex_q2) !! 1%positive = Some ex_q2_entry.
Proof. by vm_compute. Qed.

Definition ex_reopened : LogState :=
  match reopen_loggers (ex_log_env true) (wlog (pworld (sprog ex_q2))) with Ok (_, g) => g | _ => log_init end.
Definition ex_q3 : Config * world (list Z) :=
  match reload_config (ex_cfg_env ex_file3) Some ex_sock_env ex_qc (set_wlog ex_reopened (pworld (sprog ex_q2))) with
  | Ok (c, _, w) => (c, w)
  | _ => (ex_qc, pworld (sprog ex_q2))
  end.

Lemma ex_reopened_eq : reopen_loggers (ex_log_env true) (wlog (pworld (sprog ex_q2))) = Ok ((), ex_reopened).
Proof. by vm_compute. Qed.
Lemma ex_q3_eq :
  reload_config (ex_cfg_env ex_file3) Some ex_sock_env ex_qc (set_wlog ex_reopened (pworld (sprog ex_q2))) =
    Ok ((fst ex_q3, true), snd ex_q3).
Proof. by vm_compute. Qed.
Lemma ex_q2_resolving : state (econn ex_q2_entry) = RESOLVING.
Proof. by vm_compute. Qed.
Lemma ex_q2_borrowed :
  match eowner ex_q2_entry with
  | OwnAddress => False
  | TableAddress tx => tx ∈ tables (fst ex_q3)
  | ListenerAddress => elistener ex_q2_entry ∈ listeners (fst ex_q3)
  end.
Proof.
  assert (eowner ex_q2_entry = TableAddress 1%positive) as -> by by vm_compute. apply (bool_decide_unpack _). by vm_compute.
Qed.

